(** * The room core of liveblocks-core: history, ledger and flush pipeline

    A shallow embedding of the state machine built by [makeStateMachine] in
    packages/liveblocks-core/src/room.ts.  The machine's context is a record,
    every function of the machine is a state-and-exception computation over
    that record, and the CRDT nodes the machine delegates to are an interface
    (a type class), as they are for room.ts itself.

    Embedded: the pool, history (undo, redo, batches, paused history), the
    ledger of unacknowledged ops, [applyOps], the outbound flush pipeline,
    storage status, the storage messages of [onMessage] and, in a second
    part, the connection state machine with its timers and the classic
    [subscribe].  Left out: the others and their messages, and the stack
    traces that non-production builds keep in [context.opStackTraces].

    Numbers are integers: a [Z] stands for the double that holds it, which
    is exact for the safe integers, below 2^53 in absolute value. *)

From Stdlib Require Import ZArith Lia List.
From stdpp Require Import base option list strings gmap pretty.
Local Open Scope Z_scope.

(** ** JavaScript [Map]: a finite map that remembers insertion order

    [context.unacknowledgedOps] and the [storageUpdates] accumulators are
    [Map<string, _>]: [values()] enumerates in insertion order, [set] on an
    existing key keeps the key's position, [delete] reports whether the key
    was there. *)
Module JsMap.

Definition t (V : Type) : Type := list (string * V).

Definition empty {V : Type} : t V := [].

Fixpoint get {V : Type} (k : string) (m : t V) : option V :=
  match m with
  | [] => None
  | (k', v) :: m' => if String.eqb k' k then Some v else get k m'
  end.

Definition has {V : Type} (k : string) (m : t V) : bool :=
  match get k m with Some _ => true | None => false end.

Fixpoint set {V : Type} (k : string) (v : V) (m : t V) : t V :=
  match m with
  | [] => [(k, v)]
  | (k', v') :: m' =>
      if String.eqb k' k then (k, v) :: m' else (k', v') :: set k v m'
  end.

Definition delete {V : Type} (k : string) (m : t V) : t V :=
  List.filter (fun kv => negb (String.eqb (fst kv) k)) m.

Definition values {V : Type} (m : t V) : list V := map snd m.

Definition keys {V : Type} (m : t V) : list string := map fst m.

Definition size {V : Type} (m : t V) : nat := length m.

(** [new Map(entries)]: later entries win, first insertion fixes the place. *)
Definition of_entries {V : Type} (l : list (string * V)) : t V :=
  fold_left (fun m kv => set (fst kv) (snd kv) m) l empty.

End JsMap.

(** ** Protocol data *)

(** [lib/Json]: JSON values (presence fields, event payloads, op payloads). *)
#[warnings="-register-all"]
Inductive Json : Type :=
  | JNull
  | JBool (b : bool)
  | JNum (n : Z)
  | JStr (s : string)
  | JArr (items : list Json)
  | JObj (fields : list (string * Json)).

(** A presence record ([TPresence extends JsonObject]). *)
Abbreviation Presence := (gmap string Json).

(** [Partial<TPresence>] as JavaScript sees it: a key may be present and hold
    [undefined] ([None]). *)
Abbreviation PresencePatch := (gmap string (option Json)).

(** [protocol/Op]: the op codes room.ts dispatches on.  [ACK] stands for the
    server's echo that [isAckOp] recognises. *)
Inductive OpCode : Type :=
  | SET_PARENT_KEY
  | CREATE_LIST
  | UPDATE_OBJECT
  | CREATE_OBJECT
  | DELETE_CRDT
  | DELETE_OBJECT_KEY
  | CREATE_MAP
  | CREATE_REGISTER
  | ACK.

(** An op as the JavaScript object it is: a [type] tag and the fields room.ts
    reads ([opId], [id], [parentId], [parentKey]); the rest travels as
    [op_data]. *)
Record Op : Type := mkOp {
  op_type : OpCode;
  opId : option string;
  op_id : string;
  parentId : option string;
  parentKey : option string;
  op_data : Json
}.

(** [HistoryOp<TPresence>]: an op, or [{ type: "presence", data }]. *)
Inductive HistoryOp : Type :=
  | StorageOp (op : Op)
  | PresenceOp (data : PresencePatch).

(** [crdts/AbstractCrdt.OpSource]. *)
Inductive OpSource : Type := UNDOREDO_RECONNECT | REMOTE | ACK_SOURCE.

(** [protocol/ClientMsg]: outbound messages. *)
Inductive ClientMsg : Type :=
  | UPDATE_PRESENCE (targetActor : option Z) (data : PresencePatch)
  | BROADCAST_EVENT (event : Json)
  | FETCH_STORAGE
  | UPDATE_STORAGE (ops : list Op).

(** [protocol/SerializedCrdt]: an item of INITIAL_STORAGE_STATE. *)
Inductive CrdtType : Type := OBJECT | LIST | MAP | REGISTER.

Record SerializedCrdt : Type := mkCrdt {
  crdt_type : CrdtType;
  crdt_parentId : option string;
  crdt_parentKey : option string;
  crdt_data : Json
}.

Abbreviation IdTuple := (string * SerializedCrdt)%type.

(** [Connection] (room.ts 71-95). *)
Record ConnectionInfo : Type := mkConnectionInfo {
  conn_id : Z;
  conn_userId : option string;
  conn_userInfo : option Json;
  conn_isReadOnly : bool
}.

Inductive Connection : Type :=
  | Closed
  | Authenticating
  | Connecting (info : ConnectionInfo)
  | Open (info : ConnectionInfo)
  | Unavailable
  | Failed.

(** [StorageStatus] (room.ts 99-107). *)
Inductive StorageStatus : Type :=
  | NotLoaded
  | Loading
  | Synchronizing
  | Synchronized.

(** [WebSocket.readyState]. *)
Inductive ReadyState : Type := CONNECTING | OPEN | CLOSING | CLOSED.

(** The promise behind [getStorage()]. *)
Inductive PromiseState : Type := Pending | Resolved.

Abbreviation TimeoutID := nat.

(** ** The CRDT nodes, as room.ts sees them

    room.ts imports the live nodes ([crdts/*]) and only uses the surface
    below: looking a node up in [context.nodes], asking a node to apply an
    op, attach a child or move a child, (de)serialising, diffing two trees and
    merging two storage updates.  All of them work on [context.nodes] alone. *)
Inductive ApplyResult (U : Type) : Type :=
  | NotModified
  | Modified (modified : U) (reverse : list Op).
Arguments NotModified {U}.
Arguments Modified {U} modified reverse.

Class LiveNodes : Type := {
  (** the contents of [context.nodes] *)
  Store : Type;
  (** a reference to a live node *)
  LiveNode : Type;
  (** values that can be stored, [Lson] *)
  Lson : Type;
  (** [StorageUpdate], what observers of a node receive *)
  StorageUpdate : Type;
  emptyStore : Store;
  (** [context.nodes.get(id)] *)
  getNode : Store -> string -> option LiveNode;
  (** [update.node._id] *)
  updatedNodeId : StorageUpdate -> option string;
  (** [node._apply(op, isLocal)] *)
  node_apply : LiveNode -> Op -> bool -> Store -> Store * ApplyResult StorageUpdate;
  (** [node.parent.node] when [node.parent.type === "HasParent"] and the
      parent is a live list *)
  listParent : Store -> LiveNode -> option LiveNode;
  (** [list._setChildKey(asPos(parentKey), node, source)] *)
  list_setChildKey : LiveNode -> option string -> LiveNode -> OpSource -> Store ->
                     Store * ApplyResult StorageUpdate;
  (** [parentNode._attachChild(op, source)] *)
  node_attachChild : LiveNode -> Op -> OpSource -> Store ->
                     Store * ApplyResult StorageUpdate;
  (** [mergeStorageUpdates(first, second)] *)
  mergeStorageUpdates : option StorageUpdate -> StorageUpdate -> StorageUpdate;
  (** [LiveObject._deserialize(root, parentToChildren, pool)] *)
  deserializeRoot : IdTuple -> JsMap.t (list IdTuple) -> Store -> Store * LiveNode;
  (** [context.nodes.forEach((node, id) => currentItems.set(id, node._serialize()))] *)
  serializeNodes : Store -> JsMap.t SerializedCrdt;
  (** [getTreesDiffOperations(currentItems, newItems)] *)
  getTreesDiffOperations : JsMap.t SerializedCrdt -> JsMap.t SerializedCrdt -> list Op;
  (** [root.get(key)] *)
  liveObject_get : Store -> LiveNode -> string -> option Lson
}.

(** ** The machine's context *)

(** What the event hub hands to subscribers; the embedding records it. *)
Inductive RoomEvent `{LiveNodes} : Type :=
  | StorageEvent (updates : list StorageUpdate)
  | MeEvent (presence : Presence)
  | HistoryEvent (canUndo canRedo : bool)
  | StorageStatusEvent (status : StorageStatus)
  | StorageDidLoadEvent.

(** Everything outside the machine that its functions touch: the wall clock
    read by [Date.now()], the pending [setTimeout(tryFlushing, delay)] timers,
    the frames handed to [effects.send], the notifications of the event hub,
    and a trace of the calls of [applyOp] with the source each op got. *)
Record World `{LiveNodes} : Type := mkWorld {
  now : Z;
  timers : list (TimeoutID * Z);
  nextTimeoutID : TimeoutID;
  wire : list (list ClientMsg);
  emitted : list RoomEvent;
  applied : list (Op * OpSource)
}.

Inductive PresenceKind : Type := partial | full.

Record BufferedPresence : Type := mkBufferedPresence {
  kind : PresenceKind;
  data : PresencePatch
}.

(** [context.buffer] (room.ts 694-703). *)
Record Buffer : Type := mkBuffer {
  buffer_me : option BufferedPresence;
  buffer_messages : list ClientMsg;
  buffer_storageOperations : list Op
}.

(** [context.activeBatch] (room.ts 738-746); [updates.others] is always the
    empty array. *)
Record ActiveBatch `{LiveNodes} : Type := mkActiveBatch {
  ops : list Op;
  reverseOps : list HistoryOp;
  updates_storageUpdates : JsMap.t StorageUpdate;
  updates_presence : bool
}.

(** [MachineContext] (room.ts 681-755), the fields the embedded functions
    use, with the closure variables [_getInitialStatePromise] and
    [_lastStorageStatus], [config.throttleDelay] and the world. *)
Record MachineContext `{LiveNodes} : Type := mkContext {
  lastConnectionId : option Z;
  socket : option ReadyState;
  lastFlushTime : Z;
  buffer : Buffer;
  timeoutHandles_flush : option TimeoutID;
  connection : Connection;
  me : Presence;
  initialStorage : option (list (string * Lson));
  clock : Z;
  opClock : Z;
  nodes : Store;
  root : option LiveNode;
  undoStack : list (list HistoryOp);
  redoStack : list (list HistoryOp);
  pausedHistory : option (list HistoryOp);
  activeBatch : option ActiveBatch;
  unacknowledgedOps : JsMap.t Op;
  getInitialStatePromise : option PromiseState;
  lastStorageStatus : StorageStatus;
  throttleDelay : Z;
  world : World
}.

(** *** Field updates *)
Section Setters.
Context `{LiveNodes}.

Definition set_now (v : Z) (c : World) : World :=
  {| now := v; timers := timers c; nextTimeoutID := nextTimeoutID c; wire := wire c; emitted := emitted c; applied := applied c |}.
Definition set_timers (v : list (TimeoutID * Z)) (c : World) : World :=
  {| now := now c; timers := v; nextTimeoutID := nextTimeoutID c; wire := wire c; emitted := emitted c; applied := applied c |}.
Definition set_nextTimeoutID (v : TimeoutID) (c : World) : World :=
  {| now := now c; timers := timers c; nextTimeoutID := v; wire := wire c; emitted := emitted c; applied := applied c |}.
Definition set_wire (v : list (list ClientMsg)) (c : World) : World :=
  {| now := now c; timers := timers c; nextTimeoutID := nextTimeoutID c; wire := v; emitted := emitted c; applied := applied c |}.
Definition set_emitted (v : list RoomEvent) (c : World) : World :=
  {| now := now c; timers := timers c; nextTimeoutID := nextTimeoutID c; wire := wire c; emitted := v; applied := applied c |}.
Definition set_applied (v : list (Op * OpSource)) (c : World) : World :=
  {| now := now c; timers := timers c; nextTimeoutID := nextTimeoutID c; wire := wire c; emitted := emitted c; applied := v |}.
Definition set_buffer_me (v : option BufferedPresence) (c : Buffer) : Buffer :=
  {| buffer_me := v; buffer_messages := buffer_messages c; buffer_storageOperations := buffer_storageOperations c |}.
Definition set_buffer_messages (v : list ClientMsg) (c : Buffer) : Buffer :=
  {| buffer_me := buffer_me c; buffer_messages := v; buffer_storageOperations := buffer_storageOperations c |}.
Definition set_buffer_storageOperations (v : list Op) (c : Buffer) : Buffer :=
  {| buffer_me := buffer_me c; buffer_messages := buffer_messages c; buffer_storageOperations := v |}.
Definition set_lastConnectionId (v : option Z) (c : MachineContext) : MachineContext :=
  {| lastConnectionId := v; socket := socket c; lastFlushTime := lastFlushTime c; buffer := buffer c; timeoutHandles_flush := timeoutHandles_flush c; connection := connection c; me := me c; initialStorage := initialStorage c; clock := clock c; opClock := opClock c; nodes := nodes c; root := root c; undoStack := undoStack c; redoStack := redoStack c; pausedHistory := pausedHistory c; activeBatch := activeBatch c; unacknowledgedOps := unacknowledgedOps c; getInitialStatePromise := getInitialStatePromise c; lastStorageStatus := lastStorageStatus c; throttleDelay := throttleDelay c; world := world c |}.
Definition set_socket (v : option ReadyState) (c : MachineContext) : MachineContext :=
  {| lastConnectionId := lastConnectionId c; socket := v; lastFlushTime := lastFlushTime c; buffer := buffer c; timeoutHandles_flush := timeoutHandles_flush c; connection := connection c; me := me c; initialStorage := initialStorage c; clock := clock c; opClock := opClock c; nodes := nodes c; root := root c; undoStack := undoStack c; redoStack := redoStack c; pausedHistory := pausedHistory c; activeBatch := activeBatch c; unacknowledgedOps := unacknowledgedOps c; getInitialStatePromise := getInitialStatePromise c; lastStorageStatus := lastStorageStatus c; throttleDelay := throttleDelay c; world := world c |}.
Definition set_lastFlushTime (v : Z) (c : MachineContext) : MachineContext :=
  {| lastConnectionId := lastConnectionId c; socket := socket c; lastFlushTime := v; buffer := buffer c; timeoutHandles_flush := timeoutHandles_flush c; connection := connection c; me := me c; initialStorage := initialStorage c; clock := clock c; opClock := opClock c; nodes := nodes c; root := root c; undoStack := undoStack c; redoStack := redoStack c; pausedHistory := pausedHistory c; activeBatch := activeBatch c; unacknowledgedOps := unacknowledgedOps c; getInitialStatePromise := getInitialStatePromise c; lastStorageStatus := lastStorageStatus c; throttleDelay := throttleDelay c; world := world c |}.
Definition set_buffer (v : Buffer) (c : MachineContext) : MachineContext :=
  {| lastConnectionId := lastConnectionId c; socket := socket c; lastFlushTime := lastFlushTime c; buffer := v; timeoutHandles_flush := timeoutHandles_flush c; connection := connection c; me := me c; initialStorage := initialStorage c; clock := clock c; opClock := opClock c; nodes := nodes c; root := root c; undoStack := undoStack c; redoStack := redoStack c; pausedHistory := pausedHistory c; activeBatch := activeBatch c; unacknowledgedOps := unacknowledgedOps c; getInitialStatePromise := getInitialStatePromise c; lastStorageStatus := lastStorageStatus c; throttleDelay := throttleDelay c; world := world c |}.
Definition set_timeoutHandles_flush (v : option TimeoutID) (c : MachineContext) : MachineContext :=
  {| lastConnectionId := lastConnectionId c; socket := socket c; lastFlushTime := lastFlushTime c; buffer := buffer c; timeoutHandles_flush := v; connection := connection c; me := me c; initialStorage := initialStorage c; clock := clock c; opClock := opClock c; nodes := nodes c; root := root c; undoStack := undoStack c; redoStack := redoStack c; pausedHistory := pausedHistory c; activeBatch := activeBatch c; unacknowledgedOps := unacknowledgedOps c; getInitialStatePromise := getInitialStatePromise c; lastStorageStatus := lastStorageStatus c; throttleDelay := throttleDelay c; world := world c |}.
Definition set_connection (v : Connection) (c : MachineContext) : MachineContext :=
  {| lastConnectionId := lastConnectionId c; socket := socket c; lastFlushTime := lastFlushTime c; buffer := buffer c; timeoutHandles_flush := timeoutHandles_flush c; connection := v; me := me c; initialStorage := initialStorage c; clock := clock c; opClock := opClock c; nodes := nodes c; root := root c; undoStack := undoStack c; redoStack := redoStack c; pausedHistory := pausedHistory c; activeBatch := activeBatch c; unacknowledgedOps := unacknowledgedOps c; getInitialStatePromise := getInitialStatePromise c; lastStorageStatus := lastStorageStatus c; throttleDelay := throttleDelay c; world := world c |}.
Definition set_me (v : Presence) (c : MachineContext) : MachineContext :=
  {| lastConnectionId := lastConnectionId c; socket := socket c; lastFlushTime := lastFlushTime c; buffer := buffer c; timeoutHandles_flush := timeoutHandles_flush c; connection := connection c; me := v; initialStorage := initialStorage c; clock := clock c; opClock := opClock c; nodes := nodes c; root := root c; undoStack := undoStack c; redoStack := redoStack c; pausedHistory := pausedHistory c; activeBatch := activeBatch c; unacknowledgedOps := unacknowledgedOps c; getInitialStatePromise := getInitialStatePromise c; lastStorageStatus := lastStorageStatus c; throttleDelay := throttleDelay c; world := world c |}.
Definition set_initialStorage (v : option (list (string * Lson))) (c : MachineContext) : MachineContext :=
  {| lastConnectionId := lastConnectionId c; socket := socket c; lastFlushTime := lastFlushTime c; buffer := buffer c; timeoutHandles_flush := timeoutHandles_flush c; connection := connection c; me := me c; initialStorage := v; clock := clock c; opClock := opClock c; nodes := nodes c; root := root c; undoStack := undoStack c; redoStack := redoStack c; pausedHistory := pausedHistory c; activeBatch := activeBatch c; unacknowledgedOps := unacknowledgedOps c; getInitialStatePromise := getInitialStatePromise c; lastStorageStatus := lastStorageStatus c; throttleDelay := throttleDelay c; world := world c |}.
Definition set_clock (v : Z) (c : MachineContext) : MachineContext :=
  {| lastConnectionId := lastConnectionId c; socket := socket c; lastFlushTime := lastFlushTime c; buffer := buffer c; timeoutHandles_flush := timeoutHandles_flush c; connection := connection c; me := me c; initialStorage := initialStorage c; clock := v; opClock := opClock c; nodes := nodes c; root := root c; undoStack := undoStack c; redoStack := redoStack c; pausedHistory := pausedHistory c; activeBatch := activeBatch c; unacknowledgedOps := unacknowledgedOps c; getInitialStatePromise := getInitialStatePromise c; lastStorageStatus := lastStorageStatus c; throttleDelay := throttleDelay c; world := world c |}.
Definition set_opClock (v : Z) (c : MachineContext) : MachineContext :=
  {| lastConnectionId := lastConnectionId c; socket := socket c; lastFlushTime := lastFlushTime c; buffer := buffer c; timeoutHandles_flush := timeoutHandles_flush c; connection := connection c; me := me c; initialStorage := initialStorage c; clock := clock c; opClock := v; nodes := nodes c; root := root c; undoStack := undoStack c; redoStack := redoStack c; pausedHistory := pausedHistory c; activeBatch := activeBatch c; unacknowledgedOps := unacknowledgedOps c; getInitialStatePromise := getInitialStatePromise c; lastStorageStatus := lastStorageStatus c; throttleDelay := throttleDelay c; world := world c |}.
Definition set_nodes (v : Store) (c : MachineContext) : MachineContext :=
  {| lastConnectionId := lastConnectionId c; socket := socket c; lastFlushTime := lastFlushTime c; buffer := buffer c; timeoutHandles_flush := timeoutHandles_flush c; connection := connection c; me := me c; initialStorage := initialStorage c; clock := clock c; opClock := opClock c; nodes := v; root := root c; undoStack := undoStack c; redoStack := redoStack c; pausedHistory := pausedHistory c; activeBatch := activeBatch c; unacknowledgedOps := unacknowledgedOps c; getInitialStatePromise := getInitialStatePromise c; lastStorageStatus := lastStorageStatus c; throttleDelay := throttleDelay c; world := world c |}.
Definition set_root (v : option LiveNode) (c : MachineContext) : MachineContext :=
  {| lastConnectionId := lastConnectionId c; socket := socket c; lastFlushTime := lastFlushTime c; buffer := buffer c; timeoutHandles_flush := timeoutHandles_flush c; connection := connection c; me := me c; initialStorage := initialStorage c; clock := clock c; opClock := opClock c; nodes := nodes c; root := v; undoStack := undoStack c; redoStack := redoStack c; pausedHistory := pausedHistory c; activeBatch := activeBatch c; unacknowledgedOps := unacknowledgedOps c; getInitialStatePromise := getInitialStatePromise c; lastStorageStatus := lastStorageStatus c; throttleDelay := throttleDelay c; world := world c |}.
Definition set_undoStack (v : list (list HistoryOp)) (c : MachineContext) : MachineContext :=
  {| lastConnectionId := lastConnectionId c; socket := socket c; lastFlushTime := lastFlushTime c; buffer := buffer c; timeoutHandles_flush := timeoutHandles_flush c; connection := connection c; me := me c; initialStorage := initialStorage c; clock := clock c; opClock := opClock c; nodes := nodes c; root := root c; undoStack := v; redoStack := redoStack c; pausedHistory := pausedHistory c; activeBatch := activeBatch c; unacknowledgedOps := unacknowledgedOps c; getInitialStatePromise := getInitialStatePromise c; lastStorageStatus := lastStorageStatus c; throttleDelay := throttleDelay c; world := world c |}.
Definition set_redoStack (v : list (list HistoryOp)) (c : MachineContext) : MachineContext :=
  {| lastConnectionId := lastConnectionId c; socket := socket c; lastFlushTime := lastFlushTime c; buffer := buffer c; timeoutHandles_flush := timeoutHandles_flush c; connection := connection c; me := me c; initialStorage := initialStorage c; clock := clock c; opClock := opClock c; nodes := nodes c; root := root c; undoStack := undoStack c; redoStack := v; pausedHistory := pausedHistory c; activeBatch := activeBatch c; unacknowledgedOps := unacknowledgedOps c; getInitialStatePromise := getInitialStatePromise c; lastStorageStatus := lastStorageStatus c; throttleDelay := throttleDelay c; world := world c |}.
Definition set_pausedHistory (v : option (list HistoryOp)) (c : MachineContext) : MachineContext :=
  {| lastConnectionId := lastConnectionId c; socket := socket c; lastFlushTime := lastFlushTime c; buffer := buffer c; timeoutHandles_flush := timeoutHandles_flush c; connection := connection c; me := me c; initialStorage := initialStorage c; clock := clock c; opClock := opClock c; nodes := nodes c; root := root c; undoStack := undoStack c; redoStack := redoStack c; pausedHistory := v; activeBatch := activeBatch c; unacknowledgedOps := unacknowledgedOps c; getInitialStatePromise := getInitialStatePromise c; lastStorageStatus := lastStorageStatus c; throttleDelay := throttleDelay c; world := world c |}.
Definition set_activeBatch (v : option ActiveBatch) (c : MachineContext) : MachineContext :=
  {| lastConnectionId := lastConnectionId c; socket := socket c; lastFlushTime := lastFlushTime c; buffer := buffer c; timeoutHandles_flush := timeoutHandles_flush c; connection := connection c; me := me c; initialStorage := initialStorage c; clock := clock c; opClock := opClock c; nodes := nodes c; root := root c; undoStack := undoStack c; redoStack := redoStack c; pausedHistory := pausedHistory c; activeBatch := v; unacknowledgedOps := unacknowledgedOps c; getInitialStatePromise := getInitialStatePromise c; lastStorageStatus := lastStorageStatus c; throttleDelay := throttleDelay c; world := world c |}.
Definition set_unacknowledgedOps (v : JsMap.t Op) (c : MachineContext) : MachineContext :=
  {| lastConnectionId := lastConnectionId c; socket := socket c; lastFlushTime := lastFlushTime c; buffer := buffer c; timeoutHandles_flush := timeoutHandles_flush c; connection := connection c; me := me c; initialStorage := initialStorage c; clock := clock c; opClock := opClock c; nodes := nodes c; root := root c; undoStack := undoStack c; redoStack := redoStack c; pausedHistory := pausedHistory c; activeBatch := activeBatch c; unacknowledgedOps := v; getInitialStatePromise := getInitialStatePromise c; lastStorageStatus := lastStorageStatus c; throttleDelay := throttleDelay c; world := world c |}.
Definition set_getInitialStatePromise (v : option PromiseState) (c : MachineContext) : MachineContext :=
  {| lastConnectionId := lastConnectionId c; socket := socket c; lastFlushTime := lastFlushTime c; buffer := buffer c; timeoutHandles_flush := timeoutHandles_flush c; connection := connection c; me := me c; initialStorage := initialStorage c; clock := clock c; opClock := opClock c; nodes := nodes c; root := root c; undoStack := undoStack c; redoStack := redoStack c; pausedHistory := pausedHistory c; activeBatch := activeBatch c; unacknowledgedOps := unacknowledgedOps c; getInitialStatePromise := v; lastStorageStatus := lastStorageStatus c; throttleDelay := throttleDelay c; world := world c |}.
Definition set_lastStorageStatus (v : StorageStatus) (c : MachineContext) : MachineContext :=
  {| lastConnectionId := lastConnectionId c; socket := socket c; lastFlushTime := lastFlushTime c; buffer := buffer c; timeoutHandles_flush := timeoutHandles_flush c; connection := connection c; me := me c; initialStorage := initialStorage c; clock := clock c; opClock := opClock c; nodes := nodes c; root := root c; undoStack := undoStack c; redoStack := redoStack c; pausedHistory := pausedHistory c; activeBatch := activeBatch c; unacknowledgedOps := unacknowledgedOps c; getInitialStatePromise := getInitialStatePromise c; lastStorageStatus := v; throttleDelay := throttleDelay c; world := world c |}.
Definition set_throttleDelay (v : Z) (c : MachineContext) : MachineContext :=
  {| lastConnectionId := lastConnectionId c; socket := socket c; lastFlushTime := lastFlushTime c; buffer := buffer c; timeoutHandles_flush := timeoutHandles_flush c; connection := connection c; me := me c; initialStorage := initialStorage c; clock := clock c; opClock := opClock c; nodes := nodes c; root := root c; undoStack := undoStack c; redoStack := redoStack c; pausedHistory := pausedHistory c; activeBatch := activeBatch c; unacknowledgedOps := unacknowledgedOps c; getInitialStatePromise := getInitialStatePromise c; lastStorageStatus := lastStorageStatus c; throttleDelay := v; world := world c |}.
Definition set_world (v : World) (c : MachineContext) : MachineContext :=
  {| lastConnectionId := lastConnectionId c; socket := socket c; lastFlushTime := lastFlushTime c; buffer := buffer c; timeoutHandles_flush := timeoutHandles_flush c; connection := connection c; me := me c; initialStorage := initialStorage c; clock := clock c; opClock := opClock c; nodes := nodes c; root := root c; undoStack := undoStack c; redoStack := redoStack c; pausedHistory := pausedHistory c; activeBatch := activeBatch c; unacknowledgedOps := unacknowledgedOps c; getInitialStatePromise := getInitialStatePromise c; lastStorageStatus := lastStorageStatus c; throttleDelay := throttleDelay c; world := v |}.

End Setters.

(** ** Computations of the machine

    A function of the machine reads and writes the context and either returns
    or throws; what it wrote before throwing stays written. *)
Inductive Outcome (A : Type) : Type :=
  | Returned (a : A)
  | Thrown (error : string).
Arguments Returned {A} a.
Arguments Thrown {A} error.

Definition M `{LiveNodes} (A : Type) : Type :=
  MachineContext -> MachineContext * Outcome A.

Definition ret `{LiveNodes} {A : Type} (a : A) : M A :=
  fun c => (c, Returned a).

Definition throw `{LiveNodes} {A : Type} (error : string) : M A :=
  fun c => (c, Thrown error).

Definition bind `{LiveNodes} {A B : Type} (m : M A) (k : A -> M B) : M B :=
  fun c =>
    match m c with
    | (c', Returned a) => k a c'
    | (c', Thrown e) => (c', Thrown e)
    end.

Definition gets `{LiveNodes} {A : Type} (f : MachineContext -> A) : M A :=
  fun c => (c, Returned (f c)).

Definition modify `{LiveNodes} (f : MachineContext -> MachineContext) : M unit :=
  fun c => (f c, Returned tt).

(** [try { body } finally { cleanup }]: the cleanup always runs; if it throws,
    its error replaces the outcome of the body. *)
Definition try_finally `{LiveNodes} {A : Type} (body : M A) (cleanup : M unit) : M A :=
  fun c =>
    match body c with
    | (c1, r) =>
        match cleanup c1 with
        | (c2, Returned _) => (c2, r)
        | (c2, Thrown e) => (c2, Thrown e)
        end
    end.

Notation "x <- m ;; k" := (bind m (fun x => k))
  (at level 100, m at next level, right associativity).
Notation "m ;; k" := (bind m (fun _ => k))
  (at level 100, right associativity).

(** [l.forEach(f)] and [for (const x of l)]. *)
Fixpoint forEach `{LiveNodes} {A : Type} (f : A -> M unit) (l : list A) : M unit :=
  match l with
  | [] => ret tt
  | x :: l' => f x ;; forEach f l'
  end.

(** [l.map(f)] for an [f] with effects. *)
Fixpoint mapM `{LiveNodes} {A B : Type} (f : A -> M B) (l : list A) : M (list B) :=
  match l with
  | [] => ret []
  | x :: l' => y <- f x ;; ys <- mapM f l' ;; ret (y :: ys)
  end.

(** A [for ... of] loop that carries local variables. *)
Fixpoint foldM `{LiveNodes} {A S : Type} (f : S -> A -> M S) (l : list A) (s : S) : M S :=
  match l with
  | [] => ret s
  | x :: l' => s' <- f s x ;; foldM f l' s'
  end.

(** [stack.pop()]: the last element and the rest, [None] on an empty array. *)
Definition pop {A : Type} (l : list A) : option (list A * A) :=
  match last l with
  | Some x => Some (removelast l, x)
  | None => None
  end.

(** [ManagedPool] (room.ts 904-964): what a live node may ask of the room. *)
Record ManagedPool `{LiveNodes} : Type := mkPool {
  generateId : M string;
  generateOpId : M string;
  dispatch : list Op -> list Op -> JsMap.t StorageUpdate -> M unit;
  assertStorageIsWritable : M unit
}.

(** The one mutation of a live node that room.ts itself calls:
    [root.set(key, value)], which reaches back into the room through the
    pool. *)
Class LiveObjectApi `{LiveNodes} : Type := {
  LiveObject_set : ManagedPool -> LiveNode -> string -> Lson -> M unit
}.

(** Local variables of [applyOps] (room.ts 1214-1220). *)
Record ApplyOpsOutput `{LiveNodes} : Type := mkOutput {
  out_reverse : list HistoryOp;
  out_storageUpdates : JsMap.t StorageUpdate;
  out_presence : bool
}.

(** What [applyOps] returns (room.ts 1302-1309). *)
Record ApplyOpsResult `{LiveNodes} : Type := mkResult {
  res_ops : list HistoryOp;
  res_reverse : list HistoryOp;
  res_storageUpdates : JsMap.t StorageUpdate;
  res_presence : bool
}.

(** [protocol/ServerMsg]: the two storage messages of [onMessage]. *)
Inductive ServerMsg : Type :=
  | INITIAL_STORAGE_STATE (items : list IdTuple)
  | UPDATE_STORAGE_MSG (ops : list Op).

(** The calls of the public API (room.ts 2262-2320) that involve no live
    node. *)
Inductive HostCall : Type :=
  | CallUpdatePresence (patch : PresencePatch) (addToHistory : bool)
  | CallBroadcastEvent (event : Json) (shouldQueueEventIfNotReady : bool)
  | CallUndo
  | CallRedo
  | CallPauseHistory
  | CallResumeHistory
  | CallGetStorage.

Section Machine.
Context `{LiveNodes}.

(** [nn] of lib/assert is imported by room.ts; lib/assert is not among the
    sources and the spec does not describe it.  It is taken as a build with
    assertions has it (NODE_ENV other than production): it hands its
    argument back, and throws its default message when the argument is
    [null] or [undefined].  A production build checks nothing there and
    lets [undefined] through, which the types below cannot hold: what the
    properties say of a function that goes through [nn] is said for
    arguments that are present, where the two builds agree. *)
Definition nn {A : Type} (v : option A) : M A :=
  match v with
  | Some a => ret a
  | None => throw "Expected value to be non-nullable"
  end.

(** Modelled from the spec: [MeRef.patch] is not among the sources; it
    "shallow-merges keys present in delta".  Every key of the delta takes the
    delta's value, so a key that holds [undefined] there holds [undefined]
    afterwards: it leaves the record. *)
Definition me_patch (patch : PresencePatch) (current : Presence) : Presence :=
  merge (fun fromPatch fromCurrent =>
           match fromPatch with
           | Some value => value
           | None => fromCurrent
           end) patch current.

(** Modelled from the spec: [isAckOp] of protocol/Op is not among the sources;
    "an Ack op is a server echo with no state effect". *)
Definition isAckOp (op : Op) : bool :=
  match op_type op with ACK => true | _ => false end.

(** Modelled from the spec: [isRootCrdt] of protocol/SerializedCrdt is not
    among the sources; the root is "the unique item whose parent is
    undefined". *)
Definition isRootCrdt (crdt : SerializedCrdt) : bool :=
  match crdt_parentId crdt with None => true | Some _ => false end.

(** [!op.opId]: [undefined] and the empty string are falsy. *)
Definition hasOpId (op : Op) : bool :=
  match opId op with
  | Some s => negb (String.eqb s "")
  | None => false
  end.

Definition withOpId (id : string) (op : Op) : Op :=
  {| op_type := op_type op; opId := Some id; op_id := op_id op;
     parentId := parentId op; parentKey := parentKey op; op_data := op_data op |}.

(** The ops of a history batch that are not presence ops. *)
Fixpoint storageOpsOf (l : list HistoryOp) : list Op :=
  match l with
  | [] => []
  | StorageOp op :: l' => op :: storageOpsOf l'
  | PresenceOp _ :: l' => storageOpsOf l'
  end.

(** *** The event hub and the effects *)

Definition emit (e : RoomEvent) : M unit :=
  modify (fun c => set_world (set_emitted (emitted (world c) ++ [e]) (world c)) c).

(** [effects.send] (room.ts 1011-1020). *)
Definition effects_send (messages : list ClientMsg) : M unit :=
  s <- gets socket ;;
  match s with
  | None => throw "Can't send message if socket is null"
  | Some _ =>
      modify (fun c => set_world (set_wire (wire (world c) ++ [messages]) (world c)) c)
  end.

(** [clearTimeout(handle)]; clearing [undefined] does nothing. *)
Definition clearTimeout (handle : option TimeoutID) : M unit :=
  match handle with
  | None => ret tt
  | Some h =>
      modify (fun c =>
        set_world (set_timers (List.filter (fun t => negb (Nat.eqb (fst t) h)) (timers (world c)))
                              (world c)) c)
  end.

(** [effects.delayFlush] (room.ts 1021-1023): [setTimeout(tryFlushing, delay)]. *)
Definition effects_delayFlush (delay : Z) : M TimeoutID :=
  h <- gets (fun c => nextTimeoutID (world c)) ;;
  modify (fun c =>
    set_world (set_nextTimeoutID (S h) (set_timers (timers (world c) ++ [(h, delay)]) (world c))) c) ;;
  ret h.

(** [Date.now()]. *)
Definition Date_now : M Z := gets (fun c => now (world c)).

(** *** Storage status (room.ts 2227-2255) *)

Definition getStorageStatus (c : MachineContext) : StorageStatus :=
  match getInitialStatePromise c with
  | None => NotLoaded
  | Some _ =>
      match root c with
      | None => Loading
      | Some _ =>
          if Nat.eqb (JsMap.size (unacknowledgedOps c)) 0 then Synchronized else Synchronizing
      end
  end.

Definition StorageStatus_eqb (a b : StorageStatus) : bool :=
  match a, b with
  | NotLoaded, NotLoaded | Loading, Loading
  | Synchronizing, Synchronizing | Synchronized, Synchronized => true
  | _, _ => false
  end.

Definition notifyStorageStatus : M unit :=
  storageStatus <- gets getStorageStatus ;;
  last <- gets lastStorageStatus ;;
  if negb (StorageStatus_eqb last storageStatus) then
    modify (set_lastStorageStatus storageStatus) ;;
    emit (StorageStatusEvent storageStatus)
  else ret tt.

(** *** History (room.ts 1134-1156, 1557-1561, 2116-2149) *)

Definition canUndo (c : MachineContext) : bool :=
  negb (Nat.eqb (length (undoStack c)) 0).

Definition canRedo (c : MachineContext) : bool :=
  negb (Nat.eqb (length (redoStack c)) 0).

Definition onHistoryChange : M unit :=
  cu <- gets canUndo ;;
  cr <- gets canRedo ;;
  emit (HistoryEvent cu cr).

Definition _addToRealUndoStack (historyOps : list HistoryOp) : M unit :=
  (* If undo stack is too large, we remove the older item *)
  stack <- gets undoStack ;;
  (if (50 <=? length stack)%nat then modify (set_undoStack (tail stack)) else ret tt) ;;
  modify (fun c => set_undoStack (undoStack c ++ [historyOps]) c) ;;
  onHistoryChange.

Definition addToUndoStack (historyOps : list HistoryOp) : M unit :=
  paused <- gets pausedHistory ;;
  match paused with
  | Some l => modify (set_pausedHistory (Some (historyOps ++ l)))
  | None => _addToRealUndoStack historyOps
  end.

(** [notify] (room.ts 1158-1187); every embedded caller passes no [others]
    events. *)
Definition notify (storageUpdates : JsMap.t StorageUpdate) (presence : bool) : M unit :=
  (if presence then m <- gets me ;; emit (MeEvent m) else ret tt) ;;
  (if negb (Nat.eqb (JsMap.size storageUpdates) 0)
   then emit (StorageEvent (JsMap.values storageUpdates))
   else ret tt).

(** *** Outbound flush pipeline (room.ts 1910-1987) *)

Definition flushDataToMessages (state : MachineContext) : list ClientMsg :=
  let messages : list ClientMsg := [] in
  let messages :=
    match buffer_me (buffer state) with
    | Some bme =>
        messages ++
        [match kind bme with
         | full =>
             (* Populating the targetActor field turns this message into a
                full presence update message (not a patch) *)
             UPDATE_PRESENCE (Some (-1)) (data bme)
         | partial => UPDATE_PRESENCE None (data bme)
         end]
    | None => messages
    end in
  let messages :=
    fold_left (fun messages event => messages ++ [event])
              (buffer_messages (buffer state)) messages in
  if negb (Nat.eqb (length (buffer_storageOperations (buffer state))) 0)
  then messages ++ [UPDATE_STORAGE (buffer_storageOperations (buffer state))]
  else messages.

Definition socketIsOpen (s : option ReadyState) : bool :=
  match s with Some OPEN => true | _ => false end.

Definition tryFlushing : M unit :=
  storageOps <- gets (fun c => buffer_storageOperations (buffer c)) ;;
  (if negb (Nat.eqb (length storageOps) 0) then
     forEach (fun op =>
                id <- nn (opId op) ;;
                modify (fun c => set_unacknowledgedOps (JsMap.set id op (unacknowledgedOps c)) c))
             storageOps ;;
     notifyStorageStatus
   else ret tt) ;;
  s <- gets socket ;;
  if negb (socketIsOpen s) then
    modify (fun c => set_buffer (set_buffer_storageOperations [] (buffer c)) c)
  else
    now <- Date_now ;;
    last <- gets lastFlushTime ;;
    delay <- gets throttleDelay ;;
    let elapsedTime := now - last in
    if delay <? elapsedTime then
      messages <- gets flushDataToMessages ;;
      if Nat.eqb (length messages) 0 then ret tt
      else
        effects_send messages ;;
        modify (set_buffer {| buffer_me := None; buffer_messages := [];
                              buffer_storageOperations := [] |}) ;;
        modify (set_lastFlushTime now)
    else
      handle <- gets timeoutHandles_flush ;;
      clearTimeout handle ;;
      h <- effects_delayFlush (delay - (now - last)) ;;
      modify (set_timeoutHandles_flush (Some h)).

(** [dispatchOps] (room.ts 2034-2037). *)
Definition dispatchOps (ops : list Op) : M unit :=
  modify (fun c =>
    set_buffer (set_buffer_storageOperations (buffer_storageOperations (buffer c) ++ ops)
                                             (buffer c)) c) ;;
  tryFlushing.

(** [broadcastEvent] (room.ts 2017-2032); [options] defaults to
    [{ shouldQueueEventIfNotReady: false }]. *)
Definition broadcastEvent (event : Json) (shouldQueueEventIfNotReady : bool) : M unit :=
  s <- gets socket ;;
  if match s with None => true | Some _ => false end && negb shouldQueueEventIfNotReady
  then ret tt
  else
    modify (fun c =>
      set_buffer (set_buffer_messages (buffer_messages (buffer c) ++ [BROADCAST_EVENT event])
                                      (buffer c)) c) ;;
    tryFlushing.

(** [startLoadingStorage] (room.ts 2042-2052). *)
Definition startLoadingStorage : M unit :=
  p <- gets getInitialStatePromise ;;
  match p with
  | None =>
      modify (fun c =>
        set_buffer (set_buffer_messages (buffer_messages (buffer c) ++ [FETCH_STORAGE])
                                        (buffer c)) c) ;;
      tryFlushing ;;
      modify (set_getInitialStatePromise (Some Pending)) ;;
      notifyStorageStatus
  | Some _ => ret tt
  end.

(** *** The pool (room.ts 904-964) *)

Definition isConnectionSelfAware (conn : Connection) : bool :=
  match conn with
  | Connecting _ | Open _ => true
  | _ => false
  end.

(** [getConnectionId] (room.ts 1189-1200). *)
Definition getConnectionId : M Z :=
  conn <- gets connection ;;
  match conn with
  | Connecting info | Open info => ret (conn_id info)
  | _ =>
      last <- gets lastConnectionId ;;
      match last with
      | Some id => ret id
      | None => throw "Internal. Tried to get connection id but connection was never open"
      end
  end.

(** [n++] on a number that holds an integer.  The numbers of JavaScript are
    doubles: [n + 1] is exact below 2^53 in absolute value; from there it
    lies halfway between two doubles, and rounds to the one with the even
    mantissa, or nearer to [n], and rounds to [n].  A counter that starts at
    0 stops at 2^53. *)
Definition Number_increment (n : Z) : Z :=
  if (- 2 ^ 53 <=? n) && (n <? 2 ^ 53) then n + 1
  else if Z.abs n <? 2 ^ 54 then (if Z.even (n / 2) then n else n + 2)
  else n.

(** [generateId] and [generateOpId] (room.ts 911-912).  The template literal
    prints an integer below 10^21 in absolute value as its decimal digits,
    [pretty]; the counters never get that far, and the properties that read
    the ids take a connection id below it. *)
Definition pool_generateId : M string :=
  id <- getConnectionId ;;
  n <- gets clock ;;
  modify (set_clock (Number_increment n)) ;;
  ret (pretty id +:+ ":" +:+ pretty n).

Definition pool_generateOpId : M string :=
  id <- getConnectionId ;;
  n <- gets opClock ;;
  modify (set_opClock (Number_increment n)) ;;
  ret (pretty id +:+ ":" +:+ pretty n).

(** [storageUpdates.forEach((value, key) => acc.set(key,
    mergeStorageUpdates(acc.get(key), value)))]. *)
Definition mergeUpdatesInto (acc storageUpdates : JsMap.t StorageUpdate)
  : JsMap.t StorageUpdate :=
  fold_left (fun acc kv =>
               JsMap.set (fst kv) (mergeStorageUpdates (JsMap.get (fst kv) acc) (snd kv)) acc)
            storageUpdates acc.

Definition pool_dispatch (ops0 reverse : list Op) (storageUpdates : JsMap.t StorageUpdate)
  : M unit :=
  ab <- gets activeBatch ;;
  match ab with
  | Some b =>
      modify (set_activeBatch (Some
        {| ops := ops b ++ ops0;
           reverseOps := map StorageOp reverse ++ reverseOps b;
           updates_storageUpdates := mergeUpdatesInto (updates_storageUpdates b) storageUpdates;
           updates_presence := updates_presence b |}))
  | None =>
      addToUndoStack (map StorageOp reverse) ;;
      modify (set_redoStack []) ;;
      dispatchOps ops0 ;;
      notify storageUpdates false
  end.

Definition pool_assertStorageIsWritable : M unit :=
  conn <- gets connection ;;
  match conn with
  | Connecting info | Open info =>
      if conn_isReadOnly info
      then throw "Cannot write to storage with a read only user, please ensure the user has write permissions"
      else ret tt
  | _ => ret tt
  end.

Definition pool : ManagedPool :=
  {| generateId := pool_generateId;
     generateOpId := pool_generateOpId;
     dispatch := pool_dispatch;
     assertStorageIsWritable := pool_assertStorageIsWritable |}.

(** *** Applying ops (room.ts 1202-1362) *)

Definition OpSource_isUndoRedo (source : OpSource) : bool :=
  match source with UNDOREDO_RECONNECT => true | _ => false end.

Definition runOnNodes (f : Store -> Store * ApplyResult StorageUpdate)
  : M (ApplyResult StorageUpdate) :=
  st <- gets nodes ;;
  modify (set_nodes (fst (f st))) ;;
  ret (snd (f st)).

Definition applyOp (op : Op) (source : OpSource) : M (ApplyResult StorageUpdate) :=
  modify (fun c => set_world (set_applied (applied (world c) ++ [(op, source)]) (world c)) c) ;;
  (* Explicit case to handle incoming "AckOp"s, which are supposed to be no-ops. *)
  if isAckOp op then ret NotModified
  else
    st <- gets nodes ;;
    match op_type op with
    | DELETE_OBJECT_KEY | UPDATE_OBJECT | DELETE_CRDT =>
        match getNode st (op_id op) with
        | None => ret NotModified
        | Some node => runOnNodes (node_apply node op (OpSource_isUndoRedo source))
        end
    | SET_PARENT_KEY =>
        match getNode st (op_id op) with
        | None => ret NotModified
        | Some node =>
            match listParent st node with
            | Some parent => runOnNodes (list_setChildKey parent (parentKey op) node source)
            | None => ret NotModified
            end
        end
    | CREATE_OBJECT | CREATE_LIST | CREATE_MAP | CREATE_REGISTER =>
        match parentId op with
        | None => ret NotModified
        | Some pid =>
            match getNode st pid with
            | None => ret NotModified
            | Some parentNode => runOnNodes (node_attachChild parentNode op source)
            end
        end
    | ACK => ret NotModified
    end.

(** Ops applied after undo/redo won't have opIds assigned, yet. *)
Definition assignOpId (op : HistoryOp) : M HistoryOp :=
  match op with
  | StorageOp o =>
      if negb (hasOpId o) then id <- pool_generateOpId ;; ret (StorageOp (withOpId id o))
      else ret op
  | PresenceOp _ => ret op
  end.

Definition isCreateOfContainer (op : Op) : bool :=
  match op_type op with
  | CREATE_LIST | CREATE_MAP | CREATE_OBJECT => true
  | _ => false
  end.

(** [nodeId && createdNodeIds.has(nodeId)]. *)
Definition createdInSameBatch (nodeId : option string) (createdNodeIds : gset string) : bool :=
  match nodeId with
  | Some id => negb (String.eqb id "") && bool_decide (id ∈ createdNodeIds)
  | None => false
  end.

(** The source of a storage op (room.ts 1258-1270). *)
Definition decideSource (isLocal : bool) (op : Op) : M OpSource :=
  if isLocal then ret UNDOREDO_RECONNECT
  else
    id <- nn (opId op) ;;
    ledger <- gets unacknowledgedOps ;;
    let deleted := JsMap.has id ledger in
    modify (set_unacknowledgedOps (JsMap.delete id ledger)) ;;
    ret (if deleted then ACK_SOURCE else REMOTE).

(** The body of the loop of [applyOps] (room.ts 1232-1298). *)
Definition applyOps_body (isLocal : bool) (acc : ApplyOpsOutput * gset string) (op : HistoryOp)
  : M (ApplyOpsOutput * gset string) :=
  let output := fst acc in
  let createdNodeIds := snd acc in
  match op with
  | PresenceOp opdata =>
      current <- gets me ;;
      let reverse := PresenceOp (map_imap (fun key _ => Some (current !! key)) opdata) in
      modify (set_me (me_patch opdata current)) ;;
      modify (fun c =>
        set_buffer
          (set_buffer_me
             (Some match buffer_me (buffer c) with
                   | None => {| kind := partial; data := opdata |}
                   | Some bme => {| kind := kind bme; data := opdata ∪ data bme |}
                   end)
             (buffer c)) c) ;;
      ret ({| out_reverse := reverse :: out_reverse output;
              out_storageUpdates := out_storageUpdates output;
              out_presence := true |}, createdNodeIds)
  | StorageOp op =>
      source <- decideSource isLocal op ;;
      applyOpResult <- applyOp op source ;;
      match applyOpResult with
      | NotModified => ret acc
      | Modified modified reverse =>
          let nodeId := updatedNodeId modified in
          output <-
            (if negb (createdInSameBatch nodeId createdNodeIds) then
               id <- nn nodeId ;;
               ret {| out_reverse := map StorageOp reverse ++ out_reverse output;
                      out_storageUpdates :=
                        JsMap.set id
                          (mergeStorageUpdates (JsMap.get id (out_storageUpdates output)) modified)
                          (out_storageUpdates output);
                      out_presence := out_presence output |}
             else ret output) ;;
          ret (output,
               if isCreateOfContainer op then {[ op_id op ]} ∪ createdNodeIds
               else createdNodeIds)
      end
  end.

Definition applyOps (rawOps : list HistoryOp) (isLocal : bool) : M ApplyOpsResult :=
  ops <- mapM assignOpId rawOps ;;
  acc <- foldM (applyOps_body isLocal) ops
           ({| out_reverse := []; out_storageUpdates := JsMap.empty; out_presence := false |}, ∅) ;;
  notifyStorageStatus ;;
  ret {| res_ops := ops;
         res_reverse := out_reverse (fst acc);
         res_storageUpdates := out_storageUpdates (fst acc);
         res_presence := out_presence (fst acc) |}.

(** *** Presence (room.ts 1385-1430) *)

(** [options?.addToHistory] is passed as a boolean. *)
Definition updatePresence (patch : PresencePatch) (addToHistory : bool) : M unit :=
  current <- gets me ;;
  (* keys of the patch that hold a value; [undefined] ones are skipped *)
  let defined : Presence := omap id patch in
  let oldValues : PresencePatch := map_imap (fun key _ => Some (current !! key)) defined in
  modify (fun c =>
    set_buffer
      (set_buffer_me
         (Some match buffer_me (buffer c) with
               | None => {| kind := partial; data := Some <$> defined |}
               | Some bme => {| kind := kind bme; data := (Some <$> defined) ∪ data bme |}
               end)
         (buffer c)) c) ;;
  modify (set_me (me_patch patch current)) ;;
  ab <- gets activeBatch ;;
  match ab with
  | Some b =>
      modify (set_activeBatch (Some
        {| ops := ops b;
           reverseOps := if addToHistory then PresenceOp oldValues :: reverseOps b
                         else reverseOps b;
           updates_storageUpdates := updates_storageUpdates b;
           updates_presence := true |}))
  | None =>
      tryFlushing ;;
      (if addToHistory then addToUndoStack [PresenceOp oldValues] else ret tt) ;;
      notify JsMap.empty true
  end.

(** *** Undo, redo, batches, paused history (room.ts 2090-2211) *)

Definition pushStorageOperations (l : list HistoryOp) : M unit :=
  modify (fun c =>
    set_buffer (set_buffer_storageOperations
                  (buffer_storageOperations (buffer c) ++ storageOpsOf l) (buffer c)) c).

Definition undo : M unit :=
  ab <- gets activeBatch ;;
  match ab with
  | Some _ => throw "undo is not allowed during a batch"
  | None =>
      stack <- gets undoStack ;;
      match pop stack with
      | None => ret tt
      | Some (rest, historyOps) =>
          modify (set_undoStack rest) ;;
          modify (set_pausedHistory None) ;;
          result <- applyOps historyOps true ;;
          notify (res_storageUpdates result) (res_presence result) ;;
          modify (fun c => set_redoStack (redoStack c ++ [res_reverse result]) c) ;;
          onHistoryChange ;;
          pushStorageOperations (res_ops result) ;;
          tryFlushing
      end
  end.

Definition redo : M unit :=
  ab <- gets activeBatch ;;
  match ab with
  | Some _ => throw "redo is not allowed during a batch"
  | None =>
      stack <- gets redoStack ;;
      match pop stack with
      | None => ret tt
      | Some (rest, historyOps) =>
          modify (set_redoStack rest) ;;
          modify (set_pausedHistory None) ;;
          result <- applyOps historyOps true ;;
          notify (res_storageUpdates result) (res_presence result) ;;
          modify (fun c => set_undoStack (undoStack c ++ [res_reverse result]) c) ;;
          onHistoryChange ;;
          pushStorageOperations (res_ops result) ;;
          tryFlushing
      end
  end.

(** The [finally] block of [batch] (room.ts 2173-2195); reading a field of a
    [null] batch is a TypeError. *)
Definition closeBatch : M unit :=
  currentBatch <- gets activeBatch ;;
  modify (set_activeBatch None) ;;
  match currentBatch with
  | None => throw "TypeError: Cannot read properties of null"
  | Some b =>
      (if negb (Nat.eqb (length (reverseOps b)) 0) then addToUndoStack (reverseOps b)
       else ret tt) ;;
      (if negb (Nat.eqb (length (ops b)) 0) then
         (* Only clear the redo stack if something has changed during a batch *)
         modify (set_redoStack [])
       else ret tt) ;;
      (if negb (Nat.eqb (length (ops b)) 0) then dispatchOps (ops b) else ret tt) ;;
      notify (updates_storageUpdates b) (updates_presence b) ;;
      tryFlushing
  end.

Definition batch {T : Type} (callback : M T) : M T :=
  ab <- gets activeBatch ;;
  match ab with
  | Some _ =>
      (* That outer active batch will handle the batch. This nested call can
         be a no-op. *)
      callback
  | None =>
      modify (set_activeBatch (Some
        {| ops := []; reverseOps := [];
           updates_storageUpdates := JsMap.empty; updates_presence := false |})) ;;
      try_finally callback closeBatch
  end.

Definition pauseHistory : M unit :=
  modify (set_pausedHistory (Some [])).

Definition resumeHistory : M unit :=
  historyOps <- gets pausedHistory ;;
  modify (set_pausedHistory None) ;;
  match historyOps with
  | Some l => if negb (Nat.eqb (length l) 0) then _addToRealUndoStack l else ret tt
  | None => ret tt
  end.

(** *** Loading and reloading the root (room.ts 1056-1132) *)

Definition buildRootAndParentToChildren (items : list IdTuple)
  : M (IdTuple * JsMap.t (list IdTuple)) :=
  let step (acc : option IdTuple * JsMap.t (list IdTuple)) (item : IdTuple) :=
    if isRootCrdt (snd item) then (Some item, snd acc)
    else
      let parent := default "" (crdt_parentId (snd item)) in
      match JsMap.get parent (snd acc) with
      | Some children => (fst acc, JsMap.set parent (children ++ [item]) (snd acc))
      | None => (fst acc, JsMap.set parent [item] (snd acc))
      end in
  let result := fold_left step items (None, JsMap.empty) in
  match fst result with
  | None => throw "Root can't be null"
  | Some r => ret (r, snd result)
  end.

Definition load (items : list IdTuple) : M LiveNode :=
  rp <- buildRootAndParentToChildren items ;;
  st <- gets nodes ;;
  modify (set_nodes (fst (deserializeRoot (fst rp) (snd rp) st))) ;;
  ret (snd (deserializeRoot (fst rp) (snd rp) st)).

Definition updateRoot (items : list IdTuple) : M unit :=
  r <- gets root ;;
  match r with
  | None => ret tt
  | Some _ =>
      st <- gets nodes ;;
      let currentItems := serializeNodes st in
      (* Get operations that represent the diff between 2 states. *)
      let ops := getTreesDiffOperations currentItems (JsMap.of_entries items) in
      result <- applyOps (map StorageOp ops) false ;;
      notify (res_storageUpdates result) (res_presence result)
  end.

Section WithLiveObject.
Context `{!LiveObjectApi}.

Definition createOrUpdateRootFromMessage (items : list IdTuple) : M unit :=
  (if Nat.eqb (length items) 0
   then throw "Internal error: cannot load storage without items"
   else ret tt) ;;
  r <- gets root ;;
  (match r with
   | Some _ => updateRoot items
   | None => node <- load items ;; modify (set_root (Some node))
   end) ;;
  defaults <- gets initialStorage ;;
  forEach (fun kv =>
             st <- gets nodes ;;
             r <- gets root ;;
             match r with
             | None => throw "TypeError: Cannot read properties of undefined"
             | Some rootNode =>
                 match liveObject_get st rootNode (fst kv) with
                 | None => LiveObject_set pool rootNode (fst kv) (snd kv)
                 | Some _ => ret tt
                 end
             end)
          (default [] defaults).

(** [applyAndSendOps] (room.ts 1886-1908). *)
Definition applyAndSendOps (offlineOps : JsMap.t Op) : M unit :=
  if Nat.eqb (JsMap.size offlineOps) 0 then ret tt
  else
    let ops := JsMap.values offlineOps in
    result <- applyOps (map StorageOp ops) true ;;
    let messages := [UPDATE_STORAGE (storageOpsOf (res_ops result))] in
    notify (res_storageUpdates result) (res_presence result) ;;
    effects_send messages.

(** The INITIAL_STORAGE_STATE case of [onMessage] (room.ts 1668-1680). *)
Definition onInitialStorageState (items : list IdTuple) : M unit :=
  (* createOrUpdateRootFromMessage function could add ops to offlineOperations.
     Client shouldn't resend these ops as part of the offline ops sending
     after reconnect. *)
  unacknowledgedOps0 <- gets unacknowledgedOps ;;
  createOrUpdateRootFromMessage items ;;
  applyAndSendOps unacknowledgedOps0 ;;
  modify (fun c =>
    set_getInitialStatePromise
      (match getInitialStatePromise c with Some _ => Some Resolved | None => None end) c) ;;
  notifyStorageStatus ;;
  emit StorageDidLoadEvent.

(** The UPDATE_STORAGE case of [onMessage] (room.ts 1682-1692). *)
Definition onUpdateStorage (ops0 : list Op) (updates : JsMap.t StorageUpdate)
  : M (JsMap.t StorageUpdate) :=
  applyResult <- applyOps (map StorageOp ops0) false ;;
  ret (mergeUpdatesInto updates (res_storageUpdates applyResult)).

(** [onMessage] (room.ts 1611-1733) on an already parsed frame, for the storage
    messages. *)
Definition onMessage (messages : list ServerMsg) : M unit :=
  if Nat.eqb (length messages) 0 then ret tt
  else
    updates <- foldM (fun updates message =>
                        match message with
                        | INITIAL_STORAGE_STATE items =>
                            onInitialStorageState items ;; ret updates
                        | UPDATE_STORAGE_MSG ops0 => onUpdateStorage ops0 updates
                        end)
                     messages JsMap.empty ;;
    notify updates false.

End WithLiveObject.

(** *** The facade *)

Definition perform (call : HostCall) : M unit :=
  match call with
  | CallUpdatePresence patch addToHistory => updatePresence patch addToHistory
  | CallBroadcastEvent event shouldQueue => broadcastEvent event shouldQueue
  | CallUndo => undo
  | CallRedo => redo
  | CallPauseHistory => pauseHistory
  | CallResumeHistory => resumeHistory
  | CallGetStorage => startLoadingStorage
  end.

(** A run of calls; a call that throws leaves the context as it was when it
    threw, and the host goes on. *)
Definition performAll (calls : list HostCall) (c : MachineContext) : MachineContext :=
  fold_left (fun c call => fst (perform call c)) calls c.

(** *** The initial context (room.ts 849-899) *)

Definition initialWorld : World :=
  {| now := 0; timers := []; nextTimeoutID := 0%nat; wire := []; emitted := [];
     applied := [] |}.

Definition initialContext (throttleDelay0 : Z) (initialPresence : Presence)
    (initialStorage0 : option (list (string * Lson))) : MachineContext :=
  {| lastConnectionId := None;
     socket := None;
     lastFlushTime := 0;
     buffer :=
       (* Queue up the initial presence message as a full presence update *)
       {| buffer_me := Some {| kind := full; data := Some <$> initialPresence |};
          buffer_messages := [];
          buffer_storageOperations := [] |};
     timeoutHandles_flush := None;
     connection := Closed;
     me := initialPresence;
     initialStorage := initialStorage0;
     clock := 0;
     opClock := 0;
     nodes := emptyStore;
     root := None;
     undoStack := [];
     redoStack := [];
     pausedHistory := None;
     activeBatch := None;
     unacknowledgedOps := JsMap.empty;
     getInitialStatePromise := None;
     lastStorageStatus := NotLoaded;
     throttleDelay := throttleDelay0;
     world := initialWorld |}.

End Machine.

(** ** Vocabulary of the properties

    Functions and predicates that only the statements and proofs below use. *)
Section Vocabulary.
Context `{LiveNodes}.

(** [m] leaves the part [f] of the context as it was, whether it returns or
    throws. *)
Definition preserves {A B : Type} (f : MachineContext -> A) (m : M B) : Prop :=
  forall c, f (fst (m c)) = f c.

(** [notifyStorageStatus] as a function on contexts. *)
Definition statusNotified (c : MachineContext) : MachineContext :=
  if negb (StorageStatus_eqb (lastStorageStatus c) (getStorageStatus c))
  then set_world (set_emitted (emitted (world c) ++ [StorageStatusEvent (getStorageStatus c)])
                              (world c))
                 (set_lastStorageStatus (getStorageStatus c) c)
  else c.

(** The first statement of [tryFlushing] (room.ts 1911-1918): the buffered
    storage ops enter the ledger. *)
Definition registerUnacknowledged (storageOps : list Op) : M unit :=
  if negb (Nat.eqb (length storageOps) 0) then
    forEach (fun op =>
               id <- nn (opId op) ;;
               modify (fun c => set_unacknowledgedOps (JsMap.set id op (unacknowledgedOps c)) c))
            storageOps ;;
    notifyStorageStatus
  else ret tt.

(** The rest of [tryFlushing] (room.ts 1920-1953). *)
Definition flushOrDelay : M unit :=
  s <- gets socket ;;
  if negb (socketIsOpen s) then
    modify (fun c => set_buffer (set_buffer_storageOperations [] (buffer c)) c)
  else
    now <- Date_now ;;
    last <- gets lastFlushTime ;;
    delay <- gets throttleDelay ;;
    let elapsedTime := now - last in
    if delay <? elapsedTime then
      messages <- gets flushDataToMessages ;;
      if Nat.eqb (length messages) 0 then ret tt
      else
        effects_send messages ;;
        modify (set_buffer {| buffer_me := None; buffer_messages := [];
                              buffer_storageOperations := [] |}) ;;
        modify (set_lastFlushTime now)
    else
      handle <- gets timeoutHandles_flush ;;
      clearTimeout handle ;;
      h <- effects_delayFlush (delay - (now - last)) ;;
      modify (set_timeoutHandles_flush (Some h)).

(** The ledger after [ops.forEach(op => ledger.set(op.opId, op))]. *)
Definition registered (storageOps : list Op) (ledger : JsMap.t Op) : JsMap.t Op :=
  fold_left (fun m op => JsMap.set (default "" (opId op)) op m) storageOps ledger.

(** An op that [applyOps] takes as it is: a presence op, or a storage op that
    already carries an opId. *)
Definition carriesOpId (op : HistoryOp) : Prop :=
  match op with
  | StorageOp o => hasOpId o = true
  | PresenceOp _ => True
  end.

Definition sourceFor (isLocal : bool) (ledger : JsMap.t Op) (op : Op) : OpSource :=
  if isLocal then UNDOREDO_RECONNECT
  else if JsMap.has (default "" (opId op)) ledger then ACK_SOURCE else REMOTE.

Definition ledgerAfterOp (isLocal : bool) (ledger : JsMap.t Op) (op : Op) : JsMap.t Op :=
  if isLocal then ledger else JsMap.delete (default "" (opId op)) ledger.

Fixpoint tracedSources (isLocal : bool) (ledger : JsMap.t Op) (l : list HistoryOp)
  : list (Op * OpSource) :=
  match l with
  | [] => []
  | PresenceOp _ :: l' => tracedSources isLocal ledger l'
  | StorageOp o :: l' =>
      (o, sourceFor isLocal ledger o) :: tracedSources isLocal (ledgerAfterOp isLocal ledger o) l'
  end.

Fixpoint ledgerAfterOps (isLocal : bool) (ledger : JsMap.t Op) (l : list HistoryOp)
  : JsMap.t Op :=
  match l with
  | [] => ledger
  | PresenceOp _ :: l' => ledgerAfterOps isLocal ledger l'
  | StorageOp o :: l' => ledgerAfterOps isLocal (ledgerAfterOp isLocal ledger o) l'
  end.

Definition emptyBuffer : Buffer :=
  {| buffer_me := None; buffer_messages := []; buffer_storageOperations := [] |}.

Definition timersWithout (handle : option TimeoutID) (l : list (TimeoutID * Z))
  : list (TimeoutID * Z) :=
  match handle with
  | None => l
  | Some h => List.filter (fun t => negb (Nat.eqb (fst t) h)) l
  end.

Definition freshBatch : ActiveBatch :=
  {| ops := []; reverseOps := []; updates_storageUpdates := JsMap.empty;
     updates_presence := false |}.

(** The op id the pool makes of a connection id and a counter. *)
Definition opIdOf (actor n : Z) : string := pretty actor +:+ ":" +:+ pretty n.




(** The contexts a host can bring about from [init] through the facade. *)
Inductive reachable (init : MachineContext) : MachineContext -> Prop :=
  | reachable_init : reachable init init
  | reachable_call (c : MachineContext) (call : HostCall) :
      reachable init c -> reachable init (fst (perform call c)).

End Vocabulary.

(** ** A small implementation of the node interface

    A pool of flat live objects (every node is an object of JSON fields),
    enough to run the machine on concrete rooms. *)
Module FlatObjects.

Record Update : Type := mkUpdate {
  upd_node : string;
  upd_keys : list string
}.

Definition fieldsOf (j : Json) : list (string * Json) :=
  match j with JObj fields => fields | _ => [] end.

Definition previousValues (old : JsMap.t Json) (fields : list (string * Json))
  : list (string * Json) :=
  omap (fun kv => match JsMap.get (fst kv) old with
                  | Some v => Some (fst kv, v)
                  | None => None
                  end) fields.

Definition applyToObject (node : string) (op : Op) (isLocal : bool)
    (st : JsMap.t (JsMap.t Json)) : JsMap.t (JsMap.t Json) * ApplyResult Update :=
  match op_type op with
  | UPDATE_OBJECT =>
      let old := default [] (JsMap.get node st) in
      let fields := fieldsOf (op_data op) in
      (JsMap.set node (fold_left (fun m kv => JsMap.set (fst kv) (snd kv) m) fields old) st,
       Modified {| upd_node := node; upd_keys := map fst fields |}
                [ {| op_type := UPDATE_OBJECT; opId := None; op_id := node;
                     parentId := None; parentKey := None;
                     op_data := JObj (previousValues old fields) |} ])
  | DELETE_CRDT =>
      (JsMap.delete node st, Modified {| upd_node := node; upd_keys := [] |} [])
  | _ => (st, NotModified)
  end.

Definition serializeObject (kv : string * JsMap.t Json) : string * SerializedCrdt :=
  (fst kv, {| crdt_type := OBJECT; crdt_parentId := None; crdt_parentKey := None;
              crdt_data := JObj (snd kv) |}).

Definition diff (current incoming : JsMap.t SerializedCrdt) : list Op :=
  map (fun kv => {| op_type := UPDATE_OBJECT; opId := None; op_id := fst kv;
                    parentId := None; parentKey := None;
                    op_data := crdt_data (snd kv) |})
      (List.filter (fun kv => JsMap.has (fst kv) current) incoming)
  ++
  map (fun kv => {| op_type := DELETE_CRDT; opId := None; op_id := fst kv;
                    parentId := None; parentKey := None; op_data := JNull |})
      (List.filter (fun kv => negb (JsMap.has (fst kv) incoming)) current).

#[export] Instance flatNodes : LiveNodes := {|
  Store := JsMap.t (JsMap.t Json);
  LiveNode := string;
  Lson := Json;
  StorageUpdate := Update;
  emptyStore := JsMap.empty;
  getNode st id := if JsMap.has id st then Some id else None;
  updatedNodeId u := Some (upd_node u);
  node_apply := applyToObject;
  listParent _ _ := None;
  list_setChildKey _ _ _ _ st := (st, NotModified);
  node_attachChild _ _ _ st := (st, NotModified);
  mergeStorageUpdates first second :=
    match first with
    | Some u => {| upd_node := upd_node u; upd_keys := upd_keys u ++ upd_keys second |}
    | None => second
    end;
  deserializeRoot item _ st :=
    (JsMap.set (fst item) (fieldsOf (crdt_data (snd item))) st, fst item);
  serializeNodes st := map serializeObject st;
  getTreesDiffOperations := diff;
  liveObject_get st node key :=
    match JsMap.get node st with
    | Some fields => JsMap.get key fields
    | None => None
    end
|}.

(** [LiveObject.set(key, value)] of a flat object attached to the pool. *)
Definition set (pool0 : ManagedPool) (node : string) (key : string) (value : Json) : M unit :=
  assertStorageIsWritable pool0 ;;
  id <- generateOpId pool0 ;;
  st <- gets nodes ;;
  let op := {| op_type := UPDATE_OBJECT; opId := Some id; op_id := node;
               parentId := None; parentKey := None; op_data := JObj [(key, value)] |} in
  modify (set_nodes (fst (applyToObject node op true st))) ;;
  match snd (applyToObject node op true st) with
  | Modified u reverse => dispatch pool0 [op] reverse (JsMap.set node u JsMap.empty)
  | NotModified => ret tt
  end.

#[export] Instance flatObjectApi : LiveObjectApi := {| LiveObject_set := set |}.

End FlatObjects.

(** ** Concrete rooms

    Runs of the machine on the flat-object pool, used to exercise the
    properties below on actual inputs. *)
Module Rooms.
Import FlatObjects.

Definition exec {A : Type} (m : M A) (c : MachineContext) : MachineContext := fst (m c).

(** The value a computation returned, [d] if it threw. *)
Definition returnedOr {A : Type} (d : A) (o : Outcome A) : A :=
  match o with Returned a => a | Thrown _ => d end.

Definition noResult : ApplyOpsResult :=
  {| res_ops := []; res_reverse := []; res_storageUpdates := JsMap.empty;
     res_presence := false |}.

(** A room just created by [makeStateMachine]: closed, nothing requested. *)
Definition newRoom : MachineContext :=
  initialContext 100 {[ "cursor" := JNull ]} None.

Definition actor7 : ConnectionInfo :=
  {| conn_id := 7; conn_userId := None; conn_userInfo := None; conn_isReadOnly := false |}.

(** Authentication succeeded and the socket exists, but it is not open yet. *)
Definition connectingRoom : MachineContext :=
  set_socket (Some CONNECTING) (set_connection (Connecting actor7) newRoom).

(** The channel of actor 7 is open; the wall clock reads [t]. *)
Definition openRoomAt (t : Z) : MachineContext :=
  set_world (set_now t (world newRoom))
    (set_lastConnectionId (Some 7)
       (set_socket (Some OPEN) (set_connection (Open actor7) newRoom))).

(** The open room after its first flush, idle until the clock reads 500. *)
Definition idleRoom : MachineContext :=
  let flushed := exec tryFlushing (openRoomAt 101) in
  set_world (set_now 500 (world flushed)) flushed.

Definition rootItems : list IdTuple :=
  [("root", {| crdt_type := OBJECT; crdt_parentId := None; crdt_parentKey := None;
               crdt_data := JObj [("a", JNum 0)] |})].

(** Storage was requested and the initial storage arrived. *)
Definition loadedRoom : MachineContext :=
  exec (onMessage [INITIAL_STORAGE_STATE rootItems]) (exec startLoadingStorage (openRoomAt 1000)).

(** [root.set("a", n)] as the op it dispatches. *)
Definition setA (opid : string) (n : Z) : Op :=
  {| op_type := UPDATE_OBJECT; opId := Some opid; op_id := "root";
     parentId := None; parentKey := None; op_data := JObj [("a", JNum n)] |}.

(** The host calls [root.set("a", n)]. *)
Definition setRootA (n : Z) : M unit := LiveObject_set pool "root" "a" (JNum n).

(** One local mutation later: the op is buffered behind the throttle and sits
    in the ledger. *)
Definition mutatedRoom : MachineContext := exec (setRootA 1) loadedRoom.

(** The reverse of [root.set("a", _)] when [a] was [n], as history keeps it. *)
Definition restoreA (n : Z) : HistoryOp :=
  StorageOp {| op_type := UPDATE_OBJECT; opId := None; op_id := "root";
               parentId := None; parentKey := None; op_data := JObj [("a", JNum n)] |}.

(** The same room while a batch is active. *)
Definition batchingRoom : MachineContext :=
  set_activeBatch (Some freshBatch) loadedRoom.

(** [updatePresence({ cursor: n }, { addToHistory: true })]. *)
Definition moveCursor (n : nat) : HostCall :=
  CallUpdatePresence {[ "cursor" := Some (JNum (Z.of_nat n)) ]} true.

(** Fifty presence updates recorded in history fill the undo stack. *)
Definition fiftyMoves : list HostCall := map moveCursor (seq 1 50).

(** ... then one undo, one more recorded update, and a redo. *)
Definition overflowCalls : list HostCall :=
  fiftyMoves ++ [CallUndo; moveCursor 51; CallRedo].

(** Scenario S5: a hundred [root.set("a", i)] outside any batch. *)
Definition hundredSets : MachineContext :=
  fold_left (fun c n => exec (setRootA (Z.of_nat n)) c) (seq 1 100) loadedRoom.

(** History paused with one recorded presence update waiting in the buffer. *)
Definition pausedRoom : MachineContext :=
  performAll [moveCursor 1; CallPauseHistory; moveCursor 2] newRoom.

End Rooms.

(** * More of room.ts

    [getStorageSnapshot], the connection state machine and the classic
    [subscribe], with the vocabulary of the properties of the second part. *)

(** ** Vocabulary of the further properties of the storage machine *)

Section HistoryVocabulary.
Context `{LiveNodes}.

(** The [n] newest elements of a stack. *)
Definition keepLast {A : Type} (n : nat) (l : list A) : list A :=
  drop (length l - n) l.

(** [getStorageSnapshot] (room.ts 2062-2072). *)
Definition getStorageSnapshot : M (option LiveNode) :=
  r <- gets root ;;
  match r with
  | Some node =>
      (* Done loading *)
      ret (Some node)
  | None =>
      (* Not done loading, kick off the loading (will not do anything if
         already kicked off) *)
      startLoadingStorage ;;
      ret None
  end.

(** A callback that performs the given storage mutations one after the
    other, each reaching the room through [pool.dispatch]. *)
Definition dispatchAll (mutations : list (list Op * list Op * JsMap.t StorageUpdate))
  : M unit :=
  forEach (fun m => pool_dispatch (fst (fst m)) (snd (fst m)) (snd m)) mutations.

End HistoryVocabulary.

Section BatchesVocabulary.
Context `{LiveNodes}.

(** What [pool.dispatch] makes of the active batch (room.ts 932-943). *)
Definition grown (b : ActiveBatch) (m : list Op * list Op * JsMap.t StorageUpdate)
  : ActiveBatch :=
  {| ops := ops b ++ fst (fst m);
     reverseOps := map StorageOp (snd (fst m)) ++ reverseOps b;
     updates_storageUpdates := mergeUpdatesInto (updates_storageUpdates b) (snd m);
     updates_presence := updates_presence b |}.

End BatchesVocabulary.

Section ApplyingVocabulary.
Context `{LiveNodes}.

(** The id of the node an op is addressed to: the node itself, or the parent
    for a create op. *)
Definition addressee (op : Op) : option string :=
  match op_type op with
  | DELETE_OBJECT_KEY | UPDATE_OBJECT | DELETE_CRDT | SET_PARENT_KEY => Some (op_id op)
  | CREATE_OBJECT | CREATE_LIST | CREATE_MAP | CREATE_REGISTER => parentId op
  | ACK => None
  end.

Definition addresseeMissing (st : Store) (op : Op) : Prop :=
  match addressee op with
  | Some id => getNode st id = None
  | None => True
  end.

End ApplyingVocabulary.

Section LoadingVocabulary.
Context `{LiveNodes}.

(** The context once [applyOp] has entered a call in the trace of its
    calls. *)
Definition logged (op : Op) (source : OpSource) (c : MachineContext) : MachineContext :=
  set_world (set_applied (applied (world c) ++ [(op, source)]) (world c)) c.

End LoadingVocabulary.

Section FlushTimerVocabulary.
Context `{LiveNodes}.

(** At most one flush timer is pending, the one [timeoutHandles.flush]
    names, and [tryFlushing] keeps it so. *)
Definition flushTimerTracked (c : MachineContext) : Prop :=
  timers (world c) = []
  \/ exists h delay, timers (world c) = [(h, delay)] /\ timeoutHandles_flush c = Some h.

End FlushTimerVocabulary.

(** Functions of the machine that keep at most one flush timer: whatever
    they do to the flush timer they do through [tryFlushing]. *)
Definition keepsFlushTimer `{LiveNodes} {A : Type} (m : M A) : Prop :=
  forall c, flushTimerTracked c -> flushTimerTracked (fst (m c)).

Section StorageMessagesKeepFlushTimerVocabulary.
Context `{LiveNodes} `{!LiveObjectApi}.

(** What a live object may do to the flush timer when [set] is called on
    it: nothing but through the room. *)
Definition setKeepsFlushTimer : Prop :=
  forall node key value, keepsFlushTimer (LiveObject_set pool node key value).

End StorageMessagesKeepFlushTimerVocabulary.

(** A function of the machine started where [P] holds ends where [Q] holds
    of what it returns, or where [E] holds if it throws. *)
Definition hoare `{LiveNodes} {A : Type} (P : MachineContext -> Prop) (m : M A)
    (Q : A -> MachineContext -> Prop) (E : MachineContext -> Prop) : Prop :=
  forall c, P c ->
    match m c with
    | (c', Returned a) => Q a c'
    | (c', Thrown _) => E c'
    end.

Section StorageStatusKnownVocabulary.
Context `{LiveNodes}.

(** What the subscribers of [events.storageStatus] heard last; before any
    notification they know the room as it starts, not loaded. *)
Definition heardStatus (events : list RoomEvent) : StorageStatus :=
  fold_left (fun status e => match e with StorageStatusEvent s => s | _ => status end)
            events NotLoaded.

(** The last notification is the one the machine remembers, and the buffered
    ops carry their ids. *)
Definition statusCoherent (c : MachineContext) : Prop :=
  heardStatus (emitted (world c)) = lastStorageStatus c
  /\ Forall (fun op => is_Some (opId op)) (buffer_storageOperations (buffer c)).

(** ... and it is the status of the storage now. *)
Definition statusKnown (c : MachineContext) : Prop :=
  statusCoherent c /\ lastStorageStatus c = getStorageStatus c.

(** All that [statusKnown] reads. *)
Definition statusView (c : MachineContext) :=
  (heardStatus (emitted (world c)), lastStorageStatus c, getInitialStatePromise c, root c,
   unacknowledgedOps c, buffer_storageOperations (buffer c)).

Definition knownView
    (v : StorageStatus * StorageStatus * option PromiseState * option LiveNode * JsMap.t Op
         * list Op) : Prop :=
  match v with
  | (heard, last, promise, r, ledger, storageOps) =>
      (heard = last /\ Forall (fun op => is_Some (opId op)) storageOps)
      /\ last = match promise with
                | None => NotLoaded
                | Some _ =>
                    match r with
                    | None => Loading
                    | Some _ => if Nat.eqb (JsMap.size ledger) 0 then Synchronized
                                else Synchronizing
                    end
                end
  end.

Definition isStatusEvent (e : RoomEvent) : bool :=
  match e with StorageStatusEvent _ => true | _ => false end.

End StorageStatusKnownVocabulary.

Section StorageStatusTriplesVocabulary.
Context `{LiveNodes}.

(** The ops [applyOps] returns carry their ids. *)
Definition identifiedOp (op : HistoryOp) : Prop :=
  match op with
  | StorageOp o => is_Some (opId o)
  | PresenceOp _ => True
  end.

End StorageStatusTriplesVocabulary.

Section CoherentStatusVocabulary.
Context `{LiveNodes}.

(** All that [statusCoherent] reads. *)
Definition coherentView (c : MachineContext) :=
  (heardStatus (emitted (world c)), lastStorageStatus c, buffer_storageOperations (buffer c)).

End CoherentStatusVocabulary.

Section StorageMessagesVocabulary.
Context `{LiveNodes} `{!LiveObjectApi}.

(** What a live object may do to the room when [set] is called on it:
    whatever it notifies of the storage status it notifies through the room,
    and the ops it dispatches carry their ids. *)
Definition setIsCoherent : Prop :=
  forall node key value,
    hoare statusCoherent (LiveObject_set pool node key value)
          (fun _ => statusCoherent) statusCoherent.

End StorageMessagesVocabulary.

(** * The connection state machine

    [connect], the authentication callbacks, the socket's [open] and [close]
    handlers, the heartbeat and [reconnect]/[disconnect] (room.ts 1364-1383,
    1432-1480, 1550-1555, 1735-1884, 1989-2015) work on the fields of the
    context that the storage functions above never read: the token, the retry
    counter, the reconnect, pong and heartbeat handles, and the others.  A
    session is the machine's context together with these. *)

(** [ConnectionStatus], the [status] tag of a [Connection]. *)
Inductive ConnectionStatus : Type :=
  | status_closed
  | status_authenticating
  | status_connecting
  | status_open
  | status_unavailable
  | status_failed.

Definition statusOf (conn : Connection) : ConnectionStatus :=
  match conn with
  | Closed => status_closed
  | Authenticating => status_authenticating
  | Connecting _ => status_connecting
  | Open _ => status_open
  | Unavailable => status_unavailable
  | Failed => status_failed
  end.

(** [{ raw, parsed }] of [context.token]: the fields of [RoomAuthToken] that
    [authenticationSuccess] reads, with the raw token. *)
Record RoomAuthToken : Type := mkToken {
  token_raw : string;
  token_actor : Z;
  token_id : option string;
  token_info : option Json;
  token_scopes : list string
}.

(** What a timer of the connection machine runs when it fires:
    [setTimeout(connect, delay)], [setTimeout(pongTimeout, PONG_TIMEOUT)] and
    [setInterval(heartbeat, HEARTBEAT_INTERVAL)]. *)
Inductive TimerTask : Type := TaskConnect | TaskPongTimeout | TaskHeartbeat.

(** What the connection machine does to the outside, in order: the
    notifications of [eventHub.connection], [eventHub.error] and
    [eventHub.others], the calls of the authentication endpoint and of
    [createWebSocket], [socket.close()] and [socket.send("ping")], and the
    clearing of every event source by [disconnect]. *)
Inductive LinkEvent : Type :=
  | ConnectionNotified (status : ConnectionStatus)
  | ErrorNotified (reason : string) (code : Z)
  | OthersReset
  | AuthenticationRequested
  | SocketCreated (raw : string)
  | SocketClosed
  | PingSent
  | HubCleared.

(** The close event of a WebSocket. *)
Record CloseEvent : Type := mkCloseEvent {
  close_code : Z;
  close_wasClean : bool;
  close_reason : string
}.

(** What room.ts imports for its connection functions and only uses by name:
    the close code [WebsocketCloseCodes.CLOSE_WITHOUT_RETRY], the three
    [RoomScope] strings, [isTokenExpired] (which reads the wall clock) and
    the others with their [clearOthers()]. *)
Class ConnectionImports : Type := {
  CLOSE_WITHOUT_RETRY : Z;
  RoomScope_Read : string;
  RoomScope_Write : string;
  RoomScope_PresenceWrite : string;
  isTokenExpired : RoomAuthToken -> Z -> bool;
  Others : Type;
  clearOthers : Others -> Others
}.

(** [Authentication["type"]] (the type of [config.authentication]); a value
    built outside the type checker can carry none of the three. *)
Inductive AuthenticationType : Type :=
  | auth_public
  | auth_private
  | auth_custom
  | auth_unexpected.

(** What [connect] reads of the [config] the room was made with and of the
    host, none of which changes during the life of the room: the type of
    [config.authentication], whether [config.polyfills] holds a [fetch] and
    a [WebSocket], and whether [typeof window === "undefined"]. *)
Class RoomConfig : Type := {
  config_authentication_type : AuthenticationType;
  config_polyfills_fetch : bool;
  config_polyfills_WebSocket : bool;
  typeof_window_undefined : bool
}.

Definition BACKOFF_RETRY_DELAYS : list Z := [250; 500; 1000; 2000; 4000; 8000; 10000].
Definition BACKOFF_RETRY_DELAYS_SLOW : list Z := [2000; 30000; 60000; 300000].
Definition HEARTBEAT_INTERVAL : Z := 30000.
Definition PONG_TIMEOUT : Z := 2000.

(** The context with the fields of the connection machine (room.ts 681-716),
    its pending timers and what it did to the outside. *)
Record Session `{LiveNodes} `{ConnectionImports} : Type := mkSession {
  machine : MachineContext;
  token : option RoomAuthToken;
  numberOfRetry : nat;
  timeoutHandles_reconnect : option TimeoutID;
  timeoutHandles_pongTimeout : option TimeoutID;
  intervalHandles_heartbeat : option TimeoutID;
  others : Others;
  scheduled : list (TimeoutID * (TimerTask * Z));
  observed : list LinkEvent
}.

Section ConnectionMachine.
Context `{LiveNodes} `{ConnectionImports}.

Definition set_machine (v : MachineContext) (s : Session) : Session :=
  {| machine := v; token := token s; numberOfRetry := numberOfRetry s;
     timeoutHandles_reconnect := timeoutHandles_reconnect s;
     timeoutHandles_pongTimeout := timeoutHandles_pongTimeout s;
     intervalHandles_heartbeat := intervalHandles_heartbeat s; others := others s;
     scheduled := scheduled s; observed := observed s |}.
Definition set_token (v : option RoomAuthToken) (s : Session) : Session :=
  {| machine := machine s; token := v; numberOfRetry := numberOfRetry s;
     timeoutHandles_reconnect := timeoutHandles_reconnect s;
     timeoutHandles_pongTimeout := timeoutHandles_pongTimeout s;
     intervalHandles_heartbeat := intervalHandles_heartbeat s; others := others s;
     scheduled := scheduled s; observed := observed s |}.
Definition set_numberOfRetry (v : nat) (s : Session) : Session :=
  {| machine := machine s; token := token s; numberOfRetry := v;
     timeoutHandles_reconnect := timeoutHandles_reconnect s;
     timeoutHandles_pongTimeout := timeoutHandles_pongTimeout s;
     intervalHandles_heartbeat := intervalHandles_heartbeat s; others := others s;
     scheduled := scheduled s; observed := observed s |}.
Definition set_timeoutHandles_reconnect (v : option TimeoutID) (s : Session) : Session :=
  {| machine := machine s; token := token s; numberOfRetry := numberOfRetry s;
     timeoutHandles_reconnect := v;
     timeoutHandles_pongTimeout := timeoutHandles_pongTimeout s;
     intervalHandles_heartbeat := intervalHandles_heartbeat s; others := others s;
     scheduled := scheduled s; observed := observed s |}.
Definition set_timeoutHandles_pongTimeout (v : option TimeoutID) (s : Session) : Session :=
  {| machine := machine s; token := token s; numberOfRetry := numberOfRetry s;
     timeoutHandles_reconnect := timeoutHandles_reconnect s;
     timeoutHandles_pongTimeout := v;
     intervalHandles_heartbeat := intervalHandles_heartbeat s; others := others s;
     scheduled := scheduled s; observed := observed s |}.
Definition set_intervalHandles_heartbeat (v : option TimeoutID) (s : Session) : Session :=
  {| machine := machine s; token := token s; numberOfRetry := numberOfRetry s;
     timeoutHandles_reconnect := timeoutHandles_reconnect s;
     timeoutHandles_pongTimeout := timeoutHandles_pongTimeout s;
     intervalHandles_heartbeat := v; others := others s;
     scheduled := scheduled s; observed := observed s |}.
Definition set_others (v : Others) (s : Session) : Session :=
  {| machine := machine s; token := token s; numberOfRetry := numberOfRetry s;
     timeoutHandles_reconnect := timeoutHandles_reconnect s;
     timeoutHandles_pongTimeout := timeoutHandles_pongTimeout s;
     intervalHandles_heartbeat := intervalHandles_heartbeat s; others := v;
     scheduled := scheduled s; observed := observed s |}.
Definition set_scheduled (v : list (TimeoutID * (TimerTask * Z))) (s : Session) : Session :=
  {| machine := machine s; token := token s; numberOfRetry := numberOfRetry s;
     timeoutHandles_reconnect := timeoutHandles_reconnect s;
     timeoutHandles_pongTimeout := timeoutHandles_pongTimeout s;
     intervalHandles_heartbeat := intervalHandles_heartbeat s; others := others s;
     scheduled := v; observed := observed s |}.
Definition set_observed (v : list LinkEvent) (s : Session) : Session :=
  {| machine := machine s; token := token s; numberOfRetry := numberOfRetry s;
     timeoutHandles_reconnect := timeoutHandles_reconnect s;
     timeoutHandles_pongTimeout := timeoutHandles_pongTimeout s;
     intervalHandles_heartbeat := intervalHandles_heartbeat s; others := others s;
     scheduled := scheduled s; observed := v |}.

(** ** Computations on a session *)

Definition L (A : Type) : Type := Session -> Session * Outcome A.

Definition lret {A : Type} (a : A) : L A := fun s => (s, Returned a).

Definition lbind {A B : Type} (m : L A) (k : A -> L B) : L B :=
  fun s =>
    match m s with
    | (s', Returned a) => k a s'
    | (s', Thrown e) => (s', Thrown e)
    end.

Definition lgets {A : Type} (f : Session -> A) : L A := fun s => (s, Returned (f s)).

Definition lmodify (f : Session -> Session) : L unit := fun s => (f s, Returned tt).

(** A function that reads no state: it returns or throws, and the session is
    as it was. *)
Definition settle {A : Type} (o : Outcome A) : L A := fun s => (s, o).

(** A function of the machine, run on the session's context. *)
Definition lift {A : Type} (m : M A) : L A :=
  fun s => (set_machine (fst (m (machine s))) s, snd (m (machine s))).

End ConnectionMachine.

Declare Scope session_scope.
Notation "x <- m ;; k" := (lbind m (fun x => k))
  (at level 100, m at next level, right associativity) : session_scope.
Notation "m ;; k" := (lbind m (fun _ => k))
  (at level 100, right associativity) : session_scope.

Section ConnectionHandlers.
Context `{LiveNodes} `{ConnectionImports} `{RoomConfig}.
Local Open Scope session_scope.

Definition observe (e : LinkEvent) : L unit :=
  lmodify (fun s => set_observed (observed s ++ [e]) s).

(** [setTimeout(task, delay)] and [setInterval(task, delay)]: timers of every
    kind draw their ids from the one counter of the host. *)
Definition setTimer (task : TimerTask) (delay : Z) : L TimeoutID :=
  h <- lift (gets (fun c => nextTimeoutID (world c))) ;;
  lift (modify (fun c => set_world (set_nextTimeoutID (S h) (world c)) c)) ;;
  lmodify (fun s => set_scheduled (scheduled s ++ [(h, (task, delay))]) s) ;;
  lret h.

(** [clearTimeout(handle)] and [clearInterval(handle)]: the timer with this
    id is dropped, whatever it was set for; clearing [undefined] does
    nothing. *)
Definition clearTimer (handle : option TimeoutID) : L unit :=
  lift (clearTimeout handle) ;;
  match handle with
  | None => lret tt
  | Some h =>
      lmodify (fun s =>
        set_scheduled (List.filter (fun t => negb (Nat.eqb (fst t) h)) (scheduled s)) s)
  end.

(** The effects (room.ts 1024-1032). *)
Definition effects_startHeartbeatInterval : L TimeoutID := setTimer TaskHeartbeat HEARTBEAT_INTERVAL.
Definition effects_schedulePongTimeout : L TimeoutID := setTimer TaskPongTimeout PONG_TIMEOUT.
Definition effects_scheduleReconnect (delay : Z) : L TimeoutID := setTimer TaskConnect delay.

(** [updateConnection] (room.ts 1784-1792). *)
Definition updateConnection (conn : Connection) : L unit :=
  lift (modify (set_connection conn)) ;;
  observe (ConnectionNotified (statusOf conn)).

(** [scopes.includes(scope)]. *)
Definition includes (scopes : list string) (scope : string) : bool :=
  existsb (String.eqb scope) scopes.

(** [isStorageReadOnly] (room.ts 1432-1438). *)
Definition isStorageReadOnly (scopes : list string) : bool :=
  includes scopes RoomScope_Read
  && includes scopes RoomScope_PresenceWrite
  && negb (includes scopes RoomScope_Write).

(** [getRetryDelay] (room.ts 1794-1807) as a function of the retry counter;
    an index is always within its table. *)
Definition retryDelay (slow : bool) (n : nat) : Z :=
  if slow then
    nth (if (n <? length BACKOFF_RETRY_DELAYS_SLOW)%nat then n
         else (length BACKOFF_RETRY_DELAYS_SLOW - 1)%nat)
        BACKOFF_RETRY_DELAYS_SLOW 0
  else
    nth (if (n <? length BACKOFF_RETRY_DELAYS)%nat then n
         else (length BACKOFF_RETRY_DELAYS - 1)%nat)
        BACKOFF_RETRY_DELAYS 0.

Definition getRetryDelay (slow : bool) : L Z :=
  n <- lgets numberOfRetry ;;
  lret (retryDelay slow n).

(** [authenticationSuccess] (room.ts 1440-1458); [socket] is the ready state
    of the WebSocket handed in, whose four listeners are attached. *)
Definition authenticationSuccess (tok : RoomAuthToken) (socket0 : ReadyState) : L unit :=
  updateConnection
    (Connecting {| conn_id := token_actor tok;
                   conn_userId := token_id tok;
                   conn_userInfo := token_info tok;
                   conn_isReadOnly := isStorageReadOnly (token_scopes tok) |}) ;;
  lift (modify (set_socket (Some socket0))).

(** [authenticationFailure] (room.ts 1460-1470). *)
Definition authenticationFailure : L unit :=
  lmodify (set_token None) ;;
  updateConnection Unavailable ;;
  lmodify (fun s => set_numberOfRetry (S (numberOfRetry s)) s) ;;
  delay <- getRetryDelay false ;;
  h <- effects_scheduleReconnect delay ;;
  lmodify (set_timeoutHandles_reconnect (Some h)).

(** [effects.authenticate] (room.ts 982-1010), up to the call of the
    endpoint: a token kept from a previous connection that has not expired
    is used again at once, on a new WebSocket (which starts CONNECTING);
    otherwise the endpoint is asked and the promise settles later. *)
Definition effects_authenticate : L unit :=
  prevToken <- lgets token ;;
  now <- lift Date_now ;;
  match prevToken with
  | Some tok =>
      if negb (isTokenExpired tok now) then
        observe (SocketCreated (token_raw tok)) ;;
        authenticationSuccess tok CONNECTING
      else observe AuthenticationRequested
  | None => observe AuthenticationRequested
  end.

(** The [then] of the endpoint's promise (room.ts 996-1003), with the parsed
    token. *)
Definition authenticateResolved (tok : RoomAuthToken) : L unit :=
  conn <- lift (gets connection) ;;
  match conn with
  | Authenticating =>
      observe (SocketCreated (token_raw tok)) ;;
      authenticationSuccess tok CONNECTING ;;
      lmodify (set_token (Some tok))
  | _ => lret tt
  end.

(** [prepareCreateWebSocket] (room.ts 2565-2587), up to the function it
    returns, which [effects.authenticate] calls with the raw token. *)
Definition prepareCreateWebSocket : Outcome unit :=
  if typeof_window_undefined && negb config_polyfills_WebSocket then
    Thrown "To use Liveblocks client in a non-dom environment, you need to provide a WebSocket polyfill."
  else Returned tt.

(** [prepareAuthEndpoint] (room.ts 2589-2637), up to the callback it
    returns, which [effects.authenticate] calls with the room's id. *)
Definition prepareAuthEndpoint : Outcome unit :=
  match config_authentication_type with
  | auth_public =>
      if typeof_window_undefined && negb config_polyfills_fetch then
        Thrown "To use Liveblocks client in a non-dom environment with a publicApiKey, you need to provide a fetch polyfill."
      else Returned tt
  | auth_private =>
      if typeof_window_undefined && negb config_polyfills_fetch then
        Thrown "To use Liveblocks client in a non-dom environment with a url as auth endpoint, you need to provide a fetch polyfill."
      else Returned tt
  | auth_custom => Returned tt
  | auth_unexpected => Thrown "Internal error. Unexpected authentication type"
  end.

(** [connect] (room.ts 1364-1383). *)
Definition connect : L unit :=
  conn <- lift (gets connection) ;;
  match conn with
  | Closed | Unavailable =>
      settle prepareAuthEndpoint ;;
      settle prepareCreateWebSocket ;;
      updateConnection Authenticating ;;
      effects_authenticate
  | _ => lret tt
  end.

(** [if (context.timeoutHandles.flush) clearTimeout(context.timeoutHandles.flush)];
    a timer id is truthy. *)
Definition clearFlushTimer : L unit :=
  flush <- lift (gets timeoutHandles_flush) ;;
  clearTimer flush.

(** [context.socket.close()] once its listeners are removed, and
    [context.socket = null] (room.ts 1867-1874, 1990-1997). *)
Definition dropSocket : L unit :=
  s <- lift (gets socket) ;;
  match s with
  | Some _ =>
      observe SocketClosed ;;
      lift (modify (set_socket None))
  | None => lret tt
  end.

(** [onClose] (room.ts 1735-1782). *)
Definition onClose (event : CloseEvent) : L unit :=
  lift (modify (set_socket None)) ;;
  pong <- lgets timeoutHandles_pongTimeout ;;
  clearTimer pong ;;
  beat <- lgets intervalHandles_heartbeat ;;
  clearTimer beat ;;
  clearFlushTimer ;;
  reconnect0 <- lgets timeoutHandles_reconnect ;;
  clearTimer reconnect0 ;;
  lmodify (fun s => set_others (clearOthers (others s)) s) ;;
  observe OthersReset ;;
  if (4000 <=? close_code event) && (close_code event <=? 4100) then
    updateConnection Failed ;;
    observe (ErrorNotified (close_reason event) (close_code event)) ;;
    delay <- getRetryDelay true ;;
    lmodify (fun s => set_numberOfRetry (S (numberOfRetry s)) s) ;;
    updateConnection Unavailable ;;
    h <- effects_scheduleReconnect delay ;;
    lmodify (set_timeoutHandles_reconnect (Some h))
  else if close_code event =? CLOSE_WITHOUT_RETRY then
    updateConnection Closed
  else
    delay <- getRetryDelay false ;;
    lmodify (fun s => set_numberOfRetry (S (numberOfRetry s)) s) ;;
    updateConnection Unavailable ;;
    h <- effects_scheduleReconnect delay ;;
    lmodify (set_timeoutHandles_reconnect (Some h)).

(** [onOpen] (room.ts 1811-1845).  [context.lastConnectionId] is a number or
    [null], never [undefined], so the presence is always sent again in
    full. *)
Definition onOpen : L unit :=
  beat <- lgets intervalHandles_heartbeat ;;
  clearTimer beat ;;
  h <- effects_startHeartbeatInterval ;;
  lmodify (set_intervalHandles_heartbeat (Some h)) ;;
  conn <- lift (gets connection) ;;
  match conn with
  | Connecting info =>
      updateConnection (Open info) ;;
      lmodify (set_numberOfRetry 0) ;;
      (* Re-broadcast the user presence during a reconnect. *)
      lift (modify (fun c =>
        set_buffer (set_buffer_me (Some {| kind := full; data := Some <$> me c |}) (buffer c)) c)) ;;
      lift tryFlushing ;;
      lift (modify (set_lastConnectionId (Some (conn_id info)))) ;;
      r <- lift (gets root) ;;
      (match r with
       | Some _ =>
           lift (modify (fun c =>
             set_buffer (set_buffer_messages (buffer_messages (buffer c) ++ [FETCH_STORAGE])
                                             (buffer c)) c))
       | None => lret tt
       end) ;;
      lift tryFlushing
  | _ => lret tt
  end.

(** [heartbeat] (room.ts 1847-1859). *)
Definition heartbeat : L unit :=
  s <- lift (gets socket) ;;
  match s with
  | None => lret tt
  | Some readyState =>
      pong <- lgets timeoutHandles_pongTimeout ;;
      clearTimer pong ;;
      h <- effects_schedulePongTimeout ;;
      lmodify (set_timeoutHandles_pongTimeout (Some h)) ;;
      match readyState with
      | OPEN => observe PingSent
      | _ => lret tt
      end
  end.

(** The first case of [onMessage] (room.ts 1612-1615): the frame ["pong"]. *)
Definition onPong : L unit :=
  pong <- lgets timeoutHandles_pongTimeout ;;
  clearTimer pong.

(** [reconnect] (room.ts 1866-1884). *)
Definition reconnect : L unit :=
  dropSocket ;;
  updateConnection Unavailable ;;
  pong <- lgets timeoutHandles_pongTimeout ;;
  clearTimer pong ;;
  clearFlushTimer ;;
  reconnect0 <- lgets timeoutHandles_reconnect ;;
  clearTimer reconnect0 ;;
  beat <- lgets intervalHandles_heartbeat ;;
  clearTimer beat ;;
  connect.

(** [pongTimeout] (room.ts 1861-1864). *)
Definition pongTimeout : L unit := reconnect.

(** [onVisibilityChange] (room.ts 1472-1480); [visible] is
    [visibilityState === "visible"]. *)
Definition onVisibilityChange (visible : bool) : L unit :=
  conn <- lift (gets connection) ;;
  match visible, conn with
  | true, Open _ => heartbeat
  | _, _ => lret tt
  end.

(** [onNavigatorOnline] (room.ts 1550-1555). *)
Definition onNavigatorOnline : L unit :=
  conn <- lift (gets connection) ;;
  match conn with
  | Unavailable => reconnect
  | _ => lret tt
  end.

(** [disconnect] (room.ts 1989-2015). *)
Definition disconnect : L unit :=
  dropSocket ;;
  updateConnection Closed ;;
  clearFlushTimer ;;
  reconnect0 <- lgets timeoutHandles_reconnect ;;
  clearTimer reconnect0 ;;
  pong <- lgets timeoutHandles_pongTimeout ;;
  clearTimer pong ;;
  beat <- lgets intervalHandles_heartbeat ;;
  clearTimer beat ;;
  lmodify (fun s => set_others (clearOthers (others s)) s) ;;
  observe OthersReset ;;
  (* Clear all event listeners *)
  observe HubCleared.

(** [simulateSocketClose] (room.ts 2213-2217). *)
Definition simulateSocketClose : L unit :=
  lift (modify (set_socket None)).

(** A session around a context of the machine, as [makeStateMachine] starts
    it (room.ts 849-899): no token, no retry, no timer. *)
Definition newSession (c : MachineContext) (others0 : Others) : Session :=
  {| machine := c; token := None; numberOfRetry := 0;
     timeoutHandles_reconnect := None; timeoutHandles_pongTimeout := None;
     intervalHandles_heartbeat := None; others := others0;
     scheduled := []; observed := [] |}.

(** ** Vocabulary of the properties of the connection machine *)

Definition inSlowRange (code : Z) : bool := (4000 <=? code) && (code <=? 4100).

(** The close codes after which the room tries again. *)
Definition retries (code : Z) : bool := inSlowRange code || negb (code =? CLOSE_WITHOUT_RETRY).

(** The timers that are left when the one of a handle is cleared, and when
    those of several handles are. *)
Definition scheduledWithout1 {T : Type} (handle : option TimeoutID) (l : list (TimeoutID * T))
  : list (TimeoutID * T) :=
  match handle with
  | None => l
  | Some h => List.filter (fun t => negb (Nat.eqb (fst t) h)) l
  end.

Definition scheduledWithout {T : Type} (handles : list (option TimeoutID))
    (l : list (TimeoutID * T)) : list (TimeoutID * T) :=
  fold_left (fun l handle => scheduledWithout1 handle l) handles l.

(** The pending timers of one kind. *)
Definition pendingOf (task : TimerTask) (s : Session) : list (TimeoutID * (TimerTask * Z)) :=
  List.filter (fun t => match fst (snd t), task with
                        | TaskConnect, TaskConnect
                        | TaskPongTimeout, TaskPongTimeout
                        | TaskHeartbeat, TaskHeartbeat => true
                        | _, _ => false
                        end) (scheduled s).

(** Every pending timer is the one its handle names: one flush timer, one
    reconnect timer, one pong timer and one heartbeat at most. *)
Definition flushTracked (c : MachineContext) : Prop :=
  Forall (fun t => timeoutHandles_flush c = Some (fst t)) (timers (world c)).

Definition handleOf (task : TimerTask) (s : Session) : option TimeoutID :=
  match task with
  | TaskConnect => timeoutHandles_reconnect s
  | TaskPongTimeout => timeoutHandles_pongTimeout s
  | TaskHeartbeat => intervalHandles_heartbeat s
  end.

Definition timersTracked (s : Session) : Prop :=
  flushTracked (machine s)
  /\ Forall (fun t => handleOf (fst (snd t)) s = Some (fst t)) (scheduled s).

(** At most one timer of each kind is pending, and it is the one the handle
    of its kind names. *)
Definition kindTracked (task : TimerTask) (s : Session) : Prop :=
  pendingOf task s = []
  \/ exists h delay, pendingOf task s = [(h, (task, delay))] /\ handleOf task s = Some h.

Definition oneTimerEach (s : Session) : Prop :=
  flushTimerTracked (machine s) /\ forall task, kindTracked task s.

(** The token [effects.authenticate] uses again, if any. *)
Definition reusableToken (s : Session) : option RoomAuthToken :=
  match token s with
  | Some tok => if negb (isTokenExpired tok (now (world (machine s)))) then Some tok else None
  | None => None
  end.

(** The connection [authenticationSuccess] announces for a token. *)
Definition connectingAs (tok : RoomAuthToken) : Connection :=
  Connecting {| conn_id := token_actor tok;
                conn_userId := token_id tok;
                conn_userInfo := token_info tok;
                conn_isReadOnly := isStorageReadOnly (token_scopes tok) |}.

(** What [connect] throws for the configuration of the room, if it throws:
    the error of [prepareAuthEndpoint], or else the one of
    [prepareCreateWebSocket]. *)
Definition configurationError : option string :=
  match prepareAuthEndpoint with
  | Thrown e => Some e
  | Returned _ =>
      match prepareCreateWebSocket with
      | Thrown e => Some e
      | Returned _ => None
      end
  end.

(** What [connect] lets the outside see from a room at rest, with a
    configuration it accepts. *)
Definition connectEvents (s : Session) : list LinkEvent :=
  ConnectionNotified status_authenticating ::
  match reusableToken s with
  | Some tok => [SocketCreated (token_raw tok); ConnectionNotified status_connecting]
  | None => [AuthenticationRequested]
  end.

(** [socket.close()] is called when there is a socket. *)
Definition dropEvents (s : Session) : list LinkEvent :=
  match socket (machine s) with Some _ => [SocketClosed] | None => [] end.

(** At most one timer is pending of each kind that [watched] selects, and
    at most one flush timer. *)
Definition timersOfKinds (watched : TimerTask -> bool) (s : Session) : Prop :=
  flushTimerTracked (machine s) /\ forall task, watched task = true -> kindTracked task s.

(** The kinds of timers other than the reconnect timer. *)
Definition notReconnect (task : TimerTask) : bool :=
  match task with TaskConnect => false | _ => true end.

(** The calls and events that drive the connection machine: the facade's
    [connect], [disconnect] and [reconnect], the authentication that settles
    (the [then] and the [catch] of the endpoint's promise), and the callbacks
    of the socket, the timers and the browser. *)
Inductive ConnectionCall : Type :=
  | CallConnect
  | CallDisconnect
  | CallReconnect
  | AuthenticationSucceeded (tok : RoomAuthToken)
  | AuthenticationFailed
  | SocketOpened
  | SocketClosedWith (event : CloseEvent)
  | PongReceived
  | TimerFired (h : TimeoutID)
  | VisibilityChanged (visible : bool)
  | NavigatorOnline.

(** The socket's [open] event: the socket is OPEN when [onOpen] runs. *)
Definition socketOpens : L unit :=
  s <- lift (gets socket) ;;
  match s with
  | Some _ => lift (modify (set_socket (Some OPEN))) ;; onOpen
  | None => lret tt
  end.

(** A one-shot timer that fires is not pending any more. *)
Definition expire (handle : option TimeoutID) : L unit :=
  lmodify (fun s => set_scheduled (scheduledWithout1 handle (scheduled s)) s).

(** The pending timer with this id fires, whether or not a handle still
    names it: a timeout leaves the pending timers and runs its callback
    ([connect], [pongTimeout] or, for a flush timer, [tryFlushing]), the
    heartbeat interval stays and runs [heartbeat]; an id that names no
    pending timer does nothing. *)
Definition timerFires (h : TimeoutID) : L unit :=
  pending <- lgets scheduled ;;
  match List.find (fun t => Nat.eqb (fst t) h) pending with
  | Some (_, (TaskConnect, _)) => expire (Some h) ;; connect
  | Some (_, (TaskPongTimeout, _)) => expire (Some h) ;; pongTimeout
  | Some (_, (TaskHeartbeat, _)) => heartbeat
  | None =>
      flushes <- lift (gets (fun c => timers (world c))) ;;
      if existsb (fun t => Nat.eqb (fst t) h) flushes
      then lift (clearTimeout (Some h)) ;; lift tryFlushing
      else lret tt
  end.

Definition performConnection (call : ConnectionCall) : L unit :=
  match call with
  | CallConnect => connect
  | CallDisconnect => disconnect
  | CallReconnect => reconnect
  | AuthenticationSucceeded tok => authenticateResolved tok
  | AuthenticationFailed => authenticationFailure
  | SocketOpened => socketOpens
  | SocketClosedWith event => onClose event
  | PongReceived => onPong
  | TimerFired h => timerFires h
  | VisibilityChanged visible => onVisibilityChange visible
  | NavigatorOnline => onNavigatorOnline
  end.

(** Everything that drives a room: the calls of the host on the facade, the
    mutations of live nodes, which reach the room through [pool.dispatch],
    the calls and events of the connection, the storage messages of the
    server, and the wall clock. *)
Inductive RoomCall : Type :=
  | FromHost (call : HostCall)
  | FromLiveNode (ops0 reverse : list Op) (storageUpdates : JsMap.t StorageUpdate)
  | FromConnection (call : ConnectionCall)
  | FromServer (messages : list ServerMsg)
  | TimePasses (elapsed : Z).

Section RoomRuns.
Context `{!LiveObjectApi}.

Definition performRoom (call : RoomCall) : L unit :=
  match call with
  | FromHost call => lift (perform call)
  | FromLiveNode ops0 reverse storageUpdates => lift (pool_dispatch ops0 reverse storageUpdates)
  | FromConnection call => performConnection call
  | FromServer messages => lift (onMessage messages)
  | TimePasses elapsed =>
      lift (modify (fun c => set_world (set_now (now (world c) + elapsed) (world c)) c))
  end.

(** The session after a run of calls, whether or not some of them threw. *)
Definition runRoom (calls : list RoomCall) (s : Session) : Session :=
  fold_left (fun s call => fst (performRoom call s)) calls s.

(** Every storage message of the run is handled to the end: [onMessage]
    returns for it. *)
Fixpoint handlesServerMessages (calls : list RoomCall) (s : Session) : Prop :=
  match calls with
  | [] => True
  | call :: calls =>
      match call with
      | FromServer _ => snd (performRoom call s) = Returned tt
      | _ => True
      end
      /\ handlesServerMessages calls (fst (performRoom call s))
  end.

End RoomRuns.

(** Live nodes give every op they dispatch an id ([pool.generateOpId]). *)
Definition dispatchesIdentifiedOps (call : RoomCall) : Prop :=
  match call with
  | FromLiveNode ops0 _ _ => Forall (fun op => is_Some (opId op)) ops0
  | _ => True
  end.

(** No authentication fails in the call. *)
Definition authenticationHolds (call : RoomCall) : Prop :=
  match call with
  | FromConnection AuthenticationFailed => False
  | _ => True
  end.

End ConnectionHandlers.

(** ** The sessions the handlers leave *)

Section ConnectionEvaluationVocabulary.
Context `{LiveNodes} `{ConnectionImports} `{RoomConfig}.
Local Open Scope session_scope.

(** The session once the timer of a handle is cleared, once those of several
    handles are, once a timer is set, and once the connection is updated. *)
Definition timerCleared (handle : option TimeoutID) (s : Session) : Session :=
  set_scheduled (scheduledWithout1 handle (scheduled s))
    (set_machine
       (set_world (set_timers (scheduledWithout1 handle (timers (world (machine s))))
                              (world (machine s)))
                  (machine s)) s).

Definition timersCleared (handles : list (option TimeoutID)) (s : Session) : Session :=
  fold_left (fun s handle => timerCleared handle s) handles s.

Definition timerSet (task : TimerTask) (delay : Z) (s : Session) : Session :=
  set_scheduled (scheduled s ++ [(nextTimeoutID (world (machine s)), (task, delay))])
    (set_machine
       (set_world (set_nextTimeoutID (S (nextTimeoutID (world (machine s)))) (world (machine s)))
                  (machine s)) s).

Definition set_handle (task : TimerTask) (v : option TimeoutID) (s : Session) : Session :=
  match task with
  | TaskConnect => set_timeoutHandles_reconnect v s
  | TaskPongTimeout => set_timeoutHandles_pongTimeout v s
  | TaskHeartbeat => set_intervalHandles_heartbeat v s
  end.

(** A timer is set and its handle kept. *)
Definition armed (task : TimerTask) (delay : Z) (s : Session) : Session :=
  set_handle task (Some (nextTimeoutID (world (machine s)))) (timerSet task delay s).

Definition connectionUpdated (conn : Connection) (s : Session) : Session :=
  set_observed (observed s ++ [ConnectionNotified (statusOf conn)])
    (set_machine (set_connection conn (machine s)) s).

Definition observedAlso (e : LinkEvent) (s : Session) : Session :=
  set_observed (observed s ++ [e]) s.

(** The session once [socket.close()] is called on the socket there is. *)
Definition socketDropped (s : Session) : Session :=
  match socket (machine s) with
  | Some _ => set_machine (set_socket None (machine s)) (observedAlso SocketClosed s)
  | None => s
  end.

(** What [connect] makes of a room at rest, with a configuration it
    accepts. *)
Definition connectStarted (s : Session) : Session :=
  match reusableToken s with
  | Some tok =>
      set_machine (set_socket (Some CONNECTING) (set_connection (connectingAs tok) (machine s)))
        (set_observed (observed s ++ connectEvents s) s)
  | None =>
      set_machine (set_connection Authenticating (machine s))
        (set_observed (observed s ++ connectEvents s) s)
  end.

Definition atRest (conn : Connection) : bool :=
  match conn with Closed | Unavailable => true | _ => false end.

(** The retry of [onClose] and [authenticationFailure]: the counter grows
    and a reconnect is scheduled. *)
Definition retryScheduled (delay : Z) (s : Session) : Session :=
  armed TaskConnect delay
    (connectionUpdated Unavailable (set_numberOfRetry (S (numberOfRetry s)) s)).

(** The session after [onClose], [disconnect], [reconnect] and
    [heartbeat]. *)
Definition closedWith (event : CloseEvent) (s : Session) : Session :=
  let s1 :=
    observedAlso OthersReset
      (set_others (clearOthers (others s))
         (timersCleared [timeoutHandles_pongTimeout s; intervalHandles_heartbeat s;
                         timeoutHandles_flush (machine s); timeoutHandles_reconnect s]
            (set_machine (set_socket None (machine s)) s))) in
  if inSlowRange (close_code event) then
    retryScheduled (retryDelay true (numberOfRetry s))
      (observedAlso (ErrorNotified (close_reason event) (close_code event))
         (connectionUpdated Failed s1))
  else if close_code event =? CLOSE_WITHOUT_RETRY then connectionUpdated Closed s1
  else retryScheduled (retryDelay false (numberOfRetry s)) s1.

Definition disconnected (s : Session) : Session :=
  observedAlso HubCleared
    (observedAlso OthersReset
       (set_others (clearOthers (others s))
          (timersCleared [timeoutHandles_flush (machine s); timeoutHandles_reconnect s;
                          timeoutHandles_pongTimeout s; intervalHandles_heartbeat s]
             (connectionUpdated Closed (socketDropped s))))).

(** What [reconnect] makes of a room before it calls [connect]: the socket
    dropped, the room unavailable, the four timers cleared. *)
Definition tornDown (s : Session) : Session :=
  timersCleared [timeoutHandles_pongTimeout s; timeoutHandles_flush (machine s);
                 timeoutHandles_reconnect s; intervalHandles_heartbeat s]
    (connectionUpdated Unavailable (socketDropped s)).

Definition reconnected (s : Session) : Session := connectStarted (tornDown s).

Definition heartbeaten (s : Session) : Session :=
  match socket (machine s) with
  | None => s
  | Some readyState =>
      let s1 := armed TaskPongTimeout PONG_TIMEOUT (timerCleared (timeoutHandles_pongTimeout s) s) in
      match readyState with
      | OPEN => observedAlso PingSent s1
      | _ => s1
      end
  end.

End ConnectionEvaluationVocabulary.

Section ConnectionPropertiesVocabulary.
Context `{LiveNodes} `{ConnectionImports} `{RoomConfig}.
Local Open Scope session_scope.

(** A pending timer is of the given kind. *)
Definition ofKind (task : TimerTask) (t : TimeoutID * (TimerTask * Z)) : bool :=
  match fst (snd t), task with
  | TaskConnect, TaskConnect
  | TaskPongTimeout, TaskPongTimeout
  | TaskHeartbeat, TaskHeartbeat => true
  | _, _ => false
  end.

(** Computations that keep at most one timer of each watched kind. *)
Definition keepsKinds (watched : TimerTask -> bool) {A : Type} (m : L A) : Prop :=
  forall s, timersOfKinds watched s -> timersOfKinds watched (fst (m s)).

(** The session after the socket closed once for each event. *)
Definition closedRepeatedly (events : list CloseEvent) (s : Session) : Session :=
  fold_left (fun s event => fst (onClose event s)) events s.

(** Computations on a session that keep the storage status known. *)
Definition keepsStatus {A : Type} (m : L A) : Prop :=
  forall s, statusKnown (machine s) -> statusKnown (machine (fst (m s))).

End ConnectionPropertiesVocabulary.

(** ** The classic [subscribe] (room.ts 2416-2545) *)

(** The event sources of the machine ([machine.events]). *)
Inductive EventSource : Type :=
  | hub_customEvent
  | hub_me
  | hub_others
  | hub_error
  | hub_connection
  | hub_storage
  | hub_history
  | hub_storageDidLoad
  | hub_storageStatus.

(** [isRoomEventName] (room.ts 2547-2557). *)
Definition isRoomEventName (value : string) : bool :=
  String.eqb value "my-presence"
  || String.eqb value "others"
  || String.eqb value "event"
  || String.eqb value "error"
  || String.eqb value "connection"
  || String.eqb value "history"
  || String.eqb value "storage-status".

Section ClassicSubscribe.
Context `{LiveNodes}.

(** The functions a host passes as callbacks. *)
Variable Callback : Type.

(** An argument of [subscribe] as its [typeof] and [isLiveNode] tell it
    apart: a string, a function, a live node, [undefined], or anything else,
    with the text a template literal makes of it. *)
Inductive SubscribeArg : Type :=
  | ArgString (value : string)
  | ArgFunction (callback : Callback)
  | ArgLiveNode (node : LiveNode)
  | ArgUndefined
  | ArgOther (rendering : string).

(** What ends up subscribed, and to which source: the callback itself, the
    wrapper that hands [others] and [event] as two arguments, or the deep or
    shallow filter for a live node around the second argument. *)
Inductive Listener : Type :=
  | Direct (callback : Callback)
  | OthersAdapter (callback : Callback)
  | Deeply (node : LiveNode) (second : SubscribeArg)
  | Shallowly (node : LiveNode) (second : SubscribeArg).

Definition doubleQuote : string := String (Ascii.ascii_of_nat 34) "".

(** [`"${first}" is not a valid event name`]; a function never gets there. *)
Definition notAnEventName (first : SubscribeArg) : string :=
  let rendering :=
    match first with
    | ArgString value => value
    | ArgOther rendering => rendering
    | ArgUndefined => "undefined"
    | ArgLiveNode _ => "[object Object]"
    | ArgFunction _ => "function"
    end in
  doubleQuote +:+ rendering +:+ doubleQuote +:+ " is not a valid event name".

(** [subscribe] of [makeClassicSubscribeFn] (room.ts 2460-2542); [isDeep]
    is [options?.isDeep]. *)
Definition subscribe (first second : SubscribeArg) (isDeep : option bool)
  : Outcome (EventSource * Listener) :=
  let otherwise :=
    match second, first with
    | _, ArgFunction storageCallback => Returned (hub_storage, Direct storageCallback)
    | ArgUndefined, _ => Thrown "Please specify a listener callback"
    | _, ArgLiveNode node =>
        if default false isDeep then Returned (hub_storage, Deeply node second)
        else Returned (hub_storage, Shallowly node second)
    | _, _ => Thrown (notAnEventName first)
    end in
  match first with
  | ArgString name =>
      if isRoomEventName name then
        match second with
        | ArgFunction callback =>
            if String.eqb name "event" then Returned (hub_customEvent, Direct callback)
            else if String.eqb name "my-presence" then Returned (hub_me, Direct callback)
            else if String.eqb name "others" then
              (* NOTE: Others have a different callback structure, where the
                 API exposed on the outside takes _two_ callback arguments! *)
              Returned (hub_others, OthersAdapter callback)
            else if String.eqb name "error" then Returned (hub_error, Direct callback)
            else if String.eqb name "connection" then Returned (hub_connection, Direct callback)
            else if String.eqb name "storage" then Returned (hub_storage, Direct callback)
            else if String.eqb name "history" then Returned (hub_history, Direct callback)
            else if String.eqb name "storage-status" then
              Returned (hub_storageStatus, Direct callback)
            else Thrown "Unknown event"
        | _ => Thrown "Second argument must be a callback function"
        end
      else otherwise
  | _ => otherwise
  end.

(** The events a host can subscribe to by name. *)
Definition namedEvents : list (string * EventSource) :=
  [("event", hub_customEvent); ("my-presence", hub_me); ("others", hub_others);
   ("error", hub_error); ("connection", hub_connection); ("history", hub_history);
   ("storage-status", hub_storageStatus)].

Definition lookupEvent (name : string) : option EventSource :=
  snd <$> List.find (fun entry => String.eqb name (fst entry)) namedEvents.

End ClassicSubscribe.

Arguments ArgString {_ Callback} value.
Arguments ArgFunction {_ Callback} callback.
Arguments ArgLiveNode {_ Callback} node.
Arguments ArgUndefined {_ Callback}.
Arguments ArgOther {_ Callback} rendering.
Arguments Direct {_ Callback} callback.
Arguments OthersAdapter {_ Callback} callback.
Arguments Deeply {_ Callback} node second.
Arguments Shallowly {_ Callback} node second.
Arguments notAnEventName {_ Callback} first.
Arguments subscribe {_ Callback} first second isDeep.

(** ** A pool in which objects can be created

    The flat pool with an [_attachChild] that creates the object a
    CREATE_OBJECT op names, under the key of the op, and reports the parent
    as the node that changed. *)
Module NestedObjects.
Import FlatObjects.

Definition attachObject (parent : string) (op : Op) (st : JsMap.t (JsMap.t Json))
  : JsMap.t (JsMap.t Json) * ApplyResult Update :=
  match op_type op with
  | CREATE_OBJECT =>
      (JsMap.set (op_id op) (fieldsOf (op_data op)) st,
       Modified {| upd_node := parent; upd_keys := [default "" (parentKey op)] |}
                [ {| op_type := DELETE_CRDT; opId := None; op_id := op_id op;
                     parentId := None; parentKey := None; op_data := JNull |} ])
  | _ => (st, NotModified)
  end.

Definition nestedNodes : LiveNodes := {|
  Store := JsMap.t (JsMap.t Json);
  LiveNode := string;
  Lson := Json;
  StorageUpdate := Update;
  emptyStore := JsMap.empty;
  getNode st id := if JsMap.has id st then Some id else None;
  updatedNodeId u := Some (upd_node u);
  node_apply := applyToObject;
  listParent _ _ := None;
  list_setChildKey _ _ _ _ st := (st, NotModified);
  node_attachChild parent op _ st := attachObject parent op st;
  mergeStorageUpdates first second :=
    match first with
    | Some u => {| upd_node := upd_node u; upd_keys := upd_keys u ++ upd_keys second |}
    | None => second
    end;
  deserializeRoot item _ st :=
    (JsMap.set (fst item) (fieldsOf (crdt_data (snd item))) st, fst item);
  serializeNodes st := map serializeObject st;
  getTreesDiffOperations := diff;
  liveObject_get st node key :=
    match JsMap.get node st with
    | Some fields => JsMap.get key fields
    | None => None
    end
|}.

(** A room of this pool that holds an empty root. *)
Definition rootOnly : @MachineContext nestedNodes :=
  @set_nodes nestedNodes (JsMap.set "root" [] JsMap.empty)
    (@initialContext nestedNodes 100 ∅ None).

(** [root.set("child", new LiveObject({ a: 0 }))] and [child.set("a", 1)] as
    the ops that arrive in one frame. *)
Definition createChild : Op :=
  {| op_type := CREATE_OBJECT; opId := Some "7:1"; op_id := "child";
     parentId := Some "root"; parentKey := Some "child"; op_data := JObj [("a", JNum 0)] |}.

Definition updateChild : Op :=
  {| op_type := UPDATE_OBJECT; opId := Some "7:2"; op_id := "child";
     parentId := None; parentKey := None; op_data := JObj [("a", JNum 1)] |}.

End NestedObjects.

(** ** Concrete sessions

    Runs of the connection machine on the flat-object pool.  The imports get
    values to run with: the three scope names, 4999 for CLOSE_WITHOUT_RETRY,
    tokens that expire once the wall clock reads an hour, and the connection
    ids of the other users for the others.  The rooms are made in a browser,
    where [connect] accepts the configuration. *)
Module Sessions.
Import FlatObjects Rooms.

#[export] Instance browserImports : ConnectionImports := {|
  CLOSE_WITHOUT_RETRY := 4999;
  RoomScope_Read := "room:read";
  RoomScope_Write := "room:write";
  RoomScope_PresenceWrite := "room:presence:write";
  isTokenExpired _ t := 3600000 <=? t;
  Others := list Z;
  clearOthers _ := []
|}.

(** A room made in a browser with a public API key and no polyfill. *)
#[export] Instance browserConfig : RoomConfig := {|
  config_authentication_type := auth_public;
  config_polyfills_fetch := false;
  config_polyfills_WebSocket := false;
  typeof_window_undefined := false
|}.

(** The same room made where there is no [window] (a server, a test runner
    without DOM), still without a polyfill. *)
Definition serverConfig : RoomConfig := {|
  config_authentication_type := auth_public;
  config_polyfills_fetch := false;
  config_polyfills_WebSocket := false;
  typeof_window_undefined := true
|}.

(** A room just created, when the wall clock reads 1000; users 3 and 4 are
    in the room. *)
Definition startedSession : Session :=
  newSession (set_world (set_now 1000 (world newRoom)) newRoom) [3; 4].

Definition token7 : RoomAuthToken :=
  {| token_raw := "raw-token"; token_actor := 7; token_id := None; token_info := None;
     token_scopes := ["room:write"] |}.

(** A token that lets its user read the storage and write the presence. *)
Definition readOnlyToken : RoomAuthToken :=
  {| token_raw := "raw-read-only-token"; token_actor := 8; token_id := None;
     token_info := None; token_scopes := ["room:read"; "room:presence:write"] |}.

(** [connect()] was called: the room waits for the authentication endpoint. *)
Definition authenticatingSession : Session :=
  runRoom [FromConnection CallConnect] startedSession.

(** [connect()] was called and the authentication endpoint answered: the
    socket exists but is not open yet. *)
Definition connectingSession : Session :=
  runRoom [FromConnection CallConnect; FromConnection (AuthenticationSucceeded token7)]
          startedSession.

(** The socket of the connecting room is OPEN and [onOpen] is about to run. *)
Definition openingSession : Session :=
  set_machine (set_socket (Some OPEN) (machine connectingSession)) connectingSession.

(** The socket opened: the heartbeat interval runs. *)
Definition openSession : Session := runRoom [FromConnection SocketOpened] connectingSession.

(** A heartbeat later (the interval, timer 0, fired): a pong timeout is
    pending too. *)
Definition beatingSession : Session := runRoom [FromConnection (TimerFired 0)] openSession.

(** The authentication fails twice in a row: [connect()], then
    [reconnect()] while the first request is pending, then both requests
    are rejected. *)
Definition twiceFailedSession : Session :=
  runRoom [FromConnection CallConnect; FromConnection CallReconnect;
           FromConnection AuthenticationFailed; FromConnection AuthenticationFailed]
          startedSession.

(** A room made with [initialStorage: { b: 2 }], entered with the read-only
    token; its storage was requested. *)
Definition readOnlyLoadingSession : Session :=
  runRoom [FromConnection CallConnect; FromConnection (AuthenticationSucceeded readOnlyToken);
           FromConnection SocketOpened; FromHost CallGetStorage]
          (newSession (set_world (set_now 1000 (world newRoom))
                         (initialContext 100 {[ "cursor" := JNull ]} (Some [("b", JNum 2)])))
                      [3; 4]).

(** An abnormal close, and a close with a code of the slow range. *)
Definition abnormalClose : CloseEvent :=
  {| close_code := 1006; close_wasClean := false; close_reason := "" |}.

Definition tooManyConnections : CloseEvent :=
  {| close_code := 4005; close_wasClean := true; close_reason := "too many connections" |}.

End Sessions.

(** * Properties *)

(** ** The insertion-ordered map *)

Lemma JsMap_get_set_eq {V : Type} (k : string) (v : V) (m : JsMap.t V) :
  JsMap.get k (JsMap.set k v m) = Some v.
Proof.
  induction m as [|[k' v'] m IH]; simpl.
  - by rewrite String.eqb_refl.
  - destruct (String.eqb_spec k' k) as [->|Hne]; simpl.
    + by rewrite String.eqb_refl.
    + destruct (String.eqb_spec k' k); [done|]. exact IH.
Qed.

Lemma JsMap_get_set_ne {V : Type} (k k' : string) (v : V) (m : JsMap.t V) :
  k <> k' -> JsMap.get k' (JsMap.set k v m) = JsMap.get k' m.
Proof.
  intros Hne. induction m as [|[k0 v0] m IH]; simpl.
  - destruct (String.eqb_spec k k'); [done|reflexivity].
  - destruct (String.eqb_spec k0 k) as [->|Hk0]; simpl.
    + destruct (String.eqb_spec k k'); [done|reflexivity].
    + destruct (String.eqb_spec k0 k'); [reflexivity|exact IH].
Qed.

Lemma JsMap_get_delete_eq {V : Type} (k : string) (m : JsMap.t V) :
  JsMap.get k (JsMap.delete k m) = None.
Proof.
  unfold JsMap.delete. induction m as [|[k' v'] m IH]; [reflexivity|].
  cbn. destruct (String.eqb_spec k' k) as [->|Hne]; cbn.
  - exact IH.
  - destruct (String.eqb_spec k' k); [done|exact IH].
Qed.

Lemma JsMap_get_delete_None {V : Type} (k k' : string) (m : JsMap.t V) :
  JsMap.get k' m = None -> JsMap.get k' (JsMap.delete k m) = None.
Proof.
  unfold JsMap.delete. induction m as [|[k0 v0] m IH]; [reflexivity|].
  cbn. destruct (String.eqb_spec k0 k') as [->|Hne]; [discriminate|].
  intros Hm. destruct (String.eqb_spec k0 k); cbn; [by apply IH|].
  destruct (String.eqb_spec k0 k'); [done|by apply IH].
Qed.

Lemma JsMap_has_get {V : Type} (k : string) (m : JsMap.t V) :
  JsMap.has k m = true <-> is_Some (JsMap.get k m).
Proof.
  unfold JsMap.has. destruct (JsMap.get k m); split; try done; by intros [? ?].
Qed.

Lemma pop_snoc {A : Type} (l : list A) (x : A) : pop (l ++ [x]) = Some (l, x).
Proof.
  unfold pop. rewrite last_snoc. by rewrite removelast_last.
Qed.

Lemma pop_nil {A : Type} : pop (@nil A) = None.
Proof. reflexivity. Qed.

Lemma pop_Some {A : Type} (l rest : list A) (x : A) :
  pop l = Some (rest, x) -> l = rest ++ [x].
Proof.
  unfold pop. destruct l as [|a l] using rev_ind; [done|].
  rewrite last_snoc, removelast_last. by intros [= <- <-].
Qed.

(** ** Frame reasoning: what a computation leaves alone *)

Section Frames.
Context `{LiveNodes}.

Lemma preserves_ret {A B : Type} (f : MachineContext -> A) (b : B) :
  preserves f (ret b).
Proof. by intros c. Qed.

Lemma preserves_throw {A B : Type} (f : MachineContext -> A) (e : string) :
  preserves f (throw (A := B) e).
Proof. by intros c. Qed.

Lemma preserves_gets {A B : Type} (f : MachineContext -> A) (g : MachineContext -> B) :
  preserves f (gets g).
Proof. by intros c. Qed.

Lemma preserves_modify {A : Type} (f : MachineContext -> A)
    (g : MachineContext -> MachineContext) :
  (forall c, f (g c) = f c) -> preserves f (modify g).
Proof. intros Hg c. apply Hg. Qed.

Lemma preserves_bind {A B C : Type} (f : MachineContext -> A) (m : M B) (k : B -> M C) :
  preserves f m -> (forall b, preserves f (k b)) -> preserves f (bind m k).
Proof.
  intros Hm Hk c. unfold bind. specialize (Hm c).
  destruct (m c) as [c' [b|e]]; simpl in *; [|done].
  by rewrite (Hk b c').
Qed.

Lemma preserves_forEach {A B : Type} (f : MachineContext -> A) (g : B -> M unit)
    (l : list B) :
  (forall b, preserves f (g b)) -> preserves f (forEach g l).
Proof.
  intros Hg. induction l as [|b l IH]; simpl.
  - apply preserves_ret.
  - apply preserves_bind; [apply Hg|by intros _].
Qed.

Lemma preserves_mapM {A B C : Type} (f : MachineContext -> A) (g : B -> M C) (l : list B) :
  (forall b, preserves f (g b)) -> preserves f (mapM g l).
Proof.
  intros Hg. induction l as [|b l IH]; simpl.
  - apply preserves_ret.
  - apply preserves_bind; [apply Hg|intros y].
    apply preserves_bind; [apply IH|intros ys]. apply preserves_ret.
Qed.

Lemma preserves_foldM {A B S : Type} (f : MachineContext -> A) (g : S -> B -> M S)
    (l : list B) (s : S) :
  (forall s b, preserves f (g s b)) -> preserves f (foldM g l s).
Proof.
  intros Hg. revert s. induction l as [|b l IH]; intros s; simpl.
  - apply preserves_ret.
  - apply preserves_bind; [apply Hg|intros s']. apply IH.
Qed.

Lemma preserves_try_finally {A B : Type} (f : MachineContext -> A) (body : M B)
    (cleanup : M unit) :
  preserves f body -> preserves f cleanup -> preserves f (try_finally body cleanup).
Proof.
  intros Hb Hc c. unfold try_finally. specialize (Hb c).
  destruct (body c) as [c1 r]; simpl in *. specialize (Hc c1).
  destruct (cleanup c1) as [c2 [[]|e]]; simpl in *; congruence.
Qed.

End Frames.

Create HintDb machine.
#[global] Hint Unfold nn emit effects_send clearTimeout effects_delayFlush Date_now
  notifyStorageStatus onHistoryChange _addToRealUndoStack addToUndoStack notify
  tryFlushing dispatchOps getConnectionId pool_generateOpId runOnNodes applyOp
  assignOpId decideSource applyOps_body applyOps pushStorageOperations : machine.

Ltac frame_step :=
  lazymatch goal with
  | |- preserves _ (ret _) => apply preserves_ret
  | |- preserves _ (throw _) => apply preserves_throw
  | |- preserves _ (gets _) => apply preserves_gets
  | |- preserves _ (modify _) => apply preserves_modify; intros; reflexivity
  | |- preserves _ (bind _ _) => apply preserves_bind; [|intros]
  | |- preserves _ (forEach _ _) => apply preserves_forEach; intros
  | |- preserves _ (mapM _ _) => apply preserves_mapM; intros
  | |- preserves _ (foldM _ _ _) => apply preserves_foldM; intros
  | |- preserves _ (match ?x with _ => _ end) => destruct x
  | |- preserves _ _ => progress (autounfold with machine; cbv zeta)
  end.

Ltac frame := repeat frame_step.

Section FrameLemmas.
Context `{LiveNodes}.

Lemma tryFlushing_undoStack : preserves undoStack tryFlushing.
Proof. frame. Qed.

Lemma tryFlushing_redoStack : preserves redoStack tryFlushing.
Proof. frame. Qed.

Lemma tryFlushing_pausedHistory : preserves pausedHistory tryFlushing.
Proof. frame. Qed.

Lemma applyOps_undoStack l isLocal : preserves undoStack (applyOps l isLocal).
Proof. frame. Qed.

Lemma applyOps_redoStack l isLocal : preserves redoStack (applyOps l isLocal).
Proof. frame. Qed.

Lemma applyOps_pausedHistory l isLocal : preserves pausedHistory (applyOps l isLocal).
Proof. frame. Qed.



End FrameLemmas.

(** ** Evaluation lemmas *)

Section Evaluation.
Context `{LiveNodes}.

Lemma bind_returned {A B : Type} (m : M A) (k : A -> M B) c c1 a :
  m c = (c1, Returned a) -> bind m k c = k a c1.
Proof. intros Hm. unfold bind. by rewrite Hm. Qed.

Lemma bind_thrown {A B : Type} (m : M A) (k : A -> M B) c c1 e :
  m c = (c1, Thrown e) -> bind m k c = (c1, Thrown e).
Proof. intros Hm. unfold bind. by rewrite Hm. Qed.

Lemma bind_gets {A B : Type} (f : MachineContext -> A) (k : A -> M B) c :
  bind (gets f) k c = k (f c) c.
Proof. reflexivity. Qed.

Lemma bind_modify {B : Type} (g : MachineContext -> MachineContext) (k : unit -> M B) c :
  bind (modify g) k c = k tt (g c).
Proof. reflexivity. Qed.

(** When the continuation leaves [f] alone, [f] after the whole computation
    is [f] after its first part, whether or not anything throws. *)
Lemma bind_frame {A B C : Type} (f : MachineContext -> C) (m : M A) (k : A -> M B) c :
  (forall a, preserves f (k a)) -> f (fst (bind m k c)) = f (fst (m c)).
Proof.
  intros Hk. unfold bind. destruct (m c) as [c1 [a|e]]; simpl; [apply Hk|reflexivity].
Qed.

Lemma notifyStorageStatus_eval c :
  notifyStorageStatus c = (statusNotified c, Returned tt).
Proof.
  unfold notifyStorageStatus, statusNotified, bind, gets, emit, modify. simpl.
  by destruct (negb _).
Qed.

Lemma addToUndoStack_returns h c : snd (addToUndoStack h c) = Returned tt.
Proof.
  unfold addToUndoStack, _addToRealUndoStack, onHistoryChange, emit, bind, gets, modify.
  destruct (pausedHistory c); [reflexivity|].
  by destruct (_ <=? _)%nat.
Qed.

Lemma notify_returns su p c : snd (notify su p c) = Returned tt.
Proof.
  unfold notify, emit, bind, gets, modify. simpl.
  destruct p; simpl; by destruct (negb _).
Qed.

Lemma tryFlushing_phases c :
  tryFlushing c =
  (registerUnacknowledged (buffer_storageOperations (buffer c)) ;; flushOrDelay) c.
Proof. reflexivity. Qed.

Lemma set_unacknowledgedOps_same c :
  set_unacknowledgedOps (unacknowledgedOps c) c = c.
Proof. by destruct c. Qed.

Lemma forEach_register storageOps c :
  Forall (fun op => is_Some (opId op)) storageOps ->
  forEach (fun op =>
             id <- nn (opId op) ;;
             modify (fun c => set_unacknowledgedOps (JsMap.set id op (unacknowledgedOps c)) c))
          storageOps c
  = (set_unacknowledgedOps (registered storageOps (unacknowledgedOps c)) c, Returned tt).
Proof.
  intros Hall. revert c. induction Hall as [|op l [id Hid] _ IH]; intros c.
  - simpl. unfold ret. by rewrite set_unacknowledgedOps_same.
  - simpl. unfold bind at 1. unfold bind at 1. rewrite Hid. simpl.
    rewrite IH. reflexivity.
Qed.

Lemma registerUnacknowledged_eval storageOps c :
  Forall (fun op => is_Some (opId op)) storageOps ->
  registerUnacknowledged storageOps c =
  (if negb (Nat.eqb (length storageOps) 0)
   then statusNotified (set_unacknowledgedOps (registered storageOps (unacknowledgedOps c)) c)
   else c, Returned tt).
Proof.
  intros Hall. unfold registerUnacknowledged.
  destruct (negb _); [|reflexivity].
  rewrite (bind_returned _ _ _ _ _ (forEach_register _ c Hall)).
  apply notifyStorageStatus_eval.
Qed.

Lemma flushOrDelay_unacknowledgedOps : preserves unacknowledgedOps flushOrDelay.
Proof. unfold flushOrDelay. frame. Qed.

Lemma registered_lookup storageOps ledger op id :
  Forall (fun op => is_Some (opId op)) storageOps ->
  NoDup (map opId storageOps) ->
  op ∈ storageOps -> opId op = Some id ->
  JsMap.get id (registered storageOps ledger) = Some op.
Proof.
  unfold registered.
  induction storageOps as [|o l IH] using rev_ind; intros Hall Hnd Hin Hid.
  - by apply elem_of_nil in Hin.
  - rewrite fold_left_app. simpl.
    apply Forall_app in Hall as [Hall Ho].
    rewrite map_app in Hnd. apply NoDup_app in Hnd as (Hnd & Hdisj & _).
    apply elem_of_app in Hin as [Hin|Hin].
    + apply Forall_singleton in Ho as [id' Hid']. rewrite Hid'. simpl.
      rewrite JsMap_get_set_ne; [by apply IH|].
      intros ->. apply (Hdisj (Some id)).
      * apply list_elem_of_In, in_map_iff. exists op. by rewrite <- list_elem_of_In.
      * simpl. rewrite Hid'. by apply list_elem_of_singleton.
    + apply list_elem_of_singleton in Hin as ->. rewrite Hid. simpl.
      apply JsMap_get_set_eq.
Qed.


(** *** What [applyOps] does to the ledger and which source each op gets *)

Lemma hasOpId_Some op : hasOpId op = true -> exists id, opId op = Some id /\ id <> "".
Proof.
  unfold hasOpId. destruct (opId op) as [id|]; [|done].
  intros Hne. exists id. split; [done|]. intros ->. done.
Qed.

Lemma assignOpId_carries op c : carriesOpId op -> assignOpId op c = (c, Returned op).
Proof.
  destruct op as [o|d]; simpl; [|done]. intros ->. reflexivity.
Qed.

Lemma mapM_assignOpId l c : Forall carriesOpId l -> mapM assignOpId l c = (c, Returned l).
Proof.
  induction 1 as [|op l Hop _ IH]; [reflexivity|].
  simpl. rewrite (bind_returned _ _ _ _ _ (assignOpId_carries op c Hop)).
  by rewrite (bind_returned _ _ _ _ _ IH).
Qed.

Lemma applyOp_spec op source c :
  exists c1 r, applyOp op source c = (c1, Returned r)
    /\ applied (world c1) = applied (world c) ++ [(op, source)]
    /\ unacknowledgedOps c1 = unacknowledgedOps c.
Proof.
  unfold applyOp, runOnNodes, bind, gets, modify, ret. simpl.
  repeat case_match; simplify_eq; eexists _, _; split_and!; reflexivity.
Qed.

Lemma decideSource_eval isLocal op id c :
  opId op = Some id ->
  decideSource isLocal op c =
  (set_unacknowledgedOps (ledgerAfterOp isLocal (unacknowledgedOps c) op) c,
   Returned (sourceFor isLocal (unacknowledgedOps c) op)).
Proof.
  intros Hid. unfold decideSource, sourceFor, ledgerAfterOp.
  destruct isLocal.
  - unfold ret. by rewrite set_unacknowledgedOps_same.
  - unfold bind, gets, modify, ret, nn. rewrite Hid. reflexivity.
Qed.

Lemma getConnectionId_eval c :
  getConnectionId c =
  (c, match connection c with
      | Connecting info | Open info => Returned (conn_id info)
      | _ => match lastConnectionId c with
             | Some id => Returned id
             | None => Thrown "Internal. Tried to get connection id but connection was never open"
             end
      end).
Proof.
  unfold getConnectionId. rewrite bind_gets.
  destruct (connection c); try reflexivity; rewrite bind_gets;
    by destruct (lastConnectionId c).
Qed.

Lemma opIdOf_nonempty actor n : opIdOf actor n <> "".
Proof.
  unfold opIdOf. destruct (pretty actor) as [|ch s]; simpl; discriminate.
Qed.

Lemma pool_generateOpId_eval c actor :
  snd (getConnectionId c) = Returned actor ->
  pool_generateOpId c
  = (set_opClock (Number_increment (opClock c)) c, Returned (opIdOf actor (opClock c))).
Proof.
  intros Hconn. unfold pool_generateOpId. rewrite getConnectionId_eval in Hconn.
  unfold bind at 1. rewrite getConnectionId_eval. simpl in Hconn. rewrite Hconn. reflexivity.
Qed.



Section WithIdentifiedUpdates.
(** Every node of the pool has an id, so every update names its node. *)
Hypothesis updates_name_their_node : forall u : StorageUpdate, is_Some (updatedNodeId u).

Lemma applyOps_body_spec isLocal acc op c :
  carriesOpId op ->
  exists c1 acc1, applyOps_body isLocal acc op c = (c1, Returned acc1)
    /\ applied (world c1) = applied (world c) ++ tracedSources isLocal (unacknowledgedOps c) [op]
    /\ unacknowledgedOps c1 = ledgerAfterOps isLocal (unacknowledgedOps c) [op].
Proof.
  intros Hop. destruct op as [o|d]; simpl.
  - apply hasOpId_Some in Hop as (id & Hid & _).
    unfold applyOps_body.
    rewrite (bind_returned _ _ _ _ _ (decideSource_eval isLocal o id c Hid)).
    destruct (applyOp_spec o (sourceFor isLocal (unacknowledgedOps c) o)
                (set_unacknowledgedOps (ledgerAfterOp isLocal (unacknowledgedOps c) o) c))
      as (c1 & r & Happly & Hlog & Hledger).
    rewrite (bind_returned _ _ _ _ _ Happly).
    destruct r as [|m rev].
    + eexists _, _. split; [reflexivity|]. split; [exact Hlog|exact Hledger].
    + destruct (updates_name_their_node m) as [nid Hnid].
      cbv zeta. rewrite Hnid.
      destruct (negb (createdInSameBatch (Some nid) (snd acc)));
        unfold bind, ret, nn; eexists _, _; (split; [reflexivity|]);
        (split; [exact Hlog|exact Hledger]).
  - unfold applyOps_body, bind, gets, modify, ret. simpl.
    eexists _, _. split; [reflexivity|]. split; [by rewrite app_nil_r|reflexivity].
Qed.

Lemma applyOps_loop_spec isLocal l acc c :
  Forall carriesOpId l ->
  exists c1 acc1, foldM (applyOps_body isLocal) l acc c = (c1, Returned acc1)
    /\ applied (world c1) = applied (world c) ++ tracedSources isLocal (unacknowledgedOps c) l
    /\ unacknowledgedOps c1 = ledgerAfterOps isLocal (unacknowledgedOps c) l.
Proof.
  intros Hall. revert acc c. induction Hall as [|op l Hop _ IH]; intros acc c.
  - exists c, acc. simpl. by rewrite app_nil_r.
  - destruct (applyOps_body_spec isLocal acc op c Hop) as (c1 & acc1 & Hbody & Hlog1 & Hled1).
    destruct (IH acc1 c1) as (c2 & acc2 & Hloop & Hlog2 & Hled2).
    exists c2, acc2. simpl foldM. rewrite (bind_returned _ _ _ _ _ Hbody).
    split; [exact Hloop|]. rewrite Hlog2, Hled2, Hlog1, Hled1.
    destruct op as [o|d]; simpl; rewrite ?app_nil_r, <- ?app_assoc; done.
Qed.

(** [applyOps] returns, hands back the ops it was given, calls [applyOp] once
    per storage op with the traced source, and leaves the traced ledger. *)
Lemma applyOps_spec l isLocal c :
  Forall carriesOpId l ->
  exists c1 r, applyOps l isLocal c = (c1, Returned r)
    /\ res_ops r = l
    /\ applied (world c1) = applied (world c) ++ tracedSources isLocal (unacknowledgedOps c) l
    /\ unacknowledgedOps c1 = ledgerAfterOps isLocal (unacknowledgedOps c) l.
Proof.
  intros Hall. unfold applyOps.
  rewrite (bind_returned _ _ _ _ _ (mapM_assignOpId l c Hall)).
  destruct (applyOps_loop_spec isLocal l
              ({| out_reverse := []; out_storageUpdates := JsMap.empty;
                  out_presence := false |}, ∅) c Hall)
    as (c1 & acc1 & Hloop & Hlog & Hled).
  rewrite (bind_returned _ _ _ _ _ Hloop).
  rewrite (bind_returned _ _ _ _ _ (notifyStorageStatus_eval c1)).
  eexists _, _. split; [reflexivity|]. split; [reflexivity|].
  unfold statusNotified. destruct (negb _); simpl; by rewrite ?Hlog, ?Hled.
Qed.






End WithIdentifiedUpdates.

End Evaluation.

(** ** Properties of the machine *)

Section Properties.
Context `{LiveNodes}.

Lemma fold_left_push {A : Type} (l acc : list A) :
  fold_left (fun messages event => messages ++ [event]) l acc = acc ++ l.
Proof.
  revert acc. induction l as [|x l IH]; intros acc; simpl.
  - by rewrite app_nil_r.
  - rewrite IH. by rewrite <- app_assoc.
Qed.

(** C7.  The messages of an outbound flush are ordered: first one
    UPDATE_PRESENCE message iff [buffer.me] is non-null, with
    [targetActor: -1] exactly when [buffer.me] is a full update and no
    [targetActor] for a partial one; then the queued messages in insertion
    order; then one UPDATE_STORAGE message with all buffered storage ops iff
    there are any. *)
Theorem flushDataToMessages_order (state : MachineContext) :
  flushDataToMessages state =
    match buffer_me (buffer state) with
    | None => []
    | Some bme =>
        [UPDATE_PRESENCE (match kind bme with full => Some (-1) | partial => None end)
                         (data bme)]
    end
    ++ buffer_messages (buffer state)
    ++ match buffer_storageOperations (buffer state) with
       | [] => []
       | _ :: _ => [UPDATE_STORAGE (buffer_storageOperations (buffer state))]
       end.
Proof.
  unfold flushDataToMessages. rewrite fold_left_push.
  destruct (buffer_me (buffer state)) as [[[] d]|];
    destruct (buffer_storageOperations (buffer state)); simpl;
    rewrite ?app_nil_r, <- ?app_assoc; reflexivity.
Qed.

Lemma undo_in_batch c b :
  activeBatch c = Some b -> undo c = (c, Thrown "undo is not allowed during a batch").
Proof. intros Hb. unfold undo. by rewrite bind_gets, Hb. Qed.

Lemma redo_in_batch c b :
  activeBatch c = Some b -> redo c = (c, Thrown "redo is not allowed during a batch").
Proof. intros Hb. unfold redo. by rewrite bind_gets, Hb. Qed.

(** C8.  [undo()] and [redo()] called while a batch is active throw at once,
    before any stack is popped: the whole context (both stacks and the
    replica included) is as it was. *)
Theorem undo_redo_throw_during_batch (c : MachineContext) (b : ActiveBatch) :
  activeBatch c = Some b ->
  undo c = (c, Thrown "undo is not allowed during a batch")
  /\ redo c = (c, Thrown "redo is not allowed during a batch").
Proof.
  intros Hb. split; [by eapply undo_in_batch|by eapply redo_in_batch].
Qed.

Lemma startLoadingStorage_requested c c1 :
  startLoadingStorage c = (c1, Returned tt) -> getInitialStatePromise c1 <> None.
Proof.
  unfold startLoadingStorage. unfold bind at 1, gets at 1.
  destruct (getInitialStatePromise c) as [p|] eqn:Hp.
  - intros [= <-]. by rewrite Hp.
  - unfold bind at 1, modify at 1. unfold bind at 1.
    destruct (tryFlushing _) as [c2 [[]|e]]; [|done].
    unfold bind at 1, modify at 1. rewrite notifyStorageStatus_eval.
    intros [= <-]. unfold statusNotified. by destruct (negb _).
Qed.

(** C9.  [getStorageStatus()] is "not-loaded" iff storage was never requested
    ([_getInitialStatePromise] is null, which [startLoadingStorage] ends);
    "loading" iff it was requested and the root is absent; and, requested
    with the root present, "synchronizing" iff the ledger is non-empty and
    "synchronized" iff it is empty. *)
Theorem getStorageStatus_cases (c : MachineContext) :
  (getStorageStatus c = NotLoaded <-> getInitialStatePromise c = None)
  /\ (getStorageStatus c = Loading <->
        getInitialStatePromise c <> None /\ root c = None)
  /\ (getStorageStatus c = Synchronizing <->
        getInitialStatePromise c <> None /\ root c <> None /\ unacknowledgedOps c <> [])
  /\ (getStorageStatus c = Synchronized <->
        getInitialStatePromise c <> None /\ root c <> None /\ unacknowledgedOps c = [])
  /\ (forall c1, startLoadingStorage c = (c1, Returned tt) ->
        getInitialStatePromise c1 <> None /\ getStorageStatus c1 <> NotLoaded).
Proof.
  unfold getStorageStatus, JsMap.size.
  split_and!.
  - destruct (getInitialStatePromise c); [|done].
    destruct (root c); [destruct (unacknowledgedOps c)|]; done.
  - destruct (getInitialStatePromise c); [|split; [done|by intros [? _]]].
    destruct (root c); [destruct (unacknowledgedOps c)|]; split; try done;
      by intros [_ ?].
  - destruct (getInitialStatePromise c); [|split; [done|by intros [? _]]].
    destruct (root c); [|split; [done|by intros (_ & ? & _)]].
    destruct (unacknowledgedOps c); simpl; split; try done; by intros (_ & _ & ?).
  - destruct (getInitialStatePromise c); [|split; [done|by intros [? _]]].
    destruct (root c); [|split; [done|by intros (_ & ? & _)]].
    destruct (unacknowledgedOps c); simpl; split; try done; by intros (_ & _ & ?).
  - intros c1 Hstart. pose proof (startLoadingStorage_requested c c1 Hstart) as Hreq.
    split; [exact Hreq|].
    destruct (getInitialStatePromise c1); [|done].
    destruct (root c1); [destruct (unacknowledgedOps c1)|]; done.
Qed.

Lemma notify_pausedHistory su p : preserves pausedHistory (notify su p).
Proof. frame. Qed.

Lemma notify_redoStack su p : preserves redoStack (notify su p).
Proof. frame. Qed.

Lemma notify_undoStack su p : preserves undoStack (notify su p).
Proof. frame. Qed.

Lemma onHistoryChange_pausedHistory : preserves pausedHistory onHistoryChange.
Proof. frame. Qed.

Lemma resumeHistory_not_paused c :
  pausedHistory c = None ->
  undoStack (fst (resumeHistory c)) = undoStack c
  /\ snd (resumeHistory c) = Returned tt.
Proof.
  intros Hp. unfold resumeHistory, bind, gets, modify, ret. simpl. by rewrite Hp.
Qed.

Lemma undo_pausedHistory c rest top :
  activeBatch c = None -> undoStack c = rest ++ [top] ->
  pausedHistory (fst (undo c)) = None.
Proof.
  intros Hb Hs. unfold undo. unfold bind at 1, gets at 1. rewrite Hb.
  unfold bind at 1, gets at 1. rewrite Hs, pop_snoc.
  unfold bind at 1, modify at 1. unfold bind at 1, modify at 1.
  rewrite bind_frame.
  - by rewrite applyOps_pausedHistory.
  - intros r. frame.
Qed.

Lemma redo_pausedHistory c rest top :
  activeBatch c = None -> redoStack c = rest ++ [top] ->
  pausedHistory (fst (redo c)) = None.
Proof.
  intros Hb Hs. unfold redo. unfold bind at 1, gets at 1. rewrite Hb.
  unfold bind at 1, gets at 1. rewrite Hs, pop_snoc.
  unfold bind at 1, modify at 1. unfold bind at 1, modify at 1.
  rewrite bind_frame.
  - by rewrite applyOps_pausedHistory.
  - intros r. frame.
Qed.

(** C10.  Outside a batch, an [undo()] or [redo()] that pops a non-empty
    stack leaves the paused-history buffer null, whatever it held: the reverse
    ops gathered since the last [pause()] are dropped, and a [resume()] that
    follows pushes nothing onto the undo stack. *)
Theorem undo_redo_drop_paused_history (c : MachineContext) :
  activeBatch c = None ->
  (undoStack c <> [] ->
     pausedHistory (fst (undo c)) = None
     /\ undoStack (fst (resumeHistory (fst (undo c)))) = undoStack (fst (undo c)))
  /\ (redoStack c <> [] ->
     pausedHistory (fst (redo c)) = None
     /\ undoStack (fst (resumeHistory (fst (redo c)))) = undoStack (fst (redo c))).
Proof.
  intros Hb. split; intros Hne.
  - destruct (undoStack c) as [|x l] eqn:Hs using rev_ind; [done|].
    pose proof (undo_pausedHistory c _ _ Hb Hs) as Hp.
    split; [exact Hp|]. by apply resumeHistory_not_paused.
  - destruct (redoStack c) as [|x l] eqn:Hs using rev_ind; [done|].
    pose proof (redo_pausedHistory c _ _ Hb Hs) as Hp.
    split; [exact Hp|]. by apply resumeHistory_not_paused.
Qed.


(** *** The flush pipeline *)

Lemma registerUnacknowledged_socket l : preserves socket (registerUnacknowledged l).
Proof. unfold registerUnacknowledged. frame. Qed.

Lemma registerUnacknowledged_buffer l : preserves buffer (registerUnacknowledged l).
Proof. unfold registerUnacknowledged. frame. Qed.

Lemma registerUnacknowledged_wire l :
  preserves (fun c => wire (world c)) (registerUnacknowledged l).
Proof. unfold registerUnacknowledged. frame. Qed.

Lemma flushOrDelay_closed c :
  socketIsOpen (socket c) = false ->
  flushOrDelay c = (set_buffer (set_buffer_storageOperations [] (buffer c)) c, Returned tt).
Proof.
  intros Hs. unfold flushOrDelay, bind, gets, modify. simpl. by rewrite Hs.
Qed.

Lemma flushOrDelay_returns c : snd (flushOrDelay c) = Returned tt.
Proof.
  unfold flushOrDelay, effects_send, effects_delayFlush, clearTimeout, Date_now,
    bind, gets, modify, ret, throw. simpl.
  destruct (socket c) as [[]|] eqn:Hs; simpl; try reflexivity.
  destruct (_ <? _); simpl.
  - destruct (length (flushDataToMessages c) =? 0)%nat; simpl; [reflexivity|].
    by rewrite Hs.
  - by destruct (timeoutHandles_flush c).
Qed.

(** C6, as the code has it.  [broadcastEvent(event)] without
    [shouldQueueEventIfNotReady] is a silent drop when there is no socket at
    all ([context.socket === null]): nothing changes, nothing is sent, nothing
    is thrown.  With a socket that is not open yet (or not any more) the event
    is queued in the buffer instead, and still no frame is sent. *)
Theorem broadcastEvent_without_socket (c : MachineContext) (event : Json) :
  (socket c = None -> broadcastEvent event false c = (c, Returned tt))
  /\ (forall s, socket c = Some s -> s <> OPEN ->
        buffer_messages (buffer (fst (broadcastEvent event false c)))
          = buffer_messages (buffer c) ++ [BROADCAST_EVENT event]
        /\ wire (world (fst (broadcastEvent event false c))) = wire (world c)).
Proof.
  split.
  - intros Hs. unfold broadcastEvent, bind, gets, ret. simpl. by rewrite Hs.
  - intros s Hs Hopen.
    set (c0 := set_buffer (set_buffer_messages
                             (buffer_messages (buffer c) ++ [BROADCAST_EVENT event])
                             (buffer c)) c).
    assert (Hb : broadcastEvent event false c = tryFlushing c0).
    { unfold broadcastEvent, bind, gets, modify. simpl. by rewrite Hs. }
    rewrite Hb, tryFlushing_phases. unfold bind.
    pose proof (registerUnacknowledged_socket (buffer_storageOperations (buffer c0)) c0) as Hsock.
    pose proof (registerUnacknowledged_buffer (buffer_storageOperations (buffer c0)) c0) as Hbuf.
    pose proof (registerUnacknowledged_wire (buffer_storageOperations (buffer c0)) c0) as Hwire.
    destruct (registerUnacknowledged _ c0) as [c1 [[]|e]]; simpl in *.
    + rewrite flushOrDelay_closed.
      * simpl. rewrite Hbuf, Hwire. done.
      * rewrite Hsock, Hs. by destruct s.
    + rewrite Hbuf, Hwire. done.
Qed.

(** C5, as the code has it.  With the channel open, [tryFlushing] sends when
    strictly more than [throttleDelay] has elapsed since the last flush and
    something is buffered: one frame with the composed messages, the buffer
    reset to empty, [lastFlushTime] set to now.  (With nothing buffered it
    sends nothing and keeps [lastFlushTime].)  When the elapsed time is at most
    [throttleDelay] no frame is sent and a one-shot timer for the remaining
    delay is scheduled in place of the flush timer there was. *)
Theorem tryFlushing_throttle (c : MachineContext) :
  socket c = Some OPEN ->
  Forall (fun op => is_Some (opId op)) (buffer_storageOperations (buffer c)) ->
  let elapsedTime := now (world c) - lastFlushTime c in
  let c' := fst (tryFlushing c) in
  snd (tryFlushing c) = Returned tt
  /\ (throttleDelay c < elapsedTime -> flushDataToMessages c <> [] ->
        wire (world c') = wire (world c) ++ [flushDataToMessages c]
        /\ buffer c' = emptyBuffer
        /\ lastFlushTime c' = now (world c))
  /\ (throttleDelay c < elapsedTime -> flushDataToMessages c = [] ->
        wire (world c') = wire (world c)
        /\ buffer c' = buffer c
        /\ lastFlushTime c' = lastFlushTime c)
  /\ (elapsedTime <= throttleDelay c ->
        wire (world c') = wire (world c)
        /\ buffer c' = buffer c
        /\ lastFlushTime c' = lastFlushTime c
        /\ timeoutHandles_flush c' = Some (nextTimeoutID (world c))
        /\ timers (world c') =
             timersWithout (timeoutHandles_flush c) (timers (world c))
             ++ [(nextTimeoutID (world c), throttleDelay c - elapsedTime)]).
Proof.
  intros Hs Hall. cbv zeta. rewrite tryFlushing_phases.
  rewrite (bind_returned _ _ _ _ _ (registerUnacknowledged_eval _ c Hall)).
  set (c1 := if negb _ then _ else c).
  assert (Hsame : socket c1 = socket c /\ buffer c1 = buffer c
                  /\ lastFlushTime c1 = lastFlushTime c
                  /\ throttleDelay c1 = throttleDelay c
                  /\ timeoutHandles_flush c1 = timeoutHandles_flush c
                  /\ now (world c1) = now (world c)
                  /\ wire (world c1) = wire (world c)
                  /\ timers (world c1) = timers (world c)
                  /\ nextTimeoutID (world c1) = nextTimeoutID (world c)).
  { unfold c1, statusNotified. repeat case_match; simpl; split_and!; reflexivity. }
  destruct Hsame as (Hsock & Hbuf & Hlast & Hdelay & Hhandle & Hnow & Hwire & Htimers & Hnext).
  assert (Hmsgs : flushDataToMessages c1 = flushDataToMessages c).
  { unfold flushDataToMessages. by rewrite Hbuf. }
  clearbody c1. split; [apply flushOrDelay_returns|].
  unfold flushOrDelay, effects_send, effects_delayFlush, clearTimeout, Date_now,
    bind, gets, modify, ret. simpl.
  rewrite Hsock, Hs. simpl. rewrite Hnow, Hlast, Hdelay.
  split_and!.
  - intros Hlt Hne. apply Z.ltb_lt in Hlt. rewrite Hlt, Hmsgs.
    destruct (flushDataToMessages c) as [|m ms] eqn:Hm; [done|]. simpl.
    rewrite Hsock, Hs. simpl. by rewrite Hwire.
  - intros Hlt Hnil. apply Z.ltb_lt in Hlt. rewrite Hlt, Hmsgs, Hnil. simpl.
    by rewrite Hwire, Hbuf, Hlast.
  - intros Hle. apply Z.ltb_ge in Hle. rewrite Hle, Hhandle.
    destruct (timeoutHandles_flush c) as [h|]; simpl;
      rewrite ?Hwire, ?Hbuf, ?Hlast, ?Hnext, ?Htimers; split_and!; reflexivity.
Qed.


(** *** The redo stack *)

Lemma dispatchOps_redoStack l : preserves redoStack (dispatchOps l).
Proof. frame. Qed.

Lemma addToUndoStack_redoStack h : preserves redoStack (addToUndoStack h).
Proof. frame. Qed.

Lemma addToUndoStack_eval h c :
  addToUndoStack h c = (fst (addToUndoStack h c), Returned tt).
Proof.
  rewrite <- (addToUndoStack_returns h c). by destruct (addToUndoStack h c).
Qed.

Lemma pool_dispatch_clears_redo c ops0 reverse su :
  activeBatch c = None ->
  redoStack (fst (pool_dispatch ops0 reverse su c)) = [].
Proof.
  intros Hb. unfold pool_dispatch. rewrite bind_gets, Hb.
  rewrite (bind_returned _ _ _ _ _ (addToUndoStack_eval _ c)).
  rewrite bind_modify. rewrite bind_frame.
  - by rewrite dispatchOps_redoStack.
  - intros _. frame.
Qed.

Lemma closeBatch_clears_redo c b :
  activeBatch c = Some b -> ops b <> [] ->
  redoStack (fst (closeBatch c)) = [].
Proof.
  intros Hb Hops. unfold closeBatch. rewrite bind_gets, bind_modify, Hb.
  assert (Hlen : negb (length (ops b) =? 0)%nat = true) by by destruct (ops b).
  rewrite Hlen.
  assert (Hfirst : exists c1,
            (if negb (length (reverseOps b) =? 0)%nat then addToUndoStack (reverseOps b)
             else ret tt) (set_activeBatch None c) = (c1, Returned tt)).
  { destruct (negb (length (reverseOps b) =? 0)%nat); [|by eexists].
    eexists. apply addToUndoStack_eval. }
  destruct Hfirst as [c1 Hfirst].
  rewrite (bind_returned _ _ _ _ _ Hfirst), bind_modify, bind_frame.
  - by rewrite dispatchOps_redoStack.
  - intros _. frame.
Qed.

Lemma batch_clears_redo {T : Type} (callback : M T) c c1 r b :
  activeBatch c = None ->
  callback (set_activeBatch (Some freshBatch) c) = (c1, r) ->
  activeBatch c1 = Some b -> ops b <> [] ->
  redoStack (fst (batch callback c)) = [].
Proof.
  intros Hb Hcb Hb1 Hops. unfold batch. rewrite bind_gets, Hb, bind_modify.
  unfold try_finally. fold freshBatch. rewrite Hcb.
  pose proof (closeBatch_clears_redo c1 b Hb1 Hops) as Hclose.
  by destruct (closeBatch c1) as [c2 [[]|e]].
Qed.

Lemma undo_pushes_redo c rest top :
  activeBatch c = None -> undoStack c = rest ++ [top] ->
  redoStack (fst (undo c)) =
  redoStack c ++
  match applyOps top true (set_pausedHistory None (set_undoStack rest c)) with
  | (_, Returned result) => [res_reverse result]
  | (_, Thrown _) => []
  end.
Proof.
  intros Hb Hs. unfold undo. rewrite bind_gets, Hb, bind_gets, Hs, pop_snoc.
  rewrite !bind_modify.
  pose proof (applyOps_redoStack top true (set_pausedHistory None (set_undoStack rest c)))
    as Hredo.
  destruct (applyOps top true _) as [c1 [result|e]] eqn:Happly; simpl in Hredo.
  - rewrite (bind_returned _ _ _ _ _ Happly).
    assert (Hn : exists c2, notify (res_storageUpdates result) (res_presence result) c1
                            = (c2, Returned tt) /\ redoStack c2 = redoStack c1).
    { exists (fst (notify (res_storageUpdates result) (res_presence result) c1)).
      split; [|apply notify_redoStack].
      rewrite <- (notify_returns (res_storageUpdates result) (res_presence result) c1).
      by destruct (notify _ _ c1). }
    destruct Hn as (c2 & Hn & Hredo2).
    rewrite (bind_returned _ _ _ _ _ Hn), bind_modify, bind_frame.
    + unfold onHistoryChange, emit, bind, gets, modify. simpl. congruence.
    + intros _. frame.
  - rewrite (bind_thrown _ _ _ _ _ Happly). simpl. by rewrite app_nil_r.
Qed.

Lemma redo_pushes_undo c rest top :
  activeBatch c = None -> redoStack c = rest ++ [top] ->
  undoStack (fst (redo c)) =
  undoStack c ++
  match applyOps top true (set_pausedHistory None (set_redoStack rest c)) with
  | (_, Returned result) => [res_reverse result]
  | (_, Thrown _) => []
  end.
Proof.
  intros Hb Hs. unfold redo. rewrite bind_gets, Hb, bind_gets, Hs, pop_snoc.
  rewrite !bind_modify.
  pose proof (applyOps_undoStack top true (set_pausedHistory None (set_redoStack rest c)))
    as Hundo.
  destruct (applyOps top true _) as [c1 [result|e]] eqn:Happly; simpl in Hundo.
  - rewrite (bind_returned _ _ _ _ _ Happly).
    assert (Hn : exists c2, notify (res_storageUpdates result) (res_presence result) c1
                            = (c2, Returned tt) /\ undoStack c2 = undoStack c1).
    { exists (fst (notify (res_storageUpdates result) (res_presence result) c1)).
      split; [|apply notify_undoStack].
      rewrite <- (notify_returns (res_storageUpdates result) (res_presence result) c1).
      by destruct (notify _ _ c1). }
    destruct Hn as (c2 & Hn & Hundo2).
    rewrite (bind_returned _ _ _ _ _ Hn), bind_modify, bind_frame.
    + unfold onHistoryChange, emit, bind, gets, modify. simpl. congruence.
    + intros _. frame.
  - rewrite (bind_thrown _ _ _ _ _ Happly). simpl. by rewrite app_nil_r.
Qed.

Lemma undo_keeps_redo c : exists pushed, redoStack (fst (undo c)) = redoStack c ++ pushed.
Proof.
  destruct (activeBatch c) as [b|] eqn:Hb.
  - exists []. rewrite (undo_in_batch c b Hb). simpl. by rewrite app_nil_r.
  - destruct (undoStack c) as [|top rest _] eqn:Hs using rev_ind.
    + exists []. unfold undo. rewrite bind_gets, Hb, bind_gets, Hs. simpl.
      by rewrite app_nil_r.
    + eexists. by apply undo_pushes_redo.
Qed.

Lemma redo_keeps_undo c : exists pushed, undoStack (fst (redo c)) = undoStack c ++ pushed.
Proof.
  destruct (activeBatch c) as [b|] eqn:Hb.
  - exists []. rewrite (redo_in_batch c b Hb). simpl. by rewrite app_nil_r.
  - destruct (redoStack c) as [|top rest _] eqn:Hs using rev_ind.
    + exists []. unfold redo. rewrite bind_gets, Hb, bind_gets, Hs. simpl.
      by rewrite app_nil_r.
    + eexists. by apply redo_pushes_undo.
Qed.

(** C4.  A local storage op performed outside undo/redo empties the redo
    stack: [pool.dispatch] with no active batch does, and so does a [batch()]
    whose collected ops are non-empty.  [undo()] and [redo()] never clear the
    opposite stack, they only push onto it: [undo()] pushes the reverse batch
    onto the redo stack and [redo()] pushes the reverse batch onto the undo
    stack. *)
Theorem redo_stack_discipline :
  (forall c ops0 reverse su,
     activeBatch c = None ->
     redoStack (fst (pool_dispatch ops0 reverse su c)) = [])
  /\ (forall (T : Type) (callback : M T) c c1 r b,
     activeBatch c = None ->
     callback (set_activeBatch (Some freshBatch) c) = (c1, r) ->
     activeBatch c1 = Some b -> ops b <> [] ->
     redoStack (fst (batch callback c)) = [])
  /\ (forall c,
     (exists pushed, redoStack (fst (undo c)) = redoStack c ++ pushed)
     /\ (exists pushed, undoStack (fst (redo c)) = undoStack c ++ pushed))
  /\ (forall c rest top c1 result,
     activeBatch c = None -> undoStack c = rest ++ [top] ->
     applyOps top true (set_pausedHistory None (set_undoStack rest c)) = (c1, Returned result) ->
     redoStack (fst (undo c)) = redoStack c ++ [res_reverse result])
  /\ (forall c rest top c1 result,
     activeBatch c = None -> redoStack c = rest ++ [top] ->
     applyOps top true (set_pausedHistory None (set_redoStack rest c)) = (c1, Returned result) ->
     undoStack (fst (redo c)) = undoStack c ++ [res_reverse result]).
Proof.
  split_and!.
  - intros. by apply pool_dispatch_clears_redo.
  - intros. by eapply batch_clears_redo.
  - intros c. split; [apply undo_keeps_redo|apply redo_keeps_undo].
  - intros c rest top c1 result Hb Hs Happly.
    rewrite (undo_pushes_redo c rest top Hb Hs). by rewrite Happly.
  - intros c rest top c1 result Hb Hs Happly.
    rewrite (redo_pushes_undo c rest top Hb Hs). by rewrite Happly.
Qed.


(** *** The ledger of unacknowledged ops *)

Lemma JsMap_get_delete_ne {V : Type} (k k' : string) (m : JsMap.t V) :
  k <> k' -> JsMap.get k' (JsMap.delete k m) = JsMap.get k' m.
Proof.
  intros Hne. unfold JsMap.delete. induction m as [|[k0 v0] m IH]; [reflexivity|].
  cbn. destruct (String.eqb_spec k0 k) as [->|Hk0]; cbn.
  - destruct (String.eqb_spec k k'); [done|exact IH].
  - destruct (String.eqb_spec k0 k'); [reflexivity|exact IH].
Qed.

Lemma ledgerAfterOps_absent l ledger k :
  JsMap.get k ledger = None -> JsMap.get k (ledgerAfterOps false ledger l) = None.
Proof.
  revert ledger. induction l as [|[o|d] l IH]; intros ledger Hk; simpl.
  - exact Hk.
  - apply IH. by apply JsMap_get_delete_None.
  - by apply IH.
Qed.

Lemma ledgerAfterOps_acknowledged l ledger o id :
  StorageOp o ∈ l -> opId o = Some id ->
  JsMap.get id (ledgerAfterOps false ledger l) = None.
Proof.
  revert ledger. induction l as [|op l IH]; intros ledger Hin Hid.
  - by apply elem_of_nil in Hin.
  - apply elem_of_cons in Hin as [<-|Hin].
    + simpl. apply ledgerAfterOps_absent. unfold ledgerAfterOp. rewrite Hid. simpl.
      apply JsMap_get_delete_eq.
    + destruct op as [o'|d]; simpl; by apply IH.
Qed.


Lemma tracedSources_length isLocal ledger ops0 :
  length (tracedSources isLocal ledger (map StorageOp ops0)) = length ops0.
Proof.
  revert ledger. induction ops0 as [|o l IH]; intros ledger; simpl; [done|].
  by rewrite IH.
Qed.

Lemma tracedSources_ack ledger pre op post id :
  Forall (fun o => hasOpId o = true) pre ->
  opId op = Some id -> JsMap.has id ledger = true ->
  (forall o, o ∈ pre -> opId o <> Some id) ->
  tracedSources false ledger (map StorageOp (pre ++ op :: post)) !! length pre
  = Some (op, ACK_SOURCE).
Proof.
  intros Hall Hid. revert ledger.
  induction Hall as [|o pre Ho _ IH]; intros ledger Hhas Hfresh; simpl.
  - unfold sourceFor. rewrite Hid. simpl. by rewrite Hhas.
  - apply IH.
    + apply hasOpId_Some in Ho as (id' & Hid' & _).
      unfold ledgerAfterOp, JsMap.has. rewrite Hid'. simpl.
      rewrite JsMap_get_delete_ne.
      * exact Hhas.
      * intros ->. apply (Hfresh o); [by left|done].
    + intros o' Hin. apply Hfresh. by right.
Qed.


Lemma carriesOpId_map ops0 :
  Forall (fun o => hasOpId o = true) ops0 -> Forall carriesOpId (map StorageOp ops0).
Proof. induction 1; simpl; by constructor. Qed.

Lemma registered_app l1 l2 ledger :
  registered (l1 ++ l2) ledger = registered l2 (registered l1 ledger).
Proof. unfold registered. apply fold_left_app. Qed.

Lemma statusNotified_unacknowledgedOps c :
  unacknowledgedOps (statusNotified c) = unacknowledgedOps c.
Proof. unfold statusNotified. by destruct (negb _). Qed.

Lemma dispatchOps_registers c ops0 op id :
  Forall (fun o => is_Some (opId o)) (buffer_storageOperations (buffer c) ++ ops0) ->
  NoDup (map opId ops0) ->
  op ∈ ops0 -> opId op = Some id ->
  snd (dispatchOps ops0 c) = Returned tt
  /\ JsMap.get id (unacknowledgedOps (fst (dispatchOps ops0 c))) = Some op.
Proof.
  intros Hall Hnd Hin Hid. unfold dispatchOps. rewrite bind_modify.
  set (c0 := set_buffer _ c). rewrite tryFlushing_phases.
  assert (Hall0 : Forall (fun o => is_Some (opId o)) (buffer_storageOperations (buffer c0)))
    by exact Hall.
  rewrite (bind_returned _ _ _ _ _ (registerUnacknowledged_eval _ c0 Hall0)).
  split; [apply flushOrDelay_returns|].
  rewrite flushOrDelay_unacknowledgedOps.
  assert (Hlen : negb (length (buffer_storageOperations (buffer c0)) =? 0)%nat = true).
  { simpl. rewrite length_app. destruct ops0; [by apply elem_of_nil in Hin|].
    simpl. by rewrite Nat.add_succ_r. }
  rewrite Hlen.
  rewrite statusNotified_unacknowledgedOps. simpl. rewrite registered_app.
  apply Forall_app in Hall as [_ Hall].
  by apply registered_lookup.
Qed.

Lemma notify_eval su p c :
  notify su p c = (fst (notify su p c), Returned tt).
Proof. rewrite <- (notify_returns su p c). by destruct (notify su p c). Qed.

Lemma notify_applied su p : preserves (fun c => applied (world c)) (notify su p).
Proof. frame. Qed.

Lemma notify_unacknowledgedOps su p : preserves unacknowledgedOps (notify su p).
Proof. frame. Qed.



Lemma addToUndoStack_buffer h : preserves buffer (addToUndoStack h).
Proof. frame. Qed.

Lemma pool_dispatch_registers c ops0 reverse su op id :
  activeBatch c = None ->
  Forall (fun o => is_Some (opId o)) (buffer_storageOperations (buffer c) ++ ops0) ->
  NoDup (map opId ops0) ->
  op ∈ ops0 -> opId op = Some id ->
  snd (pool_dispatch ops0 reverse su c) = Returned tt
  /\ JsMap.get id (unacknowledgedOps (fst (pool_dispatch ops0 reverse su c))) = Some op.
Proof.
  intros Hb Hall Hnd Hin Hid. unfold pool_dispatch. rewrite bind_gets, Hb.
  rewrite (bind_returned _ _ _ _ _ (addToUndoStack_eval _ c)), bind_modify.
  set (c0 := set_redoStack [] _).
  assert (Hall0 : Forall (fun o => is_Some (opId o))
                    (buffer_storageOperations (buffer c0) ++ ops0)).
  { unfold c0. simpl. by rewrite addToUndoStack_buffer. }
  destruct (dispatchOps_registers c0 ops0 op id Hall0 Hnd Hin Hid) as [Hret Hget].
  destruct (dispatchOps ops0 c0) as [c1 o] eqn:Hd. simpl in Hret, Hget. subst o.
  rewrite (bind_returned _ _ _ _ _ Hd).
  split; [apply notify_returns|]. by rewrite notify_unacknowledgedOps.
Qed.

Section WithLiveObject.
Context `{!LiveObjectApi}.

(** C1.  After a dispatch of local storage ops ([pool.dispatch] outside a
    batch, or [dispatchOps] itself, which runs [tryFlushing] on the buffered
    ops) every dispatched op is in the ledger under its opId, whatever the
    state of the channel; and when an UPDATE_STORAGE frame later brings an op
    whose opId is in the ledger, [applyOps] applies it with source ACK and the
    opId is absent from the ledger afterwards. *)
Theorem ledger_tracks_ops_until_acknowledged :
  (forall c ops0 op id,
     Forall (fun o => is_Some (opId o)) (buffer_storageOperations (buffer c) ++ ops0) ->
     NoDup (map opId ops0) ->
     op ∈ ops0 -> opId op = Some id ->
     snd (dispatchOps ops0 c) = Returned tt
     /\ JsMap.get id (unacknowledgedOps (fst (dispatchOps ops0 c))) = Some op)
  /\ (forall c ops0 reverse su op id,
     activeBatch c = None ->
     Forall (fun o => is_Some (opId o)) (buffer_storageOperations (buffer c) ++ ops0) ->
     NoDup (map opId ops0) ->
     op ∈ ops0 -> opId op = Some id ->
     snd (pool_dispatch ops0 reverse su c) = Returned tt
     /\ JsMap.get id (unacknowledgedOps (fst (pool_dispatch ops0 reverse su c))) = Some op)
  /\ (forall c pre op post id,
     (forall u : StorageUpdate, is_Some (updatedNodeId u)) ->
     Forall (fun o => hasOpId o = true) (pre ++ op :: post) ->
     opId op = Some id ->
     JsMap.has id (unacknowledgedOps c) = true ->
     (forall o, o ∈ pre -> opId o <> Some id) ->
     exists c1 trace,
       onMessage [UPDATE_STORAGE_MSG (pre ++ op :: post)] c = (c1, Returned tt)
       /\ applied (world c1) = applied (world c) ++ trace
       /\ length trace = length (pre ++ op :: post)
       /\ trace !! length pre = Some (op, ACK_SOURCE)
       /\ JsMap.get id (unacknowledgedOps c1) = None).
Proof.
  split_and!.
  - intros. by apply dispatchOps_registers.
  - intros. by apply pool_dispatch_registers.
  - intros c pre op post id Hids Hall Hid Hhas Hfresh.
    destruct (applyOps_spec Hids (map StorageOp (pre ++ op :: post)) false c
                (carriesOpId_map _ Hall))
      as (c1 & r & Happly & _ & Hlog & Hledger).
    exists (fst (notify (mergeUpdatesInto JsMap.empty (res_storageUpdates r)) false c1)),
           (tracedSources false (unacknowledgedOps c) (map StorageOp (pre ++ op :: post))).
    split_and!.
    + unfold onMessage. simpl. unfold onUpdateStorage.
      rewrite (bind_returned _ _ _ _ _
                 (bind_returned _ _ _ _ _ (bind_returned _ _ _ _ _ Happly))).
      apply notify_eval.
    + by rewrite notify_applied.
    + apply tracedSources_length.
    + apply (tracedSources_ack _ _ _ _ id); try done.
      apply Forall_app in Hall as [Hpre _]. exact Hpre.
    + rewrite notify_unacknowledgedOps, Hledger.
      apply (ledgerAfterOps_acknowledged _ _ op); [|done].
      apply list_elem_of_In, in_map, list_elem_of_In. apply elem_of_app. right. by left.
Qed.








End WithLiveObject.

End Properties.

(** ** The undo stack bound *)

Section UndoBound.
Context `{LiveNodes}.

Lemma addToRealUndoStack_bounded h c :
  (length (undoStack c) <= 50)%nat ->
  (length (undoStack (fst (_addToRealUndoStack h c))) <= 50)%nat.
Proof.
  intros Hlen. unfold _addToRealUndoStack. rewrite bind_gets.
  destruct (50 <=? length (undoStack c))%nat eqn:Hfull.
  - rewrite bind_modify, bind_modify.
    unfold onHistoryChange, emit, bind, gets, modify. simpl.
    rewrite length_app. simpl.
    destruct (undoStack c); simpl in *; lia.
  - apply Nat.leb_gt in Hfull. unfold ret at 1.
    rewrite (bind_returned _ _ c c tt eq_refl), bind_modify.
    unfold onHistoryChange, emit, bind, gets, modify. simpl.
    rewrite length_app. simpl. lia.
Qed.

(** Pushing onto a full undo stack first removes the batch at index 0. *)
Lemma addToRealUndoStack_drops_oldest h c oldest rest :
  undoStack c = oldest :: rest -> length (undoStack c) = 50%nat ->
  undoStack (fst (_addToRealUndoStack h c)) = rest ++ [h].
Proof.
  intros Hs Hlen. unfold _addToRealUndoStack. rewrite bind_gets, Hlen. simpl.
  by rewrite Hs.
Qed.

End UndoBound.

Import FlatObjects Rooms.

(** A hundred single-op mutations leave the fifty newest batches undoable:
    a hundred undos bring [a] back to 50 (scenario S5). *)
Example hundred_sets_keep_fifty :
  length (undoStack hundredSets) = 50%nat
  /\ nodes (Nat.iter 100 (exec undo) hundredSets) = [("root", [("a", JNum 50)])].
Proof. vm_compute. split; reflexivity. Qed.

Lemma reachable_performAll `{LiveNodes} (calls : list HostCall) (init : MachineContext) :
  reachable init (performAll calls init).
Proof.
  unfold performAll. induction calls as [|call calls IH] using rev_ind.
  - apply reachable_init.
  - rewrite fold_left_app. simpl. by apply reachable_call.
Qed.

(** C3.  The bound of 50 batches is kept by [_addToRealUndoStack] only:
    [redo()] pushes onto the undo stack directly.  From a new room, fifty
    recorded presence updates fill the undo stack, an undo moves one batch to
    the redo stack, one more recorded update refills the undo stack without
    clearing the redo stack, and the redo then leaves 51 batches on the undo
    stack, in a state the host reached through the public API. *)
Theorem redo_overflows_undo_stack :
  reachable newRoom (performAll overflowCalls newRoom)
  /\ length (undoStack (performAll fiftyMoves newRoom)) = 50%nat
  /\ length (undoStack (performAll (fiftyMoves ++ [CallUndo]) newRoom)) = 49%nat
  /\ length (redoStack (performAll (fiftyMoves ++ [CallUndo]) newRoom)) = 1%nat
  /\ length (undoStack (performAll (fiftyMoves ++ [CallUndo; moveCursor 51]) newRoom)) = 50%nat
  /\ length (redoStack (performAll (fiftyMoves ++ [CallUndo; moveCursor 51]) newRoom)) = 1%nat
  /\ snd (redo (performAll (fiftyMoves ++ [CallUndo; moveCursor 51]) newRoom)) = Returned tt
  /\ length (undoStack (performAll overflowCalls newRoom)) = 51%nat.
Proof.
  split; [apply reachable_performAll|].
  vm_compute. repeat split; reflexivity.
Qed.

(** ** The properties on concrete rooms *)

Lemma run_returned {A : Type} (p : MachineContext * Outcome A) (a : A) :
  snd p = Returned a -> p = (fst p, Returned a).
Proof. destruct p as [c o]. simpl. by intros ->. Defined.

Lemma flat_updates_name_their_node (u : StorageUpdate) : is_Some (updatedNodeId u).
Proof. by eexists. Defined.

(** A dispatched op enters the ledger; its echo is applied as an ACK and
    leaves the ledger empty. *)
Lemma ledger_tracks_ops_witness :
  JsMap.get "7:0" (unacknowledgedOps (fst (dispatchOps [setA "7:0" 1] loadedRoom)))
    = Some (setA "7:0" 1)
  /\ JsMap.get "7:0" (unacknowledgedOps
                        (fst (pool_dispatch [setA "7:0" 1] [] JsMap.empty connectingRoom)))
    = Some (setA "7:0" 1)
  /\ JsMap.has "7:0" (unacknowledgedOps mutatedRoom) = true
  /\ exists c1 trace,
       onMessage [UPDATE_STORAGE_MSG [setA "7:0" 1]] mutatedRoom = (c1, Returned tt)
       /\ applied (world c1) = applied (world mutatedRoom) ++ trace
       /\ length trace = 1%nat
       /\ trace !! 0%nat = Some (setA "7:0" 1, ACK_SOURCE)
       /\ JsMap.get "7:0" (unacknowledgedOps c1) = None.
Proof.
  destruct (@ledger_tracks_ops_until_acknowledged flatNodes flatObjectApi)
    as (Hdispatch & Hpool & Hack).
  split_and!.
  - apply (Hdispatch loadedRoom [setA "7:0" 1] (setA "7:0" 1) "7:0").
    + repeat constructor. by eexists.
    + repeat constructor. by apply not_elem_of_nil.
    + by left.
    + reflexivity.
  - apply (Hpool connectingRoom [setA "7:0" 1] [] JsMap.empty (setA "7:0" 1) "7:0").
    + reflexivity.
    + repeat constructor. by eexists.
    + repeat constructor. by apply not_elem_of_nil.
    + by left.
    + reflexivity.
  - vm_compute. reflexivity.
  - apply (Hack mutatedRoom [] (setA "7:0" 1) [] "7:0").
    + exact flat_updates_name_their_node.
    + repeat constructor.
    + reflexivity.
    + vm_compute. reflexivity.
    + intros o Hin. by apply elem_of_nil in Hin.
Defined.


(** After an undo: a dispatch and a batch with a mutation clear the redo
    stack; the undo pushed the reverse batch, and so does the redo. *)
Lemma redo_stack_discipline_witness :
  redoStack (fst (pool_dispatch [setA "7:1" 2] [setA "7:2" 1] JsMap.empty
                    (exec undo mutatedRoom))) = []
  /\ redoStack (fst (batch (setRootA 2) (exec undo mutatedRoom))) = []
  /\ redoStack (exec undo mutatedRoom) = [[restoreA 1]]
  /\ (exists pushed, redoStack (fst (undo mutatedRoom)) = redoStack mutatedRoom ++ pushed)
  /\ redoStack (fst (undo mutatedRoom)) = redoStack mutatedRoom ++ [[restoreA 1]]
  /\ undoStack (fst (redo (exec undo mutatedRoom)))
     = undoStack (exec undo mutatedRoom) ++ [[restoreA 0]].
Proof.
  destruct (@redo_stack_discipline flatNodes) as (Hdispatch & Hbatch & Hkeep & Hundo & Hredo).
  split_and!.
  - apply Hdispatch. vm_compute. reflexivity.
  - eapply (Hbatch unit (setRootA 2) (exec undo mutatedRoom)
              (fst (setRootA 2 (set_activeBatch (Some freshBatch) (exec undo mutatedRoom))))
              (snd (setRootA 2 (set_activeBatch (Some freshBatch) (exec undo mutatedRoom))))
              (default freshBatch
                 (activeBatch
                    (fst (setRootA 2 (set_activeBatch (Some freshBatch)
                                                       (exec undo mutatedRoom))))))).
    + vm_compute. reflexivity.
    + apply surjective_pairing.
    + vm_compute. reflexivity.
    + vm_compute. discriminate.
  - vm_compute. reflexivity.
  - apply (Hkeep mutatedRoom).
  - pose (p := applyOps [restoreA 0] true
                 (set_pausedHistory None (set_undoStack [] mutatedRoom))).
    assert (Hp : p = (fst p, Returned (returnedOr noResult (snd p))))
      by (vm_compute; reflexivity).
    rewrite (Hundo mutatedRoom [] [restoreA 0] _ _ eq_refl eq_refl Hp).
    vm_compute. reflexivity.
  - pose (p := applyOps [restoreA 1] true
                 (set_pausedHistory None (set_redoStack [] (exec undo mutatedRoom)))).
    assert (Hp : p = (fst p, Returned (returnedOr noResult (snd p))))
      by (vm_compute; reflexivity).
    assert (Hb : activeBatch (exec undo mutatedRoom) = None) by (vm_compute; reflexivity).
    assert (Hs : redoStack (exec undo mutatedRoom) = [] ++ [[restoreA 1]])
      by (vm_compute; reflexivity).
    rewrite (Hredo (exec undo mutatedRoom) [] [restoreA 1] _ _ Hb Hs Hp).
    vm_compute. reflexivity.
Defined.

(** A room with an active batch. *)
Lemma undo_redo_throw_during_batch_witness :
  undo batchingRoom = (batchingRoom, Thrown "undo is not allowed during a batch")
  /\ redo batchingRoom = (batchingRoom, Thrown "redo is not allowed during a batch").
Proof.
  apply (undo_redo_throw_during_batch batchingRoom freshBatch). reflexivity.
Defined.

(** The four statuses, on four rooms. *)
Lemma getStorageStatus_cases_witness :
  getStorageStatus newRoom = NotLoaded
  /\ getStorageStatus (exec startLoadingStorage (openRoomAt 1000)) = Loading
  /\ getStorageStatus loadedRoom = Synchronized
  /\ getStorageStatus mutatedRoom = Synchronizing.
Proof.
  split_and!.
  - apply (proj1 (getStorageStatus_cases newRoom)). reflexivity.
  - apply (proj1 (proj2 (getStorageStatus_cases (exec startLoadingStorage (openRoomAt 1000))))).
    split; [vm_compute; discriminate|vm_compute; reflexivity].
  - apply (proj1 (proj2 (proj2 (proj2 (getStorageStatus_cases loadedRoom))))).
    split_and!; vm_compute; (reflexivity || discriminate).
  - apply (proj1 (proj2 (proj2 (getStorageStatus_cases mutatedRoom)))).
    split_and!; vm_compute; discriminate.
Defined.

(** Undo and redo in a room whose history is paused with a batch waiting. *)
Lemma undo_redo_drop_paused_history_witness :
  pausedHistory pausedRoom <> None
  /\ pausedHistory (fst (undo pausedRoom)) = None
  /\ undoStack (fst (resumeHistory (fst (undo pausedRoom)))) = undoStack (fst (undo pausedRoom))
  /\ pausedHistory (fst (redo (exec undo pausedRoom))) = None.
Proof.
  split; [vm_compute; discriminate|].
  destruct (undo_redo_drop_paused_history pausedRoom eq_refl) as [Hundo _].
  destruct (undo_redo_drop_paused_history (exec undo pausedRoom)) as [_ Hredo];
    [vm_compute; reflexivity|].
  split_and!.
  - apply Hundo. vm_compute. discriminate.
  - apply Hundo. vm_compute. discriminate.
  - apply Hredo. vm_compute. discriminate.
Defined.

(** C6 as stated fails while the socket exists but is not open: the event is
    put in the buffer. *)
Lemma broadcastEvent_queues_while_connecting :
  socket connectingRoom = Some CONNECTING
  /\ buffer_messages (buffer connectingRoom) = []
  /\ buffer_messages (buffer (fst (broadcastEvent (JStr "ping") false connectingRoom)))
     = [BROADCAST_EVENT (JStr "ping")].
Proof. vm_compute. repeat split; reflexivity. Qed.

(** Without a socket the event is dropped; while connecting it is queued. *)
Lemma broadcastEvent_without_socket_witness :
  broadcastEvent (JStr "ping") false newRoom = (newRoom, Returned tt)
  /\ buffer_messages (buffer (fst (broadcastEvent (JStr "ping") false connectingRoom)))
     = buffer_messages (buffer connectingRoom) ++ [BROADCAST_EVENT (JStr "ping")]
  /\ wire (world (fst (broadcastEvent (JStr "ping") false connectingRoom)))
     = wire (world connectingRoom).
Proof.
  split.
  - apply (proj1 (broadcastEvent_without_socket newRoom (JStr "ping"))). reflexivity.
  - apply (proj2 (broadcastEvent_without_socket connectingRoom (JStr "ping")) CONNECTING).
    + reflexivity.
    + discriminate.
Defined.

(** C5 as stated fails when exactly [throttleDelay] has elapsed: nothing is
    sent, the buffer stays, [lastFlushTime] stays, and a timer of 0 ms is
    scheduled.  It also fails when more has elapsed and nothing is buffered:
    [lastFlushTime] is not set to now. *)
Lemma tryFlushing_waits_at_the_boundary :
  socket (openRoomAt 100) = Some OPEN
  /\ throttleDelay (openRoomAt 100) <= now (world (openRoomAt 100)) - lastFlushTime (openRoomAt 100)
  /\ flushDataToMessages (openRoomAt 100) <> []
  /\ wire (world (fst (tryFlushing (openRoomAt 100)))) = []
  /\ buffer (fst (tryFlushing (openRoomAt 100))) = buffer (openRoomAt 100)
  /\ lastFlushTime (fst (tryFlushing (openRoomAt 100))) = 0
  /\ timers (world (fst (tryFlushing (openRoomAt 100)))) = [(0%nat, 0)]
  /\ socket idleRoom = Some OPEN
  /\ throttleDelay idleRoom < now (world idleRoom) - lastFlushTime idleRoom
  /\ now (world idleRoom) = 500
  /\ lastFlushTime (fst (tryFlushing idleRoom)) = 101.
Proof. vm_compute. repeat split; (reflexivity || discriminate). Qed.

(** An open room past the throttle delay sends; at the boundary it waits. *)
Lemma tryFlushing_throttle_witness :
  wire (world (fst (tryFlushing (openRoomAt 101)))) = [flushDataToMessages (openRoomAt 101)]
  /\ buffer (fst (tryFlushing (openRoomAt 101))) = emptyBuffer
  /\ lastFlushTime (fst (tryFlushing (openRoomAt 101))) = 101
  /\ timers (world (fst (tryFlushing (openRoomAt 100)))) = [(0%nat, 0)]
  /\ wire (world (fst (tryFlushing (openRoomAt 100)))) = [].
Proof.
  assert (Hall : forall t, Forall (fun op => is_Some (opId op))
                             (buffer_storageOperations (buffer (openRoomAt t))))
    by (intros t; constructor).
  destruct (tryFlushing_throttle (openRoomAt 101) eq_refl (Hall 101)) as (_ & Hsend & _ & _).
  destruct (tryFlushing_throttle (openRoomAt 100) eq_refl (Hall 100)) as (_ & _ & _ & Hwait).
  destruct Hsend as (Hw & Hb & Hl); [vm_compute; reflexivity|vm_compute; discriminate|].
  destruct Hwait as (Hw' & _ & _ & _ & Ht'); [vm_compute; discriminate|].
  split_and!.
  - rewrite Hw. reflexivity.
  - exact Hb.
  - rewrite Hl. reflexivity.
  - rewrite Ht'. reflexivity.
  - rewrite Hw'. reflexivity.
Defined.

(** * Further properties of the machine *)

(** ** History: the bound, paused history, batches *)

Section History.
Context `{LiveNodes}.

Lemma keepLast_short {A : Type} (n : nat) (l : list A) :
  (length l <= n)%nat -> keepLast n l = l.
Proof. intros Hl. unfold keepLast. by replace (length l - n)%nat with 0%nat by lia. Qed.

Lemma keepLast_length {A : Type} (n : nat) (l : list A) :
  (length (keepLast n l) <= n)%nat.
Proof. unfold keepLast. rewrite length_drop. lia. Qed.

Lemma keepLast_snoc {A : Type} (n : nat) (l : list A) (x : A) :
  (0 < n)%nat -> keepLast n (keepLast n l ++ [x]) = keepLast n (l ++ [x]).
Proof.
  intros Hn. unfold keepLast. rewrite !length_app, length_drop. simpl.
  destruct (decide (length l <= n)%nat) as [Hle|Hgt].
  - replace (length l - n)%nat with 0%nat by lia. simpl.
    by replace (length l - 0 + 1 - n)%nat with (length l + 1 - n)%nat by lia.
  - replace (length l - (length l - n) + 1 - n)%nat with 1%nat by lia.
    replace (length l + 1 - n)%nat with (S (length l - n)) by lia.
    rewrite (drop_app_le l [x] (S (length l - n))) by lia.
    rewrite (drop_app_le (drop (length l - n) l) [x] 1) by (rewrite length_drop; lia).
    rewrite drop_drop. by replace (length l - n + 1)%nat with (S (length l - n)) by lia.
Qed.

Lemma addToRealUndoStack_eval h c :
  (length (undoStack c) <= 50)%nat ->
  exists c1, _addToRealUndoStack h c = (c1, Returned tt)
    /\ undoStack c1 = keepLast 50 (undoStack c ++ [h])
    /\ redoStack c1 = redoStack c
    /\ pausedHistory c1 = pausedHistory c.
Proof.
  intros Hlen. unfold _addToRealUndoStack. rewrite bind_gets.
  destruct (50 <=? length (undoStack c))%nat eqn:Hfull.
  - apply Nat.leb_le in Hfull. rewrite !bind_modify.
    eexists. split; [reflexivity|]. simpl. split; [|done].
    unfold keepLast. rewrite length_app. simpl.
    replace (length (undoStack c) + 1 - 50)%nat with 1%nat by lia.
    destruct (undoStack c); [simpl in *; lia|reflexivity].
  - apply Nat.leb_gt in Hfull. unfold ret at 1.
    rewrite (bind_returned _ _ c c tt eq_refl), bind_modify.
    eexists. split; [reflexivity|]. simpl. split; [|done].
    rewrite keepLast_short; [done|]. rewrite length_app. simpl. lia.
Qed.

Lemma forEach_addToRealUndoStack l c :
  (length (undoStack c) <= 50)%nat ->
  exists c1, forEach _addToRealUndoStack l c = (c1, Returned tt)
    /\ undoStack c1 = keepLast 50 (undoStack c ++ l)
    /\ redoStack c1 = redoStack c
    /\ pausedHistory c1 = pausedHistory c.
Proof.
  revert c. induction l as [|h l IH]; intros c Hlen.
  - exists c. simpl. rewrite app_nil_r. by rewrite keepLast_short.
  - destruct (addToRealUndoStack_eval h c Hlen) as (c1 & Hpush & Hu1 & Hr1 & Hp1).
    destruct (IH c1) as (c2 & Hrest & Hu2 & Hr2 & Hp2).
    { rewrite Hu1. apply keepLast_length. }
    exists c2. simpl. rewrite (bind_returned _ _ _ _ _ Hpush).
    split; [exact Hrest|]. split; [|split; congruence].
    rewrite Hu2, Hu1. clear.
    revert h. generalize (undoStack c) as s.
    induction l as [|x l IHl] using rev_ind; intros s h.
    + rewrite !app_nil_r. rewrite keepLast_short; [done|apply keepLast_length].
    + rewrite !app_assoc. rewrite <- (keepLast_snoc 50 (_ ++ l)) by lia.
      rewrite IHl. rewrite keepLast_snoc by lia. by rewrite <- !app_assoc.
Qed.

(** X1.  Pushes through [addToUndoStack] while history is not paused keep
    exactly the 50 newest batches: whatever the number of batches pushed onto
    an undo stack of at most 50, the stack afterwards is the last 50 of the old
    stack followed by the pushed batches, and the redo stack is untouched. *)
Theorem undo_stack_keeps_newest_fifty (c : MachineContext) (batches : list (list HistoryOp)) :
  pausedHistory c = None ->
  (length (undoStack c) <= 50)%nat ->
  snd (forEach addToUndoStack batches c) = Returned tt
  /\ undoStack (fst (forEach addToUndoStack batches c)) = keepLast 50 (undoStack c ++ batches)
  /\ (length (undoStack (fst (forEach addToUndoStack batches c))) <= 50)%nat
  /\ redoStack (fst (forEach addToUndoStack batches c)) = redoStack c.
Proof.
  intros Hp Hlen.
  assert (Heq : forall l c0, pausedHistory c0 = None -> (length (undoStack c0) <= 50)%nat ->
            forEach addToUndoStack l c0 = forEach _addToRealUndoStack l c0).
  { induction l as [|h l IH]; intros c0 Hp0 Hl0; [reflexivity|].
    simpl. destruct (addToRealUndoStack_eval h c0 Hl0) as (c1 & Hpush & Hu1 & _ & Hp1).
    assert (Hadd : addToUndoStack h c0 = (c1, Returned tt)).
    { unfold addToUndoStack. by rewrite bind_gets, Hp0. }
    rewrite (bind_returned _ _ _ _ _ Hadd), (bind_returned _ _ _ _ _ Hpush).
    apply IH; [congruence|]. rewrite Hu1. apply keepLast_length. }
  rewrite (Heq batches c Hp Hlen).
  destruct (forEach_addToRealUndoStack batches c Hlen) as (c1 & -> & Hu & Hr & _).
  simpl. rewrite Hu. split_and!; [done|done|apply keepLast_length|done].
Qed.

Lemma forEach_paused hs c p :
  pausedHistory c = Some p ->
  forEach addToUndoStack hs c
  = (set_pausedHistory (Some (concat (rev hs) ++ p)) c, Returned tt).
Proof.
  revert c p. induction hs as [|h hs IH]; intros c p Hp.
  - simpl. unfold ret. f_equal. destruct c; simpl in *. by subst.
  - simpl.
    assert (Hadd : addToUndoStack h c = (set_pausedHistory (Some (h ++ p)) c, Returned tt)).
    { unfold addToUndoStack. by rewrite bind_gets, Hp. }
    rewrite (bind_returned _ _ _ _ _ Hadd).
    rewrite (IH (set_pausedHistory (Some (h ++ p)) c) (h ++ p) eq_refl). f_equal.
    rewrite concat_app. simpl. rewrite app_nil_r, <- app_assoc. reflexivity.
Qed.

(** X2.  While history is paused, recorded batches never reach the undo
    stack; [resume()] then pushes them as one batch, newest first, or pushes
    nothing when nothing was recorded.  A [pause()] always starts from an
    empty buffer, also when history was already paused. *)
Theorem paused_history_coalesces (c : MachineContext) (batches : list (list HistoryOp)) :
  (length (undoStack c) <= 50)%nat ->
  let paused := fst ((pauseHistory ;; forEach addToUndoStack batches) c) in
  let resumed := fst (resumeHistory paused) in
  undoStack paused = undoStack c
  /\ pausedHistory paused = Some (concat (rev batches))
  /\ pausedHistory resumed = None
  /\ undoStack resumed =
       match concat (rev batches) with
       | [] => undoStack c
       | _ :: _ => keepLast 50 (undoStack c ++ [concat (rev batches)])
       end.
Proof.
  intros Hlen. cbv zeta. unfold pauseHistory. rewrite bind_modify.
  rewrite (forEach_paused batches (set_pausedHistory (Some []) c) [] eq_refl).
  rewrite app_nil_r. simpl.
  split; [done|]. split; [done|].
  unfold resumeHistory. rewrite bind_gets, bind_modify. simpl.
  destruct (concat (rev batches)) as [|x l] eqn:Hc; simpl; [done|].
  set (c0 := set_pausedHistory None _).
  destruct (addToRealUndoStack_eval (x :: l) c0 Hlen) as (c1 & -> & Hu & _ & Hp).
  simpl. by rewrite Hp, Hu.
Qed.

End History.

Section Batches.
Context `{LiveNodes}.

Lemma set_activeBatch_same c : set_activeBatch (activeBatch c) c = c.
Proof. by destruct c. Qed.

Lemma tryFlushing_activeBatch : preserves activeBatch tryFlushing.
Proof. frame. Qed.

Lemma dispatchOps_activeBatch l : preserves activeBatch (dispatchOps l).
Proof. frame. Qed.

Lemma dispatchOps_undoStack l : preserves undoStack (dispatchOps l).
Proof. frame. Qed.

Lemma closeBatch_closes c : activeBatch (fst (closeBatch c)) = None.
Proof.
  unfold closeBatch. rewrite bind_gets, bind_modify.
  destruct (activeBatch c) as [b|]; [|reflexivity].
  assert (Hp : preserves activeBatch
            ((if negb (length (reverseOps b) =? 0)%nat then addToUndoStack (reverseOps b)
              else ret tt) ;;
             (if negb (length (ops b) =? 0)%nat then modify (set_redoStack []) else ret tt) ;;
             (if negb (length (ops b) =? 0)%nat then dispatchOps (ops b) else ret tt) ;;
             notify (updates_storageUpdates b) (updates_presence b) ;;
             tryFlushing)) by frame.
  by rewrite Hp.
Qed.

Lemma flushOrDelay_storageOperations c :
  buffer_storageOperations (buffer (fst (flushOrDelay c))) = []
  \/ buffer_storageOperations (buffer (fst (flushOrDelay c)))
     = buffer_storageOperations (buffer c).
Proof.
  unfold flushOrDelay, effects_send, effects_delayFlush, clearTimeout, Date_now,
    bind, gets, modify, ret, throw. simpl.
  destruct (socket c) as [[]|] eqn:Hs; simpl; try (by left).
  destruct (_ <? _); simpl.
  - destruct (length (flushDataToMessages c) =? 0)%nat; simpl; [by right|].
    rewrite Hs. by left.
  - destruct (timeoutHandles_flush c); by right.
Qed.

(** [tryFlushing] returns when every buffered storage op carries an opId, and
    leaves a buffer of which this is true again. *)
Lemma tryFlushing_returns c :
  Forall (fun op => is_Some (opId op)) (buffer_storageOperations (buffer c)) ->
  snd (tryFlushing c) = Returned tt
  /\ Forall (fun op => is_Some (opId op))
            (buffer_storageOperations (buffer (fst (tryFlushing c)))).
Proof.
  intros Hall. rewrite tryFlushing_phases.
  rewrite (bind_returned _ _ _ _ _ (registerUnacknowledged_eval _ c Hall)).
  set (c1 := if negb _ then _ else c).
  assert (Hbuf : buffer c1 = buffer c).
  { unfold c1, statusNotified. by repeat case_match. }
  split; [apply flushOrDelay_returns|].
  destruct (flushOrDelay_storageOperations c1) as [->| ->]; [constructor|].
  by rewrite Hbuf.
Qed.

(** X3.  A [batch()] that starts without an active batch always ends without
    one, whether the callback returns or throws; and when the buffered and
    collected storage ops all carry an opId the outcome of the batch is the
    outcome of the callback: its value, or the error it threw. *)
Theorem batch_always_closes {T : Type} (callback : M T) (c : MachineContext) :
  activeBatch c = None ->
  activeBatch (fst (batch callback c)) = None
  /\ (forall c1 outcome b,
        callback (set_activeBatch (Some freshBatch) c) = (c1, outcome) ->
        activeBatch c1 = Some b ->
        Forall (fun op => is_Some (opId op)) (buffer_storageOperations (buffer c1) ++ ops b) ->
        snd (batch callback c) = outcome).
Proof.
  intros Hb. unfold batch. rewrite bind_gets, Hb, bind_modify.
  unfold try_finally. fold freshBatch.
  destruct (callback (set_activeBatch (Some freshBatch) c)) as [c1 outcome].
  pose proof (closeBatch_closes c1) as Hclosed.
  split.
  - by destruct (closeBatch c1) as [c2 [[]|e]].
  - intros c1' outcome' b [= <- <-] Hb1 Hall.
    assert (Hret : snd (closeBatch c1) = Returned tt).
    { unfold closeBatch. rewrite bind_gets, bind_modify, Hb1.
      set (c2 := set_activeBatch None c1).
      assert (Hstep1 : exists c3,
                (if negb (length (reverseOps b) =? 0)%nat then addToUndoStack (reverseOps b)
                 else ret tt) c2 = (c3, Returned tt) /\ buffer c3 = buffer c1).
      { destruct (negb (length (reverseOps b) =? 0)%nat).
        - eexists. split; [apply addToUndoStack_eval|]. by rewrite addToUndoStack_buffer.
        - by eexists. }
      destruct Hstep1 as (c3 & Heq1 & Hbuf3).
      rewrite (bind_returned _ _ _ _ _ Heq1).
      assert (Hstep2 : exists c4,
                (if negb (length (ops b) =? 0)%nat then modify (set_redoStack []) else ret tt) c3
                = (c4, Returned tt) /\ buffer c4 = buffer c1).
      { destruct (negb (length (ops b) =? 0)%nat); by eexists. }
      destruct Hstep2 as (c4 & Heq2 & Hbuf4).
      rewrite (bind_returned _ _ _ _ _ Heq2).
      assert (Hstep3 : exists c5,
                (if negb (length (ops b) =? 0)%nat then dispatchOps (ops b) else ret tt) c4
                = (c5, Returned tt)
                /\ Forall (fun op => is_Some (opId op)) (buffer_storageOperations (buffer c5))).
      { destruct (negb (length (ops b) =? 0)%nat).
        - unfold dispatchOps. rewrite bind_modify.
          set (c4' := set_buffer _ c4).
          destruct (tryFlushing_returns c4') as [Hr Hf].
          { unfold c4'. simpl. by rewrite Hbuf4. }
          exists (fst (tryFlushing c4')). split; [|exact Hf].
          rewrite <- Hr. by destruct (tryFlushing c4').
        - exists c4. split; [done|]. rewrite Hbuf4.
          by apply Forall_app in Hall as [? _]. }
      destruct Hstep3 as (c5 & Heq3 & Hall5).
      rewrite (bind_returned _ _ _ _ _ Heq3).
      rewrite (bind_returned _ _ _ _ _ (notify_eval _ _ c5)).
      apply tryFlushing_returns.
      assert (Hn : buffer (fst (notify (updates_storageUpdates b) (updates_presence b) c5))
                   = buffer c5).
      { assert (Hp : preserves buffer
                       (notify (updates_storageUpdates b) (updates_presence b))) by frame.
        apply Hp. }
      by rewrite Hn. }
    destruct (closeBatch c1) as [c2 [[]|e]]; simpl in *; [done|discriminate].
Qed.

(** X4.  Nested batches are no-ops: inside an active batch [batch(callback)]
    is just the callback, so wrapping a batch in a batch changes nothing. *)
Theorem batch_nested {T : Type} (callback : M T) (c : MachineContext) :
  (forall b, activeBatch c = Some b -> batch callback c = callback c)
  /\ (activeBatch c = None -> batch (batch callback) c = batch callback c).
Proof.
  split.
  - intros b Hb. unfold batch. by rewrite bind_gets, Hb.
  - intros Hb. unfold batch at 1 3. rewrite !bind_gets, Hb, !bind_modify.
    unfold try_finally, batch. by rewrite bind_gets.
Qed.

(** X6.  A batch that collected no storage op leaves the redo stack as the
    callback left it (it is not cleared), and when it collected no reverse op
    either the undo stack is left alone too. *)
Theorem batch_without_ops_keeps_history {T : Type} (callback : M T)
    (c c1 : MachineContext) (outcome : Outcome T) (b : ActiveBatch) :
  activeBatch c = None ->
  callback (set_activeBatch (Some freshBatch) c) = (c1, outcome) ->
  activeBatch c1 = Some b ->
  ops b = [] ->
  redoStack (fst (batch callback c)) = redoStack c1
  /\ (reverseOps b = [] -> undoStack (fst (batch callback c)) = undoStack c1).
Proof.
  intros Hb Hcb Hb1 Hops. unfold batch. rewrite bind_gets, Hb, bind_modify.
  unfold try_finally. fold freshBatch. rewrite Hcb.
  assert (Hclose : redoStack (fst (closeBatch c1)) = redoStack c1
                   /\ (reverseOps b = [] -> undoStack (fst (closeBatch c1)) = undoStack c1)).
  { unfold closeBatch. rewrite bind_gets, bind_modify, Hb1, Hops. simpl.
    split.
    - assert (Hp : preserves redoStack
                ((if negb (length (reverseOps b) =? 0)%nat then addToUndoStack (reverseOps b)
                  else ret tt) ;; ret tt ;; ret tt ;;
                 notify (updates_storageUpdates b) (updates_presence b) ;; tryFlushing))
        by frame.
      by rewrite Hp.
    - intros ->. simpl.
      assert (Hp : preserves undoStack
                (ret tt ;; ret tt ;; ret tt ;;
                 notify (updates_storageUpdates b) (updates_presence b) ;; tryFlushing))
        by frame.
      by rewrite Hp. }
  destruct (closeBatch c1) as [c2 [[]|e]]; exact Hclose.
Qed.

Lemma NoDup_map_inj_on {A B : Type} (f : A -> B) (l : list A) (x y : A) :
  NoDup (map f l) -> x ∈ l -> y ∈ l -> f x = f y -> x = y.
Proof.
  induction l as [|a l IH]; intros Hnd Hx Hy Hf; [by apply elem_of_nil in Hx|].
  simpl in Hnd. apply NoDup_cons in Hnd as [Hnotin Hnd].
  apply elem_of_cons in Hx as [->|Hx]; apply elem_of_cons in Hy as [->|Hy]; try done.
  - exfalso. apply Hnotin. rewrite Hf. apply list_elem_of_In, in_map, list_elem_of_In, Hy.
  - exfalso. apply Hnotin. rewrite <- Hf. apply list_elem_of_In, in_map, list_elem_of_In, Hx.
  - by apply IH.
Qed.

Lemma pool_dispatch_in_batch c b m :
  activeBatch c = Some b ->
  pool_dispatch (fst (fst m)) (snd (fst m)) (snd m) c
  = (set_activeBatch (Some (grown b m)) c, Returned tt).
Proof. intros Hb. unfold pool_dispatch. by rewrite bind_gets, Hb. Qed.

Lemma dispatchAll_in_batch mutations c b :
  activeBatch c = Some b ->
  dispatchAll mutations c
  = (set_activeBatch (Some (fold_left grown mutations b)) c, Returned tt).
Proof.
  unfold dispatchAll. revert c b. induction mutations as [|m ms IH]; intros c b Hb.
  - simpl. unfold ret. by rewrite <- Hb, set_activeBatch_same.
  - simpl. rewrite (bind_returned _ _ _ _ _ (pool_dispatch_in_batch c b m Hb)).
    by rewrite (IH (set_activeBatch (Some (grown b m)) c) (grown b m) eq_refl).
Qed.

Lemma grown_ops mutations b :
  ops (fold_left grown mutations b) = ops b ++ concat (map (fun m => fst (fst m)) mutations).
Proof.
  revert b. induction mutations as [|m ms IH]; intros b; simpl.
  - by rewrite app_nil_r.
  - rewrite IH. simpl. by rewrite <- app_assoc.
Qed.

Lemma grown_reverseOps mutations b :
  reverseOps (fold_left grown mutations b)
  = map StorageOp (concat (rev (map (fun m => snd (fst m)) mutations))) ++ reverseOps b.
Proof.
  revert b. induction mutations as [|m ms IH]; intros b; simpl.
  - reflexivity.
  - rewrite IH. simpl. rewrite concat_app, map_app. simpl.
    by rewrite app_nil_r, <- app_assoc.
Qed.

Lemma registered_keeps l ledger op id :
  Forall (fun o => is_Some (opId o)) l ->
  (forall o, o ∈ l -> opId o = Some id -> o = op) ->
  JsMap.get id ledger = Some op ->
  JsMap.get id (registered l ledger) = Some op.
Proof.
  unfold registered. intros Hall. revert ledger.
  induction Hall as [|o l [id' Hid'] _ IH]; intros ledger Hsame Hget; [exact Hget|].
  simpl. apply IH.
  - intros o' Hin. apply Hsame. by right.
  - rewrite Hid'. simpl. destruct (decide (id' = id)) as [->|Hne].
    + rewrite (Hsame o) by (by left || done). apply JsMap_get_set_eq.
    + by rewrite JsMap_get_set_ne.
Qed.

(** A lookup in the ledger that [tryFlushing] cannot disturb: no other
    buffered op claims the same opId. *)
Lemma tryFlushing_keeps_ledger_entry c op id :
  Forall (fun o => is_Some (opId o)) (buffer_storageOperations (buffer c)) ->
  (forall o, o ∈ buffer_storageOperations (buffer c) -> opId o = Some id -> o = op) ->
  JsMap.get id (unacknowledgedOps c) = Some op ->
  JsMap.get id (unacknowledgedOps (fst (tryFlushing c))) = Some op.
Proof.
  intros Hall Hsame Hget. rewrite tryFlushing_phases.
  rewrite (bind_returned _ _ _ _ _ (registerUnacknowledged_eval _ c Hall)).
  rewrite flushOrDelay_unacknowledgedOps.
  destruct (negb _); [|exact Hget].
  rewrite statusNotified_unacknowledgedOps. simpl. by apply registered_keeps.
Qed.

Lemma tryFlushing_buffered c :
  Forall (fun o => is_Some (opId o)) (buffer_storageOperations (buffer c)) ->
  buffer_storageOperations (buffer (fst (tryFlushing c))) = []
  \/ buffer_storageOperations (buffer (fst (tryFlushing c)))
     = buffer_storageOperations (buffer c).
Proof.
  intros Hall. rewrite tryFlushing_phases.
  rewrite (bind_returned _ _ _ _ _ (registerUnacknowledged_eval _ c Hall)).
  set (c1 := if negb _ then _ else c).
  assert (Hbuf : buffer c1 = buffer c).
  { unfold c1, statusNotified. by repeat case_match. }
  destruct (flushOrDelay_storageOperations c1) as [->| ->]; [by left|].
  right. by rewrite Hbuf.
Qed.

(** X5.  The storage mutations made during one batch are committed together
    when the batch ends: their reverse ops become a single undo batch, newest
    mutation first, and their ops are dispatched as one block, so that every
    one of them is in the ledger of unacknowledged ops afterwards. *)
Theorem batch_commits_together (c : MachineContext)
    (mutations : list (list Op * list Op * JsMap.t StorageUpdate)) :
  activeBatch c = None ->
  pausedHistory c = None ->
  (length (undoStack c) <= 50)%nat ->
  let collected := concat (map (fun m => fst (fst m)) mutations) in
  let reversed := concat (rev (map (fun m => snd (fst m)) mutations)) in
  Forall (fun o => is_Some (opId o)) (buffer_storageOperations (buffer c) ++ collected) ->
  NoDup (map opId (buffer_storageOperations (buffer c) ++ collected)) ->
  snd (batch (dispatchAll mutations) c) = Returned tt
  /\ undoStack (fst (batch (dispatchAll mutations) c)) =
       match reversed with
       | [] => undoStack c
       | _ :: _ => keepLast 50 (undoStack c ++ [map StorageOp reversed])
       end
  /\ (forall op id, op ∈ collected -> opId op = Some id ->
        JsMap.get id (unacknowledgedOps (fst (batch (dispatchAll mutations) c))) = Some op).
Proof.
  intros Hb Hp Hlen collected reversed Hall Hnd.
  set (c0 := set_activeBatch (Some freshBatch) c).
  pose proof (dispatchAll_in_batch mutations c0 freshBatch eq_refl) as Hrun.
  set (b := fold_left grown mutations freshBatch) in Hrun.
  assert (Hops : ops b = collected) by (unfold b; by rewrite grown_ops).
  assert (Hrev : reverseOps b = map StorageOp reversed).
  { unfold b. rewrite grown_reverseOps. simpl. by rewrite app_nil_r. }
  set (c1 := set_activeBatch (Some b) c0) in Hrun.
  assert (Hbatch : batch (dispatchAll mutations) c = closeBatch c1).
  { unfold batch. rewrite bind_gets, Hb, bind_modify. unfold try_finally.
    fold freshBatch. fold c0. rewrite Hrun. by destruct (closeBatch c1) as [? [[]|?]]. }
  rewrite Hbatch. clear Hbatch Hrun.
  unfold closeBatch. rewrite bind_gets, bind_modify.
  change (activeBatch c1) with (Some b). cbv iota beta.
  set (c2 := set_activeBatch None c1).
  (* the undo step *)
  assert (Hstep1 : exists c3,
            (if negb (length (reverseOps b) =? 0)%nat then addToUndoStack (reverseOps b)
             else ret tt) c2 = (c3, Returned tt)
            /\ buffer c3 = buffer c /\ unacknowledgedOps c3 = unacknowledgedOps c
            /\ undoStack c3 = match reversed with
                              | [] => undoStack c
                              | _ :: _ => keepLast 50 (undoStack c ++ [map StorageOp reversed])
                              end).
  { rewrite Hrev. destruct reversed as [|r rs]; simpl.
    - by exists c2.
    - destruct (addToRealUndoStack_eval (StorageOp r :: map StorageOp rs) c2 Hlen)
        as (c3 & Hpush & Hu & _ & _).
      exists c3. split.
      + unfold addToUndoStack. rewrite bind_gets. change (pausedHistory c2) with (pausedHistory c).
        by rewrite Hp.
      + assert (Hbuf : preserves buffer (_addToRealUndoStack (StorageOp r :: map StorageOp rs)))
          by frame.
        assert (Hled : preserves unacknowledgedOps
                         (_addToRealUndoStack (StorageOp r :: map StorageOp rs))) by frame.
        specialize (Hbuf c2). specialize (Hled c2). rewrite Hpush in Hbuf, Hled.
        simpl in Hbuf, Hled. by rewrite Hbuf, Hled, Hu. }
  destruct Hstep1 as (c3 & Heq1 & Hbuf3 & Hled3 & Hundo3).
  rewrite (bind_returned _ _ _ _ _ Heq1).
  assert (Hstep2 : exists c4,
            (if negb (length (ops b) =? 0)%nat then modify (set_redoStack []) else ret tt) c3
            = (c4, Returned tt)
            /\ buffer c4 = buffer c /\ unacknowledgedOps c4 = unacknowledgedOps c
            /\ undoStack c4 = undoStack c3).
  { destruct (negb (length (ops b) =? 0)%nat); by eexists. }
  destruct Hstep2 as (c4 & Heq2 & Hbuf4 & Hled4 & Hundo4).
  rewrite (bind_returned _ _ _ _ _ Heq2).
  (* the dispatch step *)
  assert (Hstep3 : exists c5,
            (if negb (length (ops b) =? 0)%nat then dispatchOps (ops b) else ret tt) c4
            = (c5, Returned tt)
            /\ undoStack c5 = undoStack c3
            /\ (buffer_storageOperations (buffer c5) = []
                \/ buffer_storageOperations (buffer c5)
                   = buffer_storageOperations (buffer c) ++ collected)
            /\ (forall op id, op ∈ collected -> opId op = Some id ->
                  JsMap.get id (unacknowledgedOps c5) = Some op)).
  { rewrite Hops. destruct collected as [|o os] eqn:Hcol; simpl.
    - exists c4. split; [done|]. split; [done|]. split.
      + right. by rewrite Hbuf4, app_nil_r.
      + intros op id Hin. by apply elem_of_nil in Hin.
    - rewrite <- Hcol in *.
      assert (Hall4 : Forall (fun o => is_Some (opId o))
                        (buffer_storageOperations (buffer c4) ++ collected))
        by by rewrite Hbuf4.
      assert (Hnd4 : NoDup (map opId collected)).
      { rewrite map_app in Hnd. by apply NoDup_app in Hnd as (_ & _ & ?). }
      exists (fst (dispatchOps collected c4)). split_and!.
      + assert (Hin : o ∈ collected) by (rewrite Hcol; by left).
        destruct (opId o) as [ido|] eqn:Hido.
        * destruct (dispatchOps_registers c4 collected o ido Hall4 Hnd4 Hin Hido) as [Hr _].
          rewrite <- Hr. by destruct (dispatchOps collected c4).
        * apply Forall_app in Hall4 as [_ Hall4].
          rewrite Forall_forall in Hall4. destruct (Hall4 o Hin) as [? ?]. congruence.
      + rewrite dispatchOps_undoStack. exact Hundo4.
      + unfold dispatchOps. rewrite bind_modify.
        set (c4' := set_buffer _ c4).
        destruct (tryFlushing_buffered c4') as [->| ->]; [exact Hall4|by left|].
        right. simpl. by rewrite Hbuf4.
      + intros op id Hin Hid.
        by destruct (dispatchOps_registers c4 collected op id Hall4 Hnd4 Hin Hid). }
  destruct Hstep3 as (c5 & Heq3 & Hundo5 & Hbuf5 & Hled5).
  rewrite (bind_returned _ _ _ _ _ Heq3).
  rewrite (bind_returned _ _ _ _ _ (notify_eval _ _ c5)).
  set (c6 := fst (notify _ _ c5)).
  assert (Hbuf6 : buffer c6 = buffer c5).
  { assert (Hpb : preserves buffer (notify (updates_storageUpdates b) (updates_presence b)))
      by frame. apply Hpb. }
  assert (Hall6 : Forall (fun o => is_Some (opId o)) (buffer_storageOperations (buffer c6))).
  { rewrite Hbuf6. destruct Hbuf5 as [->| ->]; [constructor|exact Hall]. }
  split_and!.
  - by apply tryFlushing_returns.
  - rewrite tryFlushing_undoStack. unfold c6. rewrite notify_undoStack. congruence.
  - intros op id Hin Hid. apply tryFlushing_keeps_ledger_entry; [exact Hall6| |].
    + rewrite Hbuf6. intros o Ho Hoid. destruct Hbuf5 as [Hb5|Hb5]; rewrite Hb5 in Ho.
      * by apply elem_of_nil in Ho.
      * apply (NoDup_map_inj_on opId _ o op Hnd); [exact Ho| |congruence].
        apply elem_of_app. by right.
    + unfold c6. rewrite notify_unacknowledgedOps. by apply Hled5.
Qed.

End Batches.

(** ** The flush pipeline and storage loading *)

Section Flushing.
Context `{LiveNodes}.

Lemma flushDataToMessages_contains (c : MachineContext) (m : ClientMsg) :
  m ∈ buffer_messages (buffer c) -> m ∈ flushDataToMessages c.
Proof.
  intros Hin. unfold flushDataToMessages. rewrite fold_left_push.
  destruct (negb _); [apply elem_of_app; left|]; apply elem_of_app; by right.
Qed.

(** X8.  While the channel is not open, [tryFlushing] sends nothing: the
    buffered storage ops leave the outbound buffer but stay in the ledger (to
    be sent again after the reconnect), and the buffered presence and messages
    stay queued. *)
Theorem tryFlushing_offline (c : MachineContext) :
  socketIsOpen (socket c) = false ->
  Forall (fun op => is_Some (opId op)) (buffer_storageOperations (buffer c)) ->
  NoDup (map opId (buffer_storageOperations (buffer c))) ->
  snd (tryFlushing c) = Returned tt
  /\ wire (world (fst (tryFlushing c))) = wire (world c)
  /\ buffer_storageOperations (buffer (fst (tryFlushing c))) = []
  /\ buffer_me (buffer (fst (tryFlushing c))) = buffer_me (buffer c)
  /\ buffer_messages (buffer (fst (tryFlushing c))) = buffer_messages (buffer c)
  /\ (forall op id, op ∈ buffer_storageOperations (buffer c) -> opId op = Some id ->
        JsMap.get id (unacknowledgedOps (fst (tryFlushing c))) = Some op).
Proof.
  intros Hs Hall Hnd. rewrite tryFlushing_phases.
  rewrite (bind_returned _ _ _ _ _ (registerUnacknowledged_eval _ c Hall)).
  set (c1 := if negb _ then _ else c).
  assert (Hsame : socket c1 = socket c /\ buffer c1 = buffer c
                  /\ wire (world c1) = wire (world c)).
  { unfold c1, statusNotified. repeat case_match; simpl; split_and!; reflexivity. }
  destruct Hsame as (Hsock & Hbuf & Hwire).
  rewrite flushOrDelay_closed by by rewrite Hsock.
  simpl. rewrite Hbuf, Hwire. split_and!; try done.
  intros op id Hin Hid. unfold c1.
  destruct (buffer_storageOperations (buffer c)) as [|o l] eqn:Hl;
    [by apply elem_of_nil in Hin|].
  rewrite <- Hl in *. replace (negb (length _ =? 0)%nat) with true by by rewrite Hl.
  rewrite statusNotified_unacknowledgedOps. simpl. by apply registered_lookup.
Qed.

Lemma statusNotified_idempotent c : statusNotified (statusNotified c) = statusNotified c.
Proof.
  unfold statusNotified at 2 3.
  destruct (negb (StorageStatus_eqb (lastStorageStatus c) (getStorageStatus c))) eqn:Hne.
  - unfold statusNotified. cbn.
    change (getStorageStatus (set_world _ (set_lastStorageStatus _ c)))
      with (getStorageStatus c).
    by destruct (getStorageStatus c).
  - unfold statusNotified. by rewrite Hne.
Qed.

Lemma StorageStatus_eqb_eq a b : StorageStatus_eqb a b = true <-> a = b.
Proof. destruct a, b; simpl; split; (done || discriminate). Qed.

(** X9.  [notifyStorageStatus] emits a storage-status event exactly when the
    computed status differs from the last one notified, and it leaves the two
    equal: a second call right after is silent. *)
Theorem notifyStorageStatus_only_on_change (c : MachineContext) :
  let c1 := fst (notifyStorageStatus c) in
  lastStorageStatus c1 = getStorageStatus c1
  /\ getStorageStatus c1 = getStorageStatus c
  /\ (lastStorageStatus c = getStorageStatus c -> emitted (world c1) = emitted (world c))
  /\ (lastStorageStatus c <> getStorageStatus c ->
        emitted (world c1) = emitted (world c) ++ [StorageStatusEvent (getStorageStatus c)])
  /\ notifyStorageStatus c1 = (c1, Returned tt).
Proof.
  cbv zeta. rewrite !notifyStorageStatus_eval. simpl.
  rewrite statusNotified_idempotent. unfold statusNotified.
  destruct (negb (StorageStatus_eqb (lastStorageStatus c) (getStorageStatus c))) eqn:Hne.
  - apply negb_true_iff in Hne.
    assert (Hdiff : lastStorageStatus c <> getStorageStatus c).
    { intros Heq. apply StorageStatus_eqb_eq in Heq. congruence. }
    simpl. split_and!; try done.
  - apply negb_false_iff, StorageStatus_eqb_eq in Hne. split_and!; try done.
Qed.

(** X10.  Storage is requested once.  With storage not yet requested (and
    the buffered storage ops identified), [startLoadingStorage] returns with
    the request recorded and exactly one FETCH_STORAGE message added after the
    messages already queued: when the channel is open and the throttle delay
    has passed, the one frame sent is the pending presence, the queued
    messages, FETCH_STORAGE and the pending storage ops, in this order, and
    the queue is empty afterwards; otherwise nothing is sent and the queue is
    the old one followed by FETCH_STORAGE.  After that a further call, and a
    [getStorageSnapshot] once the root has loaded, changes nothing. *)
Theorem storage_is_requested_once (c : MachineContext) :
  getInitialStatePromise c = None ->
  Forall (fun op => is_Some (opId op)) (buffer_storageOperations (buffer c)) ->
  let presence :=
    match buffer_me (buffer c) with
    | Some bme => [match kind bme with
                   | full => UPDATE_PRESENCE (Some (-1)) (data bme)
                   | partial => UPDATE_PRESENCE None (data bme)
                   end]
    | None => []
    end in
  let storage :=
    match buffer_storageOperations (buffer c) with
    | [] => []
    | _ :: _ => [UPDATE_STORAGE (buffer_storageOperations (buffer c))]
    end in
  let sendsNow :=
    socketIsOpen (socket c) && (throttleDelay c <? now (world c) - lastFlushTime c) in
  exists c1, startLoadingStorage c = (c1, Returned tt)
    /\ getInitialStatePromise c1 = Some Pending
    /\ (if sendsNow
        then wire (world c1)
             = wire (world c) ++ [presence ++ buffer_messages (buffer c) ++ [FETCH_STORAGE] ++ storage]
             /\ buffer_messages (buffer c1) = []
        else wire (world c1) = wire (world c)
             /\ buffer_messages (buffer c1) = buffer_messages (buffer c) ++ [FETCH_STORAGE])
    /\ startLoadingStorage c1 = (c1, Returned tt)
    /\ (forall node, root c1 = Some node -> getStorageSnapshot c1 = (c1, Returned (Some node)))
    /\ (root c1 = None -> getStorageSnapshot c1 = (c1, Returned None)).
Proof.
  intros Hnone Hall presence storage sendsNow.
  set (c0 := set_buffer (set_buffer_messages (buffer_messages (buffer c) ++ [FETCH_STORAGE])
                                             (buffer c)) c).
  assert (Hall0 : Forall (fun op => is_Some (opId op)) (buffer_storageOperations (buffer c0)))
    by exact Hall.
  assert (Hsame : forall x : MachineContext,
            let x' := if negb (Nat.eqb (length (buffer_storageOperations (buffer x))) 0)
                      then statusNotified (set_unacknowledgedOps
                             (registered (buffer_storageOperations (buffer x))
                                         (unacknowledgedOps x)) x)
                      else x in
            buffer x' = buffer x /\ wire (world x') = wire (world x)
            /\ socket x' = socket x /\ now (world x') = now (world x)
            /\ lastFlushTime x' = lastFlushTime x /\ throttleDelay x' = throttleDelay x).
  { intros x. unfold statusNotified. repeat case_match; simpl; split_and!; reflexivity. }
  specialize (Hsame c0). cbv zeta in Hsame.
  set (c0' := if negb (Nat.eqb (length (buffer_storageOperations (buffer c0))) 0)
              then statusNotified (set_unacknowledgedOps
                     (registered (buffer_storageOperations (buffer c0)) (unacknowledgedOps c0)) c0)
              else c0) in *.
  destruct Hsame as (Hbuf & Hwire & Hsock & Hnow & Hlast & Hdelay).
  change (wire (world c0)) with (wire (world c)) in Hwire.
  change (socket c0) with (socket c) in Hsock.
  change (now (world c0)) with (now (world c)) in Hnow.
  change (lastFlushTime c0) with (lastFlushTime c) in Hlast.
  change (throttleDelay c0) with (throttleDelay c) in Hdelay.
  assert (Hframe : flushDataToMessages c0'
                   = presence ++ buffer_messages (buffer c) ++ [FETCH_STORAGE] ++ storage).
  { unfold flushDataToMessages. rewrite fold_left_push, Hbuf. unfold presence, storage. simpl.
    destruct (buffer_me (buffer c)) as [[[] d]|];
      destruct (buffer_storageOperations (buffer c)); simpl;
      rewrite ?app_nil_r, <- ?app_assoc; reflexivity. }
  assert (Hflush : exists c', flushOrDelay c0' = (c', Returned tt)
            /\ (if sendsNow
                then wire (world c')
                     = wire (world c) ++ [presence ++ buffer_messages (buffer c) ++ [FETCH_STORAGE] ++ storage]
                     /\ buffer_messages (buffer c') = []
                else wire (world c') = wire (world c)
                     /\ buffer_messages (buffer c') = buffer_messages (buffer c) ++ [FETCH_STORAGE])).
  { clearbody c0'. unfold sendsNow. rewrite <- Hsock, <- Hnow, <- Hlast, <- Hdelay.
    unfold flushOrDelay, effects_send, effects_delayFlush, clearTimeout, Date_now,
      bind, gets, modify, ret, throw. cbv beta.
    destruct (socket c0') as [[]|] eqn:Hs; cbn [socketIsOpen negb andb];
      try (eexists; split; [reflexivity|]; simpl; by rewrite Hbuf, Hwire).
    destruct (throttleDelay c0' <? now (world c0') - lastFlushTime c0'); cbv beta.
    - rewrite Hframe.
      destruct (presence ++ buffer_messages (buffer c) ++ [FETCH_STORAGE] ++ storage)
        as [|m ms] eqn:Hm.
      { exfalso. apply (f_equal length) in Hm. rewrite !length_app in Hm. simpl in Hm. lia. }
      change ((length (m :: ms) =? 0)%nat) with false. cbv beta iota. rewrite Hs.
      eexists; split; [reflexivity|]. simpl. by rewrite Hwire.
    - destruct (timeoutHandles_flush c0');
        (eexists; split; [reflexivity|]; simpl; by rewrite Hbuf, Hwire). }
  destruct Hflush as (c' & Hflush & Hsent).
  assert (Hstart : startLoadingStorage c
                   = (statusNotified (set_getInitialStatePromise (Some Pending) c'), Returned tt)).
  { unfold startLoadingStorage. rewrite bind_gets, Hnone, bind_modify. fold c0.
    rewrite (bind_returned _ _ _ _ _
               (eq_trans (tryFlushing_phases c0)
                  (eq_trans (bind_returned _ _ _ _ _ (registerUnacknowledged_eval _ c0 Hall0))
                            Hflush))).
    by rewrite bind_modify, notifyStorageStatus_eval. }
  set (c1 := statusNotified (set_getInitialStatePromise (Some Pending) c')) in *.
  assert (Hc1 : getInitialStatePromise c1 = Some Pending
                /\ wire (world c1) = wire (world c')
                /\ buffer c1 = buffer c').
  { unfold c1, statusNotified.
    destruct (negb (StorageStatus_eqb _ _)); simpl; split_and!; reflexivity. }
  destruct Hc1 as (Hp & Hw1 & Hb1).
  assert (Hagain : startLoadingStorage c1 = (c1, Returned tt)).
  { unfold startLoadingStorage. by rewrite bind_gets, Hp. }
  exists c1. split_and!.
  - exact Hstart.
  - exact Hp.
  - rewrite Hw1, Hb1. exact Hsent.
  - exact Hagain.
  - intros node Hroot. unfold getStorageSnapshot. by rewrite bind_gets, Hroot.
  - intros Hroot. unfold getStorageSnapshot. rewrite bind_gets, Hroot.
    by rewrite (bind_returned _ _ _ _ _ Hagain).
Qed.

End Flushing.

(** ** Applying ops *)

Section Applying.
Context `{LiveNodes}.

Lemma applyOp_missing op source c :
  addresseeMissing (nodes c) op ->
  applyOp op source c
  = (set_world (set_applied (applied (world c) ++ [(op, source)]) (world c)) c,
     Returned NotModified).
Proof.
  unfold addresseeMissing, addressee, applyOp, isAckOp. intros Hmiss.
  rewrite bind_modify. destruct (op_type op); simpl in *; rewrite ?bind_gets; simpl;
    try (by rewrite Hmiss); try reflexivity.
  all: destruct (parentId op); [by rewrite Hmiss|reflexivity].
Qed.

Lemma applyOps_body_missing isLocal acc op c :
  hasOpId op = true ->
  addresseeMissing (nodes c) op ->
  exists c1, applyOps_body isLocal acc (StorageOp op) c = (c1, Returned acc)
    /\ nodes c1 = nodes c.
Proof.
  intros Hid Hmiss. apply hasOpId_Some in Hid as (id & Hid & _).
  unfold applyOps_body.
  rewrite (bind_returned _ _ _ _ _ (decideSource_eval isLocal op id c Hid)).
  rewrite (bind_returned _ _ _ _ _
             (applyOp_missing op (sourceFor isLocal (unacknowledgedOps c) op)
                (set_unacknowledgedOps (ledgerAfterOp isLocal (unacknowledgedOps c) op) c)
                Hmiss)).
  by eexists.
Qed.

(** X11.  Ops addressed to nodes that are not in the pool are ignored: a
    frame of such ops (updates and deletes of unknown nodes, creates under an
    unknown or absent parent, acks) leaves the store as it was and yields no
    storage update and no reverse op. *)
Theorem ops_for_missing_nodes_are_ignored (c : MachineContext) (ops0 : list Op)
    (isLocal : bool) :
  Forall (fun op => hasOpId op = true) ops0 ->
  Forall (addresseeMissing (nodes c)) ops0 ->
  exists c1 result,
    applyOps (map StorageOp ops0) isLocal c = (c1, Returned result)
    /\ nodes c1 = nodes c
    /\ res_storageUpdates result = []
    /\ res_reverse result = [].
Proof.
  intros Hids Hmiss. unfold applyOps.
  rewrite (bind_returned _ _ _ _ _ (mapM_assignOpId _ c (carriesOpId_map _ Hids))).
  assert (Hloop : forall acc c0, nodes c0 = nodes c ->
            exists c1, foldM (applyOps_body isLocal) (map StorageOp ops0) acc c0
                       = (c1, Returned acc) /\ nodes c1 = nodes c).
  { induction ops0 as [|op l IH]; intros acc c0 Hn; [by exists c0|].
    apply Forall_cons in Hids as [Hid Hids]. apply Forall_cons in Hmiss as [Hm Hmiss].
    destruct (applyOps_body_missing isLocal acc op c0 Hid) as (c1 & Hb & Hn1);
      [by rewrite Hn|].
    destruct (IH Hids Hmiss acc c1) as (c2 & Hl & Hn2); [congruence|].
    exists c2. simpl. by rewrite (bind_returned _ _ _ _ _ Hb). }
  destruct (Hloop ({| out_reverse := []; out_storageUpdates := JsMap.empty;
                      out_presence := false |}, ∅) c eq_refl) as (c1 & Hl & Hn).
  rewrite (bind_returned _ _ _ _ _ Hl).
  rewrite (bind_returned _ _ _ _ _ (notifyStorageStatus_eval c1)).
  eexists _, _. split; [reflexivity|]. split; [|done].
  unfold statusNotified. by destruct (negb _).
Qed.

Lemma applyOps_local_ledger l : preserves unacknowledgedOps (applyOps l true).
Proof.
  unfold applyOps. apply preserves_bind; [frame|intros ops0].
  apply preserves_bind; [|intros; frame].
  apply preserves_foldM. intros acc op. unfold applyOps_body.
  destruct op as [o|d]; [|frame].
  apply preserves_bind; [unfold decideSource; apply preserves_ret|intros source].
  frame.
Qed.

Lemma ledgerAfterOps_other l ledger k :
  (forall o, StorageOp o ∈ l -> opId o <> Some k) ->
  Forall carriesOpId l ->
  JsMap.get k (ledgerAfterOps false ledger l) = JsMap.get k ledger.
Proof.
  intros Hk Hall. revert ledger. induction Hall as [|op l Hop _ IH]; intros ledger; [done|].
  destruct op as [o|d]; simpl.
  - rewrite IH by (intros o' Hin; apply Hk; by right).
    apply hasOpId_Some in Hop as (id & Hid & _).
    unfold ledgerAfterOp. rewrite Hid. simpl.
    apply JsMap_get_delete_ne. intros ->. by apply (Hk o); [left|].
  - apply IH. intros o' Hin. apply Hk. by right.
Qed.

(** X12.  [applyOps] never adds to the ledger of unacknowledged ops.  Applied
    as local ops (undo, redo, resend) it leaves the ledger untouched; applied
    to a frame from the server it removes every opId that comes in the frame
    and no other entry. *)
Theorem applyOps_only_acknowledges :
  (forall l c, unacknowledgedOps (fst (applyOps l true c)) = unacknowledgedOps c)
  /\ (forall ops0 c,
        (forall u : StorageUpdate, is_Some (updatedNodeId u)) ->
        Forall (fun o => hasOpId o = true) ops0 ->
        exists c1 result,
          applyOps (map StorageOp ops0) false c = (c1, Returned result)
          /\ (forall o k, o ∈ ops0 -> opId o = Some k ->
                JsMap.get k (unacknowledgedOps c1) = None)
          /\ (forall k, (forall o, o ∈ ops0 -> opId o <> Some k) ->
                JsMap.get k (unacknowledgedOps c1) = JsMap.get k (unacknowledgedOps c))
          /\ (forall k, JsMap.get k (unacknowledgedOps c) = None ->
                JsMap.get k (unacknowledgedOps c1) = None)).
Proof.
  split.
  - intros l c. apply applyOps_local_ledger.
  - intros ops0 c Hids Hall.
    destruct (applyOps_spec Hids (map StorageOp ops0) false c (carriesOpId_map _ Hall))
      as (c1 & r & Happly & _ & _ & Hledger).
    exists c1, r. split; [exact Happly|]. rewrite Hledger. split_and!.
    + intros o k Hin Hk. apply (ledgerAfterOps_acknowledged _ _ o); [|exact Hk].
      apply list_elem_of_In, in_map_iff. exists o. split; [reflexivity|].
      by apply list_elem_of_In.
    + intros k Hk. apply ledgerAfterOps_other; [|by apply carriesOpId_map].
      intros o Hin. apply Hk.
      apply list_elem_of_In, in_map_iff in Hin as (o' & [= ->] & Hin).
      by apply list_elem_of_In.
    + intros k. apply ledgerAfterOps_absent.
Qed.

Lemma append_inj_r (a s1 s2 : string) : a +:+ s1 = a +:+ s2 -> s1 = s2.
Proof. induction a as [|ch a IH]; simpl; [done|]. intros [= Heq]. by apply IH. Qed.

Lemma opIdOf_inj actor n m : opIdOf actor n = opIdOf actor m -> n = m.
Proof.
  unfold opIdOf. intros Heq. apply append_inj_r in Heq.
  apply (append_inj_r ":") in Heq. by apply (inj pretty) in Heq.
Qed.

Lemma Number_increment_safe n : - 2 ^ 53 <= n < 2 ^ 53 -> Number_increment n = n + 1.
Proof.
  intros Hn. unfold Number_increment.
  destruct (- 2 ^ 53 <=? n) eqn:Hlo; [|apply Z.leb_gt in Hlo; lia].
  destruct (n <? 2 ^ 53) eqn:Hhi; [reflexivity|apply Z.ltb_ge in Hhi; lia].
Qed.

Lemma Number_increment_saturated : Number_increment (2 ^ 53) = 2 ^ 53.
Proof. reflexivity. Qed.

Lemma generateOpIds_spec (n : nat) c actor :
  snd (getConnectionId c) = Returned actor ->
  0 <= opClock c -> opClock c + Z.of_nat n <= 2 ^ 53 ->
  mapM (fun _ : unit => pool_generateOpId) (replicate n tt) c
  = (set_opClock (opClock c + Z.of_nat n) c,
     Returned (map (fun i => opIdOf actor (opClock c + Z.of_nat i)) (seq 0 n))).
Proof.
  revert c. induction n as [|n IH]; intros c Hconn Hlo Hhi.
  - simpl. unfold ret. f_equal. rewrite Z.add_0_r. by destruct c.
  - simpl replicate. simpl mapM.
    rewrite (bind_returned _ _ _ _ _ (pool_generateOpId_eval c actor Hconn)).
    rewrite Number_increment_safe by lia.
    assert (Hconn' : snd (getConnectionId (set_opClock (opClock c + 1) c)) = Returned actor)
      by (rewrite getConnectionId_eval in *; exact Hconn).
    rewrite (bind_returned _ _ _ _ _ (IH (set_opClock (opClock c + 1) c) Hconn'
               ltac:(simpl; lia) ltac:(simpl; lia))).
    unfold ret. simpl. f_equal.
    + unfold set_opClock. simpl. f_equal. lia.
    + f_equal. rewrite Z.add_0_r. f_equal.
      rewrite <- seq_shift, map_map. apply map_ext. intros i. f_equal. lia.
Qed.

Lemma generateOpIds_saturated (n : nat) c actor :
  snd (getConnectionId c) = Returned actor ->
  opClock c = 2 ^ 53 ->
  mapM (fun _ : unit => pool_generateOpId) (replicate n tt) c
  = (c, Returned (replicate n (opIdOf actor (2 ^ 53)))).
Proof.
  intros Hconn Hclock. induction n as [|n IH]; [reflexivity|].
  simpl replicate. simpl mapM.
  rewrite (bind_returned _ _ _ _ _ (pool_generateOpId_eval c actor Hconn)).
  rewrite Hclock, Number_increment_saturated.
  replace (set_opClock (2 ^ 53) c) with c by (rewrite <- Hclock; by destruct c).
  by rewrite (bind_returned _ _ _ _ _ IH).
Qed.

(** X13.  [pool.generateOpId] needs a connection id: it throws in a room
    whose connection was never open and otherwise numbers the ops of the
    actor with [opClock].  The counter is a double.  While it stays within the
    safe integers (it starts at 0 and the ids are generated before it passes
    2^53), the ids generated in a row under one connection id are non-empty
    and pairwise distinct, and the counter advances by their number.  At 2^53
    the increment is lost in rounding: the counter stays, and every further
    call returns the same opId again. *)
Theorem generated_opIds_are_distinct (n : nat) (c : MachineContext) :
  (isConnectionSelfAware (connection c) = false -> lastConnectionId c = None ->
     pool_generateOpId c
     = (c, Thrown "Internal. Tried to get connection id but connection was never open"))
  /\ (forall actor, snd (getConnectionId c) = Returned actor ->
        0 <= opClock c -> opClock c + Z.of_nat n <= 2 ^ 53 ->
        exists ids,
          mapM (fun _ : unit => pool_generateOpId) (replicate n tt) c
          = (set_opClock (opClock c + Z.of_nat n) c, Returned ids)
          /\ length ids = n
          /\ NoDup ids
          /\ Forall (fun id => id <> "") ids)
  /\ (forall actor, snd (getConnectionId c) = Returned actor ->
        opClock c = 2 ^ 53 ->
        mapM (fun _ : unit => pool_generateOpId) (replicate n tt) c
        = (c, Returned (replicate n (opIdOf actor (2 ^ 53))))).
Proof.
  split_and!.
  - intros Hself Hlast. unfold pool_generateOpId.
    unfold bind at 1. rewrite getConnectionId_eval, Hlast.
    by destruct (connection c).
  - intros actor Hconn Hlo Hhi. eexists. split; [by apply generateOpIds_spec|].
    split; [by rewrite length_map, length_seq|]. split.
    + apply NoDup_fmap_2_strong; [|apply NoDup_seq].
      intros i j _ _ Heq. apply opIdOf_inj in Heq. lia.
    + apply Forall_forall. intros id Hin.
      apply list_elem_of_In, in_map_iff in Hin as (i & <- & _). apply opIdOf_nonempty.
  - intros actor Hconn Hclock. by apply generateOpIds_saturated.
Qed.

End Applying.

(** ** Nodes created and changed in one frame; loading without a root *)

Section Loading.
Context `{LiveNodes}.

Lemma applyOp_create op source c pid parent :
  isCreateOfContainer op = true ->
  parentId op = Some pid ->
  getNode (nodes c) pid = Some parent ->
  applyOp op source c
  = (set_nodes (fst (node_attachChild parent op source (nodes c))) (logged op source c),
     Returned (snd (node_attachChild parent op source (nodes c)))).
Proof.
  unfold isCreateOfContainer, applyOp, isAckOp, runOnNodes. intros Hty Hpid Hparent.
  rewrite bind_modify.
  destruct (op_type op); try discriminate; simpl; rewrite bind_gets; simpl;
    rewrite Hpid, Hparent, bind_gets, bind_modify; reflexivity.
Qed.

Lemma applyOp_update op source c node :
  op_type op = UPDATE_OBJECT ->
  getNode (nodes c) (op_id op) = Some node ->
  applyOp op source c
  = (set_nodes (fst (node_apply node op (OpSource_isUndoRedo source) (nodes c)))
       (logged op source c),
     Returned (snd (node_apply node op (OpSource_isUndoRedo source) (nodes c)))).
Proof.
  unfold applyOp, isAckOp, runOnNodes. intros Hty Hnode.
  rewrite bind_modify, Hty. simpl. rewrite bind_gets. simpl.
  rewrite Hnode, bind_gets, bind_modify. reflexivity.
Qed.

Lemma sourceFor_isUndoRedo isLocal ledger op :
  OpSource_isUndoRedo (sourceFor isLocal ledger op) = isLocal.
Proof. unfold sourceFor. destruct isLocal; [done|]. by repeat case_match. Qed.

(** X14.  A node created in a frame is not reported again when a later op of
    the same frame changes it: after a create op and an update of the created
    node, the only storage update reported is the one of the create (for the
    node it names, the parent) and the only reverse ops are those of the
    create, although both ops were applied to the store. *)
Theorem created_node_is_not_reported_twice (c : MachineContext) (isLocal : bool)
    (create update : Op) (pid reported : string) (parent child : LiveNode)
    (st1 st2 : Store) (m1 m2 : StorageUpdate) (rev1 rev2 : list Op) :
  hasOpId create = true -> hasOpId update = true ->
  isCreateOfContainer create = true ->
  parentId create = Some pid ->
  getNode (nodes c) pid = Some parent ->
  node_attachChild parent create (sourceFor isLocal (unacknowledgedOps c) create) (nodes c)
    = (st1, Modified m1 rev1) ->
  updatedNodeId m1 = Some reported ->
  op_type update = UPDATE_OBJECT ->
  op_id update = op_id create ->
  op_id create <> "" ->
  getNode st1 (op_id create) = Some child ->
  node_apply child update isLocal st1 = (st2, Modified m2 rev2) ->
  updatedNodeId m2 = Some (op_id create) ->
  exists c1 result,
    applyOps [StorageOp create; StorageOp update] isLocal c = (c1, Returned result)
    /\ nodes c1 = st2
    /\ res_storageUpdates result = [(reported, mergeStorageUpdates None m1)]
    /\ res_reverse result = map StorageOp rev1.
Proof.
  intros Hid1 Hid2 Hcreate Hpid Hparent Hattach Hm1 Hty Hsame Hne Hchild Happly Hm2.
  unfold applyOps.
  rewrite (bind_returned _ _ _ _ _
             (mapM_assignOpId [StorageOp create; StorageOp update] c
                (carriesOpId_map [create; update] ltac:(by repeat constructor)))).
  destruct (hasOpId_Some _ Hid1) as (id1 & Hopid1 & _).
  destruct (hasOpId_Some _ Hid2) as (id2 & Hopid2 & _).
  set (l1 := ledgerAfterOp isLocal (unacknowledgedOps c) create).
  set (s1 := sourceFor isLocal (unacknowledgedOps c) create) in *.
  set (ca := set_unacknowledgedOps l1 c).
  set (cb := set_nodes st1 (logged create s1 ca)).
  set (acc1 := ({| out_reverse := map StorageOp rev1 ++ [];
                   out_storageUpdates := JsMap.set reported (mergeStorageUpdates None m1) JsMap.empty;
                   out_presence := false |}, {[ op_id create ]} ∪ (∅ : gset string))).
  assert (Hbody1 : applyOps_body isLocal
                     ({| out_reverse := []; out_storageUpdates := JsMap.empty;
                         out_presence := false |}, ∅) (StorageOp create) c
                   = (cb, Returned acc1)).
  { unfold applyOps_body.
    rewrite (bind_returned _ _ _ _ _ (decideSource_eval isLocal create id1 c Hopid1)).
    fold l1 s1 ca.
    rewrite (bind_returned _ _ _ _ _ (applyOp_create create s1 ca pid parent Hcreate Hpid Hparent)).
    change (nodes ca) with (nodes c). rewrite Hattach. simpl.
    rewrite Hm1. unfold createdInSameBatch.
    rewrite (bool_decide_eq_false_2 (reported ∈ (∅ : gset string))) by set_solver.
    rewrite andb_false_r. simpl. rewrite Hcreate. reflexivity. }
  set (s2 := sourceFor isLocal (unacknowledgedOps cb) update).
  set (cc := set_unacknowledgedOps (ledgerAfterOp isLocal (unacknowledgedOps cb) update) cb).
  assert (Hbody2 : applyOps_body isLocal acc1 (StorageOp update) cb
                   = (set_nodes st2 (logged update s2 cc), Returned acc1)).
  { unfold applyOps_body.
    rewrite (bind_returned _ _ _ _ _ (decideSource_eval isLocal update id2 cb Hopid2)).
    fold s2 cc.
    assert (Hnode : getNode (nodes cc) (op_id update) = Some child) by (by rewrite Hsame).
    rewrite (bind_returned _ _ _ _ _ (applyOp_update update s2 cc child Hty Hnode)).
    change (nodes cc) with st1. unfold s2. rewrite sourceFor_isUndoRedo, Happly. simpl.
    rewrite Hm2. unfold createdInSameBatch. simpl.
    rewrite (bool_decide_eq_true_2 (op_id create ∈ {[op_id create]} ∪ (∅ : gset string)))
      by set_solver.
    destruct (String.eqb_spec (op_id create) ""); [done|]. simpl.
    unfold isCreateOfContainer. rewrite Hty. reflexivity. }
  assert (Hloop : foldM (applyOps_body isLocal) [StorageOp create; StorageOp update]
                    ({| out_reverse := []; out_storageUpdates := JsMap.empty;
                        out_presence := false |}, ∅) c
                  = (set_nodes st2 (logged update s2 cc), Returned acc1)).
  { cbn [foldM].
    rewrite (bind_returned _ _ _ _ _ Hbody1).
    by rewrite (bind_returned _ _ _ _ _ Hbody2). }
  rewrite (bind_returned _ _ _ _ _ Hloop).
  rewrite (bind_returned _ _ _ _ _ (notifyStorageStatus_eval _)).
  eexists _, _. split; [reflexivity|]. simpl. split.
  - unfold statusNotified. by destruct (negb _).
  - split; [reflexivity|]. by rewrite app_nil_r.
Qed.

Section WithLiveObject.
Context `{!LiveObjectApi}.

(** X15.  An INITIAL_STORAGE_STATE message the room cannot load is rejected
    before anything changes: without items, and on first load without a root
    item, the handler throws and leaves the whole context (store, root,
    ledger, buffer, wire) as it was. *)
Theorem initial_storage_without_root_is_rejected (c : MachineContext) (items : list IdTuple) :
  onInitialStorageState [] c
    = (c, Thrown "Internal error: cannot load storage without items")
  /\ (root c = None -> items <> [] ->
      Forall (fun item => isRootCrdt (snd item) = false) items ->
      onInitialStorageState items c = (c, Thrown "Root can't be null")).
Proof.
  split; [reflexivity|].
  intros Hroot Hitems Hall.
  assert (Hfold : forall acc,
            fst (fold_left
                   (fun (acc : option IdTuple * JsMap.t (list IdTuple)) (item : IdTuple) =>
                      if isRootCrdt (snd item) then (Some item, snd acc)
                      else
                        let parent := default "" (crdt_parentId (snd item)) in
                        match JsMap.get parent (snd acc) with
                        | Some children =>
                            (fst acc, JsMap.set parent (children ++ [item]) (snd acc))
                        | None => (fst acc, JsMap.set parent [item] (snd acc))
                        end) items acc) = fst acc).
  { clear Hitems. induction Hall as [|item l Hitem _ IH]; intros acc; [done|].
    simpl. rewrite IH, Hitem. simpl. by destruct (JsMap.get _ _). }
  destruct items as [|item items]; [done|].
  assert (Hbuild : buildRootAndParentToChildren (item :: items) c
                   = (c, Thrown "Root can't be null")).
  { unfold buildRootAndParentToChildren. by rewrite Hfold. }
  assert (Hload : load (item :: items) c = (c, Thrown "Root can't be null")).
  { unfold load. by rewrite (bind_thrown _ _ _ _ _ Hbuild). }
  assert (Hcreate : createOrUpdateRootFromMessage (item :: items) c
                    = (c, Thrown "Root can't be null")).
  { unfold createOrUpdateRootFromMessage. simpl length. simpl Nat.eqb.
    rewrite (bind_returned _ _ _ _ _ (eq_refl : ret tt c = (c, Returned tt))).
    rewrite bind_gets, Hroot.
    apply bind_thrown. by apply bind_thrown. }
  unfold onInitialStorageState. rewrite bind_gets.
  by apply bind_thrown.
Qed.

End WithLiveObject.

End Loading.

(** ** The flush timer *)

Section FlushTimer.
Context `{LiveNodes}.

Lemma tryFlushing_connection : preserves connection tryFlushing.
Proof. frame. Qed.

Lemma tryFlushing_lastConnectionId : preserves lastConnectionId tryFlushing.
Proof. frame. Qed.

Lemma tryFlushing_me : preserves me tryFlushing.
Proof. frame. Qed.

Lemma tryFlushing_root : preserves root tryFlushing.
Proof. frame. Qed.

Lemma tryFlushing_socket : preserves socket tryFlushing.
Proof. frame. Qed.

Lemma tryFlushing_throttleDelay : preserves throttleDelay tryFlushing.
Proof. frame. Qed.

Lemma tryFlushing_now : preserves (fun c => now (world c)) tryFlushing.
Proof. frame. Qed.

(** What [tryFlushing] does on an open socket, field by field. *)
Lemma tryFlushing_open (c : MachineContext) :
  socket c = Some OPEN ->
  Forall (fun op => is_Some (opId op)) (buffer_storageOperations (buffer c)) ->
  let elapsedTime := now (world c) - lastFlushTime c in
  let c' := fst (tryFlushing c) in
  snd (tryFlushing c) = Returned tt
  /\ (throttleDelay c < elapsedTime -> flushDataToMessages c <> [] ->
        wire (world c') = wire (world c) ++ [flushDataToMessages c]
        /\ buffer c' = emptyBuffer
        /\ lastFlushTime c' = now (world c)
        /\ timeoutHandles_flush c' = timeoutHandles_flush c
        /\ timers (world c') = timers (world c)
        /\ nextTimeoutID (world c') = nextTimeoutID (world c))
  /\ (elapsedTime <= throttleDelay c ->
        wire (world c') = wire (world c)
        /\ buffer c' = buffer c
        /\ lastFlushTime c' = lastFlushTime c
        /\ timeoutHandles_flush c' = Some (nextTimeoutID (world c))
        /\ timers (world c') =
             timersWithout (timeoutHandles_flush c) (timers (world c))
             ++ [(nextTimeoutID (world c), throttleDelay c - elapsedTime)]
        /\ nextTimeoutID (world c') = S (nextTimeoutID (world c))).
Proof.
  intros Hs Hall. cbv zeta. rewrite tryFlushing_phases.
  rewrite (bind_returned _ _ _ _ _ (registerUnacknowledged_eval _ c Hall)).
  set (c1 := if negb _ then _ else c).
  assert (Hsame : socket c1 = socket c /\ buffer c1 = buffer c
                  /\ lastFlushTime c1 = lastFlushTime c
                  /\ throttleDelay c1 = throttleDelay c
                  /\ timeoutHandles_flush c1 = timeoutHandles_flush c
                  /\ now (world c1) = now (world c)
                  /\ wire (world c1) = wire (world c)
                  /\ timers (world c1) = timers (world c)
                  /\ nextTimeoutID (world c1) = nextTimeoutID (world c)).
  { unfold c1, statusNotified. repeat case_match; simpl; split_and!; reflexivity. }
  destruct Hsame as (Hsock & Hbuf & Hlast & Hdelay & Hhandle & Hnow & Hwire & Htimers & Hnext).
  assert (Hmsgs : flushDataToMessages c1 = flushDataToMessages c).
  { unfold flushDataToMessages. by rewrite Hbuf. }
  clearbody c1. split; [apply flushOrDelay_returns|].
  unfold flushOrDelay, effects_send, effects_delayFlush, clearTimeout, Date_now,
    bind, gets, modify, ret. simpl.
  rewrite Hsock, Hs. simpl. rewrite Hnow, Hlast, Hdelay.
  split.
  - intros Hlt Hne. apply Z.ltb_lt in Hlt. rewrite Hlt, Hmsgs.
    destruct (flushDataToMessages c) as [|m ms] eqn:Hm; [done|]. simpl.
    rewrite Hsock, Hs. simpl. by rewrite Hwire, Hhandle, Htimers, Hnext.
  - intros Hle. apply Z.ltb_ge in Hle. rewrite Hle, Hhandle.
    destruct (timeoutHandles_flush c) as [h|]; simpl;
      rewrite ?Hwire, ?Hbuf, ?Hlast, ?Hnext, ?Htimers; split_and!; reflexivity.
Qed.

Lemma registerUnacknowledged_timers l :
  preserves (fun c => timers (world c)) (registerUnacknowledged l).
Proof. unfold registerUnacknowledged. frame. Qed.

Lemma registerUnacknowledged_flushHandle l :
  preserves timeoutHandles_flush (registerUnacknowledged l).
Proof. unfold registerUnacknowledged. frame. Qed.

Lemma flushOrDelay_flushTimerTracked c :
  flushTimerTracked c -> flushTimerTracked (fst (flushOrDelay c)).
Proof.
  unfold flushTimerTracked, flushOrDelay, effects_send, effects_delayFlush, clearTimeout,
    Date_now, bind, gets, modify, ret, throw. simpl.
  intros Htracked.
  destruct (socket c) as [[]|] eqn:Hs; simpl; try exact Htracked.
  destruct (_ <? _); simpl.
  - destruct (length (flushDataToMessages c) =? 0)%nat; simpl; [exact Htracked|].
    rewrite Hs. simpl. exact Htracked.
  - right. destruct Htracked as [Hnil|(h & d & Hone & Hh)].
    + destruct (timeoutHandles_flush c); simpl; rewrite Hnil; simpl; by eexists _, _.
    + rewrite Hh. simpl. rewrite Hone. simpl. rewrite Nat.eqb_refl. simpl. by eexists _, _.
Qed.

Lemma tryFlushing_flushTimerTracked c :
  flushTimerTracked c -> flushTimerTracked (fst (tryFlushing c)).
Proof.
  intros Htracked. rewrite tryFlushing_phases. unfold bind.
  pose proof (registerUnacknowledged_timers (buffer_storageOperations (buffer c)) c) as Ht.
  pose proof (registerUnacknowledged_flushHandle (buffer_storageOperations (buffer c)) c) as Hf.
  destruct (registerUnacknowledged _ c) as [c1 [[]|e]]; simpl in *.
  - apply flushOrDelay_flushTimerTracked. unfold flushTimerTracked. by rewrite Ht, Hf.
  - unfold flushTimerTracked. by rewrite Ht, Hf.
Qed.

End FlushTimer.

Section KeepsFlushTimer.
Context `{LiveNodes}.

Lemma keepsFlushTimer_ret {A : Type} (a : A) : keepsFlushTimer (ret a).
Proof. by intros c Hc. Qed.

Lemma keepsFlushTimer_throw {A : Type} (e : string) : keepsFlushTimer (throw (A := A) e).
Proof. by intros c Hc. Qed.

Lemma keepsFlushTimer_gets {A : Type} (f : MachineContext -> A) : keepsFlushTimer (gets f).
Proof. by intros c Hc. Qed.

Lemma keepsFlushTimer_modify (g : MachineContext -> MachineContext) :
  (forall c, timers (world (g c)) = timers (world c)) ->
  (forall c, timeoutHandles_flush (g c) = timeoutHandles_flush c) ->
  keepsFlushTimer (modify g).
Proof. intros Ht Hf c. unfold flushTimerTracked, modify. simpl. by rewrite Ht, Hf. Qed.

Lemma keepsFlushTimer_bind {A B : Type} (m : M A) (k : A -> M B) :
  keepsFlushTimer m -> (forall a, keepsFlushTimer (k a)) -> keepsFlushTimer (bind m k).
Proof.
  intros Hm Hk c Hc. unfold bind. specialize (Hm c Hc).
  destruct (m c) as [c1 [a|e]]; simpl in *; [by apply Hk|done].
Qed.

Lemma keepsFlushTimer_forEach {A : Type} (g : A -> M unit) (l : list A) :
  (forall a, keepsFlushTimer (g a)) -> keepsFlushTimer (forEach g l).
Proof.
  intros Hg. induction l as [|a l IH]; simpl; [apply keepsFlushTimer_ret|].
  apply keepsFlushTimer_bind; [apply Hg|by intros _].
Qed.

Lemma keepsFlushTimer_mapM {A B : Type} (g : A -> M B) (l : list A) :
  (forall a, keepsFlushTimer (g a)) -> keepsFlushTimer (mapM g l).
Proof.
  intros Hg. induction l as [|a l IH]; simpl; [apply keepsFlushTimer_ret|].
  apply keepsFlushTimer_bind; [apply Hg|intros b].
  apply keepsFlushTimer_bind; [apply IH|intros bs]. apply keepsFlushTimer_ret.
Qed.

Lemma keepsFlushTimer_foldM {A S : Type} (g : S -> A -> M S) (l : list A) (s : S) :
  (forall s a, keepsFlushTimer (g s a)) -> keepsFlushTimer (foldM g l s).
Proof.
  intros Hg. revert s. induction l as [|a l IH]; intros s; simpl; [apply keepsFlushTimer_ret|].
  apply keepsFlushTimer_bind; [apply Hg|intros s']. apply IH.
Qed.

Lemma keepsFlushTimer_try_finally {A : Type} (body : M A) (cleanup : M unit) :
  keepsFlushTimer body -> keepsFlushTimer cleanup -> keepsFlushTimer (try_finally body cleanup).
Proof.
  intros Hb Hc c Htracked. unfold try_finally. specialize (Hb c Htracked).
  destruct (body c) as [c1 r]; simpl in *. specialize (Hc c1 Hb).
  by destruct (cleanup c1) as [c2 [[]|e]].
Qed.

Lemma keepsFlushTimer_tryFlushing : keepsFlushTimer tryFlushing.
Proof. intros c. apply tryFlushing_flushTimerTracked. Qed.

End KeepsFlushTimer.

Ltac keeps_timer_step :=
  lazymatch goal with
  | |- keepsFlushTimer tryFlushing => apply keepsFlushTimer_tryFlushing
  | |- keepsFlushTimer (dispatchOps _) => unfold dispatchOps
  | |- keepsFlushTimer (ret _) => apply keepsFlushTimer_ret
  | |- keepsFlushTimer (throw _) => apply keepsFlushTimer_throw
  | |- keepsFlushTimer (gets _) => apply keepsFlushTimer_gets
  | |- keepsFlushTimer (modify _) => apply keepsFlushTimer_modify; intros; reflexivity
  | |- keepsFlushTimer (bind _ _) => apply keepsFlushTimer_bind; [|intros]
  | |- keepsFlushTimer (forEach _ _) => apply keepsFlushTimer_forEach; intros
  | |- keepsFlushTimer (mapM _ _) => apply keepsFlushTimer_mapM; intros
  | |- keepsFlushTimer (foldM _ _ _) => apply keepsFlushTimer_foldM; intros
  | |- keepsFlushTimer (try_finally _ _) => apply keepsFlushTimer_try_finally
  | |- keepsFlushTimer (match ?x with _ => _ end) => destruct x
  | |- keepsFlushTimer _ => progress (autounfold with machine; cbv zeta)
  end.

Ltac keeps_timer := repeat keeps_timer_step.

Section HostCallsKeepFlushTimer.
Context `{LiveNodes}.

Lemma keepsFlushTimer_perform call : keepsFlushTimer (perform call).
Proof.
  destruct call; simpl.
  - unfold updatePresence. keeps_timer.
  - unfold broadcastEvent. keeps_timer.
  - unfold undo. keeps_timer.
  - unfold redo. keeps_timer.
  - unfold pauseHistory. keeps_timer.
  - unfold resumeHistory. keeps_timer.
  - unfold startLoadingStorage. keeps_timer.
Qed.

Lemma keepsFlushTimer_pool_dispatch ops0 reverse storageUpdates :
  keepsFlushTimer (pool_dispatch ops0 reverse storageUpdates).
Proof. unfold pool_dispatch. keeps_timer. Qed.

End HostCallsKeepFlushTimer.

Section StorageMessagesKeepFlushTimer.
Context `{LiveNodes} `{!LiveObjectApi}.

Hypothesis LiveObject_set_timer : setKeepsFlushTimer.

Lemma keepsFlushTimer_onMessage messages : keepsFlushTimer (onMessage messages).
Proof.
  unfold onMessage, onUpdateStorage, onInitialStorageState, createOrUpdateRootFromMessage,
    applyAndSendOps, updateRoot, load, buildRootAndParentToChildren.
  repeat first [apply LiveObject_set_timer | keeps_timer_step].
Qed.

End StorageMessagesKeepFlushTimer.

(** ** The storage status the subscribers know *)

Section Hoare.
Context `{LiveNodes}.

Lemma hoare_ret {A : Type} (P : MachineContext -> Prop) (a : A) Q E :
  (forall c, P c -> Q a c) -> hoare P (ret a) Q E.
Proof. intros HQ c Hc. simpl. by apply HQ. Qed.

Lemma hoare_throw {A : Type} (P : MachineContext -> Prop) (e : string)
    (Q : A -> MachineContext -> Prop) (E : MachineContext -> Prop) :
  (forall c, P c -> E c) -> hoare P (throw e) Q E.
Proof. intros HE c Hc. simpl. by apply HE. Qed.

Lemma hoare_gets {A : Type} (P : MachineContext -> Prop) (f : MachineContext -> A) Q E :
  (forall c, P c -> Q (f c) c) -> hoare P (gets f) Q E.
Proof. intros HQ c Hc. simpl. by apply HQ. Qed.

Lemma hoare_modify (P : MachineContext -> Prop) (g : MachineContext -> MachineContext) Q E :
  (forall c, P c -> Q tt (g c)) -> hoare P (modify g) Q E.
Proof. intros HQ c Hc. simpl. by apply HQ. Qed.

Lemma hoare_bind {A B : Type} (P : MachineContext -> Prop) (m : M A) (k : A -> M B)
    (Q : A -> MachineContext -> Prop) R E :
  hoare P m Q E -> (forall a, hoare (Q a) (k a) R E) -> hoare P (bind m k) R E.
Proof.
  intros Hm Hk c Hc. unfold bind. specialize (Hm c Hc).
  destruct (m c) as [c1 [a|e]]; [by apply Hk|done].
Qed.

Lemma hoare_weaken {A : Type} (P P' : MachineContext -> Prop) (m : M A)
    (Q Q' : A -> MachineContext -> Prop) (E E' : MachineContext -> Prop) :
  hoare P' m Q' E' ->
  (forall c, P c -> P' c) -> (forall a c, Q' a c -> Q a c) -> (forall c, E' c -> E c) ->
  hoare P m Q E.
Proof.
  intros Hm HP HQ HE c Hc. specialize (Hm c (HP c Hc)).
  destruct (m c) as [c1 [a|e]]; [by apply HQ|by apply HE].
Qed.

Lemma hoare_forEach {A : Type} (P : MachineContext -> Prop) (g : A -> M unit) (l : list A) :
  (forall a, hoare P (g a) (fun _ => P) P) -> hoare P (forEach g l) (fun _ => P) P.
Proof.
  intros Hg. induction l as [|a l' IH]; simpl; [apply hoare_ret; intros c Hc; exact Hc|].
  eapply hoare_bind; [apply Hg|intros ?; exact IH].
Qed.

Lemma hoare_foldM {A S : Type} (P : MachineContext -> Prop) (g : S -> A -> M S)
    (l : list A) (s : S) :
  (forall s a, hoare P (g s a) (fun _ => P) P) -> hoare P (foldM g l s) (fun _ => P) P.
Proof.
  intros Hg. revert s. induction l as [|a l IH]; intros s; simpl; [apply hoare_ret; intros c Hc; exact Hc|].
  eapply hoare_bind; [apply Hg|intros s'; apply IH].
Qed.

(** What is kept by a function is kept as a precondition. *)
Lemma hoare_preserves {A X : Type} (f : MachineContext -> X) (P : X -> Prop) (m : M A) :
  preserves f m -> hoare (fun c => P (f c)) m (fun _ c => P (f c)) (fun c => P (f c)).
Proof.
  intros Hm c Hc. specialize (Hm c). destruct (m c) as [c1 [a|e]]; simpl in *; by rewrite Hm.
Qed.

(** ... together with what holds of the value it returns. *)
Lemma hoare_preserves_value {A X : Type} (f : MachineContext -> X) (P : X -> Prop) (m : M A)
    (V : A -> Prop) :
  preserves f m ->
  (forall c, match snd (m c) with Returned a => V a | Thrown _ => True end) ->
  hoare (fun c => P (f c)) m (fun a c => P (f c) /\ V a) (fun c => P (f c)).
Proof.
  intros Hm HV c Hc. specialize (Hm c). specialize (HV c).
  destruct (m c) as [c1 [a|e]]; simpl in *; rewrite Hm; [by split|done].
Qed.

End Hoare.

Section StorageStatusKnown.
Context `{LiveNodes}.

Lemma statusKnown_view c : statusKnown c <-> knownView (statusView c).
Proof. reflexivity. Qed.

Lemma heardStatus_other events e :
  isStatusEvent e = false -> heardStatus (events ++ [e]) = heardStatus events.
Proof. unfold heardStatus. rewrite fold_left_app. by destruct e. Qed.

Lemma heardStatus_status events s : heardStatus (events ++ [StorageStatusEvent s]) = s.
Proof. unfold heardStatus. by rewrite fold_left_app. Qed.

Lemma preserves_statusView_emit e :
  isStatusEvent e = false -> preserves statusView (emit e).
Proof.
  intros He c. unfold emit, modify, statusView. simpl. by rewrite heardStatus_other.
Qed.

Lemma statusNotified_known c : statusCoherent c -> statusKnown (statusNotified c).
Proof.
  unfold statusKnown, statusCoherent, statusNotified. intros [Hheard Hids].
  destruct (StorageStatus_eqb _ _) eqn:Heq; simpl.
  - split; [by split|]. by apply StorageStatus_eqb_eq.
  - rewrite heardStatus_status. repeat split; done.
Qed.

End StorageStatusKnown.

Create HintDb machine_view.
#[global] Hint Unfold nn effects_send clearTimeout effects_delayFlush Date_now
  onHistoryChange _addToRealUndoStack addToUndoStack notify getConnectionId
  pool_generateOpId runOnNodes applyOp assignOpId : machine_view.

(** [statusView] is kept by whatever neither notifies the storage status nor
    touches what the status depends on. *)
Ltac view_step :=
  lazymatch goal with
  | |- preserves statusView (emit _) => apply preserves_statusView_emit; reflexivity
  | |- preserves _ (ret _) => apply preserves_ret
  | |- preserves _ (throw _) => apply preserves_throw
  | |- preserves _ (gets _) => apply preserves_gets
  | |- preserves _ (modify _) => apply preserves_modify; intros; reflexivity
  | |- preserves _ (bind _ _) => apply preserves_bind; [|intros]
  | |- preserves _ (forEach _ _) => apply preserves_forEach; intros
  | |- preserves _ (mapM _ _) => apply preserves_mapM; intros
  | |- preserves _ (foldM _ _ _) => apply preserves_foldM; intros
  | |- preserves _ (match ?x with _ => _ end) => destruct x
  | |- preserves _ _ => progress (autounfold with machine_view; cbv zeta)
  end.

Ltac view := repeat view_step.

Section StorageStatusTriples.
Context `{LiveNodes}.

(** Kept views keep the status known. *)
Lemma hoare_view {A : Type} (m : M A) :
  preserves statusView m -> hoare statusKnown m (fun _ => statusKnown) statusKnown.
Proof. intros Hm. by apply (hoare_preserves statusView knownView). Qed.

Lemma hoare_view_value {A : Type} (m : M A) (V : A -> Prop) :
  preserves statusView m ->
  (forall c, match snd (m c) with Returned a => V a | Thrown _ => True end) ->
  hoare statusKnown m (fun a c => statusKnown c /\ V a) statusKnown.
Proof. intros Hm HV. by apply (hoare_preserves_value statusView knownView). Qed.

Lemma hoare_notifyStorageStatus :
  hoare statusCoherent notifyStorageStatus (fun _ => statusKnown) statusKnown.
Proof. intros c Hc. rewrite notifyStorageStatus_eval. by apply statusNotified_known. Qed.

Lemma flushOrDelay_status :
  preserves (fun c => (heardStatus (emitted (world c)), lastStorageStatus c,
                       getInitialStatePromise c, root c, unacknowledgedOps c)) flushOrDelay.
Proof. unfold flushOrDelay. frame. Qed.

Lemma flushOrDelay_identified c :
  Forall (fun op => is_Some (opId op)) (buffer_storageOperations (buffer c)) ->
  Forall (fun op => is_Some (opId op)) (buffer_storageOperations (buffer (fst (flushOrDelay c)))).
Proof.
  intros Hids.
  unfold flushOrDelay, effects_send, effects_delayFlush, clearTimeout, Date_now,
    bind, gets, modify, ret, throw. simpl.
  destruct (socket c) as [[]|] eqn:Hs; simpl; try done.
  destruct (_ <? _); simpl.
  - destruct (length (flushDataToMessages c) =? 0)%nat; simpl; [done|].
    rewrite Hs. simpl. constructor.
  - by destruct (timeoutHandles_flush c).
Qed.

(** [tryFlushing] in a room whose status is known returns, and leaves it
    known. *)
Lemma hoare_tryFlushing :
  hoare statusKnown tryFlushing (fun _ => statusKnown) (fun _ => False).
Proof.
  intros c [[Hheard Hids] Hlast]. rewrite tryFlushing_phases.
  rewrite (bind_returned _ _ _ _ _ (registerUnacknowledged_eval _ c Hids)).
  set (c1 := if negb _ then _ else c).
  assert (Hc1 : statusKnown c1
                /\ buffer_storageOperations (buffer c1) = buffer_storageOperations (buffer c)).
  { unfold c1. destruct (negb _).
    - split; [|unfold statusNotified; by destruct (negb _)].
      apply statusNotified_known. by split.
    - by repeat split. }
  destruct Hc1 as [Hknown Hops]. clearbody c1.
  pose proof (flushOrDelay_returns c1) as Hret.
  pose proof (flushOrDelay_status c1) as Hstatus.
  pose proof (flushOrDelay_identified c1 (proj2 (proj1 Hknown))) as Hids1.
  destruct (flushOrDelay c1) as [c2 [[]|e]]; simpl in *; [|done].
  injection Hstatus as Hh Hl Hp Hr Hu.
  destruct Hknown as [[Hheard1 _] Hlast1].
  unfold statusKnown, statusCoherent, getStorageStatus in *.
  rewrite Hh, Hl, Hp, Hr, Hu. by repeat split.
Qed.

Lemma hoare_tryFlushing_known :
  hoare statusKnown tryFlushing (fun _ => statusKnown) statusKnown.
Proof. eapply hoare_weaken; [apply hoare_tryFlushing|done..]. Qed.

(** Ops join the buffer with their ids, and are flushed. *)
Lemma hoare_dispatchOps ops0 :
  Forall (fun op => is_Some (opId op)) ops0 ->
  hoare statusKnown (dispatchOps ops0) (fun _ => statusKnown) statusKnown.
Proof.
  intros Hids. unfold dispatchOps.
  eapply hoare_bind; [|intros ?; apply hoare_tryFlushing_known].
  apply hoare_modify. intros c [[Hheard Hbuffered] Hlast].
  repeat split; try done. simpl. by apply Forall_app.
Qed.

Lemma identifiedOp_storageOpsOf l :
  Forall identifiedOp l -> Forall (fun op => is_Some (opId op)) (storageOpsOf l).
Proof.
  induction 1 as [|[o|d] l Hop _ IH]; simpl; [constructor|by constructor|done].
Qed.

Lemma assignOpId_identifies op c :
  match snd (assignOpId op c) with Returned op' => identifiedOp op' | Thrown _ => True end.
Proof.
  destruct op as [o|d]; simpl; [|done].
  destruct (hasOpId o) eqn:Hid; simpl.
  - unfold hasOpId in Hid. by destruct (opId o).
  - unfold bind. destruct (pool_generateOpId c) as [c1 [id|e]]; simpl; [|done].
    by eexists.
Qed.

Lemma mapM_assignOpId_identifies l c :
  match snd (mapM assignOpId l c) with Returned l' => Forall identifiedOp l' | Thrown _ => True end.
Proof.
  revert c. induction l as [|op l IH]; intros c; simpl; [constructor|].
  unfold bind. pose proof (assignOpId_identifies op c) as Hop.
  destruct (assignOpId op c) as [c1 [op'|e]]; simpl in *; [|done].
  specialize (IH c1). destruct (mapM assignOpId l c1) as [c2 [l'|e]]; simpl in *; [|done].
  by constructor.
Qed.

Lemma hoare_pure {A : Type} (P : MachineContext -> Prop) (V : Prop) (m : M A) Q E :
  (V -> hoare P m Q E) -> hoare (fun c => P c /\ V) m Q E.
Proof. intros Hm c [Hc HV]. by apply Hm. Qed.

Lemma applyOps_body_local_view acc op : preserves statusView (applyOps_body true acc op).
Proof.
  unfold applyOps_body. destruct op as [o|d]; [|view].
  apply preserves_bind; [unfold decideSource; apply preserves_ret|intros source]. view.
Qed.

(** Ops applied as local ops keep the status known, and come back with their
    ids. *)
Lemma hoare_applyOps_local l :
  hoare statusKnown (applyOps l true)
        (fun result c => statusKnown c /\ Forall identifiedOp (res_ops result)) statusKnown.
Proof.
  unfold applyOps.
  eapply hoare_bind.
  { apply (hoare_view_value _ (Forall identifiedOp)); [view|apply mapM_assignOpId_identifies]. }
  intros ops0. apply hoare_pure. intros Hids.
  eapply hoare_bind.
  { apply hoare_view. apply preserves_foldM. intros. apply applyOps_body_local_view. }
  intros acc. simpl.
  eapply hoare_bind.
  { eapply hoare_weaken; [apply hoare_notifyStorageStatus|by intros c []|done..]. }
  intros ?. apply hoare_ret. by intros c Hc.
Qed.

(** [undo] and [redo] keep the status known. *)
Lemma hoare_replay (rest : list (list HistoryOp)) (historyOps : list HistoryOp)
    (setStack : list (list HistoryOp) -> MachineContext -> MachineContext)
    (pushBack : list HistoryOp -> MachineContext -> MachineContext) :
  (forall v c, statusView (setStack v c) = statusView c) ->
  (forall v c, statusView (pushBack v c) = statusView c) ->
  hoare statusKnown
    (modify (setStack rest) ;;
     modify (set_pausedHistory None) ;;
     result <- applyOps historyOps true ;;
     notify (res_storageUpdates result) (res_presence result) ;;
     modify (pushBack (res_reverse result)) ;;
     onHistoryChange ;;
     pushStorageOperations (res_ops result) ;;
     tryFlushing)
    (fun _ => statusKnown) statusKnown.
Proof.
  intros Hset Hpush.
  eapply hoare_bind; [apply hoare_view, preserves_modify, Hset|intros ?].
  eapply hoare_bind; [apply hoare_view; view|intros ?].
  eapply hoare_bind; [apply hoare_applyOps_local|intros result].
  apply hoare_pure. intros Hids.
  eapply hoare_bind; [apply hoare_view; view|intros ?].
  eapply hoare_bind; [apply hoare_view, preserves_modify, Hpush|intros ?].
  eapply hoare_bind; [apply hoare_view; view|intros ?].
  eapply hoare_bind; [|intros ?; apply hoare_tryFlushing_known].
  apply hoare_modify. intros c [[Hheard Hbuffered] Hlast].
  repeat split; try done. simpl. apply Forall_app. split; [done|].
  by apply identifiedOp_storageOpsOf.
Qed.

Lemma hoare_undo : hoare statusKnown undo (fun _ => statusKnown) statusKnown.
Proof.
  unfold undo.
  eapply hoare_bind; [apply hoare_view; view|intros ab].
  destruct ab; [apply hoare_view; view|].
  eapply hoare_bind; [apply hoare_view; view|intros stack].
  destruct (pop stack) as [[rest historyOps]|]; [|apply hoare_view; view].
  apply (hoare_replay rest historyOps set_undoStack
           (fun v c => set_redoStack (redoStack c ++ [v]) c)); reflexivity.
Qed.

Lemma hoare_redo : hoare statusKnown redo (fun _ => statusKnown) statusKnown.
Proof.
  unfold redo.
  eapply hoare_bind; [apply hoare_view; view|intros ab].
  destruct ab; [apply hoare_view; view|].
  eapply hoare_bind; [apply hoare_view; view|intros stack].
  destruct (pop stack) as [[rest historyOps]|]; [|apply hoare_view; view].
  apply (hoare_replay rest historyOps set_redoStack
           (fun v c => set_undoStack (undoStack c ++ [v]) c)); reflexivity.
Qed.

Lemma hoare_updatePresence patch addToHistory :
  hoare statusKnown (updatePresence patch addToHistory) (fun _ => statusKnown) statusKnown.
Proof.
  unfold updatePresence.
  eapply hoare_bind; [apply hoare_view; view|intros current].
  eapply hoare_bind; [apply hoare_view; view|intros ?].
  eapply hoare_bind; [apply hoare_view; view|intros ?].
  eapply hoare_bind; [apply hoare_view; view|intros ab].
  destruct ab; [apply hoare_view; view|].
  eapply hoare_bind; [apply hoare_tryFlushing_known|intros ?].
  apply hoare_view. destruct addToHistory; view.
Qed.

Lemma hoare_broadcastEvent event shouldQueue :
  hoare statusKnown (broadcastEvent event shouldQueue) (fun _ => statusKnown) statusKnown.
Proof.
  unfold broadcastEvent.
  eapply hoare_bind; [apply hoare_view; view|intros s].
  destruct (_ && _); [apply hoare_view; view|].
  eapply hoare_bind; [apply hoare_view; view|intros ?; apply hoare_tryFlushing_known].
Qed.

Lemma hoare_startLoadingStorage :
  hoare statusKnown startLoadingStorage (fun _ => statusKnown) statusKnown.
Proof.
  unfold startLoadingStorage.
  eapply hoare_bind; [apply hoare_view; view|intros p].
  destruct p; [apply hoare_view; view|].
  eapply hoare_bind; [apply hoare_view; view|intros ?].
  eapply hoare_bind; [apply hoare_tryFlushing_known|intros ?].
  eapply hoare_bind; [|intros ?; apply hoare_notifyStorageStatus].
  apply hoare_modify. by intros c [Hc _].
Qed.

Lemma hoare_perform call : hoare statusKnown (perform call) (fun _ => statusKnown) statusKnown.
Proof.
  destruct call; simpl.
  - apply hoare_updatePresence.
  - apply hoare_broadcastEvent.
  - apply hoare_undo.
  - apply hoare_redo.
  - apply hoare_view. unfold pauseHistory. view.
  - apply hoare_view. unfold resumeHistory. view.
  - apply hoare_startLoadingStorage.
Qed.

(** A mutation of a live node, dispatched with ops that carry their ids. *)
Lemma hoare_pool_dispatch ops0 reverse storageUpdates :
  Forall (fun op => is_Some (opId op)) ops0 ->
  hoare statusKnown (pool_dispatch ops0 reverse storageUpdates)
        (fun _ => statusKnown) statusKnown.
Proof.
  intros Hids. unfold pool_dispatch.
  eapply hoare_bind; [apply hoare_view; view|intros ab].
  destruct ab; [apply hoare_view; view|].
  eapply hoare_bind; [apply hoare_view; view|intros ?].
  eapply hoare_bind; [apply hoare_view; view|intros ?].
  eapply hoare_bind; [by apply hoare_dispatchOps|intros ?].
  apply hoare_view. view.
Qed.

End StorageStatusTriples.

(** ** The storage status across the messages of the server

    Between the moment a handler changes the root or the ledger and the
    moment it notifies the status, the subscribers are behind; what holds
    throughout is that the last notification is the one the machine
    remembers. *)
Section CoherentStatus.
Context `{LiveNodes}.

Lemma statusCoherent_view c c' :
  coherentView c' = coherentView c -> statusCoherent c -> statusCoherent c'.
Proof. unfold coherentView, statusCoherent. intros [= -> -> ->]. done. Qed.

Lemma preserves_coherentView_emit e :
  isStatusEvent e = false -> preserves coherentView (emit e).
Proof.
  intros He c. unfold emit, modify, coherentView. simpl. by rewrite heardStatus_other.
Qed.

Lemma hoare_coherent {A : Type} (m : M A) :
  preserves coherentView m -> hoare statusCoherent m (fun _ => statusCoherent) statusCoherent.
Proof.
  intros Hm c Hc. specialize (Hm c).
  destruct (m c) as [c1 [a|e]]; simpl in *; by apply (statusCoherent_view c).
Qed.

Lemma hoare_coherent_value {A : Type} (m : M A) (V : A -> Prop) :
  preserves coherentView m ->
  (forall c, match snd (m c) with Returned a => V a | Thrown _ => True end) ->
  hoare statusCoherent m (fun a c => statusCoherent c /\ V a) statusCoherent.
Proof.
  intros Hm HV c Hc. specialize (Hm c). specialize (HV c).
  destruct (m c) as [c1 [a|e]]; simpl in *;
    [split; [|done]|]; by apply (statusCoherent_view c).
Qed.

Lemma statusKnown_coherent c : statusKnown c -> statusCoherent c.
Proof. by intros [Hc _]. Qed.

Lemma hoare_foldM_throwing {A S : Type} (P E : MachineContext -> Prop) (g : S -> A -> M S)
    (l : list A) (s : S) :
  (forall s a, hoare P (g s a) (fun _ => P) E) -> hoare P (foldM g l s) (fun _ => P) E.
Proof.
  intros Hg. revert s.
  induction l as [|a l IH]; intros s; simpl; [apply hoare_ret; intros c Hc; exact Hc|].
  eapply hoare_bind; [apply Hg|intros s'; apply IH].
Qed.

Lemma hoare_forEach_throwing {A : Type} (P E : MachineContext -> Prop) (g : A -> M unit)
    (l : list A) :
  (forall a, hoare P (g a) (fun _ => P) E) -> hoare P (forEach g l) (fun _ => P) E.
Proof.
  intros Hg. induction l as [|a l' IH]; simpl; [apply hoare_ret; intros c Hc; exact Hc|].
  eapply hoare_bind; [apply Hg|intros ?; exact IH].
Qed.

End CoherentStatus.

Ltac coherent_step :=
  lazymatch goal with
  | |- preserves coherentView (emit _) => apply preserves_coherentView_emit; reflexivity
  | |- _ => view_step
  end.

Ltac coherent := repeat coherent_step.

Section CoherentTriples.
Context `{LiveNodes}.

Lemma hoare_notify_coherent storageUpdates presence :
  hoare statusCoherent (notify storageUpdates presence) (fun _ => statusCoherent) statusCoherent.
Proof. apply hoare_coherent. coherent. Qed.

Lemma hoare_tryFlushing_coherent :
  hoare statusCoherent tryFlushing (fun _ => statusCoherent) statusCoherent.
Proof.
  intros c [Hheard Hids]. rewrite tryFlushing_phases.
  rewrite (bind_returned _ _ _ _ _ (registerUnacknowledged_eval _ c Hids)).
  set (c1 := if negb _ then _ else c).
  assert (Hc1 : statusCoherent c1).
  { unfold c1. destruct (negb _); [|by split].
    apply statusKnown_coherent, statusNotified_known. by split. }
  clearbody c1.
  pose proof (flushOrDelay_returns c1) as Hret.
  pose proof (flushOrDelay_status c1) as Hstatus.
  pose proof (flushOrDelay_identified c1 (proj2 Hc1)) as Hids1.
  destruct (flushOrDelay c1) as [c2 [[]|e]]; simpl in *; [|done].
  injection Hstatus as Hh Hl Hp Hr Hu.
  destruct Hc1 as [Hheard1 _]. unfold statusCoherent. by rewrite Hh, Hl.
Qed.

Lemma hoare_dispatchOps_coherent ops0 :
  Forall (fun op => is_Some (opId op)) ops0 ->
  hoare statusCoherent (dispatchOps ops0) (fun _ => statusCoherent) statusCoherent.
Proof.
  intros Hids. unfold dispatchOps.
  eapply hoare_bind; [|intros ?; apply hoare_tryFlushing_coherent].
  apply hoare_modify. intros c [Hheard Hbuffered].
  split; [done|]. simpl. by apply Forall_app.
Qed.

Lemma hoare_pool_dispatch_coherent ops0 reverse storageUpdates :
  Forall (fun op => is_Some (opId op)) ops0 ->
  hoare statusCoherent (pool_dispatch ops0 reverse storageUpdates)
        (fun _ => statusCoherent) statusCoherent.
Proof.
  intros Hids. unfold pool_dispatch.
  eapply hoare_bind; [apply hoare_coherent; coherent|intros ab].
  destruct ab; [apply hoare_coherent; coherent|].
  eapply hoare_bind; [apply hoare_coherent; coherent|intros ?].
  eapply hoare_bind; [apply hoare_coherent; coherent|intros ?].
  eapply hoare_bind; [by apply hoare_dispatchOps_coherent|intros ?].
  apply hoare_coherent. coherent.
Qed.

Lemma applyOps_body_coherentView isLocal acc op :
  preserves coherentView (applyOps_body isLocal acc op).
Proof.
  unfold applyOps_body. destruct op as [o|d]; [|coherent].
  apply preserves_bind; [unfold decideSource; coherent|intros source]. coherent.
Qed.

(** Whatever ops are applied, from whatever source, the status is notified
    at the end. *)
Lemma hoare_applyOps_coherent l isLocal :
  hoare statusCoherent (applyOps l isLocal)
        (fun result c => statusKnown c /\ Forall identifiedOp (res_ops result)) statusCoherent.
Proof.
  unfold applyOps.
  eapply hoare_bind.
  { apply (hoare_coherent_value _ (Forall identifiedOp));
      [coherent|apply mapM_assignOpId_identifies]. }
  intros ops0. apply hoare_pure. intros Hids.
  eapply hoare_bind.
  { apply hoare_coherent. apply preserves_foldM. intros. apply applyOps_body_coherentView. }
  intros acc. simpl.
  eapply hoare_bind.
  { eapply hoare_weaken; [apply hoare_notifyStorageStatus|done|done|].
    intros c. apply statusKnown_coherent. }
  intros ?. apply hoare_ret. by intros c Hc.
Qed.

End CoherentTriples.

Section StorageMessages.
Context `{LiveNodes} `{!LiveObjectApi}.

Hypothesis LiveObject_set_coherent : setIsCoherent.

Lemma hoare_createOrUpdateRootFromMessage items :
  hoare statusCoherent (createOrUpdateRootFromMessage items)
        (fun _ => statusCoherent) statusCoherent.
Proof.
  unfold createOrUpdateRootFromMessage.
  eapply hoare_bind; [apply hoare_coherent; coherent|intros ?].
  eapply hoare_bind; [apply hoare_coherent; coherent|intros r].
  eapply hoare_bind.
  { destruct r as [rootNode|].
    - unfold updateRoot.
      eapply hoare_bind; [apply hoare_coherent; coherent|intros r'].
      destruct r'; [|apply hoare_coherent; coherent].
      eapply hoare_bind; [apply hoare_coherent; coherent|intros st].
      eapply hoare_bind.
      { eapply hoare_weaken; [apply hoare_applyOps_coherent|done| |done].
        intros result c [Hknown _]. by apply statusKnown_coherent. }
      intros result. apply hoare_notify_coherent.
    - apply hoare_coherent. unfold load, buildRootAndParentToChildren. coherent. }
  intros ?.
  eapply hoare_bind; [apply hoare_coherent; coherent|intros defaults].
  apply hoare_forEach_throwing. intros kv.
  eapply hoare_bind; [apply hoare_coherent; coherent|intros st].
  eapply hoare_bind; [apply hoare_coherent; coherent|intros r'].
  destruct r' as [rootNode|]; [|apply hoare_coherent; coherent].
  destruct (liveObject_get st rootNode (fst kv)); [apply hoare_coherent; coherent|].
  apply LiveObject_set_coherent.
Qed.

Lemma hoare_applyAndSendOps offlineOps :
  hoare statusCoherent (applyAndSendOps offlineOps) (fun _ => statusCoherent) statusCoherent.
Proof.
  unfold applyAndSendOps. destruct (_ =? _)%nat; [apply hoare_coherent; coherent|].
  eapply hoare_bind.
  { eapply hoare_weaken; [apply hoare_applyOps_coherent|done| |done].
    intros result c [Hknown _]. by apply statusKnown_coherent. }
  intros result.
  eapply hoare_bind; [apply hoare_notify_coherent|intros ?].
  apply hoare_coherent. coherent.
Qed.

Lemma hoare_onInitialStorageState items :
  hoare statusCoherent (onInitialStorageState items) (fun _ => statusKnown) statusCoherent.
Proof.
  unfold onInitialStorageState.
  eapply hoare_bind; [apply hoare_coherent; coherent|intros ledger].
  eapply hoare_bind; [apply hoare_createOrUpdateRootFromMessage|intros ?].
  eapply hoare_bind; [apply hoare_applyAndSendOps|intros ?].
  eapply hoare_bind; [apply hoare_coherent; coherent|intros ?].
  eapply hoare_bind.
  { eapply hoare_weaken; [apply hoare_notifyStorageStatus|done|done|].
    intros c. apply statusKnown_coherent. }
  intros ?. eapply hoare_weaken; [apply hoare_view; view|done|done|].
  intros c. apply statusKnown_coherent.
Qed.

Lemma hoare_onUpdateStorage ops0 updates :
  hoare statusCoherent (onUpdateStorage ops0 updates) (fun _ => statusKnown) statusCoherent.
Proof.
  unfold onUpdateStorage.
  eapply hoare_bind; [apply hoare_applyOps_coherent|intros result].
  apply hoare_ret. by intros c [Hknown _].
Qed.

(** A storage message handled to the end leaves the status known; one
    whose handler throws leaves the subscribers with the last status they
    were told, current or not. *)
Lemma hoare_onMessage messages :
  hoare statusKnown (onMessage messages) (fun _ => statusKnown) statusCoherent.
Proof.
  unfold onMessage. destruct (_ =? _)%nat.
  { apply hoare_ret. by intros c Hc. }
  eapply hoare_bind.
  { apply hoare_foldM_throwing. intros updates message.
    eapply hoare_weaken with (P' := statusCoherent);
      [|apply statusKnown_coherent|intros a c Hc; exact Hc|done].
    destruct message as [items|ops0].
    - eapply hoare_bind; [apply hoare_onInitialStorageState|intros ?].
      apply hoare_ret. by intros c Hc.
    - apply hoare_onUpdateStorage. }
  intros updates. eapply hoare_weaken; [apply hoare_view; view|done|done|].
  intros c. apply statusKnown_coherent.
Qed.

End StorageMessages.

(** ** Presence and its history *)

Section PresenceHistory.
Context `{LiveNodes}.

Lemma tryFlushing_identified c :
  Forall (fun op => is_Some (opId op)) (buffer_storageOperations (buffer c)) ->
  snd (tryFlushing c) = Returned tt
  /\ Forall (fun op => is_Some (opId op))
            (buffer_storageOperations (buffer (fst (tryFlushing c)))).
Proof.
  intros Hids. rewrite tryFlushing_phases.
  rewrite (bind_returned _ _ _ _ _ (registerUnacknowledged_eval _ c Hids)).
  set (c1 := if negb _ then _ else c).
  assert (Hc1 : buffer_storageOperations (buffer c1) = buffer_storageOperations (buffer c)).
  { unfold c1, statusNotified. destruct (negb _); [|done]. by destruct (negb _). }
  clearbody c1. rewrite <- Hc1 in Hids.
  split; [apply flushOrDelay_returns|by apply flushOrDelay_identified].
Qed.

Lemma tryFlushing_history :
  preserves (fun c => (me c, undoStack c, redoStack c, activeBatch c, pausedHistory c))
            tryFlushing.
Proof. frame. Qed.

(** What [applyOps] makes of one presence op. *)
Lemma applyOps_presence (d : PresencePatch) c :
  exists c1,
    applyOps [PresenceOp d] true c
    = (c1, Returned {| res_ops := [PresenceOp d];
                       res_reverse := [PresenceOp (map_imap (fun key _ => Some (me c !! key)) d)];
                       res_storageUpdates := JsMap.empty;
                       res_presence := true |})
    /\ me c1 = me_patch d (me c)
    /\ (undoStack c1, redoStack c1, activeBatch c1, pausedHistory c1)
       = (undoStack c, redoStack c, activeBatch c, pausedHistory c)
    /\ buffer_storageOperations (buffer c1) = buffer_storageOperations (buffer c).
Proof.
  unfold applyOps.
  rewrite (bind_returned _ _ _ _ _ (mapM_assignOpId [PresenceOp d] c ltac:(by constructor))).
  set (c0 := set_buffer
               (set_buffer_me
                  (Some match buffer_me (buffer c) with
                        | None => {| kind := partial; data := d |}
                        | Some bme => {| kind := kind bme; data := d ∪ data bme |}
                        end)
                  (buffer c))
               (set_me (me_patch d (me c)) c)).
  assert (Hloop : foldM (applyOps_body true) [PresenceOp d]
                    ({| out_reverse := []; out_storageUpdates := JsMap.empty;
                        out_presence := false |}, ∅) c
                  = (c0, Returned
                           ({| out_reverse :=
                                 [PresenceOp (map_imap (fun key _ => Some (me c !! key)) d)];
                               out_storageUpdates := JsMap.empty;
                               out_presence := true |}, ∅))) by reflexivity.
  rewrite (bind_returned _ _ _ _ _ Hloop).
  rewrite (bind_returned _ _ _ _ _ (notifyStorageStatus_eval c0)).
  exists (statusNotified c0). split; [reflexivity|].
  unfold statusNotified. by destruct (negb _).
Qed.

(** [undo] and [redo] of a batch that holds one presence op. *)
Lemma replay_presence (c1 : MachineContext) (reverse : list HistoryOp) (d : PresencePatch)
    (push : list (list HistoryOp) -> MachineContext -> MachineContext) :
  (forall l c, me (push l c) = me c /\ activeBatch (push l c) = activeBatch c
               /\ buffer (push l c) = buffer c) ->
  Forall (fun op => is_Some (opId op)) (buffer_storageOperations (buffer c1)) ->
  exists c2,
    (notify JsMap.empty true ;;
     modify (fun c => push [reverse] c) ;;
     onHistoryChange ;;
     pushStorageOperations [PresenceOp d] ;;
     tryFlushing) c1 = (c2, Returned tt)
    /\ me c2 = me c1
    /\ activeBatch c2 = activeBatch c1
    /\ Forall (fun op => is_Some (opId op)) (buffer_storageOperations (buffer c2)).
Proof.
  intros Hpush Hids.
  set (c3 := fst ((notify JsMap.empty true ;;
                   modify (fun c => push [reverse] c) ;;
                   onHistoryChange ;;
                   pushStorageOperations [PresenceOp d]) c1)).
  assert (Hc3 : (notify JsMap.empty true ;;
                 modify (fun c => push [reverse] c) ;;
                 onHistoryChange ;;
                 pushStorageOperations [PresenceOp d]) c1 = (c3, Returned tt)) by reflexivity.
  assert (Hsame : me c3 = me c1 /\ activeBatch c3 = activeBatch c1
                  /\ buffer_storageOperations (buffer c3)
                     = buffer_storageOperations (buffer c1)).
  { unfold c3, notify, onHistoryChange, pushStorageOperations, emit, bind, gets, modify, ret.
    simpl. rewrite app_nil_r.
    destruct (Hpush [reverse]
                (set_world (set_emitted (emitted (world c1) ++ [MeEvent (me c1)]) (world c1)) c1))
      as (-> & -> & ->). done. }
  assert (Hall : (notify JsMap.empty true ;;
                  modify (fun c => push [reverse] c) ;;
                  onHistoryChange ;;
                  pushStorageOperations [PresenceOp d] ;;
                  tryFlushing) c1 = tryFlushing c3) by reflexivity.
  rewrite Hall. clear Hall Hc3. clearbody c3.
  destruct Hsame as (Hme & Hbatch & Hbuffer). rewrite <- Hbuffer in Hids.
  destruct (tryFlushing_identified c3 Hids) as [Hreturns Hids'].
  pose proof (tryFlushing_history c3) as Hkept. simpl in Hkept.
  exists (fst (tryFlushing c3)).
  split; [rewrite <- Hreturns; by destruct (tryFlushing c3)|].
  split_and!; [congruence|congruence|exact Hids'].
Qed.

(** [undo] of a batch that holds one presence op. *)
Lemma undo_presence (c : MachineContext) (rest : list (list HistoryOp)) (d : PresencePatch) :
  activeBatch c = None ->
  undoStack c = rest ++ [[PresenceOp d]] ->
  Forall (fun op => is_Some (opId op)) (buffer_storageOperations (buffer c)) ->
  exists c2,
    undo c = (c2, Returned tt)
    /\ me c2 = me_patch d (me c)
    /\ activeBatch c2 = None
    /\ Forall (fun op => is_Some (opId op)) (buffer_storageOperations (buffer c2))
    /\ redoStack c2
       = redoStack c ++ [[PresenceOp (map_imap (fun key _ => Some (me c !! key)) d)]].
Proof.
  intros Hbatch Hstack Hids.
  pose proof (undo_pushes_redo c rest [PresenceOp d] Hbatch Hstack) as Hredo.
  destruct (applyOps_presence d (set_pausedHistory None (set_undoStack rest c)))
    as (c1 & Happly & Hme & Hkept & Hbuffer).
  rewrite Happly in Hredo.
  destruct (replay_presence c1 [PresenceOp (map_imap (fun key _ => Some (me c !! key)) d)] d
              (fun l c => set_redoStack (redoStack c ++ l) c)
              ltac:(done) ltac:(by rewrite Hbuffer))
    as (c2 & Hrun & Hme2 & Hbatch2 & Hids2).
  assert (Hundo : undo c = (c2, Returned tt)).
  { unfold undo. rewrite bind_gets, Hbatch, bind_gets, Hstack, pop_snoc, !bind_modify.
    rewrite (bind_returned _ _ _ _ _ Happly). exact Hrun. }
  exists c2. rewrite Hundo in Hredo. simpl in Hkept.
  split_and!; [exact Hundo| |congruence|exact Hids2|exact Hredo].
  rewrite Hme2, Hme. reflexivity.
Qed.

(** [redo] of a batch that holds one presence op. *)
Lemma redo_presence (c : MachineContext) (rest : list (list HistoryOp)) (d : PresencePatch) :
  activeBatch c = None ->
  redoStack c = rest ++ [[PresenceOp d]] ->
  Forall (fun op => is_Some (opId op)) (buffer_storageOperations (buffer c)) ->
  exists c2,
    redo c = (c2, Returned tt)
    /\ me c2 = me_patch d (me c).
Proof.
  intros Hbatch Hstack Hids.
  destruct (applyOps_presence d (set_pausedHistory None (set_redoStack rest c)))
    as (c1 & Happly & Hme & Hkept & Hbuffer).
  destruct (replay_presence c1 [PresenceOp (map_imap (fun key _ => Some (me c !! key)) d)] d
              (fun l c => set_undoStack (undoStack c ++ l) c)
              ltac:(done) ltac:(by rewrite Hbuffer))
    as (c2 & Hrun & Hme2 & Hbatch2 & Hids2).
  assert (Hredo : redo c = (c2, Returned tt)).
  { unfold redo. rewrite bind_gets, Hbatch, bind_gets, Hstack, pop_snoc, !bind_modify.
    rewrite (bind_returned _ _ _ _ _ Happly). exact Hrun. }
  exists c2. split; [exact Hredo|]. rewrite Hme2, Hme. reflexivity.
Qed.

(** [updatePresence] outside a batch, with [addToHistory]. *)
Lemma updatePresence_recorded (c : MachineContext) (patch : PresencePatch) :
  activeBatch c = None ->
  pausedHistory c = None ->
  Forall (fun op => is_Some (opId op)) (buffer_storageOperations (buffer c)) ->
  exists c2 rest,
    updatePresence patch true c = (c2, Returned tt)
    /\ me c2 = me_patch patch (me c)
    /\ activeBatch c2 = None
    /\ Forall (fun op => is_Some (opId op)) (buffer_storageOperations (buffer c2))
    /\ undoStack c2
       = rest ++ [[PresenceOp (map_imap (fun key _ => Some (me c !! key)) (omap id patch))]].
Proof.
  intros Hbatch Hpaused Hids. unfold updatePresence.
  rewrite bind_gets. cbv zeta. rewrite !bind_modify, bind_gets.
  set (c0 := set_me _ _).
  change (activeBatch c0) with (activeBatch c). rewrite Hbatch.
  assert (Hc0 : me c0 = me_patch patch (me c) /\ activeBatch c0 = None
                /\ pausedHistory c0 = None /\ undoStack c0 = undoStack c
                /\ Forall (fun op => is_Some (opId op)) (buffer_storageOperations (buffer c0)))
    by done.
  clearbody c0. destruct Hc0 as (Hme0 & Hbatch0 & Hpaused0 & Hstack0 & Hids0).
  destruct (tryFlushing_identified c0 Hids0) as [Hreturns Hids1].
  pose proof (tryFlushing_history c0) as Hkept. simpl in Hkept.
  destruct (tryFlushing c0) as [c1 [[]|e]] eqn:Hflush; [|done].
  simpl in Hids1, Hkept. injection Hkept as Hme1 Hundo1 _ Hbatch1 Hpaused1.
  rewrite (bind_returned _ _ _ _ _ Hflush).
  set (h := [PresenceOp _]).
  assert (Hpush : exists rest,
             addToUndoStack h c1 = (fst (addToUndoStack h c1), Returned tt)
             /\ undoStack (fst (addToUndoStack h c1)) = rest ++ [h]
             /\ me (fst (addToUndoStack h c1)) = me c1
             /\ activeBatch (fst (addToUndoStack h c1)) = activeBatch c1
             /\ buffer (fst (addToUndoStack h c1)) = buffer c1).
  { exists (if (50 <=? length (undoStack c1))%nat then tail (undoStack c1) else undoStack c1).
    split; [apply addToUndoStack_eval|].
    unfold addToUndoStack, _addToRealUndoStack, onHistoryChange, emit, bind, gets, modify, ret.
    rewrite Hpaused1, Hpaused0.
    by destruct (50 <=? length (undoStack c1))%nat. }
  destruct Hpush as (rest & Hpush & Hstack2 & Hme2 & Hbatch2 & Hbuffer2).
  rewrite (bind_returned _ _ _ _ _ Hpush).
  exists (fst (notify JsMap.empty true (fst (addToUndoStack h c1)))), rest.
  split; [apply notify_eval|].
  rewrite (notify_undoStack JsMap.empty true (fst (addToUndoStack h c1))).
  assert (Hnotify : forall c', me (fst (notify JsMap.empty true c')) = me c'
                               /\ activeBatch (fst (notify JsMap.empty true c')) = activeBatch c'
                               /\ buffer (fst (notify JsMap.empty true c')) = buffer c')
    by done.
  destruct (Hnotify (fst (addToUndoStack h c1))) as (-> & -> & ->).
  rewrite Hme2, Hbatch2, Hbuffer2, Hme1, Hbatch1.
  split_and!; done.
Qed.

(** X28.  Undo and redo of a presence update.  [updatePresence] with
    [addToHistory], outside a batch and with history not paused, gives every
    key of the patch the patch's value, so a key passed as undefined leaves
    the presence.  [undo()] after it gives every key that the update set its
    old value back, and removes a key that the update added; a key that the
    update removed by passing undefined is not recorded for undo and stays
    removed.  So the presence is the one before the update when no key of the
    presence was passed as undefined.  [redo()] then gives the presence of
    the update again. *)
Theorem presence_update_undo_redo (c : MachineContext) (patch : PresencePatch) :
  activeBatch c = None ->
  pausedHistory c = None ->
  Forall (fun op => is_Some (opId op)) (buffer_storageOperations (buffer c)) ->
  let updated := fst (updatePresence patch true c) in
  let undone := fst (undo updated) in
  let redone := fst (redo undone) in
  snd (updatePresence patch true c) = Returned tt
  /\ snd (undo updated) = Returned tt
  /\ snd (redo undone) = Returned tt
  /\ (forall key, me updated !! key
                  = match patch !! key with Some value => value | None => me c !! key end)
  /\ (forall key, me undone !! key
                  = match patch !! key with Some None => None | _ => me c !! key end)
  /\ ((forall key, patch !! key = Some None -> me c !! key = None) -> me undone = me c)
  /\ me redone = me updated.
Proof.
  intros Hbatch Hpaused Hids updated undone redone. subst updated undone redone.
  destruct (updatePresence_recorded c patch Hbatch Hpaused Hids)
    as (c1 & rest & Hupdate & Hme1 & Hbatch1 & Hids1 & Hstack1).
  rewrite Hupdate. simpl fst. simpl snd.
  destruct (undo_presence c1 rest _ Hbatch1 Hstack1 Hids1)
    as (c2 & Hundo & Hme2 & Hbatch2 & Hids2 & Hredo2).
  rewrite Hundo. simpl fst. simpl snd.
  destruct (redo_presence c2 (redoStack c1) _ Hbatch2 Hredo2 Hids2) as (c3 & Hredo & Hme3).
  rewrite Hredo. simpl fst. simpl snd.
  assert (Hupdated : forall key,
             me c1 !! key
             = match patch !! key with Some value => value | None => me c !! key end).
  { intros key. rewrite Hme1. unfold me_patch. rewrite lookup_merge.
    destruct (patch !! key) as [[value|]|]; simpl; by destruct (me c !! key). }
  assert (Hundone : forall key,
             me c2 !! key
             = match patch !! key with Some None => None | _ => me c !! key end).
  { intros key. rewrite Hme2. unfold me_patch.
    rewrite lookup_merge, map_lookup_imap, lookup_omap.
    rewrite Hupdated.
    destruct (patch !! key) as [[value|]|]; simpl; by destruct (me c !! key). }
  split_and!; [reflexivity..|exact Hupdated|exact Hundone| |].
  - intros Hold. apply map_eq. intros key. rewrite Hundone.
    destruct (patch !! key) as [[value|]|] eqn:Hkey; [done| |done].
    symmetry. by apply Hold.
  - apply map_eq. intros key. rewrite Hme3. unfold me_patch.
    rewrite lookup_merge, map_lookup_imap.
    rewrite map_lookup_imap, lookup_omap.
    rewrite Hundone, Hupdated.
    destruct (patch !! key) as [[value|]|]; simpl; by destruct (me c !! key).
Qed.

End PresenceHistory.

(** ** Running the handlers *)

Section ConnectionEvaluation.
Context `{LiveNodes} `{ConnectionImports} `{RoomConfig}.
Local Open Scope session_scope.

Lemma set_machine_same (s : Session) : set_machine (machine s) s = s.
Proof. by destruct s. Qed.

Lemma set_scheduled_same (s : Session) : set_scheduled (scheduled s) s = s.
Proof. by destruct s. Qed.

Lemma set_world_same (c : MachineContext) : set_world (world c) c = c.
Proof. by destruct c. Qed.

Lemma set_timers_same (w : World) : set_timers (timers w) w = w.
Proof. by destruct w. Qed.

Lemma timerCleared_None s : timerCleared None s = s.
Proof.
  unfold timerCleared. simpl.
  by rewrite set_timers_same, set_world_same, set_machine_same, set_scheduled_same.
Qed.

Lemma lbind_returned {A B : Type} (m : L A) (k : A -> L B) s s1 a :
  m s = (s1, Returned a) -> lbind m k s = k a s1.
Proof. intros Hm. unfold lbind. by rewrite Hm. Qed.

Lemma lbind_thrown {A B : Type} (m : L A) (k : A -> L B) s s1 e :
  m s = (s1, Thrown e) -> lbind m k s = (s1, Thrown e).
Proof. intros Hm. unfold lbind. by rewrite Hm. Qed.

Lemma lbind_lgets {A B : Type} (f : Session -> A) (k : A -> L B) s :
  lbind (lgets f) k s = k (f s) s.
Proof. reflexivity. Qed.

Lemma lbind_lmodify {B : Type} (f : Session -> Session) (k : unit -> L B) s :
  lbind (lmodify f) k s = k tt (f s).
Proof. reflexivity. Qed.

Lemma lbind_lret {A B : Type} (a : A) (k : A -> L B) s : lbind (lret a) k s = k a s.
Proof. reflexivity. Qed.

Lemma lbind_settle_returned {A B : Type} (a : A) (k : A -> L B) s :
  lbind (settle (Returned a)) k s = k a s.
Proof. reflexivity. Qed.

Lemma lbind_settle_thrown {A B : Type} (e : string) (k : A -> L B) s :
  lbind (settle (Thrown e)) k s = (s, Thrown e).
Proof. reflexivity. Qed.

Lemma lbind_observe {B : Type} (e : LinkEvent) (k : unit -> L B) s :
  lbind (observe e) k s = k tt (observedAlso e s).
Proof. reflexivity. Qed.

Lemma observe_eval e s : observe e s = (observedAlso e s, Returned tt).
Proof. reflexivity. Qed.

Lemma lbind_lift_gets {A B : Type} (f : MachineContext -> A) (k : A -> L B) s :
  lbind (lift (gets f)) k s = k (f (machine s)) s.
Proof. unfold lbind, lift, gets. simpl. by rewrite set_machine_same. Qed.

Lemma lbind_lift_modify {B : Type} (f : MachineContext -> MachineContext) (k : unit -> L B) s :
  lbind (lift (modify f)) k s = k tt (set_machine (f (machine s)) s).
Proof. reflexivity. Qed.

Lemma lift_modify_eval (f : MachineContext -> MachineContext) s :
  lift (modify f) s = (set_machine (f (machine s)) s, Returned tt).
Proof. reflexivity. Qed.

Lemma lbind_lift {A B : Type} (m : M A) (k : A -> L B) s :
  lbind (lift m) k s =
  match snd (m (machine s)) with
  | Returned a => k a (set_machine (fst (m (machine s))) s)
  | Thrown e => (set_machine (fst (m (machine s))) s, Thrown e)
  end.
Proof. reflexivity. Qed.

Lemma clearTimer_eval handle s : clearTimer handle s = (timerCleared handle s, Returned tt).
Proof.
  destruct handle as [h|]; [reflexivity|]. rewrite timerCleared_None.
  unfold clearTimer. rewrite (lbind_returned _ _ s s tt); [reflexivity|].
  unfold lift, clearTimeout, ret. simpl. by rewrite set_machine_same.
Qed.

Lemma lbind_clearTimer {B : Type} handle (k : unit -> L B) s :
  lbind (clearTimer handle) k s = k tt (timerCleared handle s).
Proof. apply lbind_returned, clearTimer_eval. Qed.

Lemma setTimer_eval task delay s :
  setTimer task delay s = (timerSet task delay s, Returned (nextTimeoutID (world (machine s)))).
Proof.
  unfold setTimer. rewrite lbind_lift_gets, lbind_lift_modify, lbind_lmodify. reflexivity.
Qed.

Lemma lbind_setTimer {B : Type} task delay (k : TimeoutID -> L B) s :
  lbind (setTimer task delay) k s = k (nextTimeoutID (world (machine s))) (timerSet task delay s).
Proof. apply lbind_returned, setTimer_eval. Qed.

Lemma updateConnection_eval conn s :
  updateConnection conn s = (connectionUpdated conn s, Returned tt).
Proof. reflexivity. Qed.

Lemma lbind_updateConnection {B : Type} conn (k : unit -> L B) s :
  lbind (updateConnection conn) k s = k tt (connectionUpdated conn s).
Proof. reflexivity. Qed.

Lemma lbind_getRetryDelay {B : Type} slow (k : Z -> L B) s :
  lbind (getRetryDelay slow) k s = k (retryDelay slow (numberOfRetry s)) s.
Proof. reflexivity. Qed.

Lemma lbind_clearFlushTimer {B : Type} (k : unit -> L B) s :
  lbind (clearFlushTimer) k s = k tt (timerCleared (timeoutHandles_flush (machine s)) s).
Proof.
  apply lbind_returned. unfold clearFlushTimer. rewrite lbind_lift_gets. apply clearTimer_eval.
Qed.

Lemma lbind_dropSocket {B : Type} (k : unit -> L B) s :
  lbind dropSocket k s = k tt (socketDropped s).
Proof.
  apply lbind_returned. unfold dropSocket, socketDropped. rewrite lbind_lift_gets.
  by destruct (socket (machine s)).
Qed.

End ConnectionEvaluation.

(** One step of a handler after the other, on the goal. *)
Ltac session_run :=
  unfold effects_scheduleReconnect, effects_schedulePongTimeout,
    effects_startHeartbeatInterval, Date_now;
  repeat first [ rewrite lbind_lgets
               | rewrite lbind_lmodify
               | rewrite lbind_lret
               | rewrite lbind_observe
               | rewrite lbind_lift_gets
               | rewrite lbind_lift_modify
               | rewrite lbind_clearTimer
               | rewrite lbind_setTimer
               | rewrite lbind_updateConnection
               | rewrite lbind_getRetryDelay
               | rewrite lbind_clearFlushTimer
               | rewrite lbind_dropSocket
               | rewrite clearTimer_eval
               | rewrite updateConnection_eval
               | rewrite observe_eval
               | rewrite lift_modify_eval ].

Section HandlerEvaluation.
Context `{LiveNodes} `{ConnectionImports} `{RoomConfig}.
Local Open Scope session_scope.

Lemma authenticate_eval s :
  (updateConnection Authenticating ;; effects_authenticate) s = (connectStarted s, Returned tt).
Proof.
  unfold effects_authenticate, authenticationSuccess. session_run.
  unfold connectStarted, connectEvents, reusableToken.
  change (token (connectionUpdated Authenticating s)) with (token s).
  change (now (world (machine (connectionUpdated Authenticating s))))
    with (now (world (machine s))).
  destruct (token s) as [tok|]; [destruct (isTokenExpired tok _)|]; cbn [negb].
  all: session_run.
  all: destruct s; unfold observedAlso, connectionUpdated, set_machine, set_observed; simpl.
  all: rewrite <- ?app_assoc; reflexivity.
Qed.

Lemma connect_eval s :
  connect s = if atRest (connection (machine s))
              then match configurationError with
                   | Some e => (s, Thrown e)
                   | None => (connectStarted s, Returned tt)
                   end
              else (s, Returned tt).
Proof.
  unfold connect. rewrite lbind_lift_gets.
  assert (Hstart : (settle prepareAuthEndpoint ;; settle prepareCreateWebSocket ;;
                    updateConnection Authenticating ;; effects_authenticate) s
                   = match configurationError with
                     | Some e => (s, Thrown e)
                     | None => (connectStarted s, Returned tt)
                     end).
  { unfold configurationError.
    destruct prepareAuthEndpoint as [[]|e]; [|reflexivity].
    rewrite lbind_settle_returned.
    destruct prepareCreateWebSocket as [[]|e]; [|reflexivity].
    rewrite lbind_settle_returned. apply authenticate_eval. }
  destruct (connection (machine s)); first [exact Hstart | reflexivity].
Qed.

Lemma connect_after s :
  atRest (connection (machine s)) = true -> configurationError = None ->
  connect s = (connectStarted s, Returned tt).
Proof. intros Hc Hconfig. rewrite connect_eval. by rewrite Hc, Hconfig. Qed.

Lemma connect_rejected s e :
  atRest (connection (machine s)) = true -> configurationError = Some e ->
  connect s = (s, Thrown e).
Proof. intros Hc Hconfig. rewrite connect_eval. by rewrite Hc, Hconfig. Qed.

Lemma onClose_eval event s : onClose event s = (closedWith event s, Returned tt).
Proof.
  unfold onClose. session_run. unfold closedWith, inSlowRange.
  destruct ((4000 <=? close_code event) && (close_code event <=? 4100));
    [|destruct (close_code event =? CLOSE_WITHOUT_RETRY)].
  all: session_run.
  all: reflexivity.
Qed.

Lemma disconnect_eval s : disconnect s = (disconnected s, Returned tt).
Proof.
  unfold disconnect. session_run. unfold disconnected, socketDropped.
  destruct (socket (machine s)); reflexivity.
Qed.

Lemma atRest_tornDown s : atRest (connection (machine (tornDown s))) = true.
Proof. unfold tornDown, socketDropped. by destruct (socket (machine s)). Qed.

Lemma reconnect_eval s :
  reconnect s = match configurationError with
                | Some e => (tornDown s, Thrown e)
                | None => (reconnected s, Returned tt)
                end.
Proof.
  unfold reconnect. session_run.
  match goal with |- connect ?x = _ => assert (Htorn : x = tornDown s) end.
  { unfold tornDown, socketDropped. destruct (socket (machine s)); reflexivity. }
  rewrite Htorn, connect_eval. clear Htorn.
  pose proof (atRest_tornDown s) as Hrest. rewrite Hrest. unfold reconnected. reflexivity.
Qed.

Lemma reconnect_accepted s :
  configurationError = None -> reconnect s = (reconnected s, Returned tt).
Proof. intros Hconfig. rewrite reconnect_eval. by rewrite Hconfig. Qed.

Lemma heartbeat_eval s : heartbeat s = (heartbeaten s, Returned tt).
Proof.
  unfold heartbeat. session_run. unfold heartbeaten.
  destruct (socket (machine s)) as [[]|].
  all: session_run.
  all: reflexivity.
Qed.

Lemma onPong_eval s : onPong s = (timerCleared (timeoutHandles_pongTimeout s) s, Returned tt).
Proof. unfold onPong. rewrite lbind_lgets. apply clearTimer_eval. Qed.

End HandlerEvaluation.

(** ** Properties of the connection machine *)

Section ConnectionProperties.
Context `{LiveNodes} `{ConnectionImports} `{RoomConfig}.
Local Open Scope session_scope.

Lemma elem_of_scheduledWithout1 {T : Type} handle (l : list (TimeoutID * T)) t :
  t ∈ scheduledWithout1 handle l <-> t ∈ l /\ handle <> Some (fst t).
Proof.
  unfold scheduledWithout1. destruct handle as [h|].
  - rewrite !list_elem_of_In, filter_In, negb_true_iff, Nat.eqb_neq.
    split; intros [Hin Hne]; (split; [exact Hin|]); congruence.
  - split; [by intros; split|by intros []].
Qed.

Lemma elem_of_scheduledWithout {T : Type} handles (l : list (TimeoutID * T)) t :
  t ∈ scheduledWithout handles l <-> t ∈ l /\ Forall (fun handle => handle <> Some (fst t)) handles.
Proof.
  unfold scheduledWithout. revert l.
  induction handles as [|handle handles IH]; intros l; simpl.
  - split; [by intros; split|by intros []].
  - rewrite IH, elem_of_scheduledWithout1, Forall_cons. tauto.
Qed.

Lemma scheduledWithout_all {T : Type} handles (l : list (TimeoutID * T)) :
  Forall (fun t => Some (fst t) ∈ handles) l -> scheduledWithout handles l = [].
Proof.
  intros Hall. destruct (scheduledWithout handles l) as [|t l'] eqn:Hl; [done|].
  assert (Hin : t ∈ scheduledWithout handles l) by (rewrite Hl; left).
  apply elem_of_scheduledWithout in Hin as [Hin Hnot].
  rewrite Forall_forall in Hall. rewrite Forall_forall in Hnot.
  specialize (Hall _ Hin). by apply Hnot in Hall.
Qed.

Lemma tracked_scheduled_cleared s handles :
  timersTracked s ->
  timeoutHandles_reconnect s ∈ handles ->
  timeoutHandles_pongTimeout s ∈ handles ->
  intervalHandles_heartbeat s ∈ handles ->
  scheduledWithout handles (scheduled s) = [].
Proof.
  intros [_ Htracked] Hr Hp Hb. apply scheduledWithout_all.
  eapply Forall_impl; [exact Htracked|]. intros [h [[] d]]; simpl; by intros <-.
Qed.

Lemma tracked_timers_cleared s handles :
  timersTracked s ->
  timeoutHandles_flush (machine s) ∈ handles ->
  scheduledWithout handles (timers (world (machine s))) = [].
Proof.
  intros [Htracked _] Hf. apply scheduledWithout_all.
  eapply Forall_impl; [exact Htracked|]. intros t. simpl. by intros <-.
Qed.

Lemma filter_comm {T : Type} (f g : T -> bool) (l : list T) :
  List.filter f (List.filter g l) = List.filter g (List.filter f l).
Proof.
  induction l as [|x l IH]; [done|]. simpl.
  destruct (f x) eqn:Hf, (g x) eqn:Hg; simpl; rewrite ?Hf, ?Hg, IH; reflexivity.
Qed.

Lemma ofKind_true task t : ofKind task t = true <-> fst (snd t) = task.
Proof. unfold ofKind. destruct t as [h [[] d]], task; simpl; split; congruence. Qed.

Lemma pendingOf_filter task s : pendingOf task s = List.filter (ofKind task) (scheduled s).
Proof. reflexivity. Qed.

Lemma scheduledWithout1_filter {T : Type} handle (l : list (TimeoutID * T)) (f : _ -> bool) :
  List.filter f (scheduledWithout1 handle l) = scheduledWithout1 handle (List.filter f l).
Proof. destruct handle as [h|]; [apply filter_comm|reflexivity]. Qed.

Lemma pendingOf_timerCleared task handle s :
  pendingOf task (timerCleared handle s) = scheduledWithout1 handle (pendingOf task s).
Proof. unfold pendingOf. simpl. apply scheduledWithout1_filter. Qed.

Lemma pendingOf_same task s s' : scheduled s' = scheduled s -> pendingOf task s' = pendingOf task s.
Proof. unfold pendingOf. by intros ->. Qed.

Lemma pendingOf_armed task task' delay s :
  pendingOf task' (armed task delay s) =
  pendingOf task' s ++
  (if ofKind task' (nextTimeoutID (world (machine s)), (task, delay))
   then [(nextTimeoutID (world (machine s)), (task, delay))] else []).
Proof.
  unfold pendingOf, armed, set_handle. destruct task; simpl; rewrite List.filter_app; reflexivity.
Qed.

Lemma handleOf_armed task task' delay s :
  handleOf task' (armed task delay s) =
  if ofKind task' (nextTimeoutID (world (machine s)), (task, delay))
  then Some (nextTimeoutID (world (machine s))) else handleOf task' s.
Proof. by destruct task, task'. Qed.

(** Clearing keeps the timers tracked, and clearing the timer of a kind by
    its handle leaves none of the kind. *)
Lemma kindTracked_filtered task handle s s' :
  pendingOf task s' = scheduledWithout1 handle (pendingOf task s) ->
  handleOf task s' = handleOf task s ->
  kindTracked task s -> kindTracked task s'.
Proof.
  unfold kindTracked. intros -> ->. intros [->|(h & d & -> & Hh)].
  - left. by destruct handle.
  - destruct handle as [h'|]; simpl; [|right; by exists h, d].
    destruct (negb (h =? h')%nat); [right; by exists h, d|by left].
Qed.

Lemma kindTracked_timerCleared task handle s :
  kindTracked task s -> kindTracked task (timerCleared handle s).
Proof.
  apply (kindTracked_filtered task handle); [apply pendingOf_timerCleared|by destruct task].
Qed.

Lemma kindTracked_quiet task s :
  kindTracked task s -> pendingOf task (timerCleared (handleOf task s) s) = [].
Proof.
  rewrite pendingOf_timerCleared. intros [->|(h & d & -> & ->)].
  - by destruct (handleOf task s).
  - simpl. by rewrite Nat.eqb_refl.
Qed.

Lemma quiet_timerCleared task handle s :
  pendingOf task s = [] -> pendingOf task (timerCleared handle s) = [].
Proof. rewrite pendingOf_timerCleared. intros ->. by destruct handle. Qed.

Lemma kindTracked_same task s s' :
  scheduled s' = scheduled s -> handleOf task s' = handleOf task s ->
  kindTracked task s -> kindTracked task s'.
Proof. unfold kindTracked. intros Hs Hh. by rewrite (pendingOf_same _ _ _ Hs), Hh. Qed.

(** What [authenticationFailure] makes of a session. *)
Lemma authenticationFailure_eval s :
  authenticationFailure s
  = (armed TaskConnect (retryDelay false (S (numberOfRetry s)))
       (set_numberOfRetry (S (numberOfRetry s))
          (connectionUpdated Unavailable (set_token None s))),
     Returned tt).
Proof. unfold authenticationFailure. session_run. reflexivity. Qed.

Lemma kindTracked_armed task task' delay s :
  (task' = task -> pendingOf task s = []) ->
  kindTracked task' s -> kindTracked task' (armed task delay s).
Proof.
  unfold kindTracked. rewrite pendingOf_armed, handleOf_armed. intros Hquiet Htracked.
  destruct (ofKind task' _) eqn:Hkind.
  - apply ofKind_true in Hkind. simpl in Hkind. subst task'. rewrite Hquiet by done.
    right. by eexists _, _.
  - by rewrite app_nil_r.
Qed.

Lemma flushTimerTracked_cleared handle c :
  flushTimerTracked c ->
  flushTimerTracked
    (set_world (set_timers (scheduledWithout1 handle (timers (world c))) (world c)) c).
Proof.
  unfold flushTimerTracked. simpl. intros [->|(h & d & -> & Hh)].
  - left. by destruct handle.
  - destruct handle as [h'|]; simpl; [|right; by exists h, d].
    destruct (negb (h =? h')%nat); [right; by exists h, d|by left].
Qed.

Lemma flushTimerTracked_same c c' :
  timers (world c') = timers (world c) -> timeoutHandles_flush c' = timeoutHandles_flush c ->
  flushTimerTracked c -> flushTimerTracked c'.
Proof. unfold flushTimerTracked. by intros -> ->. Qed.

Lemma oneTimerEach_kinds s : oneTimerEach s <-> timersOfKinds (fun _ => true) s.
Proof.
  unfold oneTimerEach, timersOfKinds. split; intros [Hflush Hkinds]; (split; [done|]).
  - intros task _. apply Hkinds.
  - intros task. by apply Hkinds.
Qed.

Lemma oneTimerEach_tracked s : oneTimerEach s -> timersTracked s.
Proof.
  intros [Hflush Hkinds]. split.
  - unfold flushTracked. destruct Hflush as [->|(h & d & -> & ->)]; by repeat constructor.
  - apply Forall_forall. intros [h0 [task0 d0]] Hin. simpl.
    assert (Hp : (h0, (task0, d0)) ∈ pendingOf task0 s).
    { unfold pendingOf. apply list_elem_of_In, filter_In.
      split; [by apply list_elem_of_In|]. by destruct task0. }
    destruct (Hkinds task0) as [Hnil|(h & d & Hone & Hh)].
    + rewrite Hnil in Hp. by apply elem_of_nil in Hp.
    + rewrite Hone in Hp. apply list_elem_of_singleton in Hp. congruence.
Qed.

Lemma quiet_timersCleared task handles s :
  pendingOf task s = [] -> pendingOf task (timersCleared handles s) = [].
Proof.
  unfold timersCleared. revert s. induction handles as [|handle handles IH]; intros s Hs; [done|].
  simpl. by apply IH, quiet_timerCleared.
Qed.

Lemma quiet_in_timersCleared task handles s :
  kindTracked task s -> handleOf task s ∈ handles ->
  pendingOf task (timersCleared handles s) = [].
Proof.
  revert s. induction handles as [|handle handles IH]; intros s Hs Hin.
  - by apply elem_of_nil in Hin.
  - change (timersCleared (handle :: handles) s)
      with (timersCleared handles (timerCleared handle s)).
    apply elem_of_cons in Hin as [<-|Hin].
    + by apply quiet_timersCleared, kindTracked_quiet.
    + apply IH; [by apply kindTracked_timerCleared|by destruct task].
Qed.

(** *** Handlers keep the timers of the watched kinds

    Every handler clears the timer of a handle before it sets the handle
    again, but for [authenticationFailure], which sets the reconnect handle
    over whatever it names. *)
Section TimersOfKinds.
Variable watched : TimerTask -> bool.

Lemma kinds_timerCleared handle s :
  timersOfKinds watched s -> timersOfKinds watched (timerCleared handle s).
Proof.
  intros [Hflush Hkinds]. split.
  - by apply flushTimerTracked_cleared.
  - intros task Hw. by apply kindTracked_timerCleared, Hkinds.
Qed.

Lemma kinds_same s s' :
  timers (world (machine s')) = timers (world (machine s)) ->
  timeoutHandles_flush (machine s') = timeoutHandles_flush (machine s) ->
  scheduled s' = scheduled s ->
  (forall task, handleOf task s' = handleOf task s) ->
  timersOfKinds watched s -> timersOfKinds watched s'.
Proof.
  intros Ht Hf Hs Hh [Hflush Hkinds]. split.
  - by apply (flushTimerTracked_same (machine s)).
  - intros task Hw. by apply (kindTracked_same task s), Hkinds.
Qed.

Lemma kinds_armed task delay s :
  (watched task = true -> pendingOf task s = []) ->
  timersOfKinds watched s -> timersOfKinds watched (armed task delay s).
Proof.
  intros Hquiet [Hflush Hkinds]. split.
  - apply (flushTimerTracked_same (machine s)); [by destruct task..|done].
  - intros task' Hw. apply kindTracked_armed; [|by apply Hkinds].
    intros ->. by apply Hquiet.
Qed.

Lemma kinds_timersCleared handles s :
  timersOfKinds watched s -> timersOfKinds watched (timersCleared handles s).
Proof.
  unfold timersCleared. revert s. induction handles as [|handle handles IH]; intros s Hs; [done|].
  simpl. by apply IH, kinds_timerCleared.
Qed.

Lemma kinds_connectionUpdated conn s :
  timersOfKinds watched s -> timersOfKinds watched (connectionUpdated conn s).
Proof. apply kinds_same; reflexivity. Qed.

Lemma kinds_observedAlso e s :
  timersOfKinds watched s -> timersOfKinds watched (observedAlso e s).
Proof. apply kinds_same; reflexivity. Qed.

Lemma kinds_set_others v s :
  timersOfKinds watched s -> timersOfKinds watched (set_others v s).
Proof. apply kinds_same; reflexivity. Qed.

Lemma kinds_set_numberOfRetry n s :
  timersOfKinds watched s -> timersOfKinds watched (set_numberOfRetry n s).
Proof. apply kinds_same; reflexivity. Qed.

Lemma kinds_set_token v s :
  timersOfKinds watched s -> timersOfKinds watched (set_token v s).
Proof. apply kinds_same; reflexivity. Qed.

Lemma kinds_set_machine c s :
  timers (world c) = timers (world (machine s)) ->
  timeoutHandles_flush c = timeoutHandles_flush (machine s) ->
  timersOfKinds watched s -> timersOfKinds watched (set_machine c s).
Proof. intros Ht Hf. by apply kinds_same. Qed.

Lemma kinds_socketDropped s :
  timersOfKinds watched s -> timersOfKinds watched (socketDropped s).
Proof.
  unfold socketDropped. intros Hs. destruct (socket (machine s)); [|done].
  apply kinds_set_machine; [reflexivity..|]. by apply kinds_observedAlso.
Qed.

Lemma kinds_connectStarted s :
  timersOfKinds watched s -> timersOfKinds watched (connectStarted s).
Proof.
  unfold connectStarted. intros Hs.
  destruct (reusableToken s); (apply kinds_set_machine; [reflexivity..|]);
    by apply (kinds_same s).
Qed.

Lemma kinds_closedWith event s :
  timersOfKinds watched s -> timersOfKinds watched (closedWith event s).
Proof.
  intros Hs. unfold closedWith.
  set (s0 := set_machine (set_socket None (machine s)) s).
  set (handles := [timeoutHandles_pongTimeout s; intervalHandles_heartbeat s;
                   timeoutHandles_flush (machine s); timeoutHandles_reconnect s]).
  assert (Hs0 : timersOfKinds watched s0) by (by apply kinds_set_machine).
  assert (Hquiet : watched TaskConnect = true ->
                   pendingOf TaskConnect (timersCleared handles s0) = []).
  { intros Hw. apply quiet_in_timersCleared; [by apply Hs0|].
    unfold handles. simpl. set_solver. }
  assert (Hs1 : timersOfKinds watched
                  (observedAlso OthersReset
                     (set_others (clearOthers (others s)) (timersCleared handles s0)))).
  { by apply kinds_observedAlso, kinds_set_others, kinds_timersCleared. }
  destruct (inSlowRange _); [|destruct (_ =? _)].
  - apply kinds_armed; [exact Hquiet|].
    by apply kinds_connectionUpdated, kinds_set_numberOfRetry,
      kinds_observedAlso, kinds_connectionUpdated.
  - by apply kinds_connectionUpdated.
  - apply kinds_armed; [exact Hquiet|].
    by apply kinds_connectionUpdated, kinds_set_numberOfRetry.
Qed.

Lemma kinds_disconnected s :
  timersOfKinds watched s -> timersOfKinds watched (disconnected s).
Proof.
  intros Hs. unfold disconnected.
  by apply kinds_observedAlso, kinds_observedAlso, kinds_set_others,
    kinds_timersCleared, kinds_connectionUpdated, kinds_socketDropped.
Qed.

Lemma kinds_tornDown s :
  timersOfKinds watched s -> timersOfKinds watched (tornDown s).
Proof.
  intros Hs. unfold tornDown.
  by apply kinds_timersCleared, kinds_connectionUpdated, kinds_socketDropped.
Qed.

Lemma kinds_reconnected s :
  timersOfKinds watched s -> timersOfKinds watched (reconnected s).
Proof. intros Hs. unfold reconnected. by apply kinds_connectStarted, kinds_tornDown. Qed.

Lemma kinds_heartbeaten s :
  timersOfKinds watched s -> timersOfKinds watched (heartbeaten s).
Proof.
  intros Hs. unfold heartbeaten. destruct (socket (machine s)) as [readyState|]; [|done].
  assert (Harmed : timersOfKinds watched
                     (armed TaskPongTimeout PONG_TIMEOUT
                        (timerCleared (timeoutHandles_pongTimeout s) s))).
  { apply kinds_armed; [|by apply kinds_timerCleared].
    intros Hw. apply (kindTracked_quiet TaskPongTimeout). by apply Hs. }
  destruct readyState; first [done | by apply kinds_observedAlso].
Qed.

End TimersOfKinds.

Section KeepsKinds.
Variable watched : TimerTask -> bool.

Lemma keepsKinds_lbind {A B : Type} (m : L A) (k : A -> L B) :
  keepsKinds watched m -> (forall a, keepsKinds watched (k a)) -> keepsKinds watched (lbind m k).
Proof.
  intros Hm Hk s Hs. unfold lbind. specialize (Hm s Hs).
  destruct (m s) as [s1 [a|e]]; simpl in *; [by apply Hk|done].
Qed.

Lemma keepsKinds_lret {A : Type} (a : A) : keepsKinds watched (lret a).
Proof. by intros s Hs. Qed.

Lemma keepsKinds_lgets {A : Type} (f : Session -> A) : keepsKinds watched (lgets f).
Proof. by intros s Hs. Qed.

Lemma keepsKinds_lift {A : Type} (m : M A) :
  keepsFlushTimer m -> keepsKinds watched (lift m).
Proof.
  intros Hm s [Hflush Hkinds]. split; [by apply Hm|].
  intros task Hw. by apply (kindTracked_same task s), Hkinds.
Qed.

Lemma keepsKinds_lift_gets {A : Type} (f : MachineContext -> A) :
  keepsKinds watched (lift (gets f)).
Proof. apply keepsKinds_lift, keepsFlushTimer_gets. Qed.

Lemma keepsKinds_lift_modify (f : MachineContext -> MachineContext) :
  (forall c, timers (world (f c)) = timers (world c)) ->
  (forall c, timeoutHandles_flush (f c) = timeoutHandles_flush c) ->
  keepsKinds watched (lift (modify f)).
Proof.
  intros Ht Hf. apply keepsKinds_lift. intros c.
  apply flushTimerTracked_same; [apply Ht|apply Hf].
Qed.

Lemma keepsKinds_lift_tryFlushing : keepsKinds watched (lift tryFlushing).
Proof. apply keepsKinds_lift, keepsFlushTimer_tryFlushing. Qed.

Lemma keepsKinds_lmodify (f : Session -> Session) :
  (forall s, timersOfKinds watched s -> timersOfKinds watched (f s)) ->
  keepsKinds watched (lmodify f).
Proof. intros Hf s Hs. by apply Hf. Qed.

Lemma keepsKinds_observe e : keepsKinds watched (observe e).
Proof. intros s Hs. rewrite observe_eval. by apply kinds_observedAlso. Qed.

Lemma keepsKinds_updateConnection conn : keepsKinds watched (updateConnection conn).
Proof. intros s Hs. rewrite updateConnection_eval. by apply kinds_connectionUpdated. Qed.

Lemma keepsKinds_connect : keepsKinds watched connect.
Proof.
  intros s Hs. rewrite connect_eval.
  destruct (atRest _); [|done].
  destruct configurationError; [done|]. by apply kinds_connectStarted.
Qed.

Lemma keepsKinds_onClose event : keepsKinds watched (onClose event).
Proof. intros s Hs. rewrite onClose_eval. by apply kinds_closedWith. Qed.

Lemma keepsKinds_disconnect : keepsKinds watched disconnect.
Proof. intros s Hs. rewrite disconnect_eval. by apply kinds_disconnected. Qed.

Lemma keepsKinds_reconnect : keepsKinds watched reconnect.
Proof.
  intros s Hs. rewrite reconnect_eval.
  destruct configurationError; [by apply kinds_tornDown|by apply kinds_reconnected].
Qed.

Lemma keepsKinds_heartbeat : keepsKinds watched heartbeat.
Proof. intros s Hs. rewrite heartbeat_eval. by apply kinds_heartbeaten. Qed.

Lemma keepsKinds_onPong : keepsKinds watched onPong.
Proof. intros s Hs. rewrite onPong_eval. by apply kinds_timerCleared. Qed.

Lemma keepsKinds_expire handle : keepsKinds watched (expire handle).
Proof.
  intros s [Hflush Hkinds]. split; [done|]. intros task Hw.
  apply (kindTracked_filtered task handle s); [|by destruct task|by apply Hkinds].
  unfold pendingOf. simpl. apply scheduledWithout1_filter.
Qed.

Lemma keepsKinds_authenticateResolved tok : keepsKinds watched (authenticateResolved tok).
Proof.
  unfold authenticateResolved, authenticationSuccess.
  apply keepsKinds_lbind; [apply keepsKinds_lift_gets|intros conn].
  destruct conn; try apply keepsKinds_lret.
  repeat (apply keepsKinds_lbind; [|intros ?]);
    first [ apply keepsKinds_observe | apply keepsKinds_updateConnection
          | by apply keepsKinds_lift_modify
          | apply keepsKinds_lmodify; intros; by apply kinds_set_token ].
Qed.

(** The one handler that sets a handle without clearing its timer. *)
Lemma keepsKinds_authenticationFailure :
  watched TaskConnect = false -> keepsKinds watched authenticationFailure.
Proof.
  intros Hw s Hs. rewrite authenticationFailure_eval. cbn [fst].
  apply kinds_armed; [by rewrite Hw|].
  by apply kinds_set_numberOfRetry, kinds_connectionUpdated, kinds_set_token.
Qed.

Lemma onOpen_armed s :
  onOpen s =
  (conn <- lift (gets connection) ;;
   match conn with
   | Connecting info =>
       updateConnection (Open info) ;;
       lmodify (set_numberOfRetry 0) ;;
       lift (modify (fun c =>
         set_buffer (set_buffer_me (Some {| kind := full; data := Some <$> me c |}) (buffer c)) c)) ;;
       lift tryFlushing ;;
       lift (modify (set_lastConnectionId (Some (conn_id info)))) ;;
       r <- lift (gets root) ;;
       (match r with
        | Some _ =>
            lift (modify (fun c =>
              set_buffer (set_buffer_messages (buffer_messages (buffer c) ++ [FETCH_STORAGE])
                                              (buffer c)) c))
        | None => lret tt
        end) ;;
       lift tryFlushing
   | _ => lret tt
   end)
    (armed TaskHeartbeat HEARTBEAT_INTERVAL (timerCleared (intervalHandles_heartbeat s) s)).
Proof.
  unfold onOpen, effects_startHeartbeatInterval.
  rewrite lbind_lgets, lbind_clearTimer, lbind_setTimer, lbind_lmodify. reflexivity.
Qed.

Lemma keepsKinds_onOpen : keepsKinds watched onOpen.
Proof.
  intros s Hs. rewrite onOpen_armed.
  assert (Harmed : timersOfKinds watched
                     (armed TaskHeartbeat HEARTBEAT_INTERVAL
                        (timerCleared (intervalHandles_heartbeat s) s))).
  { apply kinds_armed; [|by apply kinds_timerCleared].
    intros Hw. apply (kindTracked_quiet TaskHeartbeat). by apply Hs. }
  revert Harmed. generalize (armed TaskHeartbeat HEARTBEAT_INTERVAL
                               (timerCleared (intervalHandles_heartbeat s) s)).
  apply keepsKinds_lbind; [apply keepsKinds_lift_gets|intros conn].
  destruct conn; try apply keepsKinds_lret.
  apply keepsKinds_lbind; [apply keepsKinds_updateConnection|intros _].
  apply keepsKinds_lbind;
    [apply keepsKinds_lmodify; intros; by apply kinds_set_numberOfRetry|intros _].
  apply keepsKinds_lbind; [by apply keepsKinds_lift_modify|intros _].
  apply keepsKinds_lbind; [apply keepsKinds_lift_tryFlushing|intros _].
  apply keepsKinds_lbind; [by apply keepsKinds_lift_modify|intros _].
  apply keepsKinds_lbind; [apply keepsKinds_lift_gets|intros r].
  apply keepsKinds_lbind; [|intros _; apply keepsKinds_lift_tryFlushing].
  destruct r; [by apply keepsKinds_lift_modify|apply keepsKinds_lret].
Qed.

Lemma keepsFlushTimer_clearTimeout handle : keepsFlushTimer (clearTimeout handle).
Proof.
  intros c Hc. destruct handle as [h|]; [|done].
  by apply (flushTimerTracked_cleared (Some h)).
Qed.

Lemma keepsKinds_timerFires h : keepsKinds watched (timerFires h).
Proof.
  unfold timerFires. apply keepsKinds_lbind; [apply keepsKinds_lgets|intros pending].
  destruct (List.find _ pending) as [[h0 [[] delay]]|].
  - apply keepsKinds_lbind; [apply keepsKinds_expire|intros _]. apply keepsKinds_connect.
  - apply keepsKinds_lbind; [apply keepsKinds_expire|intros _]. apply keepsKinds_reconnect.
  - apply keepsKinds_heartbeat.
  - apply keepsKinds_lbind; [apply keepsKinds_lift_gets|intros flushes].
    destruct (existsb _ flushes); [|apply keepsKinds_lret].
    apply keepsKinds_lbind; [|intros _; apply keepsKinds_lift_tryFlushing].
    apply keepsKinds_lift, keepsFlushTimer_clearTimeout.
Qed.

Lemma keepsKinds_performConnection call :
  (watched TaskConnect = true -> call <> AuthenticationFailed) ->
  keepsKinds watched (performConnection call).
Proof.
  intros Hcall. destruct call; simpl.
  - apply keepsKinds_connect.
  - apply keepsKinds_disconnect.
  - apply keepsKinds_reconnect.
  - apply keepsKinds_authenticateResolved.
  - apply keepsKinds_authenticationFailure.
    destruct (watched TaskConnect); [by exfalso; apply Hcall|done].
  - unfold socketOpens. apply keepsKinds_lbind; [apply keepsKinds_lift_gets|intros [?|]].
    + apply keepsKinds_lbind; [by apply keepsKinds_lift_modify|intros _].
      apply keepsKinds_onOpen.
    + apply keepsKinds_lret.
  - apply keepsKinds_onClose.
  - apply keepsKinds_onPong.
  - apply keepsKinds_timerFires.
  - unfold onVisibilityChange.
    apply keepsKinds_lbind; [apply keepsKinds_lift_gets|intros conn].
    destruct visible, conn; first [apply keepsKinds_heartbeat | apply keepsKinds_lret].
  - unfold onNavigatorOnline.
    apply keepsKinds_lbind; [apply keepsKinds_lift_gets|intros conn].
    destruct conn; first [apply keepsKinds_reconnect | apply keepsKinds_lret].
Qed.

End KeepsKinds.

Lemma oneTimerEach_closedWith event s : oneTimerEach s -> oneTimerEach (closedWith event s).
Proof. rewrite !oneTimerEach_kinds. apply kinds_closedWith. Qed.

Lemma oneTimerEach_onClose event s : oneTimerEach s -> oneTimerEach (fst (onClose event s)).
Proof. rewrite !oneTimerEach_kinds. apply keepsKinds_onClose. Qed.

(** X16.  However the socket closes, [onClose] drops the socket, clears the
    others and the timers of the four handles, and leaves the storage side
    of the room (buffer, ledger, history, nodes) alone.  Unless the code is
    CLOSE_WITHOUT_RETRY outside 4000..4100, the room becomes unavailable, the
    retry counter grows by one and exactly one reconnect timer is added,
    with the delay of the counter before the increment, taken from the slow
    table for the codes 4000..4100; otherwise the room is closed and nothing
    is scheduled. *)
Theorem onClose_settles (event : CloseEvent) (s : Session) :
  let s' := fst (onClose event s) in
  let again := retries (close_code event) in
  let handles := [timeoutHandles_pongTimeout s; intervalHandles_heartbeat s;
                  timeoutHandles_flush (machine s); timeoutHandles_reconnect s] in
  let h := nextTimeoutID (world (machine s)) in
  snd (onClose event s) = Returned tt
  /\ socket (machine s') = None
  /\ others s' = clearOthers (others s)
  /\ connection (machine s') = (if again then Unavailable else Closed)
  /\ numberOfRetry s' = (if again then S (numberOfRetry s) else numberOfRetry s)
  /\ timeoutHandles_reconnect s' = (if again then Some h else timeoutHandles_reconnect s)
  /\ scheduled s' =
       scheduledWithout handles (scheduled s) ++
       (if again
        then [(h, (TaskConnect, retryDelay (inSlowRange (close_code event)) (numberOfRetry s)))]
        else [])
  /\ timers (world (machine s')) = scheduledWithout handles (timers (world (machine s)))
  /\ (buffer (machine s'), unacknowledgedOps (machine s'), undoStack (machine s'),
      redoStack (machine s'), nodes (machine s'), root (machine s'), me (machine s'))
     = (buffer (machine s), unacknowledgedOps (machine s), undoStack (machine s),
        redoStack (machine s), nodes (machine s), root (machine s), me (machine s)).
Proof.
  intros s' again handles h. subst s' again handles h.
  rewrite onClose_eval. unfold closedWith, retries.
  destruct (inSlowRange (close_code event)); [|destruct (close_code event =? CLOSE_WITHOUT_RETRY)].
  all: simpl.
  all: rewrite ?app_nil_r.
  all: split_and!; reflexivity.
Qed.

(** X18.  [disconnect] is a hard stop: whatever the room was doing, the
    socket is dropped (and closed if there was one), the room is closed, the
    others are cleared and every event source is cleared last; of the timers
    the room tracks by its handles none is left pending.  The storage side of
    the room and the retry counter are left as they were. *)
Theorem disconnect_is_a_hard_stop (s : Session) :
  timersTracked s ->
  let s' := fst (disconnect s) in
  snd (disconnect s) = Returned tt
  /\ socket (machine s') = None
  /\ connection (machine s') = Closed
  /\ others s' = clearOthers (others s)
  /\ scheduled s' = []
  /\ timers (world (machine s')) = []
  /\ observed s' =
       observed s ++ dropEvents s ++ [ConnectionNotified status_closed; OthersReset; HubCleared]
  /\ numberOfRetry s' = numberOfRetry s
  /\ (buffer (machine s'), unacknowledgedOps (machine s'), undoStack (machine s'),
      redoStack (machine s'), nodes (machine s'), root (machine s'), me (machine s'))
     = (buffer (machine s), unacknowledgedOps (machine s), undoStack (machine s),
        redoStack (machine s), nodes (machine s), root (machine s), me (machine s)).
Proof.
  intros Htracked s'. subst s'.
  pose proof (tracked_scheduled_cleared s
                [timeoutHandles_flush (machine s); timeoutHandles_reconnect s;
                 timeoutHandles_pongTimeout s; intervalHandles_heartbeat s] Htracked
                ltac:(set_solver) ltac:(set_solver) ltac:(set_solver)) as Hscheduled.
  pose proof (tracked_timers_cleared s
                [timeoutHandles_flush (machine s); timeoutHandles_reconnect s;
                 timeoutHandles_pongTimeout s; intervalHandles_heartbeat s] Htracked
                ltac:(set_solver)) as Htimers.
  rewrite disconnect_eval. unfold disconnected, socketDropped, dropEvents.
  destruct (socket (machine s)) eqn:Hs.
  all: simpl.
  all: rewrite <- ?app_assoc.
  all: split_and!; first [reflexivity | exact Hs | exact Hscheduled | exact Htimers].
Qed.

(** X19.  [connect] only starts from a room at rest, and with a
    configuration it can use.  In a room that is neither closed nor
    unavailable it does nothing at all.  In a room at rest it first prepares
    the authentication callback and the socket factory: when
    [prepareAuthEndpoint] or [prepareCreateWebSocket] throws (outside a
    browser without the [fetch] or [WebSocket] polyfill, or with an
    authentication of no known type), [connect] throws that error and
    leaves the room as it was, with nothing announced.  Otherwise it
    announces that it authenticates and either asks the authentication
    endpoint or, with a token that has not expired, goes on to connecting on
    a new socket at once.  A second [connect] right after one that
    returned never does anything.  In a browser every configuration of a
    known authentication type is accepted. *)
Theorem connect_starts_once (s : Session) :
  let s' := fst (connect s) in
  (atRest (connection (machine s)) = false -> connect s = (s, Returned tt))
  /\ (forall e, atRest (connection (machine s)) = true -> configurationError = Some e ->
        connect s = (s, Thrown e))
  /\ (atRest (connection (machine s)) = true -> configurationError = None ->
        snd (connect s) = Returned tt
        /\ connection (machine s')
             = match reusableToken s with Some tok => connectingAs tok | None => Authenticating end
        /\ socket (machine s')
             = match reusableToken s with Some _ => Some CONNECTING | None => socket (machine s) end
        /\ observed s' = observed s ++ connectEvents s
        /\ scheduled s' = scheduled s)
  /\ (snd (connect s) = Returned tt -> connect s' = (s', Returned tt))
  /\ (typeof_window_undefined = false -> config_authentication_type <> auth_unexpected ->
        configurationError = None).
Proof.
  intros s'. subst s'. split_and!.
  - intros Hrest. by rewrite connect_eval, Hrest.
  - intros e Hrest Hconfig. by apply connect_rejected.
  - intros Hrest Hconfig. rewrite (connect_after s Hrest Hconfig). cbn [fst snd].
    unfold connectStarted. by destruct (reusableToken s).
  - rewrite !connect_eval. destruct (atRest (connection (machine s))) eqn:Hrest.
    + destruct configurationError; [discriminate|]. intros _. cbn [fst].
      unfold connectStarted at 1. destruct (reusableToken s); reflexivity.
    + intros _. cbn [fst]. by rewrite Hrest.
  - intros Hwindow Htype. unfold configurationError, prepareAuthEndpoint, prepareCreateWebSocket.
    rewrite Hwindow. by destruct config_authentication_type.
Qed.

(** X20.  [reconnect] drops the socket, announces the room unavailable,
    clears the timers of the four handles (none the room tracks is left
    pending) and calls [connect].  With a configuration that [connect]
    accepts the room does not stay unavailable: it ends authenticating, or
    connecting on a new socket when its token can be used again.  With one
    that [connect] rejects, [reconnect] throws the error of [connect] and
    the room stays unavailable, with no socket and no timer to try again.
    The others, the retry counter, the token and the storage side of the
    room are left as they were in both cases. *)
Theorem reconnect_restarts (s : Session) :
  timersTracked s ->
  let s' := fst (reconnect s) in
  (configurationError = None ->
     snd (reconnect s) = Returned tt
     /\ connection (machine s')
          = match reusableToken s with Some tok => connectingAs tok | None => Authenticating end
     /\ socket (machine s')
          = match reusableToken s with Some _ => Some CONNECTING | None => None end
     /\ observed s' =
          observed s ++ dropEvents s ++ [ConnectionNotified status_unavailable]
                     ++ connectEvents s)
  /\ (forall e, configurationError = Some e ->
        snd (reconnect s) = Thrown e
        /\ connection (machine s') = Unavailable
        /\ socket (machine s') = None
        /\ observed s' = observed s ++ dropEvents s ++ [ConnectionNotified status_unavailable])
  /\ scheduled s' = []
  /\ timers (world (machine s')) = []
  /\ (numberOfRetry s', others s', token s') = (numberOfRetry s, others s, token s)
  /\ (buffer (machine s'), unacknowledgedOps (machine s'), undoStack (machine s'),
      redoStack (machine s'), nodes (machine s'), root (machine s'), me (machine s'))
     = (buffer (machine s), unacknowledgedOps (machine s), undoStack (machine s),
        redoStack (machine s), nodes (machine s), root (machine s), me (machine s)).
Proof.
  intros Htracked s'. subst s'.
  pose proof (tracked_scheduled_cleared s
                [timeoutHandles_pongTimeout s; timeoutHandles_flush (machine s);
                 timeoutHandles_reconnect s; intervalHandles_heartbeat s] Htracked
                ltac:(set_solver) ltac:(set_solver) ltac:(set_solver)) as Hscheduled.
  pose proof (tracked_timers_cleared s
                [timeoutHandles_pongTimeout s; timeoutHandles_flush (machine s);
                 timeoutHandles_reconnect s; intervalHandles_heartbeat s] Htracked
                ltac:(set_solver)) as Htimers.
  rewrite reconnect_eval.
  destruct configurationError as [e|].
  - cbn [fst snd]. unfold tornDown, socketDropped, dropEvents.
    destruct (socket (machine s)) eqn:Hs.
    all: simpl.
    all: rewrite <- ?app_assoc.
    all: split_and!; first [discriminate | reflexivity | exact Hs | exact Hscheduled
                            | exact Htimers | idtac].
    all: intros e' [= <-]; split_and!; first [reflexivity | exact Hs].
  - cbn [fst snd].
    unfold reconnected, tornDown, connectStarted, connectEvents, reusableToken, socketDropped,
      dropEvents.
    destruct (socket (machine s)) eqn:Hs.
    all: simpl.
    all: destruct (token s) as [tok|] eqn:Htoken; [destruct (isTokenExpired tok _)|].
    all: simpl.
    all: rewrite <- ?app_assoc, ?Htoken.
    all: split_and!; first [discriminate | reflexivity | exact Hs | exact Hscheduled
                            | exact Htimers | idtac].
    all: intros _; split_and!; first [reflexivity | exact Hs].
Qed.

(** X21.  In a room with at most one timer of each kind, [heartbeat] does
    nothing without a socket; with a socket it leaves exactly one pong
    timeout pending, of PONG_TIMEOUT ms and named by its handle, in place of
    the one there was, and sends a ping only when the socket is open.  The
    pong that answers it clears that timeout. *)
Theorem heartbeat_arms_one_pong_timeout (s : Session) :
  oneTimerEach s ->
  (socket (machine s) = None -> heartbeat s = (s, Returned tt))
  /\ (forall readyState, socket (machine s) = Some readyState ->
        let s' := fst (heartbeat s) in
        let h := nextTimeoutID (world (machine s)) in
        snd (heartbeat s) = Returned tt
        /\ pendingOf TaskPongTimeout s' = [(h, (TaskPongTimeout, PONG_TIMEOUT))]
        /\ timeoutHandles_pongTimeout s' = Some h
        /\ observed s' = observed s ++ match readyState with OPEN => [PingSent] | _ => [] end
        /\ pendingOf TaskPongTimeout (fst (onPong s')) = []).
Proof.
  intros Hs. split.
  - intros Hsock. rewrite heartbeat_eval. unfold heartbeaten. by rewrite Hsock.
  - intros readyState Hsock s' h. subst s' h.
    pose proof (kindTracked_quiet TaskPongTimeout s (proj2 Hs TaskPongTimeout)) as Hquiet.
    simpl in Hquiet.
    assert (Harmed : pendingOf TaskPongTimeout
                       (armed TaskPongTimeout PONG_TIMEOUT
                          (timerCleared (timeoutHandles_pongTimeout s) s))
                     = [(nextTimeoutID (world (machine s)), (TaskPongTimeout, PONG_TIMEOUT))]).
    { rewrite pendingOf_armed, Hquiet. reflexivity. }
    assert (Hpong : forall s1,
              pendingOf TaskPongTimeout s1
                = [(nextTimeoutID (world (machine s)), (TaskPongTimeout, PONG_TIMEOUT))] ->
              timeoutHandles_pongTimeout s1 = Some (nextTimeoutID (world (machine s))) ->
              pendingOf TaskPongTimeout (fst (onPong s1)) = []).
    { intros s1 Hp Hh. rewrite onPong_eval. cbn [fst].
      rewrite pendingOf_timerCleared, Hp, Hh. simpl. by rewrite Nat.eqb_refl. }
    rewrite heartbeat_eval. unfold heartbeaten. rewrite Hsock. cbn [fst snd].
    split; [done|].
    destruct readyState; rewrite ?app_nil_r;
      (split_and!; [exact Harmed|reflexivity|reflexivity|by apply Hpong]).
Qed.

(** How [retryDelay] grows. *)
Lemma retryDelay_fast n :
  retryDelay false n = nth (Nat.min n 6) BACKOFF_RETRY_DELAYS 0.
Proof.
  unfold retryDelay. simpl length.
  destruct (Nat.ltb_spec n 7); f_equal; lia.
Qed.

Lemma retryDelay_slow n :
  retryDelay true n = nth (Nat.min n 3) BACKOFF_RETRY_DELAYS_SLOW 0.
Proof.
  unfold retryDelay. simpl length.
  destruct (Nat.ltb_spec n 4); f_equal; lia.
Qed.

Lemma retryDelay_monotone slow n m :
  (n <= m)%nat -> retryDelay slow n <= retryDelay slow m.
Proof.
  intros Hle. destruct slow.
  - rewrite !retryDelay_slow.
    assert (Hn : (Nat.min n 3 <= Nat.min m 3 <= 3)%nat) by lia.
    revert Hn. generalize (Nat.min n 3) (Nat.min m 3). intros i j Hij.
    do 4 (destruct i as [|i]; [do 4 (destruct j as [|j]; [simpl; lia|]); lia|]). lia.
  - rewrite !retryDelay_fast.
    assert (Hn : (Nat.min n 6 <= Nat.min m 6 <= 6)%nat) by lia.
    revert Hn. generalize (Nat.min n 6) (Nat.min m 6). intros i j Hij.
    do 7 (destruct i as [|i]; [do 7 (destruct j as [|j]; [simpl; lia|]); lia|]). lia.
Qed.

Lemma retryDelay_bounds (slow : bool) (n : nat) :
  (if slow then 2000 else 250 : Z) <= retryDelay slow n <= (if slow then 300000 else 10000 : Z).
Proof.
  destruct slow.
  - rewrite retryDelay_slow. assert (Hn : (Nat.min n 3 <= 3)%nat) by lia.
    revert Hn. generalize (Nat.min n 3). intros i Hi.
    do 4 (destruct i as [|i]; [simpl; lia|]). lia.
  - rewrite retryDelay_fast. assert (Hn : (Nat.min n 6 <= 6)%nat) by lia.
    revert Hn. generalize (Nat.min n 6). intros i Hi.
    do 7 (destruct i as [|i]; [simpl; lia|]). lia.
Qed.

Lemma closedRepeatedly_counts events s :
  Forall (fun event => retries (close_code event) = true) events ->
  oneTimerEach s ->
  let s' := closedRepeatedly events s in
  oneTimerEach s'
  /\ numberOfRetry s' = (numberOfRetry s + length events)%nat
  /\ nextTimeoutID (world (machine s')) = (nextTimeoutID (world (machine s)) + length events)%nat.
Proof.
  intros Hall. revert s. induction Hall as [|event events Hretry _ IH]; intros s Hs.
  - simpl. split; [done|]. split; lia.
  - simpl. specialize (IH (fst (onClose event s)) (oneTimerEach_onClose event s Hs)).
    destruct IH as (Hone & Hn & Hid). split; [exact Hone|].
    rewrite Hn, Hid. rewrite onClose_eval. unfold closedWith, retries in *.
    destruct (inSlowRange (close_code event)); [|destruct (close_code event =? CLOSE_WITHOUT_RETRY)];
      try discriminate; simpl; split; lia.
Qed.

(** X17.  Closes that follow one another back off.  After any number of
    closes that make the room retry, in a room with at most one timer of
    each kind, the retry counter has grown by one per close, the room is
    unavailable, and the only timer of the connection left pending is the
    reconnect of the last close, whose delay is the entry of the (fast or
    slow) table at the number of failures before it.  These delays never
    decrease as failures add up and stay within the ends of their table. *)
Theorem closes_back_off (events : list CloseEvent) (event : CloseEvent) (s : Session) :
  oneTimerEach s ->
  Forall (fun event => retries (close_code event) = true) (events ++ [event]) ->
  let s' := closedRepeatedly (events ++ [event]) s in
  let failures := (numberOfRetry s + length events)%nat in
  let slow := inSlowRange (close_code event) in
  numberOfRetry s' = S failures
  /\ connection (machine s') = Unavailable
  /\ socket (machine s') = None
  /\ scheduled s' =
       [((nextTimeoutID (world (machine s)) + length events)%nat,
         (TaskConnect, retryDelay slow failures))]
  /\ timeoutHandles_reconnect s' = Some (nextTimeoutID (world (machine s)) + length events)%nat
  /\ (forall n, (n <= failures)%nat -> retryDelay slow n <= retryDelay slow failures)
  /\ (if slow then 2000 else 250 : Z) <= retryDelay slow failures
       <= (if slow then 300000 else 10000 : Z).
Proof.
  intros Hs Hall s' failures slow. subst s' failures slow.
  apply Forall_app in Hall as [Hall Hlast]. apply Forall_inv in Hlast.
  destruct (closedRepeatedly_counts events s Hall Hs) as (Hone & Hn & Hid).
  unfold closedRepeatedly in *. rewrite fold_left_app. simpl.
  set (s1 := fold_left (fun s event => fst (onClose event s)) events s) in *.
  pose proof (tracked_scheduled_cleared s1
                [timeoutHandles_pongTimeout s1; intervalHandles_heartbeat s1;
                 timeoutHandles_flush (machine s1); timeoutHandles_reconnect s1]
                (oneTimerEach_tracked s1 Hone)
                ltac:(set_solver) ltac:(set_solver) ltac:(set_solver)) as Hscheduled.
  rewrite onClose_eval. unfold closedWith, retries in *. rewrite <- Hn, <- Hid.
  split_and!; try (intros; by apply retryDelay_monotone); try apply retryDelay_bounds.
  all: destruct (inSlowRange (close_code event));
    [|destruct (close_code event =? CLOSE_WITHOUT_RETRY); [simpl in Hlast; discriminate|]].
  all: simpl.
  all: try reflexivity.
  all: unfold scheduledWithout in Hscheduled; cbn [fold_left] in Hscheduled.
  all: by rewrite Hscheduled.
Qed.

Lemma oneTimerEach_newSession c others0 :
  timers (world c) = [] -> oneTimerEach (newSession c others0).
Proof. intros Ht. split; [by left|]. intros task. by left. Qed.

Section RunsKeepTimers.
Context `{!LiveObjectApi}.

Hypothesis LiveObject_set_timer : setKeepsFlushTimer.
Variable watched : TimerTask -> bool.

Lemma keepsKinds_performRoom call :
  (watched TaskConnect = true -> authenticationHolds call) ->
  keepsKinds watched (performRoom call).
Proof.
  intros Hcall.
  destruct call as [call|ops0 reverse storageUpdates|call|messages|elapsed]; simpl.
  - apply keepsKinds_lift, keepsFlushTimer_perform.
  - apply keepsKinds_lift, keepsFlushTimer_pool_dispatch.
  - apply keepsKinds_performConnection. intros Hw ->. by apply Hcall.
  - by apply keepsKinds_lift, keepsFlushTimer_onMessage.
  - by apply keepsKinds_lift_modify.
Qed.

Lemma kinds_runRoom calls s :
  (watched TaskConnect = true -> Forall authenticationHolds calls) ->
  timersOfKinds watched s -> timersOfKinds watched (runRoom calls s).
Proof.
  unfold runRoom. revert s.
  induction calls as [|call calls IH]; intros s Hcalls Hs; [done|].
  simpl. apply IH.
  - intros Hw. by eapply Forall_inv_tail, Hcalls.
  - apply keepsKinds_performRoom; [|done]. intros Hw. by eapply Forall_inv, Hcalls.
Qed.

End RunsKeepTimers.

Lemma oneTimerEach_runRoom `{!LiveObjectApi} calls s :
  setKeepsFlushTimer -> Forall authenticationHolds calls ->
  oneTimerEach s -> oneTimerEach (runRoom calls s).
Proof. intros Hset Hcalls. rewrite !oneTimerEach_kinds. by apply kinds_runRoom. Qed.

(** What holds of the timers after any run, and after a run in which no
    authentication fails. *)
Lemma timers_after_a_run `{!LiveObjectApi} (calls : list RoomCall) (throttleDelay0 : Z)
    (initialPresence : Presence) (initialStorage0 : option (list (string * Lson)))
    (others0 : Others) :
  setKeepsFlushTimer ->
  let s := runRoom calls
             (newSession (initialContext throttleDelay0 initialPresence initialStorage0) others0) in
  flushTimerTracked (machine s)
  /\ kindTracked TaskPongTimeout s
  /\ kindTracked TaskHeartbeat s
  /\ (length (timers (world (machine s))) <= 1)%nat
  /\ (length (pendingOf TaskPongTimeout s) <= 1)%nat
  /\ (length (pendingOf TaskHeartbeat s) <= 1)%nat
  /\ (Forall authenticationHolds calls ->
        kindTracked TaskConnect s /\ (length (pendingOf TaskConnect s) <= 1)%nat).
Proof.
  intros Hset s.
  assert (Hstart : forall watched,
             timersOfKinds watched
               (newSession (initialContext throttleDelay0 initialPresence initialStorage0)
                           others0)).
  { intros watched. split; [by left|]. intros task _. by left. }
  assert (Hsome : timersOfKinds notReconnect s).
  { subst s. by apply kinds_runRoom. }
  assert (Hlength : forall task, kindTracked task s -> (length (pendingOf task s) <= 1)%nat).
  { intros task [->|(h & d & -> & _)]; simpl; lia. }
  destruct Hsome as [Hflush Hkinds].
  split_and!; [exact Hflush|by apply Hkinds|by apply Hkinds| |by apply Hlength, Hkinds
               |by apply Hlength, Hkinds|].
  - destruct Hflush as [->|(h & d & -> & _)]; simpl; lia.
  - intros Hcalls.
    assert (Hall : timersOfKinds (fun _ => true) s).
    { subst s. by apply kinds_runRoom. }
    destruct Hall as [_ Hall]. split; [by apply Hall|by apply Hlength, Hall].
Qed.

(** X27.  A room that waits to reconnect does so at once when the browser
    comes online again (with a configuration that [connect] accepts, as the
    one of a room that was connected is): after a close that makes the room
    retry,
    [onNavigatorOnline] cancels the reconnect that was scheduled (no timer
    the room tracks is left pending) and connects, so that the room ends
    authenticating, or connecting when its token can be used again; the
    retry counter keeps the failure.  Becoming visible does nothing to a
    room that waits, and coming online does nothing to a room that is not
    unavailable. *)
Theorem online_again_reconnects_at_once (event : CloseEvent) (s : Session) :
  configurationError = None ->
  oneTimerEach s ->
  retries (close_code event) = true ->
  let closed := fst (onClose event s) in
  let s' := fst (onNavigatorOnline closed) in
  snd (onNavigatorOnline closed) = Returned tt
  /\ scheduled closed <> []
  /\ scheduled s' = []
  /\ timers (world (machine s')) = []
  /\ connection (machine s')
       = match reusableToken s with Some tok => connectingAs tok | None => Authenticating end
  /\ numberOfRetry s' = S (numberOfRetry s)
  /\ (forall visible, onVisibilityChange visible closed = (closed, Returned tt))
  /\ (forall s0, connection (machine s0) <> Unavailable ->
        onNavigatorOnline s0 = (s0, Returned tt)).
Proof.
  intros Hconfig Hone Hretries closed s'. subst closed s'.
  rewrite onClose_eval.
  assert (Hunavailable : connection (machine (closedWith event s)) = Unavailable).
  { unfold closedWith, retries in *.
    destruct (inSlowRange (close_code event)); [reflexivity|].
    destruct (close_code event =? CLOSE_WITHOUT_RETRY); [discriminate|reflexivity]. }
  assert (Htoken : reusableToken (closedWith event s) = reusableToken s).
  { unfold closedWith, reusableToken.
    destruct (inSlowRange (close_code event)); [reflexivity|].
    destruct (close_code event =? CLOSE_WITHOUT_RETRY); reflexivity. }
  assert (Hcounter : numberOfRetry (closedWith event s) = S (numberOfRetry s)).
  { unfold closedWith, retries in *.
    destruct (inSlowRange (close_code event)); [reflexivity|].
    destruct (close_code event =? CLOSE_WITHOUT_RETRY); [discriminate|reflexivity]. }
  assert (Hpending : scheduled (closedWith event s) <> []).
  { unfold closedWith, retries in *.
    destruct (inSlowRange (close_code event));
      [|destruct (close_code event =? CLOSE_WITHOUT_RETRY); [discriminate|]].
    all: simpl; intros Hnil; apply app_eq_nil in Hnil; by destruct Hnil. }
  pose proof (oneTimerEach_tracked _ (oneTimerEach_closedWith event s Hone)) as Htracked.
  rewrite <- Htoken, <- Hcounter. clear Htoken Hcounter Hone Hretries.
  change (fst (closedWith event s, Returned tt)) with (closedWith event s).
  generalize dependent (closedWith event s). clear s. intros s Hunavailable Hpending Htracked.
  pose proof (tracked_scheduled_cleared s
                [timeoutHandles_pongTimeout s; timeoutHandles_flush (machine s);
                 timeoutHandles_reconnect s; intervalHandles_heartbeat s] Htracked
                ltac:(set_solver) ltac:(set_solver) ltac:(set_solver)) as Hscheduled.
  pose proof (tracked_timers_cleared s
                [timeoutHandles_pongTimeout s; timeoutHandles_flush (machine s);
                 timeoutHandles_reconnect s; intervalHandles_heartbeat s] Htracked
                ltac:(set_solver)) as Htimers.
  assert (Honline : onNavigatorOnline s = (reconnected s, Returned tt)).
  { unfold onNavigatorOnline. rewrite lbind_lift_gets, Hunavailable. by apply reconnect_accepted. }
  assert (Hagain : scheduled (reconnected s) = []
                   /\ timers (world (machine (reconnected s))) = []
                   /\ connection (machine (reconnected s))
                        = match reusableToken s with
                          | Some tok => connectingAs tok
                          | None => Authenticating
                          end
                   /\ numberOfRetry (reconnected s) = numberOfRetry s).
  { unfold reconnected, tornDown, connectStarted, connectEvents, reusableToken, socketDropped.
    destruct (socket (machine s)) eqn:Hs.
    all: simpl.
    all: destruct (token s) as [tok|] eqn:Htoken; [destruct (isTokenExpired tok _)|].
    all: simpl.
    all: split_and!; first [reflexivity | exact Hscheduled | exact Htimers]. }
  destruct Hagain as (Hquiet & Hflush & Hconnection & Hcounter).
  rewrite Honline.
  split_and!; [reflexivity|exact Hpending|exact Hquiet|exact Hflush|exact Hconnection|
               exact Hcounter| |].
  - intros visible. unfold onVisibilityChange.
    rewrite lbind_lift_gets, Hunavailable. by destruct visible.
  - intros s0 Hs0. unfold onNavigatorOnline. rewrite lbind_lift_gets.
    by destruct (connection (machine s0)).
Qed.

(** X23.  When the socket of a connecting room opens (the socket open, the
    throttle elapsed, the buffered ops carrying their ids), the room is open
    under the same connection id, which becomes the last connection id, the
    retry counter is back at zero, and one frame leaves at once: the whole
    presence as a full update (target actor -1), then the messages that were
    buffered, then the buffered storage ops.  A room that has a root also
    asks for the storage again, but that request stays in the buffer behind
    a flush timer of the whole throttle delay; the heartbeat interval is
    started. *)
Theorem onOpen_announces_presence (s : Session) (info : ConnectionInfo) :
  connection (machine s) = Connecting info ->
  socket (machine s) = Some OPEN ->
  throttleDelay (machine s) < now (world (machine s)) - lastFlushTime (machine s) ->
  0 <= throttleDelay (machine s) ->
  Forall (fun op => is_Some (opId op)) (buffer_storageOperations (buffer (machine s))) ->
  let s' := fst (onOpen s) in
  let c := machine s in
  let c' := machine s' in
  let h := nextTimeoutID (world c) in
  snd (onOpen s) = Returned tt
  /\ connection c' = Open info
  /\ numberOfRetry s' = 0%nat
  /\ lastConnectionId c' = Some (conn_id info)
  /\ wire (world c') =
       wire (world c) ++
       [UPDATE_PRESENCE (Some (-1)) (Some <$> me c) :: buffer_messages (buffer c) ++
        match buffer_storageOperations (buffer c) with
        | [] => []
        | _ :: _ => [UPDATE_STORAGE (buffer_storageOperations (buffer c))]
        end]
  /\ buffer c' =
       {| buffer_me := None;
          buffer_messages := match root c with Some _ => [FETCH_STORAGE] | None => [] end;
          buffer_storageOperations := [] |}
  /\ lastFlushTime c' = now (world c)
  /\ timeoutHandles_flush c' = Some (S h)
  /\ timers (world c') =
       scheduledWithout [intervalHandles_heartbeat s; timeoutHandles_flush c] (timers (world c))
       ++ [(S h, throttleDelay c)]
  /\ intervalHandles_heartbeat s' = Some h
  /\ scheduled s' =
       scheduledWithout [intervalHandles_heartbeat s] (scheduled s)
       ++ [(h, (TaskHeartbeat, HEARTBEAT_INTERVAL))].
Proof.
  intros Hconn Hsock Hthrottle Hdelay Hids s' c c' h. subst s' c' h.
  rewrite onOpen_armed.
  set (s0 := armed TaskHeartbeat HEARTBEAT_INTERVAL (timerCleared (intervalHandles_heartbeat s) s)).
  rewrite lbind_lift_gets.
  change (connection (machine s0)) with (connection (machine s)). rewrite Hconn.
  rewrite lbind_updateConnection, lbind_lmodify, lbind_lift_modify.
  set (c0 := set_buffer _ _).
  set (sA := set_machine c0 _).
  (* what the session and its context are when the first flush starts *)
  assert (HsA : machine sA = c0 /\ numberOfRetry sA = 0%nat
                /\ intervalHandles_heartbeat sA = Some (nextTimeoutID (world c))
                /\ scheduled sA =
                     scheduledWithout [intervalHandles_heartbeat s] (scheduled s)
                     ++ [(nextTimeoutID (world c), (TaskHeartbeat, HEARTBEAT_INTERVAL))])
    by (split_and!; reflexivity).
  destruct HsA as (Hmachine & Hretry & Hbeat & Hscheduled).
  assert (Hc0 : socket c0 = socket c /\ root c0 = root c
                /\ buffer_storageOperations (buffer c0) = buffer_storageOperations (buffer c)
                /\ now (world c0) = now (world c) /\ lastFlushTime c0 = lastFlushTime c
                /\ throttleDelay c0 = throttleDelay c /\ wire (world c0) = wire (world c)
                /\ connection c0 = Open info
                /\ timeoutHandles_flush c0 = timeoutHandles_flush c
                /\ timers (world c0) =
                     scheduledWithout [intervalHandles_heartbeat s] (timers (world c))
                /\ nextTimeoutID (world c0) = S (nextTimeoutID (world c)))
    by (split_and!; reflexivity).
  destruct Hc0 as (Hsock0 & Hroot0 & Hops0 & Hnow0 & Hlast0 & Hdelay0 & Hwire0 & Hconn0
                   & Hhandle0 & Htimers0 & Hnext0).
  assert (Hmsgs : flushDataToMessages c0 =
                  UPDATE_PRESENCE (Some (-1)) (Some <$> me c) :: buffer_messages (buffer c) ++
                  match buffer_storageOperations (buffer c) with
                  | [] => []
                  | _ :: _ => [UPDATE_STORAGE (buffer_storageOperations (buffer c))]
                  end).
  { unfold flushDataToMessages, c0. simpl. rewrite fold_left_push. fold c.
    destruct (buffer_storageOperations (buffer c)); simpl; by rewrite ?app_nil_r. }
  clearbody sA. clearbody c0. clear s0.
  (* the first flush sends *)
  destruct (tryFlushing_open c0) as (Hret1 & Hsend & _);
    [by rewrite Hsock0|by rewrite Hops0|].
  destruct Hsend as (Hwire1 & Hbuf1 & Hlast1 & Hhandle1 & Htimers1 & Hnext1);
    [by rewrite Hdelay0, Hnow0, Hlast0|by rewrite Hmsgs|].
  pose proof (tryFlushing_connection c0) as Hconn1.
  pose proof (tryFlushing_root c0) as Hroot1.
  pose proof (tryFlushing_socket c0) as Hsock1.
  pose proof (tryFlushing_throttleDelay c0) as Hdelay1.
  pose proof (tryFlushing_now c0) as Hnow1.
  rewrite lbind_lift, Hmachine, Hret1.
  set (c1 := fst (tryFlushing c0)) in *. clearbody c1.
  rewrite lbind_lift_modify, lbind_lift_gets.
  cbn [machine set_machine root set_lastConnectionId]. rewrite Hroot1, Hroot0.
  set (c2 := match root c with
             | Some _ =>
                 set_buffer (set_buffer_messages
                               (buffer_messages (buffer c1) ++ [FETCH_STORAGE]) (buffer c1))
                            (set_lastConnectionId (Some (conn_id info)) c1)
             | None => set_lastConnectionId (Some (conn_id info)) c1
             end).
  assert (Hfacts : socket c2 = Some OPEN
                   /\ buffer_storageOperations (buffer c2) = []
                   /\ now (world c2) = now (world c)
                   /\ lastFlushTime c2 = now (world c)
                   /\ throttleDelay c2 = throttleDelay c
                   /\ wire (world c2) = wire (world c) ++ [flushDataToMessages c0]
                   /\ timeoutHandles_flush c2 = timeoutHandles_flush c
                   /\ timers (world c2) =
                        scheduledWithout [intervalHandles_heartbeat s] (timers (world c))
                   /\ nextTimeoutID (world c2) = S (nextTimeoutID (world c))
                   /\ connection c2 = Open info
                   /\ lastConnectionId c2 = Some (conn_id info)
                   /\ buffer c2 =
                        {| buffer_me := None;
                           buffer_messages :=
                             match root c with Some _ => [FETCH_STORAGE] | None => [] end;
                           buffer_storageOperations := [] |}).
  { unfold c2. destruct (root c); simpl;
      rewrite ?Hbuf1, ?Hsock1, ?Hnow1, ?Hlast1, ?Hdelay1, ?Hwire1, ?Hhandle1, ?Htimers1,
        ?Hnext1, ?Hconn1, ?Hsock0, ?Hnow0, ?Hdelay0, ?Hwire0, ?Hhandle0, ?Htimers0, ?Hnext0,
        ?Hconn0; split_and!; reflexivity || exact Hsock. }
  destruct Hfacts as (Hsock2 & Hops2 & Hnow2 & Hlast2 & Hdelay2 & Hwire2 & Hhandle2 & Htimers2
                      & Hnext2 & Hconn2 & Hid2 & Hbuf2).
  set (sB := set_machine (set_lastConnectionId (Some (conn_id info)) c1) (set_machine c1 sA)).
  assert (Hstep : forall k : unit -> L unit,
            lbind (match root c with
                   | Some _ =>
                       lift (modify (fun c : MachineContext =>
                         set_buffer (set_buffer_messages
                                       (buffer_messages (buffer c) ++ [FETCH_STORAGE])
                                       (buffer c)) c))
                   | None => lret tt
                   end) k sB = k tt (set_machine c2 sB)).
  { intros k. unfold c2. destruct (root c).
    - by rewrite lbind_lift_modify.
    - rewrite lbind_lret. unfold sB. by destruct sA. }
  rewrite Hstep. clear Hstep.
  assert (HsB : numberOfRetry (set_machine c2 sB) = 0%nat
                /\ intervalHandles_heartbeat (set_machine c2 sB) = Some (nextTimeoutID (world c))
                /\ scheduled (set_machine c2 sB) =
                     scheduledWithout [intervalHandles_heartbeat s] (scheduled s)
                     ++ [(nextTimeoutID (world c), (TaskHeartbeat, HEARTBEAT_INTERVAL))]
                /\ machine (set_machine c2 sB) = c2)
    by (split_and!; [exact Hretry|exact Hbeat|exact Hscheduled|reflexivity]).
  destruct HsB as (Hretry' & Hbeat' & Hscheduled' & Hmachine').
  clearbody c2. generalize dependent (set_machine c2 sB). intros sC Hretry' Hbeat' Hscheduled' Hm'.
  (* the second flush waits for the throttle *)
  destruct (tryFlushing_open c2 Hsock2) as (Hret3 & _ & Hwait);
    [rewrite Hops2; constructor|].
  destruct Hwait as (Hwire3 & Hbuf3 & Hlast3 & Hhandle3 & Htimers3 & Hnext3);
    [rewrite Hnow2, Hlast2, Hdelay2; unfold c; lia|].
  pose proof (tryFlushing_connection c2) as Hconn3.
  pose proof (tryFlushing_lastConnectionId c2) as Hid3.
  unfold lift. rewrite Hm', Hret3. cbn [fst snd].
  split; [reflexivity|].
  cbn [machine set_machine numberOfRetry intervalHandles_heartbeat scheduled].
  rewrite Hconn3, Hid3, Hwire3, Hbuf3, Hlast3, Hhandle3, Htimers3.
  rewrite Hconn2, Hid2, Hwire2, Hbuf2, Hlast2, Hhandle2, Htimers2, Hnext2, Hnow2, Hdelay2, Hmsgs.
  replace (now (world c) - now (world c)) with 0 by lia. rewrite Z.sub_0_r.
  split_and!; first [reflexivity | assumption].
Qed.

(** X24.  A settled authentication after the room moved on.  A token that
    arrives when the room is no longer authenticating (after a [disconnect],
    say) is ignored altogether.  A failure is not: whatever the state of the
    room, [authenticationFailure] drops the token, makes the room
    unavailable and adds a reconnect timer to those pending, so a room that
    was disconnected while it authenticated connects again by itself (the
    [connect] of the timer starts to authenticate, with the configuration
    that the first [connect] accepted); its delay is the one of the retry
    counter after the increment. *)
Theorem settled_authentication_after_disconnect (tok : RoomAuthToken) (s : Session) :
  let closed := fst (disconnect s) in
  let failed := fst (authenticationFailure closed) in
  let h := nextTimeoutID (world (machine closed)) in
  authenticateResolved tok closed = (closed, Returned tt)
  /\ snd (authenticationFailure closed) = Returned tt
  /\ connection (machine failed) = Unavailable
  /\ token failed = None
  /\ numberOfRetry failed = S (numberOfRetry s)
  /\ timeoutHandles_reconnect failed = Some h
  /\ scheduled failed =
       scheduled closed ++ [(h, (TaskConnect, retryDelay false (S (numberOfRetry s))))]
  /\ (configurationError = None ->
        connection (machine (fst (connect failed))) = Authenticating).
Proof.
  intros closed failed h. subst closed failed h.
  rewrite disconnect_eval. cbn [fst].
  assert (Hclosed : connection (machine (disconnected s)) = Closed).
  { unfold disconnected, socketDropped. by destruct (socket (machine s)). }
  assert (Hretry : numberOfRetry (disconnected s) = numberOfRetry s).
  { unfold disconnected, socketDropped. by destruct (socket (machine s)). }
  revert Hclosed Hretry. generalize (disconnected s). intros closed Hclosed Hretry.
  split.
  { unfold authenticateResolved. rewrite lbind_lift_gets, Hclosed. reflexivity. }
  rewrite authenticationFailure_eval. cbn [fst snd]. rewrite Hretry.
  split_and!; [reflexivity..|].
  intros Hconfig. rewrite connect_eval, Hconfig. reflexivity.
Qed.

(** X29.  The token decides whether the storage can be written.  When the
    authentication endpoint answers a room that authenticates, the room
    keeps the token and connects on a new socket as the actor of the token,
    and from then on [pool.assertStorageIsWritable] throws exactly when the
    scopes of the token hold the read scope and the presence-write scope
    but not the write scope: a token without the presence-write scope can
    write, whatever else it holds. *)
Theorem read_only_token_forbids_writes (tok : RoomAuthToken) (s : Session) :
  connection (machine s) = Authenticating ->
  let s' := fst (authenticateResolved tok s) in
  let readOnly :=
    includes (token_scopes tok) RoomScope_Read
    && includes (token_scopes tok) RoomScope_PresenceWrite
    && negb (includes (token_scopes tok) RoomScope_Write) in
  snd (authenticateResolved tok s) = Returned tt
  /\ connection (machine s') = connectingAs tok
  /\ socket (machine s') = Some CONNECTING
  /\ token s' = Some tok
  /\ observed s' =
       observed s ++ [SocketCreated (token_raw tok); ConnectionNotified status_connecting]
  /\ pool_assertStorageIsWritable (machine s')
     = (machine s',
        if readOnly
        then Thrown "Cannot write to storage with a read only user, please ensure the user has write permissions"
        else Returned tt).
Proof.
  intros Hconn s' readOnly. subst s' readOnly.
  unfold authenticateResolved. rewrite lbind_lift_gets, Hconn.
  unfold authenticationSuccess. session_run.
  set (s0 := observedAlso (SocketCreated (token_raw tok)) s).
  set (s1 := connectionUpdated (connectingAs tok) s0).
  assert (Heval : ((updateConnection (connectingAs tok) ;;
                    lift (modify (set_socket (Some CONNECTING)))) ;;
                   lmodify (set_token (Some tok))) s0
                  = (set_token (Some tok)
                       (set_machine (set_socket (Some CONNECTING) (machine s1)) s1),
                     Returned tt)) by reflexivity.
  unfold connectingAs in Heval at 1. rewrite Heval. clear Heval.
  split_and!; [reflexivity|reflexivity|reflexivity|reflexivity| |].
  - unfold s1, s0, connectionUpdated, observedAlso. simpl. by rewrite <- app_assoc.
  - unfold pool_assertStorageIsWritable. rewrite bind_gets.
    cbn [fst]. unfold set_token, set_machine, s1, connectionUpdated. simpl.
    unfold isStorageReadOnly. by destruct (_ && _).
Qed.

Lemma keepsStatus_lbind {A B : Type} (m : L A) (k : A -> L B) :
  keepsStatus m -> (forall a, keepsStatus (k a)) -> keepsStatus (lbind m k).
Proof.
  intros Hm Hk s Hs. unfold lbind. specialize (Hm s Hs).
  destruct (m s) as [s1 [a|e]]; simpl in *; [by apply Hk|done].
Qed.

Lemma keepsStatus_lret {A : Type} (a : A) : keepsStatus (lret a).
Proof. by intros s Hs. Qed.

Lemma keepsStatus_lgets {A : Type} (f : Session -> A) : keepsStatus (lgets f).
Proof. by intros s Hs. Qed.

Lemma keepsStatus_lmodify (f : Session -> Session) :
  (forall s, statusView (machine (f s)) = statusView (machine s)) -> keepsStatus (lmodify f).
Proof.
  intros Hf s Hs. apply statusKnown_view. change (fst (lmodify f s)) with (f s).
  rewrite Hf. by apply statusKnown_view.
Qed.

Lemma keepsStatus_lift {A : Type} (m : M A) :
  hoare statusKnown m (fun _ => statusKnown) statusKnown -> keepsStatus (lift m).
Proof.
  intros Hm s Hs. specialize (Hm (machine s) Hs). unfold lift. simpl.
  by destruct (m (machine s)) as [c1 [a|e]].
Qed.

Lemma keepsStatus_lift_view {A : Type} (m : M A) :
  preserves statusView m -> keepsStatus (lift m).
Proof. intros Hm. by apply keepsStatus_lift, hoare_view. Qed.

Lemma keepsStatus_settle {A : Type} (o : Outcome A) : keepsStatus (settle o).
Proof. by intros s Hs. Qed.

Lemma keepsStatus_clearTimer handle : keepsStatus (clearTimer handle).
Proof.
  intros s Hs. rewrite clearTimer_eval. simpl. apply statusKnown_view.
  apply statusKnown_view in Hs. exact Hs.
Qed.

Lemma keepsStatus_setTimer task delay : keepsStatus (setTimer task delay).
Proof.
  intros s Hs. rewrite setTimer_eval. simpl. apply statusKnown_view.
  apply statusKnown_view in Hs. exact Hs.
Qed.

End ConnectionProperties.

Create HintDb session_handlers.
#[global] Hint Unfold observe updateConnection clearFlushTimer dropSocket getRetryDelay
  effects_startHeartbeatInterval effects_schedulePongTimeout effects_scheduleReconnect
  effects_authenticate authenticationSuccess authenticationFailure authenticateResolved
  connect onClose onOpen heartbeat onPong reconnect pongTimeout disconnect expire
  onVisibilityChange onNavigatorOnline socketOpens simulateSocketClose timerFires
  : session_handlers.

Ltac keeps_status_step :=
  lazymatch goal with
  | |- keepsStatus (lret _) => apply keepsStatus_lret
  | |- keepsStatus (lgets _) => apply keepsStatus_lgets
  | |- keepsStatus (lmodify _) => apply keepsStatus_lmodify; intros; reflexivity
  | |- keepsStatus (settle _) => apply keepsStatus_settle
  | |- keepsStatus (lbind _ _) => apply keepsStatus_lbind; [|intros]
  | |- keepsStatus (clearTimer _) => apply keepsStatus_clearTimer
  | |- keepsStatus (setTimer _ _) => apply keepsStatus_setTimer
  | |- keepsStatus (lift tryFlushing) => apply keepsStatus_lift, hoare_tryFlushing_known
  | |- keepsStatus (lift _) => apply keepsStatus_lift_view; view
  | |- keepsStatus (match ?x with _ => _ end) => destruct x
  | |- keepsStatus _ => progress (autounfold with session_handlers; cbv zeta)
  end.

Ltac keeps_status := repeat keeps_status_step.

Section StatusProperties.
Context `{LiveNodes} `{ConnectionImports} `{RoomConfig}.
Local Open Scope session_scope.

Lemma keepsStatus_performConnection call : keepsStatus (performConnection call).
Proof. destruct call; simpl; keeps_status. Qed.

Section RunsKeepStatus.
Context `{!LiveObjectApi}.

Hypothesis LiveObject_set_coherent : setIsCoherent.

Lemma statusKnown_performRoom call s :
  dispatchesIdentifiedOps call ->
  match call with
  | FromServer _ => snd (performRoom call s) = Returned tt
  | _ => True
  end ->
  statusKnown (machine s) -> statusKnown (machine (fst (performRoom call s))).
Proof.
  destruct call as [call|ops0 reverse storageUpdates|call|messages|elapsed]; simpl;
    intros Hids Hhandled.
  - apply keepsStatus_lift, hoare_perform.
  - by apply keepsStatus_lift, hoare_pool_dispatch.
  - apply keepsStatus_performConnection.
  - intros Hs. pose proof (hoare_onMessage LiveObject_set_coherent messages (machine s) Hs) as Hm.
    unfold lift in *. by destruct (onMessage messages (machine s)) as [c1 [[]|e]].
  - intros Hs. apply statusKnown_view. apply statusKnown_view in Hs. exact Hs.
Qed.

Lemma statusKnown_runRoom calls s :
  Forall dispatchesIdentifiedOps calls ->
  handlesServerMessages calls s ->
  statusKnown (machine s) -> statusKnown (machine (runRoom calls s)).
Proof.
  unfold runRoom. intros Hcalls. revert s.
  induction Hcalls as [|call calls Hcall _ IH]; intros s Hhandled Hs; [done|].
  destruct Hhandled as [Hnow Hlater].
  simpl. apply IH; [exact Hlater|]. by apply statusKnown_performRoom.
Qed.

End RunsKeepStatus.

Lemma statusKnown_initialContext throttleDelay0 initialPresence initialStorage0 :
  statusKnown (initialContext throttleDelay0 initialPresence initialStorage0).
Proof. repeat split. constructor. Qed.

(** What the subscribers of the storage status know after a run in which
    every storage message is handled to the end. *)
Lemma status_after_a_run `{!LiveObjectApi} (calls : list RoomCall) (throttleDelay0 : Z)
    (initialPresence : Presence) (initialStorage0 : option (list (string * Lson)))
    (others0 : Others) :
  setIsCoherent ->
  Forall dispatchesIdentifiedOps calls ->
  handlesServerMessages calls
    (newSession (initialContext throttleDelay0 initialPresence initialStorage0) others0) ->
  let c := machine (runRoom calls
                      (newSession (initialContext throttleDelay0 initialPresence initialStorage0)
                                  others0)) in
  heardStatus (emitted (world c)) = getStorageStatus c
  /\ lastStorageStatus c = getStorageStatus c.
Proof.
  intros Hset Hcalls Hhandled c.
  assert (Hknown : statusKnown c).
  { subst c. apply statusKnown_runRoom; [done..|]. apply statusKnown_initialContext. }
  destruct Hknown as [[Hheard _] Hlast]. split; [congruence|done].
Qed.

End StatusProperties.

(** ** The classic [subscribe] *)

Section ClassicSubscribeProperties.
Context `{LiveNodes}.
Context {Callback : Type}.

(** X26.  Subscribing by name.  [subscribe(name, callback)] subscribes the
    callback to the source of one of seven events (wrapped, for "others");
    with one of these names and anything but a function it throws.  Any other
    string is rejected: "storage" too, although the switch has a case for
    it, so storage updates are only reached by passing the callback alone (or
    a live node). *)
Theorem subscribe_by_name (name : string) (second : SubscribeArg Callback) (isDeep : option bool) :
  subscribe (ArgString name) second isDeep =
  match lookupEvent name, second with
  | Some source, ArgFunction callback =>
      Returned (source, match source with
                        | hub_others => OthersAdapter callback
                        | _ => Direct callback
                        end)
  | Some _, _ => Thrown "Second argument must be a callback function"
  | None, ArgUndefined => Thrown "Please specify a listener callback"
  | None, _ => Thrown (notAnEventName (ArgString (Callback := Callback) name))
  end.
Proof.
  unfold subscribe, isRoomEventName, lookupEvent, namedEvents. simpl.
  destruct (String.eqb_spec name "event") as [->|Hevent]; [by destruct second|].
  destruct (String.eqb_spec name "my-presence") as [->|Hme]; [by destruct second|].
  destruct (String.eqb_spec name "others") as [->|Hothers]; [by destruct second|].
  destruct (String.eqb_spec name "error") as [->|Herror]; [by destruct second|].
  destruct (String.eqb_spec name "connection") as [->|Hconnection]; [by destruct second|].
  destruct (String.eqb_spec name "history") as [->|Hhistory].
  { destruct second; try reflexivity. }
  destruct (String.eqb_spec name "storage-status") as [->|Hstatus].
  { destruct second; try reflexivity. }
  simpl. by destruct second.
Qed.

End ClassicSubscribeProperties.

(** ** Runs of a room *)

Import Sessions.

(** [set] of a flat object goes through the pool of the room. *)
Lemma flat_set_keeps_flush_timer : @setKeepsFlushTimer flatNodes flatObjectApi.
Proof.
  intros node key value. cbn [LiveObject_set flatObjectApi]. unfold set. cbn [pool assertStorageIsWritable generateOpId dispatch].
  unfold pool_assertStorageIsWritable, pool_dispatch. keeps_timer.
Qed.

Lemma flat_set_is_coherent : @setIsCoherent flatNodes flatObjectApi.
Proof.
  intros node key value. cbn [LiveObject_set flatObjectApi]. unfold set.
  cbn [pool assertStorageIsWritable generateOpId dispatch].
  eapply hoare_bind; [apply hoare_coherent; unfold pool_assertStorageIsWritable; coherent|intros ?].
  eapply hoare_bind.
  { apply (hoare_coherent_value _ (fun _ => True)); [coherent|].
    intros c. by destruct (snd _). }
  intros id. apply hoare_pure. intros _.
  eapply hoare_bind; [apply hoare_coherent; coherent|intros st].
  eapply hoare_bind; [apply hoare_coherent; coherent|intros ?].
  destruct (snd _) as [|u reverse]; [apply hoare_coherent; coherent|].
  apply hoare_pool_dispatch_coherent. repeat constructor. by eexists.
Qed.

(** X22.  The timers of a room.  However the host, the live nodes, the
    server, the connection, the timers and the clock drive a room from its
    creation (in any order, and whether or not a call throws), at most one
    flush timer, one pong timeout and one heartbeat interval are pending, and
    each is the one its handle names; so is the reconnect timer as long as no
    authentication fails, whatever the live objects are, provided their
    [set] leaves the flush timer to the room (as the flat objects do).
    [authenticationFailure] sets the reconnect handle without clearing the
    timer it names: in a room made in a browser, after [connect()],
    [reconnect()] and the failure of the two requests that they started, two
    reconnect timers are pending and the handle names the second only. *)
Theorem one_timer_of_each_kind :
  (forall (nodes0 : LiveNodes) (imports : ConnectionImports) (config : RoomConfig)
          (api : LiveObjectApi) (calls : list RoomCall) (throttleDelay0 : Z)
          (initialPresence : Presence) (initialStorage0 : option (list (string * Lson)))
          (others0 : Others),
     setKeepsFlushTimer ->
     let s := runRoom calls
                (newSession (initialContext throttleDelay0 initialPresence initialStorage0)
                            others0) in
     flushTimerTracked (machine s)
     /\ kindTracked TaskPongTimeout s
     /\ kindTracked TaskHeartbeat s
     /\ (length (timers (world (machine s))) <= 1)%nat
     /\ (length (pendingOf TaskPongTimeout s) <= 1)%nat
     /\ (length (pendingOf TaskHeartbeat s) <= 1)%nat
     /\ (Forall authenticationHolds calls ->
           kindTracked TaskConnect s /\ (length (pendingOf TaskConnect s) <= 1)%nat))
  /\ @setKeepsFlushTimer FlatObjects.flatNodes FlatObjects.flatObjectApi
  /\ observed Sessions.twiceFailedSession
     = [ConnectionNotified status_authenticating; AuthenticationRequested;
        ConnectionNotified status_unavailable;
        ConnectionNotified status_authenticating; AuthenticationRequested;
        ConnectionNotified status_unavailable; ConnectionNotified status_unavailable]
  /\ pendingOf TaskConnect Sessions.twiceFailedSession
     = [(0%nat, (TaskConnect, 500)); (1%nat, (TaskConnect, 1000))]
  /\ timeoutHandles_reconnect Sessions.twiceFailedSession = Some 1%nat
  /\ ~ kindTracked TaskConnect Sessions.twiceFailedSession.
Proof.
  split_and!.
  - intros nodes0 imports config api calls throttleDelay0 initialPresence initialStorage0
      others0 Hset. by apply timers_after_a_run.
  - exact flat_set_keeps_flush_timer.
  - vm_compute. reflexivity.
  - vm_compute. reflexivity.
  - vm_compute. reflexivity.
  - intros [Hnone|(h & delay & Hone & _)]; vm_compute in Hnone || vm_compute in Hone;
      discriminate.
Qed.

(** X25.  The subscribers of the storage status know the status.  However
    the host, the live nodes, the server, the connection, the timers and the
    clock drive a room from its creation (in any order, and whether or not a
    call of the host or of the connection throws), as long as every storage
    message of the server is handled to the end, the status notified last,
    or not loaded if none was, is the status of the storage as
    [getStorageStatus] computes it, and it is the one the machine remembers
    as notified; this for any live objects whose [set] notifies the status
    through the room only and dispatches ops with their ids (as the flat
    objects do).  A storage message whose handler throws can leave the
    subscribers behind: in a room made with [initialStorage: { b: 2 }] and
    entered with a read-only token, the handler of INITIAL_STORAGE_STATE sets
    the root and then throws when it adds the missing key, before any
    notification; the subscribers were last told that the storage loads
    while [getStorageStatus] says it is synchronized. *)
Theorem storage_status_is_announced :
  (forall (nodes0 : LiveNodes) (imports : ConnectionImports) (config : RoomConfig)
          (api : LiveObjectApi) (calls : list RoomCall) (throttleDelay0 : Z)
          (initialPresence : Presence) (initialStorage0 : option (list (string * Lson)))
          (others0 : Others),
     setIsCoherent ->
     Forall dispatchesIdentifiedOps calls ->
     handlesServerMessages calls
       (newSession (initialContext throttleDelay0 initialPresence initialStorage0) others0) ->
     let c := machine (runRoom calls
                         (newSession (initialContext throttleDelay0 initialPresence
                                                     initialStorage0) others0)) in
     heardStatus (emitted (world c)) = getStorageStatus c
     /\ lastStorageStatus c = getStorageStatus c)
  /\ @setIsCoherent FlatObjects.flatNodes FlatObjects.flatObjectApi
  /\ (let loading := Sessions.readOnlyLoadingSession in
      let message := FromServer [INITIAL_STORAGE_STATE Rooms.rootItems] in
      let c := machine (fst (performRoom message loading)) in
      connection (machine loading)
      = Open {| conn_id := 8; conn_userId := None; conn_userInfo := None;
                conn_isReadOnly := true |}
      /\ heardStatus (emitted (world (machine loading))) = Loading
      /\ getStorageStatus (machine loading) = Loading
      /\ snd (performRoom message loading)
         = Thrown "Cannot write to storage with a read only user, please ensure the user has write permissions"
      /\ root c = Some "root"
      /\ heardStatus (emitted (world c)) = Loading
      /\ lastStorageStatus c = Loading
      /\ getStorageStatus c = Synchronized).
Proof.
  split_and!.
  - intros nodes0 imports config api calls throttleDelay0 initialPresence initialStorage0
      others0 Hset Hcalls Hhandled. by apply status_after_a_run.
  - exact flat_set_is_coherent.
  - vm_compute. split_and!; reflexivity.
Qed.

(** * The further properties on concrete rooms and sessions *)

Import NestedObjects Sessions.

(** A hundred mutations, then two more batches: the fifty newest stay. *)
Lemma undo_stack_keeps_newest_fifty_witness :
  snd (forEach addToUndoStack [[restoreA 7]; [restoreA 8]] hundredSets) = Returned tt
  /\ undoStack (fst (forEach addToUndoStack [[restoreA 7]; [restoreA 8]] hundredSets))
     = keepLast 50 (undoStack hundredSets ++ [[restoreA 7]; [restoreA 8]])
  /\ (length (undoStack (fst (forEach addToUndoStack [[restoreA 7]; [restoreA 8]] hundredSets)))
      <= 50)%nat
  /\ redoStack (fst (forEach addToUndoStack [[restoreA 7]; [restoreA 8]] hundredSets))
     = redoStack hundredSets.
Proof.
  apply (undo_stack_keeps_newest_fifty hundredSets [[restoreA 7]; [restoreA 8]]).
  - vm_compute. reflexivity.
  - vm_compute. lia.
Defined.

(** Two batches recorded while history is paused come back as one. *)
Lemma paused_history_coalesces_witness :
  let paused :=
    fst ((pauseHistory ;; forEach addToUndoStack [[restoreA 7]; [restoreA 8]]) mutatedRoom) in
  let resumed := fst (resumeHistory paused) in
  undoStack paused = undoStack mutatedRoom
  /\ pausedHistory paused = Some (concat (rev [[restoreA 7]; [restoreA 8]]))
  /\ pausedHistory resumed = None
  /\ undoStack resumed =
       match concat (rev [[restoreA 7]; [restoreA 8]]) with
       | [] => undoStack mutatedRoom
       | _ :: _ => keepLast 50 (undoStack mutatedRoom ++ [concat (rev [[restoreA 7]; [restoreA 8]])])
       end.
Proof.
  apply (paused_history_coalesces mutatedRoom [[restoreA 7]; [restoreA 8]]).
  vm_compute. lia.
Defined.

(** A batch around one mutation of the loaded room ends closed. *)
Lemma batch_always_closes_witness :
  activeBatch (fst (batch (setRootA 2) loadedRoom)) = None
  /\ (forall c1 outcome b,
        setRootA 2 (set_activeBatch (Some freshBatch) loadedRoom) = (c1, outcome) ->
        activeBatch c1 = Some b ->
        Forall (fun op => is_Some (opId op)) (buffer_storageOperations (buffer c1) ++ ops b) ->
        snd (batch (setRootA 2) loadedRoom) = outcome).
Proof.
  apply (batch_always_closes (setRootA 2) loadedRoom).
  vm_compute. reflexivity.
Defined.

(** A batch around a presence update, after an undo: the redo stack stays. *)
Lemma batch_without_ops_keeps_history_witness :
  redoStack (fst (batch (perform (moveCursor 3)) (exec undo mutatedRoom)))
  = redoStack (fst (perform (moveCursor 3)
                      (set_activeBatch (Some freshBatch) (exec undo mutatedRoom))))
  /\ redoStack (fst (batch (perform (moveCursor 3)) (exec undo mutatedRoom))) = [[restoreA 1]].
Proof.
  pose proof (batch_without_ops_keeps_history (perform (moveCursor 3)) (exec undo mutatedRoom)
                (fst (perform (moveCursor 3)
                        (set_activeBatch (Some freshBatch) (exec undo mutatedRoom))))
                (snd (perform (moveCursor 3)
                        (set_activeBatch (Some freshBatch) (exec undo mutatedRoom))))
                (default freshBatch
                   (activeBatch
                      (fst (perform (moveCursor 3)
                              (set_activeBatch (Some freshBatch) (exec undo mutatedRoom)))))))
    as Hkeeps.
  destruct Hkeeps as [Hredo _].
  - vm_compute. reflexivity.
  - apply surjective_pairing.
  - vm_compute. reflexivity.
  - vm_compute. reflexivity.
  - split; [exact Hredo|]. rewrite Hredo. vm_compute. reflexivity.
Defined.

(** Two mutations in one batch of the loaded room. *)
Lemma batch_commits_together_witness :
  let mutations :=
    [([setA "7:1" 1], [setA "7:1" 0], JsMap.empty);
     ([setA "7:2" 2], [setA "7:2" 1], JsMap.empty)] in
  snd (batch (dispatchAll mutations) loadedRoom) = Returned tt
  /\ undoStack (fst (batch (dispatchAll mutations) loadedRoom))
     = keepLast 50 (undoStack loadedRoom
                    ++ [map StorageOp [setA "7:2" 1; setA "7:1" 0]])
  /\ (forall op id, op ∈ [setA "7:1" 1; setA "7:2" 2] -> opId op = Some id ->
        JsMap.get id (unacknowledgedOps (fst (batch (dispatchAll mutations) loadedRoom)))
        = Some op).
Proof.
  apply (batch_commits_together loadedRoom
           [([setA "7:1" 1], [setA "7:1" 0], JsMap.empty);
            ([setA "7:2" 2], [setA "7:2" 1], JsMap.empty)]).
  - vm_compute. reflexivity.
  - vm_compute. reflexivity.
  - vm_compute. lia.
  - vm_compute. repeat constructor; by eexists.
  - vm_compute. apply (bool_decide_unpack _). vm_compute. reflexivity.
Defined.

(** The socket is lost while an op waits behind the throttle. *)
Lemma tryFlushing_offline_witness :
  let c := set_socket None mutatedRoom in
  snd (tryFlushing c) = Returned tt
  /\ wire (world (fst (tryFlushing c))) = wire (world c)
  /\ buffer_storageOperations (buffer (fst (tryFlushing c))) = []
  /\ buffer_me (buffer (fst (tryFlushing c))) = buffer_me (buffer c)
  /\ buffer_messages (buffer (fst (tryFlushing c))) = buffer_messages (buffer c)
  /\ (forall op id, op ∈ buffer_storageOperations (buffer c) -> opId op = Some id ->
        JsMap.get id (unacknowledgedOps (fst (tryFlushing c))) = Some op).
Proof.
  apply (tryFlushing_offline (set_socket None mutatedRoom)).
  - vm_compute. reflexivity.
  - vm_compute. repeat constructor; by eexists.
  - vm_compute. apply (bool_decide_unpack _). vm_compute. reflexivity.
Defined.

(** The first request of the open room, sent at once behind its presence,
    and the second. *)
Lemma storage_is_requested_once_witness :
  exists c1, startLoadingStorage (openRoomAt 1000) = (c1, Returned tt)
    /\ getInitialStatePromise c1 = Some Pending
    /\ (wire (world c1)
        = wire (world (openRoomAt 1000))
          ++ [[UPDATE_PRESENCE (Some (-1)) (Some <$> {[ "cursor" := JNull ]})]
              ++ [] ++ [FETCH_STORAGE] ++ []]
        /\ buffer_messages (buffer c1) = [])
    /\ startLoadingStorage c1 = (c1, Returned tt)
    /\ (forall node, root c1 = Some node -> getStorageSnapshot c1 = (c1, Returned (Some node)))
    /\ (root c1 = None -> getStorageSnapshot c1 = (c1, Returned None)).
Proof.
  apply (storage_is_requested_once (openRoomAt 1000)).
  - vm_compute. reflexivity.
  - vm_compute. constructor.
Defined.

(** An update and a delete of a node the loaded room does not hold. *)
Lemma ops_for_missing_nodes_are_ignored_witness :
  let ghost := {| op_type := UPDATE_OBJECT; opId := Some "9:1"; op_id := "ghost";
                  parentId := None; parentKey := None; op_data := JObj [("a", JNum 1)] |} in
  let gone := {| op_type := DELETE_CRDT; opId := Some "9:2"; op_id := "ghost";
                 parentId := None; parentKey := None; op_data := JNull |} in
  exists c1 result,
    applyOps (map StorageOp [ghost; gone]) false loadedRoom = (c1, Returned result)
    /\ nodes c1 = nodes loadedRoom
    /\ res_storageUpdates result = []
    /\ res_reverse result = [].
Proof.
  apply (ops_for_missing_nodes_are_ignored loadedRoom
           [ {| op_type := UPDATE_OBJECT; opId := Some "9:1"; op_id := "ghost";
                parentId := None; parentKey := None; op_data := JObj [("a", JNum 1)] |};
             {| op_type := DELETE_CRDT; opId := Some "9:2"; op_id := "ghost";
                parentId := None; parentKey := None; op_data := JNull |} ] false).
  - repeat constructor.
  - repeat constructor.
Defined.

(** A frame that creates a child of the root and sets a field of it. *)
Lemma created_node_is_not_reported_twice_witness :
  exists c1 result,
    @applyOps nestedNodes [StorageOp createChild; StorageOp updateChild] false rootOnly
    = (c1, Returned result)
    /\ @nodes nestedNodes c1
       = JsMap.set "child" [("a", JNum 1)] (JsMap.set "child" [("a", JNum 0)]
                                               (JsMap.set "root" [] JsMap.empty))
    /\ res_storageUpdates result
       = [("root", {| upd_node := "root"; upd_keys := ["child"] |})]
    /\ res_reverse result
       = map StorageOp [ {| op_type := DELETE_CRDT; opId := None; op_id := "child";
                            parentId := None; parentKey := None; op_data := JNull |} ].
Proof.
  eapply (@created_node_is_not_reported_twice nestedNodes rootOnly false createChild updateChild
            "root" "root" "root" "child").
  all: try (vm_compute; reflexivity).
  vm_compute. discriminate.
Defined.

(** The sessions above are runs from a new session: their timers are the
    ones their handles name. *)
Lemma oneTimerEach_openSession : oneTimerEach openSession.
Proof.
  do 2 (apply oneTimerEach_runRoom; [exact flat_set_keeps_flush_timer|by repeat constructor|]).
  by apply oneTimerEach_newSession.
Qed.

Lemma oneTimerEach_beatingSession : oneTimerEach beatingSession.
Proof.
  apply oneTimerEach_runRoom; [exact flat_set_keeps_flush_timer|by repeat constructor|].
  apply oneTimerEach_openSession.
Qed.

(** [disconnect] while the heartbeat runs and a pong is awaited. *)
Lemma disconnect_is_a_hard_stop_witness :
  let s' := fst (disconnect beatingSession) in
  snd (disconnect beatingSession) = Returned tt
  /\ socket (machine s') = None
  /\ connection (machine s') = Closed
  /\ others s' = clearOthers (others beatingSession)
  /\ scheduled s' = []
  /\ timers (world (machine s')) = []
  /\ observed s' =
       observed beatingSession ++ dropEvents beatingSession
       ++ [ConnectionNotified status_closed; OthersReset; HubCleared]
  /\ numberOfRetry s' = numberOfRetry beatingSession
  /\ (buffer (machine s'), unacknowledgedOps (machine s'), undoStack (machine s'),
      redoStack (machine s'), nodes (machine s'), root (machine s'), me (machine s'))
     = (buffer (machine beatingSession), unacknowledgedOps (machine beatingSession),
        undoStack (machine beatingSession), redoStack (machine beatingSession),
        nodes (machine beatingSession), root (machine beatingSession),
        me (machine beatingSession)).
Proof.
  apply (disconnect_is_a_hard_stop beatingSession).
  apply oneTimerEach_tracked, oneTimerEach_beatingSession.
Defined.

(** [reconnect] of the open room: its token is used again. *)
Lemma reconnect_restarts_witness :
  let s' := fst (reconnect openSession) in
  (configurationError = None ->
     snd (reconnect openSession) = Returned tt
     /\ connection (machine s')
          = match reusableToken openSession with
            | Some tok => connectingAs tok
            | None => Authenticating
            end
     /\ socket (machine s')
          = match reusableToken openSession with Some _ => Some CONNECTING | None => None end
     /\ observed s' =
          observed openSession ++ dropEvents openSession
          ++ [ConnectionNotified status_unavailable] ++ connectEvents openSession)
  /\ (forall e, configurationError = Some e ->
        snd (reconnect openSession) = Thrown e
        /\ connection (machine s') = Unavailable
        /\ socket (machine s') = None
        /\ observed s' = observed openSession ++ dropEvents openSession
                         ++ [ConnectionNotified status_unavailable])
  /\ scheduled s' = []
  /\ timers (world (machine s')) = []
  /\ (numberOfRetry s', others s', token s')
     = (numberOfRetry openSession, others openSession, token openSession)
  /\ (buffer (machine s'), unacknowledgedOps (machine s'), undoStack (machine s'),
      redoStack (machine s'), nodes (machine s'), root (machine s'), me (machine s'))
     = (buffer (machine openSession), unacknowledgedOps (machine openSession),
        undoStack (machine openSession), redoStack (machine openSession),
        nodes (machine openSession), root (machine openSession), me (machine openSession)).
Proof.
  apply (reconnect_restarts openSession).
  apply oneTimerEach_tracked, oneTimerEach_openSession.
Defined.

(** A second heartbeat of the open room replaces the pong timeout of the
    first. *)
Lemma heartbeat_arms_one_pong_timeout_witness :
  (socket (machine beatingSession) = None -> heartbeat beatingSession = (beatingSession, Returned tt))
  /\ (forall readyState, socket (machine beatingSession) = Some readyState ->
        let s' := fst (heartbeat beatingSession) in
        let h := nextTimeoutID (world (machine beatingSession)) in
        snd (heartbeat beatingSession) = Returned tt
        /\ pendingOf TaskPongTimeout s' = [(h, (TaskPongTimeout, PONG_TIMEOUT))]
        /\ timeoutHandles_pongTimeout s' = Some h
        /\ observed s' =
             observed beatingSession ++ match readyState with OPEN => [PingSent] | _ => [] end
        /\ pendingOf TaskPongTimeout (fst (onPong s')) = []).
Proof.
  apply (heartbeat_arms_one_pong_timeout beatingSession).
  apply oneTimerEach_beatingSession.
Defined.

(** Two abnormal closes of the open room, then one of the slow range. *)
Lemma closes_back_off_witness :
  let s' := closedRepeatedly ([abnormalClose; abnormalClose] ++ [tooManyConnections])
              openSession in
  numberOfRetry s' = 3%nat
  /\ connection (machine s') = Unavailable
  /\ socket (machine s') = None
  /\ scheduled s' = [((nextTimeoutID (world (machine openSession)) + 2)%nat,
                      (TaskConnect, 60000))]
  /\ timeoutHandles_reconnect s' = Some (nextTimeoutID (world (machine openSession)) + 2)%nat
  /\ (forall n, (n <= 2)%nat -> retryDelay true n <= 60000)
  /\ 2000 <= 60000 <= 300000.
Proof.
  apply (closes_back_off [abnormalClose; abnormalClose] tooManyConnections openSession).
  - apply oneTimerEach_openSession.
  - repeat constructor.
Defined.

(** The socket of the connecting room opens. *)
Lemma onOpen_announces_presence_witness :
  let s' := fst (onOpen openingSession) in
  let c := machine openingSession in
  let c' := machine s' in
  let h := nextTimeoutID (world c) in
  snd (onOpen openingSession) = Returned tt
  /\ connection c' = Open (actor7)
  /\ numberOfRetry s' = 0%nat
  /\ lastConnectionId c' = Some 7
  /\ wire (world c') =
       wire (world c) ++
       [UPDATE_PRESENCE (Some (-1)) (Some <$> me c) :: buffer_messages (buffer c) ++
        match buffer_storageOperations (buffer c) with
        | [] => []
        | _ :: _ => [UPDATE_STORAGE (buffer_storageOperations (buffer c))]
        end]
  /\ buffer c' =
       {| buffer_me := None;
          buffer_messages := match root c with Some _ => [FETCH_STORAGE] | None => [] end;
          buffer_storageOperations := [] |}
  /\ lastFlushTime c' = now (world c)
  /\ timeoutHandles_flush c' = Some (S h)
  /\ timers (world c') =
       scheduledWithout [intervalHandles_heartbeat openingSession; timeoutHandles_flush c]
                        (timers (world c))
       ++ [(S h, throttleDelay c)]
  /\ intervalHandles_heartbeat s' = Some h
  /\ scheduled s' =
       scheduledWithout [intervalHandles_heartbeat openingSession] (scheduled openingSession)
       ++ [(h, (TaskHeartbeat, HEARTBEAT_INTERVAL))].
Proof.
  apply (onOpen_announces_presence openingSession actor7).
  - vm_compute. reflexivity.
  - vm_compute. reflexivity.
  - vm_compute. reflexivity.
  - vm_compute. discriminate.
  - vm_compute. constructor.
Defined.

(** The open room closes abnormally and the browser comes online again. *)
Lemma online_again_reconnects_at_once_witness :
  let closed := fst (onClose abnormalClose openSession) in
  let s' := fst (onNavigatorOnline closed) in
  snd (onNavigatorOnline closed) = Returned tt
  /\ scheduled closed <> []
  /\ scheduled s' = []
  /\ timers (world (machine s')) = []
  /\ connection (machine s')
       = match reusableToken openSession with
         | Some tok => connectingAs tok
         | None => Authenticating
         end
  /\ numberOfRetry s' = S (numberOfRetry openSession)
  /\ (forall visible, onVisibilityChange visible closed = (closed, Returned tt))
  /\ (forall s0 : Session, connection (machine s0) <> Unavailable ->
        onNavigatorOnline s0 = (s0, Returned tt)).
Proof.
  apply (online_again_reconnects_at_once abnormalClose openSession).
  - vm_compute. reflexivity.
  - apply oneTimerEach_openSession.
  - vm_compute. reflexivity.
Defined.

(** The cursor is withdrawn (passed as undefined) and a name is set for the
    first time; undo, redo. *)
Lemma presence_update_undo_redo_witness :
  let patch : PresencePatch := {[ "cursor" := None; "name" := Some (JNum 2) ]} in
  let c := openRoomAt 1000 in
  let updated := fst (updatePresence patch true c) in
  let undone := fst (undo updated) in
  let redone := fst (redo undone) in
  snd (updatePresence patch true c) = Returned tt
  /\ snd (undo updated) = Returned tt
  /\ snd (redo undone) = Returned tt
  /\ (forall key, me updated !! key
                  = match patch !! key with Some value => value | None => me c !! key end)
  /\ (forall key, me undone !! key
                  = match patch !! key with Some None => None | _ => me c !! key end)
  /\ ((forall key, patch !! key = Some None -> me c !! key = None) -> me undone = me c)
  /\ me redone = me updated.
Proof.
  apply (presence_update_undo_redo (openRoomAt 1000)
           {[ "cursor" := None; "name" := Some (JNum 2) ]}).
  - vm_compute. reflexivity.
  - vm_compute. reflexivity.
  - vm_compute. constructor.
Defined.

(** The endpoint answers with a token that may read the storage only. *)
Lemma read_only_token_forbids_writes_witness :
  let s' := fst (authenticateResolved readOnlyToken authenticatingSession) in
  snd (authenticateResolved readOnlyToken authenticatingSession) = Returned tt
  /\ connection (machine s') = connectingAs readOnlyToken
  /\ socket (machine s') = Some CONNECTING
  /\ token s' = Some readOnlyToken
  /\ observed s' =
       observed authenticatingSession
       ++ [SocketCreated (token_raw readOnlyToken); ConnectionNotified status_connecting]
  /\ pool_assertStorageIsWritable (machine s')
     = (machine s',
        Thrown "Cannot write to storage with a read only user, please ensure the user has write permissions").
Proof.
  apply (read_only_token_forbids_writes readOnlyToken authenticatingSession).
  vm_compute. reflexivity.
Defined.
